(* ===== verification/_CoqProject ===== *)
-Q . S2P
Prelude.v
Float64.v
BaseExceptions.v
PortID.v
Format.v
Variables.v
PropertyTree.v
Event.v
TimedEventQueue.v
TimedEventQueueSpec.v
QueueMonitor.v
QueueMonitorSpec.v
QueueLinearizable.v
QueueProgress.v
ChannelMapping.v
ChannelMappingSpec.v
ApplicationContext.v
ApplicationContextSpec.v
ASN1Commons.v
ASN1Publisher.v
ASN1Subscriber.v
ASN1SubscriberSpec.v
ASN1Spec.v
EventDispatcher.v
DispatcherThreads.v
DispatcherRefinement.v
DispatcherThreadsSpec.v
DispatcherSafety.v
ConcurrentSubscriber.v
CompactASN1Clients.v
CompactASN1ClientsSpec.v
NetworkManager.v
NetworkManagerSpec.v
SubscriberContract.v
NetworkPublishers.v
CSVDataLogger.v
EventLogger.v
Logging.v
FMUTypes.v
ManagedLowLevelFMU.v
SolverConfiguration.v
EventPredictor.v
EventPredictorSpec.v
OneStepEventPredictor.v
OneStepEventPredictorSpec.v
OneStepEventPredictorInit.v
EventPredictorFactory.v
PredictorContract.v
Program.v
ProgramSpec.v
ProgramThreads.v
ProgramSafety.v
EndToEnd.v
