(* ===== verification/Prelude.v ===== *)
(** * FMITerminalBlock: a verification library

    FMITerminalBlock couples an FMI model to a network in real time.  This library
    models the program's own logic in Rocq, function by function, and proves what
    makes it correct.

    ** The program

    [main] (src/main.cpp) reads [key=value] options into an [ApplicationContext]
    (src/base), builds a predictor for the model (src/model), publishers and
    subscribers (src/network) and runs the [EventDispatcher] (src/timing).  The
    dispatcher asks the predictor for the next model event, puts it into the
    [TimedEventQueue], waits until the earliest event is due and distributes it to
    the predictor, the publishers and the loggers; subscribers add external events
    to the queue from their own threads, which the [NetworkManager] starts and ends.
    An exception in such a thread is kept and thrown in the main thread at the next
    event.  Events carry variables, which are named
    by [PortID]s; the [ChannelMapping] of each direction ties port identifiers to
    the names of the configuration.

    ** Modelling

    A member function is a function on the state of its object that returns an
    [outcome]: a value with the new state, an exception, or a fault (a failed
    [assert], undefined behaviour, or fuel that ran out).  Assertions are kept.
    Doubles are the binary64 numbers of the Standard Library's [SpecFloat], with
    their rounding; other integers have their width where the code depends on it.
    Libraries are interfaces (type classes) with their documented laws in a class
    of its own, and each has a concrete instance for the witnesses: [PropertyTree]
    (Boost.PropertyTree), [PosixTime] and [CalendarTime] (Boost.Date_Time),
    [IncrementalFMU], [FMUModelExchange] and [ModelManager] (FMI++), [Asio] (sockets and
    the resolver of Boost.Asio), the conversions and the timer service of the ASN.1
    subscriber.  Components of the program meet at interfaces too: [EventQueue] with
    [EventQueueLaws], [AbstractEventPredictor], [EventListener], [EventSink],
    [Subscription] with [SubscriptionLaws], [ErrorCallback].

    Threads are a step relation: [NetworkManager.step] takes one step of the main thread
    or of a subscriber's thread, [None] where the thread waits for a mutex, a join or the
    initialisation of the time, and [exec] runs a schedule.  Every lock, unlock and write
    of a shared flag is a step of its own.  The event queue has a second model of this
    kind: [TimedEventQueue] executes an operation at once, and [monitor_step] executes the
    same functions lock by lock, with condition variables and spurious wake-ups; the
    refinement theorem between the two is what lets the other files use the first.  The
    dispatcher has a second model of this kind too: [DispatcherThreads.run_step] makes one
    step of the code of [run], of an operation of its queue, or of a subscriber inside the
    queue, and every such run is a run of the sequential [EventDispatcher.run].

    ** Files

    - [Prelude]: outcomes, weakest preconditions ([wp]), loops, machine integers.
    - [Float64], [Format]: binary64 arithmetic with its order and rounding lemmas;
      the text of numbers.
    - [BaseExceptions] (include/base/BaseExceptions.h, the catch clauses of main).
    - [PortID] (PortID.cpp, PortIDDrawer.cpp), [Variables] (Variable.cpp, Event.cpp,
      StaticEvent.cpp), [Event] (the interfaces of events and the clock).
    - [PropertyTree]: the configuration tree and the loops over numbered children.
    - [TimedEventQueue] and [TimedEventQueueSpec] (TimedEventQueue.cpp): the queue,
      and an abstract queue of externals and predictions that it refines.
    - [QueueMonitor], [QueueMonitorSpec], [QueueLinearizable], [QueueProgress]
      (TimedEventQueue.cpp and its InitializationBarrier): the queue with its mutexes,
      condition variables and the barrier, its invariant, the order of the operations
      behind an interleaving, and progress.
    - [ChannelMapping], [ChannelMappingSpec] (ChannelMapping.cpp,
      TransmissionChannel.cpp); [ApplicationContext], [ApplicationContextSpec]
      (ApplicationContext.cpp).
    - [ASN1Commons], [ASN1Publisher], [ASN1Subscriber] (ASN1Commons,
      CompactASN1Publisher.cpp, CompactASN1Subscriber.cpp, PartialEvent.cpp), with
      [ASN1SubscriberSpec] and [ASN1Spec].
    - [EventDispatcher] (EventDispatcher.cpp), over the interfaces, with the timed
      queue as an instance.  [DispatcherThreads], [DispatcherRefinement] and
      [DispatcherThreadsSpec]: the same [run] as the main thread executes it while other
      threads are inside the queue, what the sequential run takes from such an
      interleaving, and the theorems; [DispatcherSafety]: no step of it faults when the
      predictor and the listeners keep their [protocol].
    - [ConcurrentSubscriber] (ConcurrentSubscriber.cpp): the thread of a subscriber and
      the operations of its owner; [CompactASN1Clients] (CompactASN1UDPPublisher.cpp,
      CompactASN1TCPClientPublisher.cpp, CompactASN1TCPClientSubscriber.cpp) and
      [CompactASN1ClientsSpec]: the sockets around the encoder and the decoder, and the
      TCP subscriber as a [Subscription].
    - [NetworkManager] (NetworkManager.cpp.in, with the lists of the build):
      publishers, subscribers, the exception between the threads, all threads together;
      [NetworkManagerSpec] for the threads, [SubscriberContract] (Subscriber.h) for what
      [terminate] promises, [NetworkPublishers] for the publishers at the dispatcher.
    - [CSVDataLogger] (CSVDataLogger.cpp), with a reader of such files; [EventLogger]
      (EventLogger.cpp, CLILoggingConfigurator.cpp): the timing file and the level of the
      console; [Logging] (LoggingConfigurator.cpp, main.cpp): which record reaches which
      sink, the line of the console, and the texts of main.
    - [FMUTypes], [ManagedLowLevelFMU], [SolverConfiguration] (the files of the same
      names; [FMUTypes] is what the predictors share).
    - [EventPredictor], [EventPredictorSpec] (EventPredictor.cpp, LazyEvent.cpp);
      [OneStepEventPredictor], [OneStepEventPredictorSpec], [OneStepEventPredictorInit]
      (OneStepEventPredictor.cpp); [EventPredictorFactory]
      (EventPredictorFactory.cpp), which ends with a run of dispatcher, queue and
      predictor together; [PredictorContract]: what both predictors promise, as one
      contract.
    - [Program] and [ProgramSpec] (main.cpp): the components put together, from the
      command line to the exit code; [ProgramThreads]: the same program with its threads;
      [ProgramSafety]: its world keeps the protocol.  [EndToEnd]: the event of one program
      in the model of another.

    A definition has the name of the C++ function it translates.  Record fields
    are the members, with their names.

    ** What the theorems show

    - Queue: adding an external event or a prediction does what the abstract queue
      does; events leave in order and not before their time under any
      interleaving of the clock and other threads; no external event is lost; [get]
      returns once the head is due.  Two lemmas describe where the tolerance of
      a millisecond breaks this (a stale prediction survives; rounding opens a gap).
    - Queue and threads: every interleaving at the granularity of the locks is explained
      by an order of whole operations that respects the order in which they end; it
      faults only where that order does; no external event is lost or delivered twice; a
      sleeping dispatcher waits for the state it would find (no wake-up is lost); every
      call makes a bounded number of steps, and mutexes and barrier do not deadlock.
    - Network: what the publisher encodes the subscriber decodes, in any chunks between
      which the packet timer is not served after its expiry; so far, and for bytes without
      an invalid tag, the result does not depend on the division into chunks; the
      subscriber never fails on any input.  The timer expires once and for all; from then
      on it cuts what is incomplete.  The effects of invalid tags, of the time-out and of
      the type REAL are stated as they are.
    - Threads: in every interleaving of the main thread and any number of subscribers no
      assertion fails and no operation is undefined, but for the destruction of running
      subscribers when a later one cannot be set up; all events pushed have the types of
      their channel; a termination request is seen; from every state of a running program
      the shutdown can be completed; an exception of a subscriber stays until the main
      thread throws one.  The shutdown before the run can hang.  The theorems hold for any
      [Subscription] with its laws, and the TCP subscriber is one.  Once [terminate] of a
      subscriber has returned, its thread has ended and delivers nothing more.
    - Transports: exactly the addresses [host:port] are accepted by the publishers; the
      reconnection is bounded and reports what it reaches; a receive operation ends in the
      next one or in an exception.  An event reaches every publisher once, in order.
    - Two programs: an event that one publishes sets the inputs of the other's model to
      the values of its outputs, with the same condition on the packet timer.
    - Dispatcher: every external event is distributed once or still pending, what else is
      distributed are predictions, none of them twice, the run ends with the first event at the stop time, and without external events
      it distributes exactly the predictions.
    - Dispatcher among the threads: every schedule is explained by a run of the sequential
      dispatcher with the same predictor, listeners and log; what was distributed has been
      predicted or pushed, and nothing pushed is lost; the dispatcher never sleeps without
      a deadline.  What is proved of the sequential program (the exit, the data file) holds
      for the program with its threads.  No interleaving of a built program, whichever
      predictor it has, fails an assertion or is undefined, under the conditions of the
      theorem, above all times that the queue can handle ([manageable]) and publishers
      without the type REAL.
    - Predictors: under their protocols no assertion fails; the model time of the
      multi-step predictor never goes back, and its inputs hold the last external value;
      lazily read outputs are what the solver holds when it has been moved to the event
      time from the right; a single step terminates, its event tells what has been read
      from the model and has changed, and is offered until it is distributed or an event
      that sets no input is; initialisation establishes the invariants.
    - Configuration: the mapping is the one configured, port identifiers stand for
      variables and are never shared by the two directions, options are set once
      and numbers are in range.
    - Loggers: a reader gets the table back from the data file, and the records back
      from the timing file as long as the texts have no quotes.
    - Program: errors of the configuration have their exit codes, in their order; a run
      that ends with zero leaves a data file with one row per distributed event, the last
      of which is the first that is not before the stop time.

    ** Bounds and fuel

    Loops over numbered children have as much fuel as the node has children plus
    one, which is enough because different numbers name different children.  The
    subscriber's loops have the number of buffered bytes plus one, since every turn
    consumes a byte or stops.  The reconnection has one unit more than its retries.
    Schedules of threads are lists of any length; [work] bounds the steps that the threads
    of the queue make by themselves.  The queue's [get] recurs on the list of readings of
    the clock and arrivals.  The single-step loop needs one unit more than the model
    events before its target.  Theorems on these loops show that [OutOfFuel] is not
    reached.

    ** Not modelled

    - The service of a TCP subscriber may pick its handlers in any order.  The threads of
      [Program] are part of its environment; [ProgramThreads] runs the main loop among
      threads that push any events at any time, and does not repeat the code by which the
      subscribers come to these events ([NetworkManager], [CompactASN1Clients]).
      [eventLog_] records the calls of the event logger, each of which is one step, as the
      logger has a mutex of its own.
    - References into the configuration are values (the tree is not changed once the
      mappings are built); an exception discards the state of the object that
      threw it, except where a theorem is about the state after it.
    - The texts of log messages; the implementation of sockets and the resolver;
      unaligned reads of the subscriber are ordinary reads.  The unspecified
      order in which arguments are evaluated is fixed where the CSV logger asks for both
      mappings.
    - [abs] in EventPredictor.cpp is the overload for doubles. *)

From stdpp Require Export base tactics sets list strings pretty.
From Stdlib Require Export ZArith Lia.

#[global] Set Default Goal Selector "!".

Declare Scope fmitb_scope.
Delimit Scope fmitb_scope with fmitb.

(** ** Outcomes of a member function

    [Ret] is a normal return, [Throw] a C++ exception, [Fault] an execution the
    C++ source rules out: a failed [assert] or undefined behaviour.  [OutOfFuel]
    ends a loop of the model that has used up its fuel; the theorems on the loop
    show that this does not happen. *)

Inductive fault : Type :=
  | AssertionFailed
  | UndefinedBehaviour
  | OutOfFuel.

Inductive outcome (X A : Type) : Type :=
  | Ret (a : A)
  | Throw (x : X)
  | Fault (f : fault).
Arguments Ret {X A} a.
Arguments Throw {X A} x.
Arguments Fault {X A} f.

Definition obind {X A B} (m : outcome X A) (k : A -> outcome X B) : outcome X B :=
  match m with
  | Ret a => k a
  | Throw x => Throw x
  | Fault f => Fault f
  end.

(** [assert(b)] of the C library, in a build that keeps assertions. *)
Definition assert_ {X} (b : bool) : outcome X unit :=
  if b then Ret tt else Fault AssertionFailed.

Definition of_option {X A} (o : option A) (m : outcome X A) : outcome X A :=
  match o with Some a => Ret a | None => m end.

Notation "'let*' x ':=' m 'in' k" := (obind m (fun x => k))
  (at level 200, x pattern, m at level 100, k at level 200, right associativity)
  : fmitb_scope.
Notation "m ;;; k" := (obind m (fun _ => k))
  (at level 100, right associativity) : fmitb_scope.
Open Scope fmitb_scope.

Definition is_Ret {X A} (m : outcome X A) : bool :=
  match m with Ret _ => true | _ => false end.
Definition is_Fault {X A} (m : outcome X A) : bool :=
  match m with Fault _ => true | _ => false end.

Lemma obind_Ret_inv {X A B} (m : outcome X A) (k : A -> outcome X B) b :
  obind m k = Ret b -> exists a, m = Ret a /\ k a = Ret b.
Proof. destruct m; cbn; try discriminate. eauto. Qed.

(** A result whose two parts are named by projections, for concrete runs. *)
Lemma is_Ret_pair {X A B} (m : outcome X (A * B)) (a : A) (b : B) :
  is_Ret m = true ->
  m = Ret (match m with Ret (x, _) => x | _ => a end, match m with Ret (_, y) => y | _ => b end).
Proof. by destruct m as [[]| |]. Qed.

Lemma is_Ret_value {X A} (m : outcome X A) (a : A) :
  is_Ret m = true -> m = Ret (match m with Ret x => x | _ => a end).
Proof. by destruct m. Qed.

Lemma obind_assoc {X A B C} (m : outcome X A) (k : A -> outcome X B) (l : B -> outcome X C) :
  obind (obind m k) l = obind m (fun a => obind (k a) l).
Proof. destruct m; reflexivity. Qed.

Lemma obind_Ret_r {X A} (m : outcome X A) : obind m Ret = m.
Proof. destruct m; reflexivity. Qed.

Lemma assert_Ret_inv {X} b (u : unit) : assert_ (X:=X) b = Ret u -> b = true.
Proof. destruct b; [reflexivity | discriminate]. Qed.

Lemma obind_assert {X A} b (k : unit -> outcome X A) :
  b = true -> obind (assert_ b) k = k tt.
Proof. intros ->. reflexivity. Qed.

(** Left-to-right iteration of an operation that may throw. *)
Fixpoint foldlM {X A S} (f : S -> A -> outcome X S) (s : S) (l : list A) : outcome X S :=
  match l with
  | [] => Ret s
  | a :: l' => let* s' := f s a in foldlM f s' l'
  end.

Lemma foldlM_app {X A S} (f : S -> A -> outcome X S) s l1 l2 :
  foldlM f s (l1 ++ l2) = let* s' := foldlM f s l1 in foldlM f s' l2.
Proof.
  revert s; induction l1 as [|a l1 IH]; intros s; [reflexivity|]; cbn.
  destruct (f s a); cbn; auto.
Qed.

Lemma foldlM_inv {X A S} (f : S -> A -> outcome X S) (P : S -> Prop) l s s' :
  (forall s a s', a ∈ l -> P s -> f s a = Ret s' -> P s') ->
  P s -> foldlM f s l = Ret s' -> P s'.
Proof.
  revert s; induction l as [|a l IH]; cbn; intros s Hstep Hs H.
  - by injection H as <-.
  - apply obind_Ret_inv in H as (s1 & Hf & H).
    eapply IH; [|eapply Hstep; [left|exact Hs|exact Hf]|exact H].
    intros; eapply Hstep; eauto. by right.
Qed.

(** ** Weakest preconditions

    [wp m Q R]: [m] does not fault, its normal result satisfies [Q] and its
    exception [R]. *)

Definition wp {X A} (m : outcome X A) (Q : A -> Prop) (R : X -> Prop) : Prop :=
  match m with Ret a => Q a | Throw x => R x | Fault _ => False end.

Lemma wp_bind {X A B} (m : outcome X A) (k : A -> outcome X B) Q R :
  wp m (fun a => wp (k a) Q R) R -> wp (obind m k) Q R.
Proof. by destruct m. Qed.

Lemma wp_mono {X A} (m : outcome X A) (Q Q' : A -> Prop) (R R' : X -> Prop) :
  wp m Q R -> (forall a, Q a -> Q' a) -> (forall x, R x -> R' x) -> wp m Q' R'.
Proof. destruct m; cbn; auto. Qed.

Lemma wp_assert {X A} b (k : unit -> outcome X A) Q R :
  b = true -> wp (k tt) Q R -> wp (obind (assert_ b) k) Q R.
Proof. by intros ->. Qed.

Lemma wp_Ret_inv {X A} (m : outcome X A) Q R a : wp m Q R -> m = Ret a -> Q a.
Proof. by intros H ->. Qed.

(** An invariant that knows the elements already visited. *)
Lemma wp_foldlM {X A S} (f : S -> A -> outcome X S) (I : list A -> S -> Prop) R l s :
  (forall done a rest s, l = done ++ a :: rest -> I done s -> wp (f s a) (I (done ++ [a])) R) ->
  I [] s -> wp (foldlM f s l) (I l) R.
Proof.
  intros Hstep.
  cut (forall todo done s, l = done ++ todo -> I done s -> wp (foldlM f s todo) (I l) R).
  { intros Hcut. by apply (Hcut l []). }
  clear s. induction todo as [|a todo IH]; intros done s -> Hs; cbn.
  - by rewrite app_nil_r.
  - apply wp_bind. eapply wp_mono; [by apply (Hstep done a todo)| |done].
    intros s' Hs'. apply (IH (done ++ [a])); [by rewrite <- (assoc_L (++))|done].
Qed.

(** ** Related outcomes

    Two runs that end the same way, with related results. *)

Inductive orel {X A B} (R : A -> B -> Prop) : outcome X A -> outcome X B -> Prop :=
  | orel_Ret a b : R a b -> orel R (Ret a) (Ret b)
  | orel_Throw x : orel R (Throw x) (Throw x)
  | orel_Fault f : orel R (Fault f) (Fault f).

Lemma orel_bind {X A B C D} (R : A -> B -> Prop) (T : C -> D -> Prop) (m : outcome X A) m' k k' :
  orel R m m' -> (forall a b, R a b -> orel T (k a) (k' b)) -> orel T (obind m k) (obind m' k').
Proof. intros [] Hk; [by apply Hk|constructor..]. Qed.

Lemma orel_refl {X A} (R : A -> A -> Prop) (m : outcome X A) : (forall a, R a a) -> orel R m m.
Proof. destruct m; by constructor. Qed.

Lemma orel_mono {X A B} (R T : A -> B -> Prop) (m : outcome X A) m' :
  (forall a b, R a b -> T a b) -> orel R m m' -> orel T m m'.
Proof. intros HR []; constructor; auto. Qed.

Lemma orel_Ret_l {X A B} (R : A -> B -> Prop) (m : outcome X A) (b : B) :
  orel R m (Ret b) -> exists a, m = Ret a /\ R a b.
Proof. inversion 1; eauto. Qed.

Lemma orel_Fault_l {X A B} (R : A -> B -> Prop) (m : outcome X A) f : orel R m (Fault f : outcome X B) -> m = Fault f.
Proof. by inversion 1. Qed.

(** ** Tactics *)

(** Splits every [let*] of a hypothesis that ends in [Ret]. *)
Ltac inv_ret :=
  repeat match goal with
  | H : obind (assert_ _) _ = Ret _ |- _ =>
      let Hb := fresh "Hassert" in
      apply obind_Ret_inv in H as ([] & Hb & H); apply assert_Ret_inv in Hb
  | H : obind _ _ = Ret _ |- _ =>
      let a := fresh "r" in let Ha := fresh "Hr" in
      apply obind_Ret_inv in H as (a & Ha & H)
  | H : Ret _ = Ret _ |- _ => injection H as H; subst
  | H : Throw _ = Ret _ |- _ => discriminate H
  | H : Fault _ = Ret _ |- _ => discriminate H
  end.

(** Case analysis on the scrutinee of the first [match] or [if]. *)
Ltac case_scrut :=
  match goal with
  | |- context [match ?x with _ => _ end] => destruct x eqn:?
  end.
Ltac case_scrut_in H :=
  match type of H with
  | context [match ?x with _ => _ end] => destruct x eqn:?
  end.

(** ** Machine integers *)

Definition wrap (w z : Z) : Z := (z mod 2 ^ w)%Z.
Definition to_signed (w z : Z) : Z :=
  let u := wrap w z in if (u <? 2 ^ (w - 1))%Z then u else (u - 2 ^ w)%Z.
Definition in_signed (w z : Z) : bool :=
  ((- 2 ^ (w - 1) <=? z) && (z <? 2 ^ (w - 1)))%Z.

Lemma wrap_range w z : (0 <= w -> 0 <= wrap w z < 2 ^ w)%Z.
Proof. intros. apply Z.mod_pos_bound. by apply Z.pow_pos_nonneg. Qed.

Lemma wrap_small w z : (0 <= z < 2 ^ w)%Z -> wrap w z = z.
Proof. apply Z.mod_small. Qed.

Lemma to_signed_wrap w z : (1 <= w)%Z -> in_signed w z = true -> to_signed w (wrap w z) = z.
Proof.
  intros Hw Hz%andb_prop. destruct Hz as [H1%Z.leb_le H2%Z.ltb_lt].
  assert (Hp : (2 ^ w = 2 * 2 ^ (w - 1))%Z).
  { rewrite <- Z.pow_succ_r by lia. f_equal. lia. }
  unfold to_signed, wrap. rewrite Z.mod_mod by lia.
  destruct (Z.le_gt_cases 0 z) as [Hz|Hz].
  - rewrite Z.mod_small by lia. destruct (Z.ltb_spec z (2 ^ (w - 1))); lia.
  - assert (Hm : (z mod 2 ^ w = z + 2 ^ w)%Z).
    { symmetry. apply (Z.mod_unique_pos _ _ (-1)%Z); lia. }
    rewrite Hm. destruct (Z.ltb_spec (z + 2 ^ w) (2 ^ (w - 1))); lia.
Qed.

(** The double quote character as a string. *)
Definition dquote : string := String (Ascii.Ascii false true false false false true false false) EmptyString.

Create HintDb fmitb.
#[export] Hint Resolve wrap_range wrap_small : fmitb.
