(* ===== verification/Float64.v ===== *)
(** * IEEE 754 binary64 numbers ([fmiTime], [fmiReal])

    [fmiTime] is the C type [double].  The Standard Library's executable
    specification of IEEE 754 arithmetic ([SpecFloat]) gives its operations;
    this file fixes the format to binary64, defines the conversions the sources
    use and proves the order and rounding facts the event queue relies on. *)

From Stdlib Require Export SpecFloat.
From S2P Require Import Prelude.

Local Open Scope Z_scope.

Notation fmiTime := spec_float.

Definition prec64 : Z := 53.
Definition emax64 : Z := 1024.

Definition f64_add (x y : fmiTime) : fmiTime := SFadd prec64 emax64 x y.
Definition f64_sub (x y : fmiTime) : fmiTime := SFsub prec64 emax64 x y.
Definition f64_mul (x y : fmiTime) : fmiTime := SFmul prec64 emax64 x y.
Definition f64_div (x y : fmiTime) : fmiTime := SFdiv prec64 emax64 x y.
Definition f64_abs (x : fmiTime) : fmiTime := SFabs x.
Definition f64_leb (x y : fmiTime) : bool := SFleb x y.
Definition f64_ltb (x y : fmiTime) : bool := SFltb x y.
Definition f64_eqb (x y : fmiTime) : bool := SFeqb x y.

(** Conversion of an integer to the nearest double. *)
Definition f64_of_Z (z : Z) : fmiTime := binary_normalize prec64 emax64 z 0 false.

Definition f64_is_nan (x : fmiTime) : bool :=
  match x with S754_nan => true | _ => false end.

Declare Scope f64_scope.
Delimit Scope f64_scope with f64.
Infix "+" := f64_add : f64_scope.
Infix "-" := f64_sub : f64_scope.
Infix "*" := f64_mul : f64_scope.
Infix "/" := f64_div : f64_scope.
Infix "<=?" := f64_leb : f64_scope.
Infix "<?" := f64_ltb : f64_scope.
Notation "x >? y" := (f64_ltb y x) : f64_scope.
Notation "x >=? y" := (f64_leb y x) : f64_scope.
Infix "=?" := f64_eqb : f64_scope.

(** [floor] of <math.h>. *)
Definition f64_floor (x : fmiTime) : fmiTime :=
  match x with
  | S754_finite s m e =>
      if 0 <=? e then x
      else f64_of_Z (cond_Zopp s (Zpos m) / 2 ^ (- e))
  | _ => x
  end.

(** The value of a finite double rounded towards zero. *)
Definition f64_trunc (x : fmiTime) : option Z :=
  match x with
  | S754_zero _ => Some 0
  | S754_finite s m e =>
      Some (cond_Zopp s (if 0 <=? e then Zpos m * 2 ^ e else Zpos m / 2 ^ (- e)))
  | _ => None
  end.

(** C's conversion of a double to a signed 64-bit integer type: undefined when
    the truncated value does not fit. *)
Definition f64_to_int64 (x : fmiTime) : option Z :=
  match f64_trunc x with
  | Some z => if in_signed 64 z then Some z else None
  | None => None
  end.

(** The constants of the sources. *)
Definition f64_zero : fmiTime := S754_zero false.
Definition f64_1em3 : fmiTime := S754_finite false 4611686018427388%positive (-62).
Definition f64_1em4 : fmiTime := S754_finite false 7378697629483821%positive (-66).
Definition f64_DBL_MAX : fmiTime := SFmax_float prec64 emax64.

Example f64_1em3_ok : (f64_of_Z 1 / f64_of_Z 1000)%f64 = f64_1em3.
Proof. vm_compute. reflexivity. Qed.
Example f64_1em4_ok : (f64_of_Z 1 / f64_of_Z 10000)%f64 = f64_1em4.
Proof. vm_compute. reflexivity. Qed.
Example f64_floor_ex :
  map (fun x => f64_trunc (f64_floor (x / f64_of_Z 2)%f64)) [f64_of_Z 7; f64_of_Z (-7); f64_of_Z (-1)]
  = [Some 3; Some (-4); Some (-1)].
Proof. vm_compute. reflexivity. Qed.

(** ** Order

    [SFcompare] is the lexicographic order on a triple (class, exponent,
    mantissa), which turns order facts into linear arithmetic. *)

Definition rank (x : fmiTime) : Z * Z * Z :=
  match x with
  | S754_nan => (0, 0, 0)
  | S754_infinity true => (-2, 0, 0)
  | S754_finite true m e => (-1, - e, - Zpos m)
  | S754_zero _ => (0, 0, 0)
  | S754_finite false m e => (1, e, Zpos m)
  | S754_infinity false => (2, 0, 0)
  end.

Definition lex_lt (p q : Z * Z * Z) : Prop :=
  let '(a, b, c) := p in let '(a', b', c') := q in
  a < a' \/ (a = a' /\ (b < b' \/ (b = b' /\ c < c'))).

Lemma f64_compare_rank x y :
  f64_is_nan x = false -> f64_is_nan y = false ->
  match SFcompare x y with
  | Some Lt => lex_lt (rank x) (rank y)
  | Some Eq => rank x = rank y
  | Some Gt => lex_lt (rank y) (rank x)
  | None => False
  end.
Proof.
  destruct x as [sx|sx| |sx mx ex]; destruct y as [sy|sy| |sy my ey]; cbn;
    try discriminate; intros _ _; try (destruct sx); try (destruct sy); cbn; try lia; auto;
    destruct (Z.compare_spec ex ey); subst; cbn; try lia;
    change (Pos.compare_cont Eq mx my) with (Pos.compare mx my);
    destruct (Pos.compare_spec mx my); subst; cbn; try lia; auto.
Qed.

Lemma lex_trichotomy p q : lex_lt p q -> ~ (q = p \/ lex_lt q p).
Proof.
  destruct p as [[] ], q as [[] ]; cbn. intros H [E|E]; [injection E as -> -> ->|]; lia.
Qed.

Lemma f64_leb_spec x y :
  f64_leb x y = true <->
  f64_is_nan x = false /\ f64_is_nan y = false /\ (rank x = rank y \/ lex_lt (rank x) (rank y)).
Proof.
  unfold f64_leb, SFleb.
  destruct (f64_is_nan x) eqn:Hx;
    [destruct x; try discriminate; cbn; split; [discriminate|intros (? & _); discriminate]|].
  destruct (f64_is_nan y) eqn:Hy;
    [destruct x, y; try discriminate; cbn; split; try discriminate; intros (_ & ? & _); discriminate|].
  pose proof (f64_compare_rank x y Hx Hy) as H.
  destruct (SFcompare x y) as [[]|]; [tauto|tauto| |tauto].
  split; [discriminate|]. intros (_ & _ & E). by apply lex_trichotomy in H.
Qed.

Lemma f64_ltb_spec x y :
  f64_ltb x y = true <->
  f64_is_nan x = false /\ f64_is_nan y = false /\ lex_lt (rank x) (rank y).
Proof.
  unfold f64_ltb, SFltb.
  destruct (f64_is_nan x) eqn:Hx;
    [destruct x; try discriminate; cbn; split; [discriminate|intros (? & _); discriminate]|].
  destruct (f64_is_nan y) eqn:Hy;
    [destruct x, y; try discriminate; cbn; split; try discriminate; intros (_ & ? & _); discriminate|].
  pose proof (f64_compare_rank x y Hx Hy) as H.
  destruct (SFcompare x y) as [[]|]; [|tauto| |tauto];
    (split; [discriminate|]); intros (_ & _ & E); exfalso;
    apply lex_trichotomy in E; apply E; auto.
Qed.

(** Turns comparisons into the lexicographic order on the ranks and calls lia. *)
Ltac f64_order :=
  repeat match goal with
  | H : f64_ltb _ _ = false |- _ => apply not_true_iff_false in H; rewrite f64_ltb_spec in H
  | H : f64_leb _ _ = false |- _ => apply not_true_iff_false in H; rewrite f64_leb_spec in H
  | H : f64_ltb _ _ = true |- _ => rewrite f64_ltb_spec in H
  | H : f64_leb _ _ = true |- _ => rewrite f64_leb_spec in H
  | |- f64_ltb _ _ = false => apply not_true_iff_false; rewrite f64_ltb_spec
  | |- f64_leb _ _ = false => apply not_true_iff_false; rewrite f64_leb_spec
  | |- f64_ltb _ _ = true => rewrite f64_ltb_spec
  | |- f64_leb _ _ = true => rewrite f64_leb_spec
  end;
  repeat match goal with
  | H : _ /\ _ |- _ => destruct H
  | H : f64_is_nan ?x = false |- _ => rewrite ?H in *; revert H
  end; intros;
  repeat match goal with
  | |- context [rank ?x] => generalize dependent (rank x); intros [[? ?] ?]
  | H : context [rank ?x] |- _ => generalize dependent (rank x); intros [[? ?] ?]
  end;
  cbn [lex_lt] in *; rewrite ?pair_equal_spec in *; repeat split; (assumption || lia).

Lemma f64_eqb_spec x y :
  f64_eqb x y = true <-> f64_is_nan x = false /\ f64_is_nan y = false /\ rank x = rank y.
Proof.
  unfold f64_eqb, SFeqb.
  destruct (f64_is_nan x) eqn:Hx;
    [destruct x; try discriminate; cbn; split; [discriminate|intros (? & _); discriminate]|].
  destruct (f64_is_nan y) eqn:Hy;
    [destruct x, y; try discriminate; cbn; split; try discriminate; intros (_ & ? & _); discriminate|].
  pose proof (f64_compare_rank x y Hx Hy) as H.
  destruct (SFcompare x y) as [[]|]; [tauto| | |tauto];
    (split; [discriminate|]); intros (_ & _ & E);
    apply lex_trichotomy in H; exfalso; apply H; auto.
Qed.

Lemma f64_eqb_sym x y : f64_eqb x y = f64_eqb y x.
Proof. apply eq_bool_prop_intro. rewrite !Is_true_true, !f64_eqb_spec. naive_solver. Qed.

Lemma f64_leb_refl x : f64_is_nan x = false -> f64_leb x x = true.
Proof. intros. f64_order. Qed.

Lemma f64_leb_trans x y z :
  f64_leb x y = true -> f64_leb y z = true -> f64_leb x z = true.
Proof. intros. f64_order. Qed.

Lemma f64_leb_ltb_trans x y z :
  f64_leb x y = true -> f64_ltb y z = true -> f64_ltb x z = true.
Proof. intros. f64_order. Qed.

Lemma f64_ltb_leb_trans x y z :
  f64_ltb x y = true -> f64_leb y z = true -> f64_ltb x z = true.
Proof. intros. f64_order. Qed.

Lemma f64_ltb_leb x y : f64_ltb x y = true -> f64_leb x y = true.
Proof. intros. f64_order. Qed.

Lemma f64_leb_false x y :
  f64_is_nan x = false -> f64_is_nan y = false ->
  f64_leb x y = false -> f64_ltb y x = true.
Proof. intros. f64_order. Qed.

Lemma f64_ltb_false x y :
  f64_is_nan x = false -> f64_is_nan y = false ->
  f64_ltb x y = false -> f64_leb y x = true.
Proof. intros. f64_order. Qed.

Lemma f64_ltb_leb_false x y : f64_ltb x y = true -> f64_leb y x = false.
Proof. intros. f64_order. Qed.

Lemma f64_leb_not_nan x y : f64_leb x y = true -> f64_is_nan x = false /\ f64_is_nan y = false.
Proof. rewrite f64_leb_spec. tauto. Qed.

Lemma f64_ltb_not_nan x y : f64_ltb x y = true -> f64_is_nan x = false /\ f64_is_nan y = false.
Proof. rewrite f64_ltb_spec. tauto. Qed.

(** ** Rounding

    Just enough of the theory of [binary_round] to show that adding a
    non-negative number never moves a double down. *)

Lemma digits2_pos_spec p :
  2 ^ (Zpos (digits2_pos p) - 1) <= Zpos p < 2 ^ Zpos (digits2_pos p).
Proof.
  induction p as [p IH|p IH|]; cbn [digits2_pos]; [| |cbn; lia];
    rewrite Pos2Z.inj_succ, Z.pow_succ_r by lia;
    replace (Z.succ (Zpos (digits2_pos p)) - 1) with (Z.succ (Zpos (digits2_pos p) - 1)) by lia;
    rewrite Z.pow_succ_r by lia; lia.
Qed.

Lemma digits2_pos_unique p d :
  0 < d -> 2 ^ (d - 1) <= Zpos p < 2 ^ d -> Zpos (digits2_pos p) = d.
Proof.
  intros Hd H. pose proof (digits2_pos_spec p) as Hs.
  assert (~ d <= Zpos (digits2_pos p) - 1).
  { intros C. apply (Z.pow_le_mono_r 2) in C; lia. }
  assert (~ Zpos (digits2_pos p) <= d - 1).
  { intros C. apply (Z.pow_le_mono_r 2) in C; lia. }
  lia.
Qed.

Lemma digits2_pos_mono p q : Zpos p <= Zpos q -> Zpos (digits2_pos p) <= Zpos (digits2_pos q).
Proof.
  intros H. pose proof (digits2_pos_spec p). pose proof (digits2_pos_spec q).
  apply Z.nlt_ge. intros C.
  assert (2 ^ Zpos (digits2_pos q) <= 2 ^ (Zpos (digits2_pos p) - 1)) by (apply Z.pow_le_mono_r; lia).
  lia.
Qed.

Lemma digits2_pos_shift p q k :
  0 <= k -> Zpos q = Zpos p * 2 ^ k -> Zpos (digits2_pos q) = Zpos (digits2_pos p) + k.
Proof.
  intros Hk Hq. pose proof (digits2_pos_spec p).
  apply digits2_pos_unique; [lia|]. rewrite Hq.
  replace (Zpos (digits2_pos p) + k - 1) with (Zpos (digits2_pos p) - 1 + k) by lia.
  rewrite !Z.pow_add_r by lia.
  assert (0 < 2 ^ k) by (apply Z.pow_pos_nonneg; lia). nia.
Qed.

Lemma shr_1_m r : 0 <= shr_m r -> shr_m (shr_1 r) = shr_m r / 2.
Proof.
  destruct r as [[|[p|p|]|p] b c]; cbn; intros; try reflexivity; try lia.
  - rewrite Pos2Z.inj_xI. apply (Z.div_unique_pos _ _ _ 1); lia.
  - rewrite Pos2Z.inj_xO. apply (Z.div_unique_pos _ _ _ 0); lia.
Qed.

Lemma iter_pos_shr_m n r :
  0 <= shr_m r -> shr_m (SpecFloat.iter_pos shr_1 n r) = shr_m r / 2 ^ Zpos n.
Proof.
  revert r; induction n as [n IH|n IH|]; intros r Hr; cbn [SpecFloat.iter_pos].
  - assert (H1 : 0 <= shr_m (shr_1 r)) by (rewrite shr_1_m by done; apply Z.div_pos; lia).
    rewrite !IH, shr_1_m by (rewrite ?IH, ?shr_1_m by done; try apply Z.div_pos; try apply Z.div_pos; lia).
    rewrite !Z.div_div by lia. f_equal.
    rewrite (Pos2Z.inj_xI n), Z.pow_add_r, Z.pow_twice_r by lia. lia.
  - rewrite !IH by (rewrite ?IH by done; try apply Z.div_pos; lia).
    rewrite Z.div_div by lia. f_equal.
    rewrite (Pos2Z.inj_xO n), Z.pow_twice_r by lia. lia.
  - rewrite shr_1_m by done. reflexivity.
Qed.

Lemma shr_fexp_m p em m e l r e' :
  0 <= m -> shr_fexp p em m e l = (r, e') ->
  let n := Z.max 0 (fexp p em (Zdigits2 m + e) - e) in
  e' = e + n /\ shr_m r = m / 2 ^ n.
Proof.
  unfold shr_fexp, shr. intros Hm H.
  assert (Hl : shr_m (shr_record_of_loc m l) = m) by (destruct l as [|[]]; reflexivity).
  destruct (fexp p em (Zdigits2 m + e) - e) as [|n|n] eqn:E; injection H as <- <-; cbn zeta.
  - rewrite Z.div_1_r. split; [cbn; lia|done].
  - split; [lia|]. rewrite Z.max_r by lia. rewrite iter_pos_shr_m, Hl; [done|]. by rewrite Hl.
  - rewrite Z.div_1_r. split; [cbn; lia|done].
Qed.

Lemma round_nearest_even_bounds m l : m <= round_nearest_even m l <= m + 1.
Proof. destruct l as [|[]]; cbn; [| destruct (Z.even m)| |]; lia. Qed.

Lemma div_pow2_pos q n d : 0 <= n < d -> 2 ^ (d - 1) <= q -> 1 <= q / 2 ^ n.
Proof.
  intros Hn Hq. apply Z.div_le_lower_bound; [apply Z.pow_pos_nonneg; lia|].
  rewrite Z.mul_1_r. transitivity (2 ^ (d - 1)); [apply Z.pow_le_mono_r|]; lia.
Qed.

(** Rounding never falls below the truncated mantissa. *)
Lemma binary_round_aux_ge s m e E :
  0 < m -> E = Z.max e (fexp prec64 emax64 (Zdigits2 m + e)) -> emin prec64 emax64 <= E ->
  1 <= m / 2 ^ (E - e) ->
  let q := m / 2 ^ (E - e) in
  binary_round_aux prec64 emax64 s m e loc_Exact = S754_infinity s \/
  exists m' e', binary_round_aux prec64 emax64 s m e loc_Exact = S754_finite s m' e' /\
                (E < e' \/ (e' = E /\ q <= Zpos m')).
Proof.
  intros Hm HE Hmin Hq q. unfold binary_round_aux.
  destruct (shr_fexp prec64 emax64 m e loc_Exact) as [r1 e1] eqn:H1.
  apply shr_fexp_m in H1 as [He1 Hr1]; [|lia].
  assert (e1 = E) as -> by lia.
  replace (Z.max 0 _) with (E - e) in Hr1 by lia. fold q in Hr1. rewrite Hr1. clear He1.
  pose proof (round_nearest_even_bounds q (loc_of_shr_record r1)) as Hrd.
  set (q' := round_nearest_even q _) in *.
  destruct (shr_fexp prec64 emax64 q' E loc_Exact) as [r2 e2] eqn:H2.
  apply shr_fexp_m in H2 as [He2 Hr2]; [|unfold q in *; lia].
  set (n := Z.max 0 _) in *. assert (Hn0 : 0 <= n) by (unfold n; lia).
  assert (Hpos : 1 <= shr_m r2).
  { rewrite Hr2. destruct q' as [|p|p] eqn:Eq; [unfold q in *; lia| |unfold q in *; lia].
    pose proof (digits2_pos_spec p). apply (div_pow2_pos _ _ (Zpos (digits2_pos p))); [|lia].
    subst n. clear - Hmin. cbn [Zdigits2]. unfold fexp. assert (prec64 = 53) by reflexivity. lia. }
  destruct (shr_m r2) as [|m'|m'] eqn:Em; [lia| |lia].
  destruct (Z.leb e2 (emax64 - prec64)); [right|by left].
  exists m', e2. split; [done|].
  destruct (Z.eq_dec n 0) as [Hn|Hn]; [right|left; lia].
  rewrite Hn, Z.pow_0_r, Z.div_1_r in Hr2. lia.
Qed.

Lemma shl_align_Z m e ez :
  ez <= e -> Zpos (fst (shl_align m e ez)) = Zpos m * 2 ^ (e - ez).
Proof.
  intros H. unfold shl_align. destruct (ez - e) as [|k|k] eqn:E; [| lia |]; cbn [fst].
  - replace (e - ez) with 0 by lia. lia.
  - replace (e - ez) with (Zpos k) by lia. clear E.
    induction k as [|k IH] using Pos.peano_ind.
    + cbn. lia.
    + rewrite Pos.iter_succ, Pos2Z.inj_succ, Z.pow_succ_r by lia.
      rewrite Pos2Z.inj_xO. lia.
Qed.

(** Addition of a non-negative double never decreases a non-negative one. *)
Definition f64_valid (x : fmiTime) : bool := valid_binary prec64 emax64 x.

(** A double that can be a point of simulation time: not NaN, in format, not
    negative.  [ApplicationContext::getPositiveDoubleProperty] enforces it for
    the start time, the event queue and the predictors keep it. *)
Definition time_ok (x : fmiTime) : bool :=
  negb (f64_is_nan x) && f64_valid x && f64_leb f64_zero x.

Lemma f64_bounded_inv m e :
  bounded prec64 emax64 m e = true ->
  fexp prec64 emax64 (Zpos (digits2_pos m) + e) = e.
Proof.
  unfold bounded, canonical_mantissa. rewrite andb_true_iff, Z.eqb_eq. tauto.
Qed.

Lemma fexp_ge_emin x : emin prec64 emax64 <= fexp prec64 emax64 x.
Proof. unfold fexp. lia. Qed.

Lemma fexp_mono x y : x <= y -> fexp prec64 emax64 x <= fexp prec64 emax64 y.
Proof. unfold fexp. lia. Qed.

Lemma binary_normalize_ge m e S ez :
  bounded prec64 emax64 m e = true -> ez <= e -> Zpos m * 2 ^ (e - ez) <= Zpos S ->
  f64_leb (S754_finite false m e) (binary_normalize prec64 emax64 (Zpos S) ez false) = true.
Proof.
  intros Hb%f64_bounded_inv Hez HS. cbn [binary_normalize]. unfold binary_round.
  set (f := fexp prec64 emax64 (Zpos (digits2_pos S) + ez)).
  assert (H2 : 0 < 2 ^ (e - ez)) by (apply Z.pow_pos_nonneg; lia).
  assert (Hf : e <= f).
  { rewrite <- Hb. apply fexp_mono.
    assert (Hd : Zpos (digits2_pos (Z.to_pos (Zpos m * 2 ^ (e - ez)))) = Zpos (digits2_pos m) + (e - ez)).
    { apply digits2_pos_shift; [lia|]. apply Z2Pos.id. lia. }
    assert (Zpos (digits2_pos (Z.to_pos (Zpos m * 2 ^ (e - ez)))) <= Zpos (digits2_pos S))
      by (apply digits2_pos_mono; rewrite Z2Pos.id; lia). lia. }
  replace (shl_align S ez f) with (S, ez)
    by (unfold shl_align; destruct (f - ez) eqn:E; [done|done|lia]).
  pose proof (digits2_pos_spec S) as HdS.
  assert (Hq : (f = e -> Zpos m <= Zpos S / 2 ^ (f - ez)) /\ 1 <= Zpos S / 2 ^ (f - ez)).
  { split.
    - intros ->. by apply Z.div_le_lower_bound; [|lia].
    - destruct (Z.eq_dec f e) as [->|Hne].
      + apply Z.div_le_lower_bound; [done|nia].
      + apply (div_pow2_pos _ _ (Zpos (digits2_pos S))); [|lia].
        pose proof (fexp_ge_emin (Zpos (digits2_pos m) + e)).
        assert (prec64 = 53) by reflexivity. unfold f, fexp in *. lia. }
  destruct Hq as [Hqm Hq1].
  destruct (binary_round_aux_ge false (Zpos S) ez f) as [->|(m' & e' & -> & H)];
    [lia| |apply fexp_ge_emin|done|..].
  - cbn [Zdigits2]. subst f. rewrite Z.max_r; lia.
  - reflexivity.
  - rewrite f64_leb_spec. cbn. rewrite !pair_equal_spec.
    split; [done|split; [done|]].
    destruct (Z.eq_dec f e) as [Hfe|]; [specialize (Hqm Hfe)|]; lia.
Qed.

Lemma f64_add_ge t d :
  time_ok t = true -> f64_leb f64_zero d = true -> f64_leb t (f64_add t d) = true.
Proof.
  unfold time_ok, f64_valid. rewrite !andb_true_iff, negb_true_iff. intros [[Hn Hv] Ht] Hd.
  destruct t as [st|[]| |[] m e]; try discriminate.
  - (* zero *)
    destruct d as [[]|[]| |[] m2 e2]; try discriminate; destruct st; reflexivity.
  - destruct d as [sd|[]| |[] m2 e2]; try discriminate; reflexivity.
  - destruct d as [sd|[]| |[] m2 e2]; try discriminate; try (by apply f64_leb_refl); try reflexivity.
    cbn [f64_add SFadd]. unfold f64_add, SFadd. cbn [cond_Zopp].
    rewrite !shl_align_Z by lia.
    assert (0 < 2 ^ (e2 - Z.min e e2)) by (apply Z.pow_pos_nonneg; lia).
    assert (0 < 2 ^ (e - Z.min e e2)) by (apply Z.pow_pos_nonneg; lia).
    destruct (_ + _) as [|S|S] eqn:ES; [nia| |nia].
    apply binary_normalize_ge; [done|lia|nia].
Qed.

(** ** Where NaN cannot come from *)

Lemma binary_round_aux_not_nan s m e l :
  0 <= m -> f64_is_nan (binary_round_aux prec64 emax64 s m e l) = false.
Proof.
  intros Hm. unfold binary_round_aux.
  destruct (shr_fexp prec64 emax64 m e l) as [r1 e1] eqn:H1. apply shr_fexp_m in H1 as [_ Hr1]; [|done].
  destruct (shr_fexp prec64 emax64 (round_nearest_even (shr_m r1) (loc_of_shr_record r1)) e1 loc_Exact)
    as [r2 e2] eqn:H2.
  pose proof (round_nearest_even_bounds (shr_m r1) (loc_of_shr_record r1)).
  assert (0 <= shr_m r1) by (rewrite Hr1; apply Z.div_pos; [done|apply Z.pow_pos_nonneg; lia]).
  apply shr_fexp_m in H2 as [_ Hr2]; [|lia].
  assert (0 <= shr_m r2) by (rewrite Hr2; apply Z.div_pos; [lia|apply Z.pow_pos_nonneg; lia]).
  destruct (shr_m r2); [done| |lia]. by destruct (_ <=? _).
Qed.

Lemma binary_normalize_not_nan m e s : f64_is_nan (binary_normalize prec64 emax64 m e s) = false.
Proof.
  unfold binary_normalize, binary_round. destruct m as [|m|m]; [done| |];
    destruct (shl_align m e _); by apply binary_round_aux_not_nan.
Qed.

Definition f64_is_finite (x : fmiTime) : bool :=
  match x with S754_zero _ | S754_finite _ _ _ => true | _ => false end.

Lemma f64_is_finite_not_nan x : f64_is_finite x = true -> f64_is_nan x = false.
Proof. by destruct x. Qed.

Lemma f64_sub_not_nan x y :
  f64_is_nan x = false -> f64_is_finite y = true -> f64_is_nan (f64_sub x y) = false.
Proof.
  destruct x as [[]|[]| |sx mx ex], y as [[]|[]| |sy my ey]; try done.
  intros _ _. apply binary_normalize_not_nan.
Qed.

Lemma f64_sub_self x : f64_is_finite x = true -> exists s, f64_sub x x = S754_zero s.
Proof.
  destruct x as [[]|?| |s m e]; try done; intros _; [by eexists..|].
  unfold f64_sub, SFsub. cbn zeta.
  match goal with |- context [binary_normalize _ _ ?z _ _] => replace z with 0 by (destruct s; cbn; lia) end.
  by eexists.
Qed.
