(* ===== verification/BaseExceptions.v ===== *)
(** * Exceptions (include/base/BaseExceptions.h)

    The exceptions the program throws and catches, and the result type of the
    member functions that may throw them. *)

From S2P Require Import Prelude Float64.

(** [SystemConfigurationException]: the message and, when [hasConfig()], the
    key and the value of the offending property. *)
Record SystemConfigurationException := {
  sce_what : string;
  sce_config : option (string * string);
}.

(** [SolverException]: the message and the simulation time of the error. *)
Record SolverException := {
  se_what : string;
  se_timestamp : fmiTime;
}.

(** What the program throws.  [SystemConfigurationException] and
    [SolverException] are subclasses of [std::invalid_argument]. *)
Inductive exn :=
  | ExnSystemConfiguration (e : SystemConfigurationException)
  | ExnSolver (e : SolverException)
  | ExnInvalidArgument (what : string)
  | ExnRuntimeError (what : string)
  | ExnBadAnyCast
  | ExnOther.

Definition result (A : Type) : Type := outcome exn A.

(** [throw SystemConfigurationException(msg)]. *)
Definition throw_config {A} (msg : string) : result A :=
  Throw (ExnSystemConfiguration {| sce_what := msg; sce_config := None |}).

(** [throw SystemConfigurationException(msg, key, value)]. *)
Definition throw_config_kv {A} (msg key value : string) : result A :=
  Throw (ExnSystemConfiguration {| sce_what := msg; sce_config := Some (key, value) |}).

(** [throw SolverException(msg, time)]. *)
Definition throw_solver {A} (msg : string) (t : fmiTime) : result A :=
  Throw (ExnSolver {| se_what := msg; se_timestamp := t |}).

Definition hasConfig (e : SystemConfigurationException) : bool :=
  match sce_config e with Some _ => true | None => false end.

(** Is the exception caught by [catch (std::invalid_argument &)]? *)
Definition is_invalid_argument (x : exn) : bool :=
  match x with
  | ExnSystemConfiguration _ | ExnSolver _ | ExnInvalidArgument _ => true
  | ExnRuntimeError _ | ExnBadAnyCast | ExnOther => false
  end.

(** The exit code of [main] for an exception that reaches it: the catch clauses
    in their order. *)
Definition main_exit_code (x : exn) : Z :=
  match x with
  | ExnSystemConfiguration _ => 2
  | ExnSolver _ => 4
  | ExnInvalidArgument _ => 1
  | ExnRuntimeError _ => 3
  | ExnBadAnyCast | ExnOther => 125
  end.
