(* ===== verification/PortID.v ===== *)
(** * Port identifiers (src/base/PortID.cpp, src/base/PortIDDrawer.cpp)

    FMI variable types, the [PortID] pair with its hash and comparison, and the
    [PortIDDrawer] that hands out type-unique identifiers. *)

From stdpp Require Import countable.
From S2P Require Import Prelude.

Local Open Scope Z_scope.

Inductive FMIVariableType :=
  | fmiTypeReal
  | fmiTypeInteger
  | fmiTypeBoolean
  | fmiTypeString
  | fmiTypeUnknown.

#[export] Instance FMIVariableType_eq_dec : EqDecision FMIVariableType.
Proof. solve_decision. Defined.

(** The enumeration value, also the index into the five-element vectors. *)
Definition type_code (t : FMIVariableType) : Z :=
  match t with
  | fmiTypeReal => 0
  | fmiTypeInteger => 1
  | fmiTypeBoolean => 2
  | fmiTypeString => 3
  | fmiTypeUnknown => 4
  end.

Definition type_index (t : FMIVariableType) : nat := Z.to_nat (type_code t).

Definition type_of_code (z : Z) : option FMIVariableType :=
  if z =? 0 then Some fmiTypeReal else
  if z =? 1 then Some fmiTypeInteger else
  if z =? 2 then Some fmiTypeBoolean else
  if z =? 3 then Some fmiTypeString else
  if z =? 4 then Some fmiTypeUnknown else None.

Definition all_types : list FMIVariableType :=
  [fmiTypeReal; fmiTypeInteger; fmiTypeBoolean; fmiTypeString; fmiTypeUnknown].

Lemma type_of_code_code t : type_of_code (type_code t) = Some t.
Proof. by destruct t. Qed.

Lemma type_of_code_Some z t : type_of_code z = Some t -> type_code t = z.
Proof.
  unfold type_of_code.
  destruct (Z.eqb_spec z 0), (Z.eqb_spec z 1), (Z.eqb_spec z 2), (Z.eqb_spec z 3), (Z.eqb_spec z 4);
    intros [= <-]; cbn; lia.
Qed.

Lemma type_code_inj s t : type_code s = type_code t -> s = t.
Proof. destruct s, t; intros [=]; reflexivity. Qed.

Lemma type_index_inj s t : type_index s = type_index t -> s = t.
Proof. destruct s, t; intros [=]; reflexivity. Qed.

Lemma type_index_lt t : (type_index t < 5)%nat.
Proof. destruct t; apply Nat.ltb_lt; reflexivity. Qed.

#[export] Instance FMIVariableType_countable : Countable FMIVariableType.
Proof.
  refine (inj_countable type_code type_of_code _). exact type_of_code_code.
Defined.

(** [typedef std::pair<FMIVariableType, int> PortID]. *)
Definition PortID : Type := FMIVariableType * Z.

Definition portid_eqb (a b : PortID) : bool :=
  bool_decide (a.1 = b.1) && (a.2 =? b.2).

(** [operator !=]. *)
Definition portid_neqb (a b : PortID) : bool := negb (portid_eqb a b).

Lemma portid_eqb_eq a b : portid_eqb a b = true <-> a = b.
Proof.
  destruct a as [s i], b as [t j]. unfold portid_eqb. cbn.
  rewrite andb_true_iff, bool_decide_eq_true, Z.eqb_eq. split; [intros [-> ->]; done|by intros [= -> ->]].
Qed.

Lemma portid_neqb_ne a b : portid_neqb a b = true <-> a <> b.
Proof. unfold portid_neqb. by rewrite negb_true_iff, <- not_true_iff_false, portid_eqb_eq. Qed.

(** [hashPortID]: computed in [unsigned int], the product in [int]. *)
Definition hashPortID (id : PortID) : outcome unit Z :=
  if in_signed 32 (5 * id.2) then Ret (wrap 32 (type_code id.1 + wrap 32 (5 * id.2)))
  else Fault UndefinedBehaviour.

Definition getVariableTypeString (t : FMIVariableType) : string :=
  match t with
  | fmiTypeReal => "Real"
  | fmiTypeInteger => "Integer"
  | fmiTypeBoolean => "Boolean"
  | fmiTypeString => "String"
  | fmiTypeUnknown => "Unknown"
  end.

(** ** PortIDDrawer *)

Record PortIDDrawer := { nextPortID_ : list Z }.

Definition new_PortIDDrawer : PortIDDrawer := {| nextPortID_ := replicate 5 0 |}.

(** The next number of a type; the counters are [unsigned int]. *)
Definition next_of (d : PortIDDrawer) (t : FMIVariableType) : Z :=
  default 0 (nextPortID_ d !! type_index t).

Definition getNextPortID (d : PortIDDrawer) (t : FMIVariableType) : PortID * PortIDDrawer :=
  ((t, to_signed 32 (next_of d t)),
   {| nextPortID_ := <[type_index t := wrap 32 (next_of d t + 1)]> (nextPortID_ d) |}).

(** A sequence of calls to [getNextPortID]. *)
Fixpoint draw (d : PortIDDrawer) (ts : list FMIVariableType) : list PortID * PortIDDrawer :=
  match ts with
  | [] => ([], d)
  | t :: ts' =>
      let '(id, d1) := getNextPortID d t in
      let '(ids, d2) := draw d1 ts' in
      (id :: ids, d2)
  end.

(** Five counters of 32 bits. *)
Definition drawer_wf (d : PortIDDrawer) : Prop :=
  length (nextPortID_ d) = 5%nat /\ forall t, 0 <= next_of d t < 2 ^ 32.

(** An identifier handed out before the drawer reached its present state. *)
Definition drawn (d : PortIDDrawer) (id : PortID) : Prop :=
  exists k, 0 <= k < next_of d id.1 /\ id.2 = to_signed 32 k.

Lemma next_of_new t : next_of new_PortIDDrawer t = 0.
Proof. by destruct t. Qed.

Lemma new_PortIDDrawer_wf : drawer_wf new_PortIDDrawer.
Proof. split; [done|]. intros t. rewrite next_of_new. lia. Qed.

Lemma next_of_getNext d t s :
  drawer_wf d ->
  next_of (getNextPortID d t).2 s =
  if decide (s = t) then wrap 32 (next_of d t + 1) else next_of d s.
Proof.
  intros [Hl _]. unfold next_of at 1. cbn.
  destruct (decide (s = t)) as [->|Hne].
  - rewrite list_lookup_insert_eq; [done|]. rewrite Hl. apply type_index_lt.
  - rewrite list_lookup_insert_ne; [done|]. intros E. by apply type_index_inj in E.
Qed.

Lemma getNextPortID_wf d t : drawer_wf d -> drawer_wf (getNextPortID d t).2.
Proof.
  intros Hd. split; [cbn; rewrite length_insert; apply Hd|].
  intros s. rewrite next_of_getNext by done. destruct (decide _); [|apply Hd].
  apply wrap_range. lia.
Qed.

Lemma to_signed_inj a b :
  0 <= a < 2 ^ 32 -> 0 <= b < 2 ^ 32 -> to_signed 32 a = to_signed 32 b -> a = b.
Proof.
  unfold to_signed, wrap. intros Ha Hb. rewrite !Z.mod_small by lia.
  destruct (Z.ltb_spec a (2 ^ (32 - 1))), (Z.ltb_spec b (2 ^ (32 - 1))); lia.
Qed.

Lemma getNextPortID_drawn d t :
  drawer_wf d -> next_of d t < 2 ^ 32 - 1 ->
  ~ drawn d (getNextPortID d t).1 /\ drawn (getNextPortID d t).2 (getNextPortID d t).1 /\
  (forall id, drawn d id -> drawn (getNextPortID d t).2 id).
Proof.
  intros Hd Hlt. pose proof (proj2 Hd t) as Ht.
  assert (Hn : next_of (getNextPortID d t).2 t = next_of d t + 1).
  { rewrite next_of_getNext, decide_True by done. apply wrap_small. lia. }
  split; [|split].
  - intros (k & Hk & E). cbn in Hk, E. apply to_signed_inj in E; lia.
  - exists (next_of d t). split; [|done]. change ((getNextPortID d t).1.1) with t. lia.
  - intros id (k & Hk & E). exists k. split; [|done].
    destruct (decide (id.1 = t)) as [Et|Et].
    + rewrite Et in *. lia.
    + rewrite next_of_getNext, decide_False by done. done.
Qed.

Lemma draw_cons d t ts :
  draw d (t :: ts) =
  ((getNextPortID d t).1 :: (draw (getNextPortID d t).2 ts).1, (draw (getNextPortID d t).2 ts).2).
Proof. cbn. by destruct (draw _ ts). Qed.

(** How often [t] occurs in a list of requests. *)
Definition count_type (t : FMIVariableType) (ts : list FMIVariableType) : Z :=
  Z.of_nat (length (filter (fun s => s = t) ts)).

Lemma count_type_cons t s ts :
  count_type t (s :: ts) = (if decide (s = t) then 1 else 0) + count_type t ts.
Proof. unfold count_type. rewrite filter_cons. destruct (decide _); cbn [length]; lia. Qed.

Lemma count_type_nonneg t ts : 0 <= count_type t ts.
Proof. unfold count_type. lia. Qed.

Lemma draw_fresh d ts :
  drawer_wf d -> (forall t, next_of d t + count_type t ts < 2 ^ 32) ->
  NoDup (draw d ts).1 /\ (forall id, id ∈ (draw d ts).1 -> ~ drawn d id) /\
  drawer_wf (draw d ts).2.
Proof.
  revert d; induction ts as [|t ts IH]; intros d Hd Hb.
  - split; [constructor|split; [|done]]. intros id Hin. by apply elem_of_nil in Hin.
  - rewrite draw_cons. cbn [fst snd].
    pose proof (count_type_nonneg t ts) as Hc.
    assert (Hlt : next_of d t < 2 ^ 32 - 1).
    { specialize (Hb t). rewrite count_type_cons, decide_True in Hb by done. lia. }
    destruct (getNextPortID_drawn d t Hd Hlt) as (Hnew & Hself & Hmono).
    destruct (IH (getNextPortID d t).2) as (Hnd & Hfresh & Hwf).
    + by apply getNextPortID_wf.
    + intros s. specialize (Hb s). rewrite count_type_cons in Hb.
      rewrite next_of_getNext by done.
      destruct (decide (s = t)) as [->|Hne].
      * rewrite decide_True in Hb by done. pose proof (proj2 Hd t). rewrite wrap_small; lia.
      * rewrite decide_False in Hb by congruence. lia.
    + split; [|split; [|done]].
      * constructor; [|done]. intros Hin. by apply (Hfresh _ Hin).
      * intros id [->|Hin]%elem_of_cons; [done|].
        intros Hdr. apply (Hfresh id Hin). auto.
Qed.

(** The drawer hands out pairwise different identifiers. *)
Theorem draw_unique ts :
  (forall t, count_type t ts < 2 ^ 32) -> NoDup (draw new_PortIDDrawer ts).1.
Proof.
  intros H. apply draw_fresh; [apply new_PortIDDrawer_wf|].
  intros t. rewrite next_of_new. apply H.
Qed.

Definition draw_unique_example : list FMIVariableType := [fmiTypeReal; fmiTypeString; fmiTypeReal].

Lemma draw_unique_witness :
  NoDup (draw new_PortIDDrawer draw_unique_example).1 /\
  (draw new_PortIDDrawer draw_unique_example).1 = [(fmiTypeReal, 0); (fmiTypeString, 0); (fmiTypeReal, 1)].
Proof.
  split; [|vm_compute; reflexivity].
  apply (draw_unique draw_unique_example). intros []; vm_compute; reflexivity.
Defined.
