(* ===== verification/Format.v ===== *)
(** * Text formatting of the C++ standard library

    [std::to_string] of a [double] (six decimals) and of an integer, and the
    default stream insertion of a [double] (six significant digits), as the
    sources use them for log messages and the CSV data file. *)

From Stdlib Require Import Ascii.
From S2P Require Import Prelude Float64.

Local Open Scope Z_scope.

(** Quotient rounded to nearest, ties to even; [den > 0]. *)
Definition round_half_even (num den : Z) : Z :=
  let q := num / den in let r := num mod den in
  if 2 * r <? den then q else
  if den <? 2 * r then q + 1 else if Z.even q then q else q + 1.

(** The absolute value of a finite double as a fraction. *)
Definition fraction (m : positive) (e : Z) : Z * Z :=
  if 0 <=? e then (Zpos m * 2 ^ e, 1) else (Zpos m, 2 ^ (- e)).

Definition sign_string (s : bool) : string := if s then "-" else "".

(** Left padding with zeros. *)
Definition pad (n : nat) (s : string) : string :=
  String.string_of_list_ascii (replicate (n - String.length s) "0"%char) +:+ s.

Definition special_string (x : fmiTime) : string :=
  match x with
  | S754_infinity s => sign_string s +:+ "inf"
  | _ => "nan"
  end.

(** [std::fixed] with a precision of [d > 0] digits behind the point. *)
Definition fixed_double (d : Z) (x : fmiTime) : string :=
  match x with
  | S754_zero s => sign_string s +:+ "0." +:+ pad (Z.to_nat d) "0"
  | S754_finite s m e =>
      let '(num, den) := fraction m e in
      let n := round_half_even (num * 10 ^ d) den in
      sign_string s +:+ pretty (n / 10 ^ d) +:+ "." +:+ pad (Z.to_nat d) (pretty (n mod 10 ^ d))
  | _ => special_string x
  end.

(** [std::to_string(double)]: the conversion ["%f"]. *)
Definition to_string_double (x : fmiTime) : string := fixed_double 6 x.

(** Number of decimal digits; none for zero. *)
Definition decimal_digits (n : Z) : Z :=
  if n <=? 0 then 0 else Z.of_nat (String.length (pretty n)).

Fixpoint strip_zeros_rev (l : list ascii) : list ascii :=
  match l with
  | c :: l' => if Ascii.eqb c "0" then strip_zeros_rev l' else
               if Ascii.eqb c "." then l' else l
  | [] => []
  end.

(** Drops the zeros a decimal fraction ends in, and a final point. *)
Definition strip_zeros (s : string) : string :=
  String.string_of_list_ascii (rev (strip_zeros_rev (rev (String.list_ascii_of_string s)))).

(** A decimal exponent: sign and at least two digits. *)
Definition exponent_string (x : Z) : string :=
  "e" +:+ (if x <? 0 then "-" else "+") +:+ pad 2 (pretty (Z.abs x)).

(** [stream << double]: the conversion ["%g"] with six significant digits. *)
Definition stream_double (x : fmiTime) : string :=
  match x with
  | S754_zero s => sign_string s +:+ "0"
  | S754_finite s m e =>
      let '(num, den) := fraction m e in
      let x0 := if den <=? num then decimal_digits (num / den) - 1
                else - decimal_digits ((den + num - 1) / num - 1) in
      let scaled := if 0 <=? 5 - x0 then round_half_even (num * 10 ^ (5 - x0)) den
                    else round_half_even num (den * 10 ^ (x0 - 5)) in
      let '(n, x1) := if scaled =? 10 ^ 6 then (10 ^ 5, x0 + 1) else (scaled, x0) in
      sign_string s +:+
      (if (-4 <=? x1) && (x1 <? 6) then
         let d := 5 - x1 in
         strip_zeros (pretty (n / 10 ^ d) +:+ "." +:+ pad (Z.to_nat d) (pretty (n mod 10 ^ d)))
       else
         strip_zeros (pretty (n / 10 ^ 5) +:+ "." +:+ pad 5 (pretty (n mod 10 ^ 5))) +:+ exponent_string x1)
  | _ => special_string x
  end.

Example stream_double_examples :
  map stream_double
    [f64_of_Z 0; (f64_of_Z 3 / f64_of_Z 10)%f64; f64_of_Z 100000; f64_of_Z 1234567; f64_1em4;
     (f64_1em4 / f64_of_Z 10)%f64; f64_of_Z (-42); (f64_of_Z 9999995 / f64_of_Z 10)%f64;
     (f64_of_Z 2 / f64_of_Z 3)%f64]
  = ["0"; "0.3"; "100000"; "1.23457e+06"; "0.0001"; "1e-05"; "-42"; "1e+06"; "0.666667"].
Proof. vm_compute. reflexivity. Qed.

Example to_string_double_examples :
  map to_string_double [f64_of_Z 0; (f64_of_Z (-3) / f64_of_Z 2)%f64; f64_1em3; f64_of_Z 12]
  = ["0.000000"; "-1.500000"; "0.001000"; "12.000000"].
Proof. vm_compute. reflexivity. Qed.
