(* ===== verification/Variables.v ===== *)
(** * Variables and static events (src/timing/Variable.cpp, Event.cpp,
    StaticEvent.cpp)

    A variable pairs a port identifier with a dynamically typed value; its
    accessors assert that the value has the type the identifier announces. *)

From S2P Require Import Prelude Float64 BaseExceptions PortID Format.

Local Open Scope Z_scope.

(** [boost::any] restricted to the types the program stores.  A [fmiReal] is
    kept as its 64-bit pattern, a [fmiInteger] as a 32-bit integer, a
    [fmiBoolean] as the [char] it is. *)
Inductive any :=
  | AnyEmpty
  | AnyReal (bits : Z)
  | AnyInteger (i : Z)
  | AnyBoolean (c : Z)
  | AnyString (s : string).

#[export] Instance any_eq_dec : EqDecision any.
Proof. solve_decision. Defined.

Definition any_type (v : any) : option FMIVariableType :=
  match v with
  | AnyEmpty => None
  | AnyReal _ => Some fmiTypeReal
  | AnyInteger _ => Some fmiTypeInteger
  | AnyBoolean _ => Some fmiTypeBoolean
  | AnyString _ => Some fmiTypeString
  end.

(** The number a 64-bit pattern denotes (IEEE 754 binary64). *)
Definition real_value (bits : Z) : fmiTime :=
  let s := Z.testbit bits 63 in
  let ex := Z.land (Z.shiftr bits 52) 2047 in
  let mant := Z.land bits (2 ^ 52 - 1) in
  if ex =? 2047 then (if mant =? 0 then S754_infinity s else S754_nan)
  else if ex =? 0 then (match mant with Zpos m => S754_finite s m (-1074) | _ => S754_zero s end)
  else S754_finite s (Z.to_pos (2 ^ 52 + mant)) (ex - 1075).

Definition fmiFalse : Z := 0.
Definition fmiTrue : Z := 1.

Record Variable_t := mk_variable { id_ : PortID; data_ : any }.

#[export] Instance Variable_eq_dec : EqDecision Variable_t.
Proof. solve_decision. Defined.

(** The constructors from an identifier and a value, and from a pair of them. *)
Definition new_Variable_of (id : PortID) (data : any) : Variable_t := {| id_ := id; data_ := data |}.
Definition new_Variable_pair (pair : PortID * any) : Variable_t := {| id_ := pair.1; data_ := pair.2 |}.

Definition getID (v : Variable_t) : PortID := id_ v.
Definition setID (id : PortID) (v : Variable_t) : Variable_t := {| id_ := id; data_ := data_ v |}.
Definition setValue (d : any) (v : Variable_t) : Variable_t := {| id_ := id_ v; data_ := d |}.

(** The default constructor. *)
Definition new_Variable : Variable_t := {| id_ := (fmiTypeUnknown, 0); data_ := AnyEmpty |}.

Definition isValid (v : Variable_t) : bool :=
  match (id_ v).1 with
  | fmiTypeUnknown => false
  | t => bool_decide (any_type (data_ v) = Some t)
  end.

Definition isTypeUnknown (v : Variable_t) : bool := bool_decide ((id_ v).1 = fmiTypeUnknown).

Definition getValue (v : Variable_t) : result any :=
  assert_ (isValid v) ;;; Ret (data_ v).

Definition getRealValue (v : Variable_t) : result Z :=
  assert_ (bool_decide ((id_ v).1 = fmiTypeReal) && isValid v) ;;;
  match data_ v with AnyReal b => Ret b | _ => Throw ExnBadAnyCast end.

Definition getIntegerValue (v : Variable_t) : result Z :=
  assert_ (bool_decide ((id_ v).1 = fmiTypeInteger) && isValid v) ;;;
  match data_ v with AnyInteger i => Ret i | _ => Throw ExnBadAnyCast end.

Definition getBooleanValue (v : Variable_t) : result Z :=
  assert_ (bool_decide ((id_ v).1 = fmiTypeBoolean) && isValid v) ;;;
  match data_ v with AnyBoolean c => Ret c | _ => Throw ExnBadAnyCast end.

Definition getStringValue (v : Variable_t) : result string :=
  assert_ (bool_decide ((id_ v).1 = fmiTypeString) && isValid v) ;;;
  match data_ v with AnyString s => Ret s | _ => Throw ExnBadAnyCast end.

(** [equalValue]: reals are compared as numbers, so NaN differs from itself
    and the two zeros are equal. *)
Definition equalValue (v w : Variable_t) : result bool :=
  assert_ (isValid v && isValid w) ;;;
  if negb (bool_decide ((id_ v).1 = (id_ w).1)) then Ret false else
  match (id_ v).1 with
  | fmiTypeReal =>
      let* a := getRealValue v in let* b := getRealValue w in
      Ret (f64_eqb (real_value a) (real_value b))
  | fmiTypeInteger =>
      let* a := getIntegerValue v in let* b := getIntegerValue w in Ret (a =? b)
  | fmiTypeBoolean =>
      let* a := getBooleanValue v in let* b := getBooleanValue w in Ret (a =? b)
  | fmiTypeString =>
      let* a := getStringValue v in let* b := getStringValue w in Ret (String.eqb a b)
  | fmiTypeUnknown => Fault AssertionFailed
  end.

(** [operator ==]. *)
Definition variable_eqb (v w : Variable_t) : result bool :=
  if negb (bool_decide ((id_ v).1 = (id_ w).1)) || negb ((id_ v).2 =? (id_ w).2)
     || negb (Bool.eqb (isValid v) (isValid w))
  then Ret false
  else if isValid v then
    let* e := equalValue v w in if negb e then Ret false else Ret true
  else Ret true.

(** [operator !=]. *)
Definition variable_neqb (v w : Variable_t) : result bool := let* e := variable_eqb v w in Ret (negb e).

Definition typeName (t : FMIVariableType) : string :=
  match t with
  | fmiTypeReal => "fmiReal"
  | fmiTypeInteger => "fmiTypeInteger"
  | fmiTypeBoolean => "fmiTypeBoolean"
  | fmiTypeString => "fmiTypeString"
  | fmiTypeUnknown => "fmiTypeUnknown"
  end.

Definition variable_toString (v : Variable_t) : result string :=
  let* valStr :=
    (if isValid v then
       match (id_ v).1 with
       | fmiTypeReal => let* b := getRealValue v in Ret (to_string_double (real_value b))
       | fmiTypeInteger => let* i := getIntegerValue v in Ret (pretty i)
       | fmiTypeBoolean => let* c := getBooleanValue v in Ret (pretty c)
       | fmiTypeString => let* s := getStringValue v in Ret (dquote +:+ s +:+ dquote)
       | fmiTypeUnknown => Fault AssertionFailed
       end
     else Ret "Invalid Value") in
  Ret ("Variable: <" +:+ typeName (id_ v).1 +:+ ", id:" +:+ pretty (id_ v).2 +:+ ">=" +:+ valStr).

(** ** Events *)

(** [Event::isValid]: reads each value before it tests the variable. *)
Fixpoint event_isValid (values : list Variable_t) : result bool :=
  match values with
  | [] => Ret true
  | v :: vs =>
      let* _ := getValue v in
      if negb (isValid v) then Ret false else event_isValid vs
  end.

Definition event_toString (time : fmiTime) : string := "Event: time=" +:+ stream_double time.

Fixpoint join_variables (vars : list Variable_t) : result string :=
  match vars with
  | [] => Ret ""
  | [v] => variable_toString v
  | v :: vs => let* s := variable_toString v in let* r := join_variables vs in Ret (s +:+ ", " +:+ r)
  end.

Definition variables_toString (vars : list Variable_t) : result string :=
  let* s := join_variables vars in Ret (" variables={" +:+ s +:+ "}").

Record StaticEvent := { se_time : fmiTime; se_var : list Variable_t }.

(** The constructor of [StaticEvent]. *)
Definition new_StaticEvent (time : fmiTime) (var : list Variable_t) : result StaticEvent :=
  let* ok := event_isValid var in
  assert_ ok ;;; Ret {| se_time := time; se_var := var |}.

Definition static_getVariables (ev : StaticEvent) : list Variable_t := se_var ev.

Definition static_toString (ev : StaticEvent) : result string :=
  let* s := variables_toString (se_var ev) in Ret (event_toString (se_time ev) +:+ " " +:+ s).

(** ** Facts *)

Lemma isValid_type v : isValid v = true <-> (id_ v).1 <> fmiTypeUnknown /\ any_type (data_ v) = Some (id_ v).1.
Proof.
  unfold isValid. destruct v as [[[] n] [| | | |]]; cbn;
    rewrite ?bool_decide_eq_true; split; try done; try (intros [? ?]; done).
Qed.

Lemma getValue_valid v : isValid v = true -> getValue v = Ret (data_ v).
Proof. unfold getValue. by intros ->. Qed.

Lemma event_isValid_Ret vars b :
  event_isValid vars = Ret b -> b = true /\ Forall (fun v => isValid v = true) vars.
Proof.
  induction vars as [|v vs IH]; cbn; [intros [= <-]; done|].
  unfold getValue. destruct (isValid v) eqn:Hv; cbn; [|discriminate].
  intros [-> ?]%IH. by split; [|constructor].
Qed.

Lemma event_isValid_all vars :
  Forall (fun v => isValid v = true) vars -> event_isValid vars = Ret true.
Proof. induction 1 as [|v vs Hv _ IH]; cbn; [done|]. unfold getValue. by rewrite Hv. Qed.

(** Every accessor succeeds exactly on the variables of its type. *)
Lemma typed_accessors v :
  isValid v = true ->
  match (id_ v).1 with
  | fmiTypeReal => exists b, data_ v = AnyReal b /\ getRealValue v = Ret b
  | fmiTypeInteger => exists i, data_ v = AnyInteger i /\ getIntegerValue v = Ret i
  | fmiTypeBoolean => exists c, data_ v = AnyBoolean c /\ getBooleanValue v = Ret c
  | fmiTypeString => exists s, data_ v = AnyString s /\ getStringValue v = Ret s
  | fmiTypeUnknown => False
  end.
Proof.
  intros Hv. pose proof Hv as [Hu Ht]%isValid_type.
  unfold getRealValue, getIntegerValue, getBooleanValue, getStringValue. rewrite Hv.
  destruct v as [[[] n] [| | | |]]; cbn in *; try discriminate; eauto.
Qed.

(** [Event::isValid] cannot report an inconsistent variable: it reads every
    value first, and the accessor asserts that the variable is valid.  It
    returns [true] on consistent lists and fails an assertion on all others. *)
Theorem event_isValid_never_false vars :
  (event_isValid vars = Ret true /\ Forall (fun v => isValid v = true) vars) \/
  (event_isValid vars = Fault AssertionFailed /\ Exists (fun v => isValid v = false) vars).
Proof.
  induction vars as [|v vs IH]; cbn; [by left|].
  unfold getValue. destruct (isValid v) eqn:Hv; cbn.
  - destruct IH as [[-> ?]|[-> ?]]; [left; by split; [|constructor]|right; by split; [|right]].
  - right. split; [done|by left].
Qed.

Lemma equalValue_total v w :
  isValid v = true -> isValid w = true -> exists b, equalValue v w = Ret b.
Proof.
  intros Hv Hw. pose proof (typed_accessors v Hv) as Av. pose proof (typed_accessors w Hw) as Aw.
  unfold equalValue. rewrite Hv, Hw. cbn [andb assert_ obind].
  destruct (bool_decide_reflect ((id_ v).1 = (id_ w).1)) as [He|He]; cbn [negb]; [|eauto].
  rewrite He in *. destruct (id_ w).1; [..|contradiction];
    destruct Av as (? & _ & ->), Aw as (? & _ & ->); cbn; eauto.
Qed.

Lemma equalValue_sym v w : equalValue v w = equalValue w v.
Proof.
  unfold equalValue. rewrite (andb_comm (isValid w)).
  destruct (isValid v && isValid w) eqn:Hvw; [|done]. apply andb_prop in Hvw as [Hv Hw].
  cbn [assert_ obind]. pose proof (typed_accessors v Hv) as Av. pose proof (typed_accessors w Hw) as Aw.
  destruct (decide ((id_ v).1 = (id_ w).1)) as [He|He].
  - rewrite !bool_decide_true by congruence. cbn [negb]. rewrite He in *.
    destruct (id_ w).1; [..|contradiction]; destruct Av as (? & _ & ->), Aw as (? & _ & ->); cbn;
      f_equal; [apply f64_eqb_sym|apply Z.eqb_sym..|apply String.eqb_sym].
  - rewrite !bool_decide_false by congruence. done.
Qed.

(** Comparing two variables never fails an assertion or a cast: [operator
    ==] returns a result for any two variables, the same for both orders. *)
Lemma variable_eqb_total v w :
  exists b, variable_eqb v w = Ret b /\ variable_eqb w v = Ret b.
Proof.
  unfold variable_eqb. rewrite (equalValue_sym w), (Z.eqb_sym (id_ w).2).
  replace (bool_decide ((id_ w).1 = (id_ v).1)) with (bool_decide ((id_ v).1 = (id_ w).1))
    by (apply bool_decide_ext; split; congruence).
  replace (Bool.eqb (isValid w) (isValid v)) with (Bool.eqb (isValid v) (isValid w))
    by (by destruct (isValid v), (isValid w)).
  destruct (_ || _ || _) eqn:Hc; [eauto|].
  apply orb_false_iff in Hc as [_ Hb%negb_false_iff%eqb_prop].
  rewrite <- Hb. destruct (isValid v) eqn:Hv; [|eauto].
  destruct (equalValue_total v w) as [b ->]; [done|congruence|]. cbn. destruct b; eauto.
Qed.
