(* ===== verification/PropertyTree.v ===== *)
(** * Property trees (Boost.PropertyTree, a library the sources call)

    The operations of [boost::property_tree::ptree] the program uses, as a type
    class with the documented laws, and a concrete implementation of it for
    witnesses. *)

From Stdlib Require Import Ascii.
From S2P Require Import Prelude Float64.

Class PropertyTree := {
  ptree : Type;
  pt_empty : ptree;
  (** [data()] and [get_value<std::string>()] *)
  pt_data : ptree -> string;
  (** [size()]: the number of direct children *)
  pt_size : ptree -> nat;
  (** the keys of the direct children, in order *)
  pt_keys : ptree -> list string;
  get_child_optional : ptree -> string -> option ptree;
  put : ptree -> string -> string -> ptree;
  (** the stream translators from a string; [None] when the conversion fails *)
  tr_int : string -> option Z;
  tr_uint32 : string -> option Z;
  tr_uint64 : string -> option Z;
  tr_bool : string -> option bool;
  tr_double : string -> option fmiTime;
  tr_char : string -> option Z;
  (** the text of the exception [get<T>(path)] throws *)
  get_error : ptree -> string -> string;
  (** [info_parser::write_info] *)
  write_info : ptree -> string;
}.

Section Access.
Context `{PropertyTree}.

(** [get_optional<T>(path)], with the translator of [T]. *)
Definition get_optional {T} (tr : string -> option T) (t : ptree) (path : string) : option T :=
  match get_child_optional t path with Some c => tr (pt_data c) | None => None end.

(** [get<T>(path, def)]: the default also when the conversion fails. *)
Definition get_default {T} (tr : string -> option T) (t : ptree) (path : string) (def : T) : T :=
  default def (get_optional tr t path).

Definition tr_string (s : string) : option string := Some s.

End Access.

(** ** Paths

    A path is a list of keys separated by points; a point at its end is ignored,
    and the empty path names the tree itself. *)

Fixpoint split_path (p : string) : list string :=
  match p with
  | EmptyString => [EmptyString]
  | String c p' =>
      if Ascii.eqb c "." then EmptyString :: split_path p'
      else match split_path p' with
           | k :: ks => String c k :: ks
           | [] => [String c EmptyString]
           end
  end.

Fixpoint drop_last_empty (ks : list string) : list string :=
  match ks with
  | [] => []
  | [k] => if String.eqb k "" then [] else [k]
  | k :: ks' => k :: drop_last_empty ks'
  end.

Definition path_keys (p : string) : list string := drop_last_empty (split_path p).

Class PropertyTreeLaws (P : PropertyTree) := {
  get_put t k v : exists c, get_child_optional (put t k v) k = Some c /\ pt_data c = v;
  get_put_ne t k v k' c :
    path_keys k' <> path_keys k -> get_child_optional t k' = Some c ->
    exists c', get_child_optional (put t k v) k' = Some c' /\ pt_data c' = pt_data c;
  (** consecutive numbers name different direct children *)
  pt_size_indices t n :
    (forall i, (i < n)%nat -> get_child_optional t (pretty i) <> None) -> (n <= pt_size t)%nat;
  get_put_new t k v k' :
    ~ path_keys k' `prefix_of` path_keys k -> get_child_optional t k' = None ->
    get_child_optional (put t k v) k' = None;
  (** the nodes on the way to a new node are made, without data *)
  get_put_way t k v k' :
    path_keys k' `prefix_of` path_keys k -> path_keys k' <> path_keys k -> get_child_optional t k' = None ->
    exists c, get_child_optional (put t k v) k' = Some c /\ pt_data c = EmptyString;
  get_path_keys t p q : path_keys p = path_keys q -> get_child_optional t p = get_child_optional t q;
  pt_empty_get k : path_keys k <> [] -> get_child_optional pt_empty k = None;
  pt_data_put t k v : path_keys k <> [] -> pt_data (put t k v) = pt_data t;
}.

(** The translators of the unsigned integers stay in the range of their types. *)
Class PropertyTreeRanges (P : PropertyTree) := {
  tr_uint32_range s z : tr_uint32 s = Some z -> (0 <= z < 2 ^ 32)%Z;
}.

(** ** Numbered children

    The loop [nr = 0; while (child = t.get_child_optional(nr)) { body; nr++ }],
    with [fuel] bounding the number of turns. *)

Section Numbered.
Context `{PropertyTree}.

Fixpoint for_children {X S} (fuel : nat) (body : S -> ptree -> outcome X S) (t : ptree) (nr : nat)
    (s : S) : outcome X S :=
  match fuel with
  | O => Fault OutOfFuel
  | Datatypes.S fuel' =>
      match get_child_optional t (pretty nr) with
      | Some c => let* s' := body s c in for_children fuel' body t (Datatypes.S nr) s'
      | None => Ret s
      end
  end.

(** The children [nr], [nr + 1], ... up to the first number that is missing. *)
Fixpoint children_from (fuel : nat) (t : ptree) (nr : nat) : list ptree :=
  match fuel with
  | O => []
  | Datatypes.S fuel' =>
      match get_child_optional t (pretty nr) with
      | Some c => c :: children_from fuel' t (Datatypes.S nr)
      | None => []
      end
  end.

Definition indexed_children (t : ptree) : list ptree := children_from (S (pt_size t)) t 0.

Context `{!PropertyTreeLaws _}.

Lemma for_children_from {X S} fuel (body : S -> ptree -> outcome X S) t nr s :
  (fuel + nr = Datatypes.S (pt_size t))%nat ->
  (forall i, (i < nr)%nat -> get_child_optional t (pretty i) <> None) ->
  for_children fuel body t nr s = foldlM body s (children_from fuel t nr).
Proof.
  revert nr s; induction fuel as [|fuel IH]; intros nr s Hf Hall; cbn.
  - pose proof (pt_size_indices t nr Hall). lia.
  - destruct (get_child_optional t (pretty nr)) as [c|] eqn:E; [|done]. cbn.
    destruct (body s c) as [s'| |]; cbn; [|done..]. apply IH; [lia|].
    intros i Hi. destruct (decide (i = nr)) as [->|]; [by rewrite E|apply Hall; lia].
Qed.

(** The loop visits the numbered children and terminates. *)
Lemma for_children_foldlM {X S} (body : S -> ptree -> outcome X S) t s :
  for_children (Datatypes.S (pt_size t)) body t 0 s = foldlM body s (indexed_children t).
Proof. apply for_children_from; lia. Qed.

Lemma children_from_lookup fuel t nr i c :
  children_from fuel t nr !! i = Some c -> get_child_optional t (pretty (nr + i)%nat) = Some c.
Proof.
  revert nr i; induction fuel as [|fuel IH]; intros nr i; cbn; [done|].
  destruct (get_child_optional t (pretty nr)) as [c0|] eqn:E; [|done].
  destruct i as [|i]; cbn; [intros [= <-]; by rewrite Nat.add_0_r|].
  intros Hi%IH. by rewrite Nat.add_succ_r.
Qed.

Lemma indexed_children_lookup t i c :
  indexed_children t !! i = Some c -> get_child_optional t (pretty i) = Some c.
Proof. apply children_from_lookup. Qed.

Lemma children_from_end fuel t nr :
  (fuel + nr = S (pt_size t))%nat ->
  (forall i, (i < nr)%nat -> get_child_optional t (pretty i) <> None) ->
  get_child_optional t (pretty (nr + length (children_from fuel t nr))%nat) = None.
Proof.
  revert nr; induction fuel as [|fuel IH]; intros nr Hf Hall; cbn.
  - pose proof (pt_size_indices t nr Hall). lia.
  - destruct (get_child_optional t (pretty nr)) as [c|] eqn:E; cbn; [|by rewrite Nat.add_0_r].
    rewrite Nat.add_succ_r. apply (IH (S nr)); [lia|].
    intros i Hi. destruct (decide (i = nr)) as [->|]; [by rewrite E|apply Hall; lia].
Qed.

(** The first number that is missing. *)
Lemma indexed_children_end t : get_child_optional t (pretty (length (indexed_children t))) = None.
Proof. apply (children_from_end (S (pt_size t)) t 0); lia. Qed.

End Numbered.

(** ** A concrete tree *)

Module Tree.

Inductive node := Node (data : string) (children : list (string * node)).

Definition data (t : node) : string := let 'Node d _ := t in d.
Definition children (t : node) : list (string * node) := let 'Node _ l := t in l.

Fixpoint assoc (k : string) (l : list (string * node)) : option node :=
  match l with
  | [] => None
  | (k', t) :: l' => if String.eqb k k' then Some t else assoc k l'
  end.

Fixpoint get (t : node) (ks : list string) : option node :=
  match ks with
  | [] => Some t
  | k :: ks' => match assoc k (children t) with Some c => get c ks' | None => None end
  end.

(** Replaces the first child [k], or appends one. *)
Fixpoint replace (k : string) (c : node) (l : list (string * node)) : list (string * node) :=
  match l with
  | [] => [(k, c)]
  | (k', t) :: l' => if String.eqb k k' then (k', c) :: l' else (k', t) :: replace k c l'
  end.

Fixpoint put (t : node) (ks : list string) (v : string) : node :=
  match ks with
  | [] => Node v (children t)
  | k :: ks' =>
      let c := default (Node "" []) (assoc k (children t)) in
      Node (data t) (replace k (put c ks' v) (children t))
  end.

Lemma assoc_replace k c l : assoc k (replace k c l) = Some c.
Proof.
  induction l as [|[k' t] l IH]; cbn; [by rewrite String.eqb_refl|].
  destruct (String.eqb k k') eqn:E; cbn; rewrite E; done.
Qed.

Lemma assoc_replace_ne k k' c l : k' <> k -> assoc k' (replace k c l) = assoc k' l.
Proof.
  intros Hne. induction l as [|[k0 t] l IH]; cbn.
  - by destruct (String.eqb_spec k' k).
  - destruct (String.eqb_spec k k0) as [->|]; cbn; [|by rewrite IH].
    by destruct (String.eqb_spec k' k0).
Qed.

Lemma get_put_same t ks v : exists c, get (put t ks v) ks = Some c /\ data c = v.
Proof.
  revert t; induction ks as [|k ks IH]; intros t; cbn; [eauto|].
  rewrite assoc_replace. apply IH.
Qed.

Lemma get_put_other t ks ks' v c :
  ks' <> ks -> get t ks' = Some c -> exists c', get (put t ks v) ks' = Some c' /\ data c' = data c.
Proof.
  revert t ks'; induction ks as [|k ks IH]; intros t ks' Hne Hg.
  - destruct ks' as [|k' ks']; [done|]. cbn in *. eauto.
  - destruct ks' as [|k' ks']; cbn in *; [injection Hg as <-; eauto|].
    destruct (decide (k' = k)) as [->|Hk].
    + rewrite assoc_replace. destruct (assoc k (children t)) as [c0|]; [|done]. cbn.
      apply IH; [congruence|done].
    + rewrite assoc_replace_ne by done. destruct (assoc k' (children t)); eauto.
Qed.

Lemma get_put_absent t ks ks' v :
  ~ ks' `prefix_of` ks -> get t ks' = None -> get (put t ks v) ks' = None.
Proof.
  revert t ks'; induction ks as [|k ks IH]; intros t ks' Hne Hg.
  - destruct ks' as [|k' ks']; [done|]. cbn in *. done.
  - destruct ks' as [|k' ks']; [done|]. cbn in *.
    destruct (decide (k' = k)) as [->|Hk]; [|by rewrite assoc_replace_ne].
    rewrite assoc_replace. apply IH.
    + intros Hp. by apply Hne, prefix_cons.
    + destruct (assoc k (children t)) as [c0|]; cbn; [done|].
      destruct ks' as [|k' ks']; [|done]. destruct Hne. by apply prefix_cons, prefix_nil.
Qed.

Lemma data_put t ks v : ks <> [] -> data (put t ks v) = data t.
Proof. by destruct ks. Qed.

Lemma get_put_way t ks ks' v :
  ks' `prefix_of` ks -> ks' <> ks -> get t ks' = None -> exists c, get (put t ks v) ks' = Some c /\ data c = "".
Proof.
  revert t ks'; induction ks as [|k ks IH]; intros t ks' Hp Hne Hg; [by apply prefix_nil_inv in Hp|].
  destruct ks' as [|k' ks']; [done|]. pose proof (prefix_cons_inv_1 _ _ _ _ Hp) as ->.
  apply prefix_cons_inv_2 in Hp. cbn [get put children] in *. rewrite assoc_replace.
  destruct (assoc k (children t)) as [c0|]; cbn [default]; [apply IH; [done|congruence|done]|].
  destruct ks' as [|k1 ks']; [|apply IH; [done|congruence|done]].
  exists (put (Node "" []) ks v). split; [done|]. apply data_put. congruence.
Qed.

(** A decimal number has no point in it: it is one key. *)
Definition no_point (s : string) : Prop :=
  Forall (fun c => c <> "."%char)
         (String.list_ascii_of_string s).

Lemma split_no_point s : no_point s -> split_path s = [s].
Proof.
  induction s as [|c s IH]; [done|]. intros [Hc Hs]%Forall_cons. cbn.
  destruct (Ascii.eqb_spec c ("."%char)); [done|].
  by rewrite IH.
Qed.

Lemma pretty_N_go_no_point x s :
  no_point s -> s <> EmptyString -> no_point (pretty_N_go x s) /\ pretty_N_go x s <> EmptyString.
Proof.
  revert s. induction (N.lt_wf_0 x) as [x _ IH]; intros s Hs Hne.
  destruct (decide (x = 0%N)) as [->|Hx]; [by rewrite pretty_N_go_0|].
  rewrite pretty_N_go_step by lia. apply IH; [apply N.div_lt; lia| |done].
  constructor; [|done]. unfold pretty_N_char.
  repeat match goal with |- context [match ?x with _ => _ end] => destruct x end; done.
Qed.

Lemma pretty_nat_no_point (n : nat) : no_point (pretty n) /\ pretty n <> EmptyString.
Proof.
  change (pretty n) with (pretty (N.of_nat n)). unfold pretty, pretty_N.
  destruct (decide (N.of_nat n = 0%N)) as [E|E].
  - split; [by repeat constructor|done].
  - rewrite pretty_N_go_step by lia. apply pretty_N_go_no_point; [|done].
    constructor; [|constructor]. unfold pretty_N_char.
    repeat match goal with |- context [match ?x with _ => _ end] => destruct x end; done.
Qed.

(** Decimal numbers, the only texts the sample translators accept. *)
Definition digit (c : Ascii.ascii) : option Z :=
  let n := Z.of_N (Ascii.N_of_ascii c) in
  if (48 <=? n)%Z && (n <=? 57)%Z then Some (n - 48)%Z else None.

Fixpoint decimal (acc : Z) (s : string) : option Z :=
  match s with
  | EmptyString => Some acc
  | String c s' => match digit c with Some d => decimal (10 * acc + d)%Z s' | None => None end
  end.

Definition read_unsigned (w : Z) (s : string) : option Z :=
  match s with
  | EmptyString => None
  | _ => match decimal 0 s with Some z => if (z <? 2 ^ w)%Z then Some z else None | None => None end
  end.

Definition read_signed (w : Z) (s : string) : option Z :=
  match s with
  | String "-" s' => match read_unsigned (w - 1) s' with Some z => Some (- z)%Z | None => None end
  | _ => read_unsigned (w - 1) s
  end.

(** A decimal fraction: the digits and the number of them behind the point. *)
Fixpoint fraction_digits (acc scale : Z) (point : bool) (s : string) : option (Z * Z) :=
  match s with
  | EmptyString => Some (acc, scale)
  | String c s' =>
      if Ascii.eqb c "." && negb point then fraction_digits acc scale true s'
      else match digit c with
           | Some d => fraction_digits (10 * acc + d) (if point then 10 * scale else scale)%Z point s'
           | None => None
           end
  end.

(** Numbers out of range are not accepted. *)
Definition in_range (x : fmiTime) : option fmiTime :=
  if f64_is_finite x && f64_valid x then Some x else None.

Definition read_double (s : string) : option fmiTime :=
  match s with
  | EmptyString => None
  | String "-" s' =>
      match fraction_digits 0 1 false s' with
      | Some (n, d) => in_range (f64_of_Z (- n) / f64_of_Z d)%f64 | None => None end
  | _ => match fraction_digits 0 1 false s with
         | Some (n, d) => in_range (f64_of_Z n / f64_of_Z d)%f64 | None => None end
  end.

Lemma in_range_Some x y : in_range x = Some y -> f64_is_finite y = true /\ f64_valid y = true.
Proof. unfold in_range. destruct (_ && _) eqn:E; [|done]. intros [= <-]. by apply andb_prop. Qed.

Lemma read_double_Some s x : read_double s = Some x -> f64_is_finite x = true /\ f64_valid x = true.
Proof.
  unfold read_double. intros Hs. repeat case_match; try done; by eapply in_range_Some.
Qed.

Definition read_bool (s : string) : option bool :=
  if String.eqb s "0" || String.eqb s "false" then Some false
  else if String.eqb s "1" || String.eqb s "true" then Some true else None.

(** Pairwise different keys that all have a child need as many children. *)
Lemma assoc_keys k l c : assoc k l = Some c -> k ∈ map fst l.
Proof.
  induction l as [|[k' t] l IH]; cbn; [done|].
  destruct (String.eqb_spec k k') as [->|]; [left|right; auto].
Qed.

Lemma keys_bound ks l : NoDup ks -> (forall k, k ∈ ks -> assoc k l <> None) -> (length ks <= length l)%nat.
Proof.
  intros Hnd Hall. rewrite <- (length_map fst l).
  apply submseteq_length, NoDup_submseteq; [done|]. intros k Hk.
  destruct (assoc k l) as [c|] eqn:E; [by eapply assoc_keys|]. by apply Hall in Hk.
Qed.

End Tree.

(** The tree as an implementation of the interface. *)
#[export] Instance tree_ptree : PropertyTree := {
  ptree := Tree.node;
  pt_empty := Tree.Node "" [];
  pt_data := Tree.data;
  pt_size t := length (Tree.children t);
  pt_keys t := map fst (Tree.children t);
  get_child_optional t p := Tree.get t (path_keys p);
  put t p v := Tree.put t (path_keys p) v;
  tr_int := Tree.read_signed 32;
  tr_uint32 := Tree.read_unsigned 32;
  tr_uint64 := Tree.read_unsigned 64;
  tr_bool := Tree.read_bool;
  tr_double := Tree.read_double;
  tr_char s := match s with String c EmptyString => Some (Z.of_N (Ascii.N_of_ascii c)) | _ => None end;
  get_error t p := "No such node (" +:+ p +:+ ")";
  write_info t := "";
}.

Lemma tree_get_index (t : Tree.node) (n : nat) :
  Tree.get t (path_keys (pretty n)) = Tree.assoc (pretty n) (Tree.children t).
Proof.
  destruct (Tree.pretty_nat_no_point n) as [Hp Hne].
  unfold path_keys. rewrite Tree.split_no_point by done. cbn [drop_last_empty].
  destruct (String.eqb_spec (pretty n) ""); [done|]. cbn [Tree.get].
  by destruct (Tree.assoc _ _).
Qed.

#[export] Instance tree_ptree_laws : PropertyTreeLaws tree_ptree.
Proof.
  split.
  - intros t k v. apply Tree.get_put_same.
  - intros t k v k' c Hne Hg. cbn in *. by apply Tree.get_put_other.
  - intros t n Hall. cbn in *.
    rewrite <- (length_seq n 0) at 1. rewrite <- (length_map (pretty : nat -> string)).
    apply Tree.keys_bound.
    + apply NoDup_fmap_2; [apply _|apply NoDup_seq].
    + intros k Hk. apply list_elem_of_fmap in Hk as (i & -> & Hi%elem_of_seq).
      specialize (Hall i ltac:(lia)). by rewrite tree_get_index in Hall.
  - intros t k v k' Hne Hg. by apply Tree.get_put_absent.
  - intros t k v k' Hp Hne Hg. by apply Tree.get_put_way.
  - intros t p q E. cbn. by rewrite E.
  - intros k Hk. cbn. by destruct (path_keys k).
  - intros t k v Hk. cbn. by destruct (path_keys k).
Qed.

Lemma Tree_decimal_nonneg acc s z : (0 <= acc)%Z -> Tree.decimal acc s = Some z -> (0 <= z)%Z.
Proof.
  revert acc; induction s as [|c s IH]; intros acc Ha; cbn; [by intros [= <-]|].
  destruct (Tree.digit c) as [d|] eqn:Hd; [|done]. apply IH. unfold Tree.digit in Hd.
  destruct (_ && _) eqn:Hr; [|done]. injection Hd as <-. apply andb_prop in Hr as [?%Z.leb_le _]. lia.
Qed.

#[export] Instance tree_ptree_ranges : PropertyTreeRanges tree_ptree.
Proof.
  split. intros s z. cbn. unfold Tree.read_unsigned.
  destruct s as [|c s]; [done|]. destruct (Tree.decimal 0 _) as [y|] eqn:Hd; [|done].
  apply Tree_decimal_nonneg in Hd; [|lia]. destruct (Z.ltb_spec y (2 ^ 32)); [|done]. by intros [= <-].
Qed.

(** A tree from its leaves, for concrete runs. *)
Definition config_of (kvs : list (string * string)) : @ptree tree_ptree :=
  fold_left (fun t kv => put t kv.1 kv.2) kvs pt_empty.

Example config_of_get :
  let t := config_of [("out.0.0", "u"); ("out.0.0.type", "0"); ("app.startTime", "-1.5")] in
  get_optional tr_string t "out.0.0" = Some "u" /\ get_optional tr_int t "out.0.0.type" = Some 0%Z /\
  get_optional tr_double t "app.startTime" = Some (f64_of_Z (-3) / f64_of_Z 2)%f64 /\
  get_optional tr_int t "out.1" = None.
Proof. vm_compute. done. Qed.
