(* ===== verification/Event.v ===== *)
(** * Interfaces of the timing component

    What the event queue and the dispatcher need to know about an event
    (include/timing/Event.h), the processing stages of the event logger
    (include/timing/EventLogger.h) and the clock library. *)

From S2P Require Import Prelude Float64.

Local Open Scope Z_scope.

(** The part of the abstract class [Event] that the queue uses. *)
Class TimedEvent (E : Type) := { getTime : E -> fmiTime }.

(** [enum ProcessingStage]. *)
Inductive ProcessingStage :=
  | realTimeGeneration
  | prediction
  | endOfDistribution
  | beginOfDistribution
  | outdated
  | locationUndefined.

#[export] Instance ProcessingStage_eq_dec : EqDecision ProcessingStage.
Proof. solve_decision. Defined.

Definition stage_code (s : ProcessingStage) : Z :=
  match s with
  | realTimeGeneration => 0
  | prediction => 1
  | endOfDistribution => 2
  | beginOfDistribution => 3
  | outdated => 4
  | locationUndefined => -1
  end.

(** Boost.Date_Time's time points and durations.  A duration counts ticks of
    the clock's resolution, a time point is an offset in ticks. *)
Class PosixTime := {
  ptime : Type;
  time_duration : Type;
  seconds : Z -> time_duration;
  microseconds : Z -> time_duration;
  dur_add : time_duration -> time_duration -> time_duration;
  ticks : time_duration -> Z;
  ticks_per_second : Z;
  pt_add : ptime -> time_duration -> ptime;
  pt_sub : ptime -> time_duration -> ptime;
  pt_diff : ptime -> ptime -> time_duration;
  pt_gtb : ptime -> ptime -> bool;
}.

(** The documented arithmetic of the library, in terms of tick counts. *)
Class PosixTimeLaws (P : PosixTime) := {
  pt_ticks : ptime -> Z;
  tps_pos : 0 < ticks_per_second;
  tps_micro : (10 ^ 6 | ticks_per_second);
  ticks_seconds n : ticks (seconds n) = n * ticks_per_second;
  ticks_microseconds n : ticks (microseconds n) = n * (ticks_per_second / 10 ^ 6);
  ticks_add a b : ticks (dur_add a b) = ticks a + ticks b;
  pt_ticks_add t d : pt_ticks (pt_add t d) = pt_ticks t + ticks d;
  pt_ticks_sub t d : pt_ticks (pt_sub t d) = pt_ticks t - ticks d;
  ticks_diff a b : ticks (pt_diff a b) = pt_ticks a - pt_ticks b;
  pt_gtb_spec a b : pt_gtb a b = (pt_ticks b <? pt_ticks a);
}.

(** A clock with microsecond resolution, for concrete runs. *)
#[export] Instance micro_clock : PosixTime := {
  ptime := Z;
  time_duration := Z;
  seconds n := n * 10 ^ 6;
  microseconds n := n;
  dur_add := Z.add;
  ticks d := d;
  ticks_per_second := 10 ^ 6;
  pt_add := Z.add;
  pt_sub := Z.sub;
  pt_diff := Z.sub;
  pt_gtb a b := b <? a;
}.

#[export] Instance micro_clock_laws : PosixTimeLaws micro_clock.
Proof.
  refine {| pt_ticks := fun t : @ptime micro_clock => t |}; cbn; intros; try reflexivity.
  by rewrite Z.mul_1_r.
Qed.
