(* ===== verification/TimedEventQueue.v ===== *)
(** * The timed event queue (src/timing/TimedEventQueue.cpp)

    The queue holds the upcoming events, at most one prediction at its head,
    and releases the head when the system clock reaches it.  An operation that
    waits on the initialization barrier returns [Ret None]: the calling thread
    blocks and the state is unchanged. *)

From S2P Require Import Prelude Float64 BaseExceptions Event.

Local Open Scope Z_scope.

(** The tolerance [eps_] used to compare instants of time. *)
Definition eps_ : fmiTime := f64_1em3.

Section TimedEventQueue.
Context {E : Type} `{TimedEvent E} `{PosixTime}.

(** The entries of [queue_]: the event and its [predicted] flag. *)
Notation entry := (E * bool)%type.

Record TimedEventQueue := mk_queue {
  queue_ : list entry;
  localEpoch_ : ptime;
  initialized_ : bool;
  eventLog_ : list (E * ProcessingStage);
}.

Definition set_queue (l : list entry) (q : TimedEventQueue) : TimedEventQueue :=
  {| queue_ := l; localEpoch_ := localEpoch_ q; initialized_ := initialized_ q;
     eventLog_ := eventLog_ q |}.

(** The constructor. *)
Definition new_TimedEventQueue (now : ptime) : TimedEventQueue :=
  {| queue_ := []; localEpoch_ := now; initialized_ := false; eventLog_ := [] |}.

(** [getRelativeTime]: whole seconds plus microseconds.  The conversion of a
    double outside the range of [long] is undefined. *)
Definition getRelativeTime (time : fmiTime) : result time_duration :=
  match f64_to_int64 (f64_floor time),
        f64_to_int64 (((time - f64_floor time) * f64_of_Z 1000) * f64_of_Z 1000)%f64 with
  | Some s, Some us => Ret (dur_add (seconds s) (microseconds us))
  | _, _ => Fault UndefinedBehaviour
  end.

Definition getSystemTime (q : TimedEventQueue) (ev : E) : result ptime :=
  let* d := getRelativeTime (getTime ev) in Ret (pt_add (localEpoch_ q) d).

Definition getSimulationTime (q : TimedEventQueue) (sysTime : ptime) : fmiTime :=
  let evTime := pt_diff sysTime (localEpoch_ q) in
  (f64_of_Z (ticks evTime) / f64_of_Z ticks_per_second)%f64.

Definition isFutureEvent (now : ptime) (q : TimedEventQueue) (ev : E) : result bool :=
  let* evTime := getSystemTime q ev in Ret (pt_gtb evTime now).

(** [initStartTimeNow]: [now] is the clock at the call. *)
Definition initStartTimeNow (start : fmiTime) (now : ptime) (q : TimedEventQueue)
    : result TimedEventQueue :=
  assert_ (match queue_ q with [] => true | _ => false end) ;;;
  let* d := getRelativeTime start in
  assert_ (negb (initialized_ q)) ;;;
  Ret {| queue_ := queue_ q; localEpoch_ := pt_sub now d; initialized_ := true;
         eventLog_ := eventLog_ q |}.

Definition getTimeStampNow (now : ptime) (q : TimedEventQueue) : result (option fmiTime) :=
  if initialized_ q then Ret (Some (getSimulationTime q now)) else Ret None.

(** [deleteEvent]: the event is logged as outdated and destroyed. *)
Definition deleteEvent (ev : E) (q : TimedEventQueue) : TimedEventQueue :=
  {| queue_ := queue_ q; localEpoch_ := localEpoch_ q; initialized_ := initialized_ q;
     eventLog_ := eventLog_ q ++ [(ev, outdated)] |}.

(** No prediction behind the first position. *)
Definition predictions_consistent (l : list entry) : bool :=
  match l with [] => true | _ :: l' => forallb (fun x => negb x.2) l' end.
Definition isQueuePredictionConsistent (q : TimedEventQueue) : bool :=
  predictions_consistent (queue_ q).

Definition hasPriorEvents (maxTime : fmiTime) (q : TimedEventQueue) : bool :=
  match queue_ q with
  | [] => false
  | x :: _ => (getTime x.1 <? maxTime - eps_)%f64
  end.

Definition removeFuturPredictions (time : fmiTime) (q : TimedEventQueue) : result TimedEventQueue :=
  assert_ (isQueuePredictionConsistent q) ;;;
  match queue_ q with
  | x :: l =>
      if x.2 && (getTime x.1 >? time + eps_)%f64
      then Ret (set_queue l (deleteEvent x.1 q)) else Ret q
  | [] => Ret q
  end.

Definition removeConcurrentPrediction (time : fmiTime) (q : TimedEventQueue) : result TimedEventQueue :=
  assert_ (isQueuePredictionConsistent q) ;;;
  match queue_ q with
  | x :: l =>
      if x.2 && (f64_abs (getTime x.1 - time) <=? eps_)%f64
      then Ret (set_queue l (deleteEvent x.1 q)) else Ret q
  | [] => Ret q
  end.

(** The loop of [push]; [old] is [invariantOldTime]. *)
Fixpoint push_scan (ev : E) (predicted : bool) (old : fmiTime) (l : list entry)
    : result (list entry) :=
  match l with
  | [] => Ret [(ev, predicted)]
  | x :: l' =>
      if (getTime x.1 <=? getTime ev + eps_)%f64 && negb predicted then
        assert_ (old <=? getTime x.1 + eps_)%f64 ;;;
        let* r := push_scan ev predicted (getTime x.1) l' in Ret (x :: r)
      else Ret ((ev, predicted) :: x :: l')
  end.

Definition push (ev : E) (predicted : bool) (q : TimedEventQueue) : result TimedEventQueue :=
  assert_ (match queue_ q with [] => true | x :: _ => negb x.2 || negb predicted end) ;;;
  let* l := push_scan ev predicted (f64_of_Z (-1) * f64_DBL_MAX)%f64 (queue_ q) in
  Ret (set_queue l q).

(** [add]: the body runs with [queueMut_] held, after the barrier. *)
Definition add (ev : E) (predicted : bool) (q : TimedEventQueue) : result (option TimedEventQueue) :=
  if negb (initialized_ q) then Ret None else
  let* q1 := removeFuturPredictions (getTime ev) q in
  if predicted && hasPriorEvents (getTime ev) q1 then Ret (Some (deleteEvent ev q1)) else
  let* q2 := if predicted then removeConcurrentPrediction (getTime ev) q1 else Ret q1 in
  let* q3 := push ev predicted q2 in
  Ret (Some q3).

(** [pushExternalEvent]: logged, then added as an external event. *)
Definition pushExternalEvent (ev : E) (q : TimedEventQueue) : result (option TimedEventQueue) :=
  if negb (initialized_ q) then Ret None else
  add ev false {| queue_ := queue_ q; localEpoch_ := localEpoch_ q; initialized_ := initialized_ q;
                  eventLog_ := eventLog_ q ++ [(ev, realTimeGeneration)] |}.

(** [toString]; [text] is [toString] of an event. *)
Fixpoint entries_toString (text : E -> string) (l : list entry) : string :=
  match l with
  | [] => ""
  | x :: l' => text x.1 +:+ (if x.2 then " (predicted)" else " (external)") +:+
               match l' with [] => "" | _ => ", " +:+ entries_toString text l' end
  end.
Definition queue_toString (text : E -> string) (q : TimedEventQueue) : string :=
  "TimedEventQueue: [" +:+ entries_toString text (queue_ q) +:+ "]".

(** One turn of the loop of [get], at the clock reading [now]. *)
Inductive get_status :=
  | WaitForEvent
  | WaitUntil (t : ptime)
  | Deliver (ev : E) (q : TimedEventQueue).

Definition get_step (now : ptime) (q : TimedEventQueue) : result get_status :=
  match queue_ q with
  | [] => Ret WaitForEvent
  | x :: l =>
      let* future := isFutureEvent now q x.1 in
      if future then let* t := getSystemTime q x.1 in Ret (WaitUntil t)
      else Ret (Deliver x.1 (set_queue l q))
  end.

(** What happens while a thread is inside [get]: it wakes up and reads the
    clock, or another thread pushes an external event. *)
Inductive sched_action :=
  | Wake (now : ptime)
  | External (ev : E).

(** [get] under a schedule.  [Ret None]: the schedule ends while the thread is
    still blocked.  Otherwise the event, the queue and the unused schedule. *)
Fixpoint get (sched : list sched_action) (q : TimedEventQueue)
    : result (option (E * TimedEventQueue * list sched_action)) :=
  if negb (initialized_ q) then Ret None else
  match sched with
  | [] => Ret None
  | Wake now :: s =>
      let* st := get_step now q in
      match st with
      | Deliver ev q' => Ret (Some (ev, q', s))
      | _ => get s q
      end
  | External ev :: s =>
      let* o := pushExternalEvent ev q in
      match o with
      | Some q' => get s q'
      | None => Ret None
      end
  end.

End TimedEventQueue.

Arguments TimedEventQueue E {_}.
