(* ===== verification/TimedEventQueueSpec.v ===== *)
(** * Specification of the timed event queue and its refinement

    The abstract queue is one optional prediction and a list of external
    events; [add] and [get] of [TimedEventQueue] implement its operations and
    keep it ordered up to the tolerance [eps_]. *)

From Stdlib Require Import Sorted.
From S2P Require Import Prelude Float64 BaseExceptions Event TimedEventQueue.

Local Open Scope Z_scope.

Section Spec.
Context {E : Type} `{TimedEvent E} `{PosixTime}.

Record spec_queue := { sp_prediction : option E; sp_external : list E }.

(** [a] may stand before [b]: it is not later than [b] by more than [eps_]. *)
Definition before (a b : E) : Prop := (getTime a <=? getTime b + eps_)%f64 = true.

Fixpoint insert_external (ev : E) (l : list E) : list E :=
  match l with
  | [] => [ev]
  | x :: l' =>
      if (getTime x <=? getTime ev + eps_)%f64 then x :: insert_external ev l'
      else ev :: x :: l'
  end.

(** An external event outdates a later prediction and is queued. *)
Definition spec_add_external (ev : E) (s : spec_queue) : spec_queue :=
  {| sp_prediction :=
       match sp_prediction s with
       | Some p => if (getTime p >? getTime ev + eps_)%f64 then None else Some p
       | None => None
       end;
     sp_external := insert_external ev (sp_external s) |}.

(** A prediction is refused when an external event precedes it. *)
Definition spec_refuses (ev : E) (s : spec_queue) : bool :=
  match sp_external s with
  | f :: _ => (getTime f <? getTime ev - eps_)%f64
  | [] => false
  end.

Definition spec_add_prediction (ev : E) (s : spec_queue) : spec_queue :=
  if spec_refuses ev s then s
  else {| sp_prediction := Some ev; sp_external := sp_external s |}.

Definition spec_get (s : spec_queue) : option (E * spec_queue) :=
  match sp_prediction s, sp_external s with
  | Some p, l => Some (p, {| sp_prediction := None; sp_external := l |})
  | None, f :: l => Some (f, {| sp_prediction := None; sp_external := l |})
  | None, [] => None
  end.

Definition ext_entries (l : list E) : list (E * bool) := map (fun e => (e, false)) l.

Definition entries (s : spec_queue) : list (E * bool) :=
  match sp_prediction s with
  | Some p => (p, true) :: ext_entries (sp_external s)
  | None => ext_entries (sp_external s)
  end.

(** The representation relation. *)
Definition represents (q : TimedEventQueue E) (s : spec_queue) : Prop :=
  queue_ q = entries s.

(** The well-formed states: valid times, the external events in order, and no
    external event before the prediction. *)
Record spec_ok (s : spec_queue) : Prop := {
  ok_ext_times : Forall (fun e => time_ok (getTime e) = true) (sp_external s);
  ok_pred_time : forall p, sp_prediction s = Some p -> time_ok (getTime p) = true;
  ok_sorted : StronglySorted before (sp_external s);
  ok_head : forall p f, sp_prediction s = Some p -> head (sp_external s) = Some f -> before p f;
}.

(** ** Facts about times and the tolerance *)

Lemma time_ok_not_nan t : time_ok t = true -> f64_is_nan t = false.
Proof. unfold time_ok. rewrite !andb_true_iff, negb_true_iff. tauto. Qed.

Lemma time_le_add_eps t : time_ok t = true -> (t <=? t + eps_)%f64 = true.
Proof. intros. by apply f64_add_ge. Qed.

Lemma add_eps_not_nan t : time_ok t = true -> f64_is_nan (t + eps_)%f64 = false.
Proof. intros Ht%time_le_add_eps. by apply f64_leb_not_nan in Ht as [_ ?]. Qed.

Lemma before_refl a : time_ok (getTime a) = true -> before a a.
Proof. intros. by apply time_le_add_eps. Qed.

(** Not in front of [ev] within the tolerance means strictly behind it. *)
Lemma not_before_after ev x y :
  time_ok (getTime ev) = true -> time_ok (getTime x) = true ->
  (getTime x <=? getTime ev + eps_)%f64 = false -> before x y -> before ev y.
Proof.
  intros Hev Hx Hlt Hxy. unfold before in *.
  apply f64_leb_false in Hlt; [|by apply time_ok_not_nan|by apply add_eps_not_nan].
  apply f64_ltb_leb in Hlt.
  eapply f64_leb_trans; [by apply time_le_add_eps|].
  by eapply f64_leb_trans.
Qed.

Lemma elem_of_insert_external ev l x : x ∈ insert_external ev l <-> x = ev \/ x ∈ l.
Proof.
  induction l as [|y l IH]; cbn; [rewrite !elem_of_cons; tauto|].
  destruct (_ <=? _)%f64; rewrite !elem_of_cons, ?IH, ?elem_of_cons; tauto.
Qed.

Lemma insert_external_Permutation ev l : insert_external ev l ≡ₚ ev :: l.
Proof.
  induction l as [|x l IH]; cbn; [done|].
  destruct (_ <=? _)%f64; [|done]. rewrite IH. apply Permutation_swap.
Qed.

Lemma insert_external_sorted ev l :
  time_ok (getTime ev) = true -> Forall (fun e => time_ok (getTime e) = true) l ->
  StronglySorted before l -> StronglySorted before (insert_external ev l).
Proof.
  intros Hev Hl Hs. induction Hs as [|x l Hs IH Hx]; cbn; [repeat constructor|].
  apply Forall_cons in Hl as [Hxt Hl].
  destruct (getTime x <=? getTime ev + eps_)%f64 eqn:Hc.
  - constructor; [by apply IH|]. apply Forall_forall. intros y Hy.
    apply elem_of_insert_external in Hy as [->|Hy]; [done|].
    by eapply Forall_forall in Hx.
  - constructor; [by constructor|]. apply Forall_cons. split.
    + eapply not_before_after; [done..|]. by apply before_refl.
    + eapply Forall_impl; [exact Hx|]. intros y Hy. by eapply not_before_after.
Qed.

(** ** The loop of [push] *)

Lemma push_scan_external ev old l :
  time_ok (getTime ev) = true -> Forall (fun e => time_ok (getTime e) = true) l ->
  StronglySorted before l ->
  (forall f, head l = Some f -> (old <=? getTime f + eps_)%f64 = true) ->
  push_scan ev false old (ext_entries l) = Ret (ext_entries (insert_external ev l)).
Proof.
  intros Hev Hl Hs. revert old Hl.
  induction Hs as [|x l Hs IH Hx]; intros old Hl Hold; [done|].
  apply Forall_cons in Hl as [Hxt Hl]. cbn [ext_entries map push_scan insert_external fst negb].
  rewrite andb_true_r. destruct (getTime x <=? getTime ev + eps_)%f64; [|done].
  rewrite (Hold x) by done. cbn [assert_ obind].
  change (map (fun e => (e, false)) l) with (ext_entries l). rewrite IH; [done|done|].
  intros f Hf. destruct l as [|y l]; [done|]. injection Hf as <-.
  by apply Forall_cons in Hx as [? _].
Qed.

Lemma min_double_before t : time_ok t = true ->
  (f64_of_Z (-1) * f64_DBL_MAX <=? t + eps_)%f64 = true.
Proof.
  intros Ht. eapply f64_leb_trans; [|by apply time_le_add_eps].
  unfold time_ok in Ht. apply andb_prop in Ht as [_ Ht].
  eapply f64_leb_trans; [|exact Ht]. vm_compute. reflexivity.
Qed.

Lemma ext_entries_external l : forallb (fun x => negb x.2) (ext_entries l) = true.
Proof. by induction l. Qed.

Lemma entries_consistent s : predictions_consistent (entries s) = true.
Proof.
  destruct s as [[p|] l]; cbn; [apply ext_entries_external|].
  destruct l; [done|]. apply ext_entries_external.
Qed.

(** The consistent queues are those that represent an abstract one. *)
Lemma consistent_represents q :
  isQueuePredictionConsistent q = true -> exists s, represents q s.
Proof.
  unfold isQueuePredictionConsistent, represents.
  assert (Hall : forall l : list (E * bool), forallb (fun x => negb x.2) l = true ->
                 l = ext_entries (map fst l)).
  { induction l as [|[e b] l IH]; cbn; [done|].
    intros [Hb%negb_true_iff Hl]%andb_prop. cbn in Hb. subst b. unfold ext_entries in *. by rewrite <- IH. }
  destruct (queue_ q) as [|[e b] l]; cbn; intros Hc.
  - by exists {| sp_prediction := None; sp_external := [] |}.
  - apply Hall in Hc. destruct b.
    + exists {| sp_prediction := Some e; sp_external := map fst l |}.
      cbn. f_equal. exact Hc.
    + exists {| sp_prediction := None; sp_external := e :: map fst l |}.
      cbn. f_equal. exact Hc.
Qed.

(** ** [add] of an external event *)

(** The state of the queue apart from its entries. *)
Definition same_clock (q q' : TimedEventQueue E) : Prop :=
  localEpoch_ q' = localEpoch_ q /\ initialized_ q' = initialized_ q.

(** What [add] reports as outdated. *)
Definition outdated_by (ev : E) (s : spec_queue) : list (E * ProcessingStage) :=
  match sp_prediction s with
  | Some p => if (getTime p >? getTime ev + eps_)%f64 then [(p, outdated)] else []
  | None => []
  end.

Lemma add_external_spec ev q s :
  initialized_ q = true -> represents q s -> spec_ok s -> time_ok (getTime ev) = true ->
  exists q', add ev false q = Ret (Some q') /\
    represents q' (spec_add_external ev s) /\ same_clock q q' /\
    eventLog_ q' = eventLog_ q ++ outdated_by ev s.
Proof.
  intros Hi Hq [Hel Hep Hes Heh] Hev. destruct q as [l epoch ini log], s as [p ext].
  cbn in *. unfold represents in Hq. cbn in Hq. subst l ini.
  unfold add, removeFuturPredictions. cbn [initialized_ negb queue_].
  rewrite obind_assert by apply entries_consistent.
  destruct p as [p|]; cbn [entries sp_prediction sp_external fst snd andb].
  - unfold outdated_by, spec_add_external. cbn [sp_prediction sp_external].
    destruct (getTime p >? getTime ev + eps_)%f64 eqn:Hp; cbn [obind andb].
    + unfold push. cbn [set_queue queue_ deleteEvent].
      rewrite obind_assert by (destruct ext; reflexivity).
      rewrite push_scan_external; [|done..|].
      * cbn. eexists. split; [reflexivity|]. done.
      * intros f Hf. apply min_double_before.
        destruct ext; [done|]. injection Hf as <-. by apply Forall_cons in Hel as [? _].
    + unfold push. cbn [queue_ snd negb orb obind assert_ push_scan fst]. 
      specialize (Hep p eq_refl).
      assert (Hle : (getTime p <=? getTime ev + eps_)%f64 = true).
      { apply f64_ltb_false; [by apply add_eps_not_nan|by apply time_ok_not_nan|done]. }
      rewrite Hle. cbn [negb andb]. rewrite (min_double_before _ Hep). cbn [assert_ obind].
      rewrite push_scan_external; [|done..|].
      * cbn. eexists. split; [reflexivity|]. unfold represents. cbn.
        by rewrite app_nil_r.
      * intros f Hf. by apply (Heh p f).
  - cbn [obind andb]. destruct ext as [|x ext].
    + cbn. eexists. split; [reflexivity|]. cbn. by rewrite app_nil_r.
    + cbn [ext_entries map snd fst andb obind]. unfold push.
      cbn [queue_ snd negb orb assert_ obind].
      change ((x, false) :: map (fun e => (e, false)) ext) with (ext_entries (x :: ext)).
      rewrite push_scan_external; [|done..|].
      * cbn [obind]. eexists. split; [reflexivity|]. unfold represents. cbn [queue_ set_queue].
        unfold outdated_by. cbn. by rewrite app_nil_r.
      * intros f [= <-]. apply min_double_before. by apply Forall_cons in Hel as [? _].
Qed.

Lemma spec_add_external_ok ev s :
  spec_ok s -> time_ok (getTime ev) = true -> spec_ok (spec_add_external ev s).
Proof.
  intros [Hel Hep Hes Heh] Hev. destruct s as [p ext]. cbn in *.
  assert (Hp' : forall q, sp_prediction (spec_add_external ev {| sp_prediction := p; sp_external := ext |}) = Some q ->
            p = Some q /\ (getTime q >? getTime ev + eps_)%f64 = false).
  { cbn. destruct p as [p|]; [|done]. destruct (_ >? _)%f64 eqn:Hp; [done|]. by intros q [= <-]. }
  split; cbn [sp_external spec_add_external].
  - apply Forall_forall. intros x [->|Hx]%elem_of_insert_external; [done|].
    by eapply Forall_forall in Hel.
  - intros q Hq. apply Hep. by apply Hp' in Hq as [-> _].
  - by apply insert_external_sorted.
  - intros q f Hq Hf. apply Hp' in Hq as [-> Hlt].
    specialize (Hep q eq_refl).
    assert (Hqe : before q ev).
    { apply f64_ltb_false; [by apply add_eps_not_nan|by apply time_ok_not_nan|done]. }
    destruct ext as [|x ext]; cbn in Hf; [by injection Hf as <-|].
    destruct (_ <=? _)%f64; injection Hf as <-; [by apply (Heh q x)|done].
Qed.

(** ** [add] of a prediction *)

(** The two comparisons of a prediction with the first external event, done by
    subtraction in [hasPriorEvents] and by addition in [push], agree. *)
Definition tolerance_agrees (ev f : E) : Prop :=
  (getTime f <? getTime ev - eps_)%f64 = false -> before ev f.

Lemma add_prediction_spec ev q s :
  initialized_ q = true -> represents q s -> sp_prediction s = None ->
  exists q', add ev true q = Ret (Some q') /\
    represents q' (spec_add_prediction ev s) /\ same_clock q q' /\
    eventLog_ q' = eventLog_ q ++ (if spec_refuses ev s then [(ev, outdated)] else []).
Proof.
  intros Hi Hq Hp. destruct q as [l epoch ini log], s as [p ext]. cbn in *. subst ini p.
  unfold represents in Hq. cbn in Hq. subst l.
  unfold add, removeFuturPredictions. cbn [initialized_ negb queue_].
  rewrite obind_assert by apply (entries_consistent {| sp_prediction := None; sp_external := ext |}).
  unfold spec_add_prediction, spec_refuses, removeConcurrentPrediction. cbn [sp_external].
  destruct ext as [|x ext]; cbn [ext_entries map snd andb fst obind hasPriorEvents queue_].
  - cbn. eexists. split; [reflexivity|]. cbn. by rewrite app_nil_r.
  - destruct (getTime x <? getTime ev - eps_)%f64; cbn [andb].
    + eexists. split; [reflexivity|]. done.
    + cbn [queue_ andb snd fst].
      rewrite obind_assert
        by apply (entries_consistent {| sp_prediction := None; sp_external := x :: ext |}).
      cbn [obind]. unfold push. cbn [queue_ snd negb orb assert_ obind push_scan].
      rewrite andb_false_r. cbn. eexists. split; [reflexivity|]. cbn. by rewrite app_nil_r.
Qed.

Lemma spec_add_prediction_ok ev s :
  spec_ok s -> time_ok (getTime ev) = true ->
  (forall f, head (sp_external s) = Some f -> tolerance_agrees ev f) ->
  spec_ok (spec_add_prediction ev s).
Proof.
  intros Hok Hev Ht. unfold spec_add_prediction. destruct (spec_refuses ev s) eqn:Hr; [done|].
  destruct Hok as [Hel Hep Hes Heh]. split; cbn; auto.
  - by intros p [= <-].
  - intros p f [= <-] Hf. apply (Ht f Hf). unfold spec_refuses in Hr.
    destruct (sp_external s); [done|]. by injection Hf as ->.
Qed.

(** ** [get] *)

Lemma get_step_spec now q s t ev s' :
  represents q s -> spec_get s = Some (ev, s') -> getSystemTime q ev = Ret t ->
  if pt_gtb t now then get_step now q = Ret (WaitUntil t)
  else exists q', get_step now q = Ret (Deliver ev q') /\ represents q' s' /\
                  same_clock q q' /\ eventLog_ q' = eventLog_ q.
Proof.
  intros Hq Hs Ht. unfold represents in Hq. unfold get_step. rewrite Hq.
  destruct s as [[p|] [|f l]]; cbn in Hs; try discriminate; injection Hs as <- <-;
    cbn [entries sp_prediction sp_external ext_entries map fst];
    unfold isFutureEvent; rewrite Ht; cbn [obind];
    (destruct (pt_gtb t now); [reflexivity|]); cbn [obind]; eexists; (split; [reflexivity|]); done.
Qed.

Lemma spec_get_ok s ev s' : spec_ok s -> spec_get s = Some (ev, s') -> spec_ok s'.
Proof.
  intros [Hel Hep Hes Heh] Hs. destruct s as [[p|] [|f l]]; cbn in *; try discriminate;
    injection Hs as <- <-; split; cbn; try done.
  - by apply Forall_cons in Hel as [_ ?].
  - by inversion Hes.
Qed.

(** What [get] returns is not later than anything left behind. *)
Lemma spec_get_before s ev s' :
  spec_ok s -> spec_get s = Some (ev, s') ->
  match sp_prediction s with
  | Some p => ev = p /\ forall f, head (sp_external s') = Some f -> before ev f
  | None => Forall (before ev) (sp_external s')
  end.
Proof.
  intros [Hel Hep Hes Heh] Hs. destruct s as [[p|] [|f l]]; cbn in *; try discriminate;
    injection Hs as <- <-; cbn.
  - done.
  - split; [done|]. intros g [= <-]. by apply Heh.
  - by inversion Hes.
Qed.

(** ** No external event is lost *)

Definition externals (q : TimedEventQueue E) : list E :=
  map fst (filter (fun x => x.2 = false) (queue_ q)).

Lemma push_scan_Permutation ev b old l r :
  push_scan ev b old l = Ret r -> r ≡ₚ (ev, b) :: l.
Proof.
  revert old r; induction l as [|x l IH]; intros old r Hr; cbn in Hr; [by inv_ret|].
  destruct (_ && _); [|by inv_ret].
  apply obind_Ret_inv in Hr as (? & _ & Hr). apply obind_Ret_inv in Hr as (l' & Hl & Hr).
  apply IH in Hl. inv_ret. rewrite Hl. apply Permutation_swap.
Qed.

Lemma externals_insert ev b q l :
  l ≡ₚ (ev, b) :: queue_ q ->
  externals (set_queue l q) ≡ₚ if b then externals q else ev :: externals q.
Proof.
  intros Hl. unfold externals. cbn [queue_ set_queue]. rewrite Hl, filter_cons. by destruct b.
Qed.

Lemma remove_externals P x l (q : TimedEventQueue E) q' :
  queue_ q = x :: l ->
  (if x.2 && P then Ret (X:=exn) (set_queue l (deleteEvent x.1 q)) else Ret q) = Ret q' ->
  externals q' = externals q /\ initialized_ q' = initialized_ q.
Proof.
  intros Hq Hr. destruct x as [e []]; cbn in Hr; [destruct P|]; inv_ret; try done.
  unfold externals. cbn. rewrite Hq, filter_cons. done.
Qed.

Lemma removeFuturPredictions_externals t q q' :
  removeFuturPredictions t q = Ret q' ->
  externals q' = externals q /\ initialized_ q' = initialized_ q.
Proof.
  unfold removeFuturPredictions. intros Hr. inv_ret.
  destruct (queue_ q) eqn:Hq; [by inv_ret|]. by eapply remove_externals.
Qed.

Lemma removeConcurrentPrediction_externals t q q' :
  removeConcurrentPrediction t q = Ret q' ->
  externals q' = externals q /\ initialized_ q' = initialized_ q.
Proof.
  unfold removeConcurrentPrediction. intros Hr. inv_ret.
  destruct (queue_ q) eqn:Hq; [by inv_ret|]. by eapply remove_externals.
Qed.

(** [add] keeps every external event and adds the new one, whatever the times. *)
Lemma add_externals ev b q q' :
  add ev b q = Ret (Some q') ->
  externals q' ≡ₚ (if b then externals q else ev :: externals q) /\ initialized_ q' = true.
Proof.
  unfold add. destruct (initialized_ q) eqn:Hi; cbn [negb]; [|discriminate]. intros Hr.
  apply obind_Ret_inv in Hr as (q1 & H1 & Hr).
  apply removeFuturPredictions_externals in H1 as [He1 Hi1].
  destruct (b && _) eqn:Hb.
  - inv_ret. apply andb_prop in Hb as [-> _].
    change (externals (deleteEvent ev q1)) with (externals q1). cbn. by rewrite He1, Hi1.
  - apply obind_Ret_inv in Hr as (q2 & H2 & Hr).
    assert (He2 : externals q2 = externals q /\ initialized_ q2 = true).
    { destruct b; [|by inv_ret; rewrite Hi1].
      apply removeConcurrentPrediction_externals in H2 as [? ?]. split; congruence. }
    destruct He2 as [He2 Hi2].
    unfold push in Hr.
    apply obind_Ret_inv in Hr as (q3 & H3 & Hr). apply obind_Ret_inv in H3 as (? & _ & H3).
    apply obind_Ret_inv in H3 as (l & Hl & H3). inv_ret. apply push_scan_Permutation in Hl.
    split; [|done]. rewrite (externals_insert ev b q2) by done. by rewrite He2.
Qed.

(** The atomic steps of the queue: each runs with the mutex held. *)
Inductive label := LExternal (ev : E) | LPredict (ev : E) | LDeliver (ev : E) (predicted : bool).

Inductive step : TimedEventQueue E -> label -> TimedEventQueue E -> Prop :=
  | step_external q ev q' :
      pushExternalEvent ev q = Ret (Some q') -> step q (LExternal ev) q'
  | step_predict q ev q' :
      add ev true q = Ret (Some q') -> step q (LPredict ev) q'
  | step_deliver q now ev q' b l :
      queue_ q = (ev, b) :: l -> get_step now q = Ret (Deliver ev q') ->
      step q (LDeliver ev b) q'.

Inductive steps : TimedEventQueue E -> list label -> TimedEventQueue E -> Prop :=
  | steps_nil q : steps q [] q
  | steps_cons q1 a q2 tr q3 : step q1 a q2 -> steps q2 tr q3 -> steps q1 (a :: tr) q3.

Definition pushed (tr : list label) : list E :=
  omap (fun a => match a with LExternal ev => Some ev | _ => None end) tr.
Definition delivered (tr : list label) : list E :=
  omap (fun a => match a with LDeliver ev false => Some ev | _ => None end) tr.

Lemma step_conserves q a q' :
  step q a q' -> externals q ++ pushed [a] ≡ₚ delivered [a] ++ externals q'.
Proof.
  destruct 1 as [q ev q' Hs|q ev q' Hs|q now ev q' b l Hq Hs]; cbn.
  - unfold pushExternalEvent in Hs. destruct (negb _); [discriminate|].
    apply add_externals in Hs as [He _]. rewrite He, Permutation_app_comm. done.
  - apply add_externals in Hs as [He _]. by rewrite He, app_nil_r.
  - unfold get_step in Hs. rewrite Hq in Hs. apply obind_Ret_inv in Hs as ([] & _ & Hs).
    { by apply obind_Ret_inv in Hs as (? & _ & [=]). }
    injection Hs as <-.
    unfold externals. cbn. rewrite Hq, filter_cons, app_nil_r. by destruct b.
Qed.

Lemma steps_conserve q tr q' :
  steps q tr q' -> externals q ++ pushed tr ≡ₚ delivered tr ++ externals q'.
Proof.
  induction 1 as [q|q1 a q2 tr q3 Hs _ IH]; [cbn; by rewrite app_nil_r|].
  change (pushed (a :: tr)) with (pushed ([a] ++ tr)).
  change (delivered (a :: tr)) with (delivered ([a] ++ tr)).
  unfold pushed, delivered. rewrite !omap_app. fold (pushed [a]) (delivered [a]) (pushed tr) (delivered tr).
  rewrite app_assoc. rewrite (step_conserves _ _ _ Hs). rewrite <- !app_assoc. by rewrite IH.
Qed.

(** ** The predictions in the queue *)

Definition predictions (l : list (E * bool)) : list E := map fst (filter (fun x => x.2 = true) l).

Lemma predictions_submseteq (l l' : list (E * bool)) : l ⊆+ l' -> predictions l ⊆+ predictions l'.
Proof.
  intros (k & Hk)%submseteq_Permutation. unfold predictions. rewrite Hk, filter_app, map_app. by apply submseteq_inserts_r.
Qed.

Lemma predictions_cons ev b l : predictions ((ev, b) :: l) = if b then ev :: predictions l else predictions l.
Proof. unfold predictions. rewrite filter_cons. by destruct b. Qed.

(** [add] inserts the event and may drop others. *)
Lemma remove_queue P x l (q q' : TimedEventQueue E) :
  queue_ q = x :: l ->
  (if x.2 && P then Ret (X:=exn) (set_queue l (deleteEvent x.1 q)) else Ret q) = Ret q' -> queue_ q' ⊆+ queue_ q.
Proof. intros Hq Hr. destruct (x.2 && P); inv_ret; [|done]. cbn. rewrite Hq. by apply submseteq_cons. Qed.

Lemma removeFutur_queue time (q q' : TimedEventQueue E) : removeFuturPredictions time q = Ret q' -> queue_ q' ⊆+ queue_ q.
Proof.
  unfold removeFuturPredictions. intros Hr. inv_ret.
  destruct (queue_ q) eqn:Hq; [inv_ret; by rewrite Hq|rewrite <- Hq]. by eapply remove_queue.
Qed.
Lemma removeConcurrent_queue time (q q' : TimedEventQueue E) : removeConcurrentPrediction time q = Ret q' -> queue_ q' ⊆+ queue_ q.
Proof.
  unfold removeConcurrentPrediction. intros Hr. inv_ret.
  destruct (queue_ q) eqn:Hq; [inv_ret; by rewrite Hq|rewrite <- Hq]. by eapply remove_queue.
Qed.

Lemma add_queue ev b (q q' : TimedEventQueue E) : add ev b q = Ret (Some q') -> queue_ q' ⊆+ (ev, b) :: queue_ q.
Proof.
  unfold add. destruct (negb (initialized_ q)); [discriminate|]. intros (q1 & H1%removeFutur_queue & Hr)%obind_Ret_inv.
  destruct (b && _); [inv_ret; cbn; by apply submseteq_cons|].
  apply obind_Ret_inv in Hr as (q2 & H2 & Hr). apply obind_Ret_inv in Hr as (q3 & H3 & Hr).
  assert (Hq : queue_ q2 ⊆+ queue_ q).
  { rewrite <- H1. destruct b; [by apply removeConcurrent_queue in H2|by inv_ret]. }
  unfold push in H3. apply obind_Ret_inv in H3 as (? & _ & H3).
  apply obind_Ret_inv in H3 as (l & Hl%push_scan_Permutation & H3). inv_ret.
  cbn. rewrite Hl. by apply submseteq_skip.
Qed.

(** A delivered event is the head of the queue, an external event or a prediction. *)
Lemma get_step_head now (q : TimedEventQueue E) ev q' :
  get_step now q = Ret (Deliver ev q') -> exists b, queue_ q = (ev, b) :: queue_ q'.
Proof.
  unfold get_step. destruct (queue_ q) as [|[e b] l] eqn:Hq; intros Hr; inv_ret; [discriminate|].
  destruct r; inv_ret; [discriminate|]. by exists b.
Qed.

(** ** At most one prediction, at the head *)

Lemma consistent_tail (x : E * bool) l : predictions_consistent (x :: l) = true -> predictions_consistent l = true.
Proof. destruct l as [|y l]; [done|]. cbn. intros [_ ?]%andb_prop. done. Qed.

Lemma all_external_consistent (l : list (E * bool)) :
  forallb (fun x => negb x.2) l = true -> predictions_consistent l = true.
Proof. destruct l; [done|]. cbn. by intros [_ ?]%andb_prop. Qed.

Lemma remove_consistent P x l (q : TimedEventQueue E) q' :
  queue_ q = x :: l -> isQueuePredictionConsistent q = true ->
  (if x.2 && P then Ret (X:=exn) (set_queue l (deleteEvent x.1 q)) else Ret q) = Ret q' ->
  isQueuePredictionConsistent q' = true.
Proof.
  unfold isQueuePredictionConsistent. intros Hq Hc Hr. destruct (_ && _); inv_ret; [|done].
  rewrite Hq in Hc. by apply consistent_tail in Hc.
Qed.

Lemma push_scan_external_tail ev old l r :
  push_scan ev false old l = Ret r ->
  forallb (fun x => negb x.2) l = true -> forallb (fun x => negb x.2) r = true.
Proof.
  intros Hr Hl. apply push_scan_Permutation in Hr.
  apply forallb_forall. intros x Hx. apply list_elem_of_In in Hx. rewrite Hr in Hx.
  apply elem_of_cons in Hx as [->|Hx]; [done|].
  rewrite forallb_forall in Hl. apply Hl. by apply list_elem_of_In.
Qed.

Lemma push_consistent ev b q q' :
  isQueuePredictionConsistent q = true -> push ev b q = Ret q' ->
  (forall x, head (queue_ q) = Some x -> x.2 = true ->
     b = true \/ (getTime x.1 <=? getTime ev + eps_)%f64 = true) ->
  isQueuePredictionConsistent q' = true.
Proof.
  unfold isQueuePredictionConsistent, push. intros Hc Hr Hb.
  apply obind_Ret_inv in Hr as ([] & Ha%assert_Ret_inv & Hr).
  apply obind_Ret_inv in Hr as (r & Hl & Hr).
  inv_ret. cbn [queue_ set_queue]. destruct (queue_ q) as [|[e p] l] eqn:Hq; cbn in Hl; [by inv_ret|].
  cbn in Ha, Hc, Hb. destruct b; cbn [negb] in *.
  - rewrite andb_false_r in Hl. inv_ret. rewrite orb_false_r in Ha. cbn. by rewrite Ha.
  - rewrite andb_true_r in Hl. destruct (_ <=? _)%f64 eqn:Hle.
    + apply obind_Ret_inv in Hl as (? & _ & Hl). apply obind_Ret_inv in Hl as (l' & Hl & Hr).
      inv_ret. by eapply push_scan_external_tail.
    + inv_ret. cbn. destruct p; [|done].
      destruct (Hb (e, true) eq_refl eq_refl) as [?|?]; cbn in *; congruence.
Qed.

Lemma add_consistent ev b q q' :
  f64_is_nan (getTime ev + eps_)%f64 = false ->
  Forall (fun x => f64_is_nan (getTime x.1) = false) (queue_ q) ->
  isQueuePredictionConsistent q = true -> add ev b q = Ret (Some q') ->
  isQueuePredictionConsistent q' = true.
Proof.
  intros Hev Hq Hc Hr. unfold add in Hr. destruct (negb _); [discriminate|].
  apply obind_Ret_inv in Hr as (q1 & H1 & Hr).
  assert (Hq1 : isQueuePredictionConsistent q1 = true /\
                forall x, head (queue_ q1) = Some x -> x.2 = true ->
                  (getTime x.1 <=? getTime ev + eps_)%f64 = true).
  { unfold removeFuturPredictions in H1. apply obind_Ret_inv in H1 as (? & _ & H1).
    destruct (queue_ q) as [|y0 l] eqn:El; [inv_ret; by rewrite El|].
    split; [by eapply remove_consistent|].
    apply Forall_cons in Hq as [Hx Hl]. destruct (y0.2 && _) eqn:Hd; inv_ret.
    - intros y Hy Hp. unfold isQueuePredictionConsistent in Hc. rewrite El in Hc. cbn in Hc, Hy.
      destruct l as [|z l]; [done|]. injection Hy as ->. cbn in Hc. by rewrite Hp in Hc.
    - rewrite El. intros y [= <-] Hp. rewrite Hp in Hd. cbn in Hd. by apply f64_ltb_false. }
  destruct Hq1 as [Hc1 Hh1]. destruct (b && _); [by inv_ret|].
  apply obind_Ret_inv in Hr as (q2 & H2 & Hr). apply obind_Ret_inv in Hr as (q3 & H3 & Hr).
  inv_ret. destruct b.
  - eapply push_consistent; [|exact H3|by left].
    unfold removeConcurrentPrediction in H2. apply obind_Ret_inv in H2 as (? & _ & H2).
    destruct (queue_ q1) as [|y l] eqn:El; [by inv_ret|]. by eapply remove_consistent.
  - inv_ret. eapply push_consistent; [done|exact H3|]. intros x Hx Hp. right. by apply Hh1.
Qed.

End Spec.

(** * Properties of the queue *)

Section Properties.
Context {E : Type} `{TimedEvent E} `{PosixTime}.

Definition spec_events (s : spec_queue (E:=E)) : list E :=
  option_list (sp_prediction s) ++ sp_external s.
Definition spec_push_all (l : list E) (s : spec_queue) : spec_queue :=
  fold_left (fun s ev => spec_add_external ev s) l s.

(** The external events of a schedule. *)
Definition arrivals (sched : list (sched_action (E:=E))) : list E :=
  omap (fun a => match a with External ev => Some ev | Wake _ => None end) sched.

Lemma push_external_spec ev (q : TimedEventQueue E) s :
  initialized_ q = true -> represents q s -> spec_ok s -> time_ok (getTime ev) = true ->
  exists q', pushExternalEvent ev q = Ret (Some q') /\
    represents q' (spec_add_external ev s) /\ spec_ok (spec_add_external ev s) /\
    same_clock q q' /\
    eventLog_ q' = eventLog_ q ++ (ev, realTimeGeneration) :: outdated_by ev s.
Proof.
  intros Hi Hq Hok Hev. unfold pushExternalEvent. rewrite Hi. cbn [negb].
  edestruct (add_external_spec ev) as (q' & -> & Hr & Hc & Hl); [|exact Hq|exact Hok|exact Hev|].
  { reflexivity. }
  exists q'. split; [reflexivity|]. split; [done|]. split; [by apply spec_add_external_ok|].
  split; [by rewrite <- Hi in *|]. rewrite Hl. cbn. by rewrite <- app_assoc.
Qed.

(** The event's system time exists and is reached at [now]. *)
Definition due (now : ptime) (q : TimedEventQueue E) (ev : E) : Prop :=
  exists t, getSystemTime q ev = Ret t /\ pt_gtb t now = false.

Lemma getSystemTime_same_clock (q q' : TimedEventQueue E) ev :
  same_clock q q' -> getSystemTime q' ev = getSystemTime q ev.
Proof. intros [He _]. unfold getSystemTime. by rewrite He. Qed.

Lemma due_same_clock now (q q' : TimedEventQueue E) ev :
  same_clock q q' -> due now q ev -> due now q' ev.
Proof. intros Hc (t & Ht & Hd). exists t. by rewrite (getSystemTime_same_clock q). Qed.

Lemma same_clock_trans (q1 q2 q3 : TimedEventQueue E) :
  same_clock q1 q2 -> same_clock q2 q3 -> same_clock q1 q3.
Proof. intros [? ?] [? ?]. split; congruence. Qed.

Lemma get_step_inv now (q : TimedEventQueue E) s st :
  represents q s -> get_step now q = Ret st ->
  match st with
  | WaitForEvent => spec_get s = None
  | WaitUntil t => exists ev s', spec_get s = Some (ev, s') /\ getSystemTime q ev = Ret t /\
                                 pt_gtb t now = true
  | Deliver ev q' => exists s', spec_get s = Some (ev, s') /\ represents q' s' /\
                                same_clock q q' /\ due now q ev
  end.
Proof.
  intros Hq Hr. destruct (spec_get s) as [[ev s']|] eqn:Hs.
  - assert (Ht : exists t, getSystemTime q ev = Ret t).
    { unfold get_step in Hr. rewrite Hq in Hr. destruct s as [[p|] [|f l]]; cbn in Hs, Hr;
        try discriminate; injection Hs as <- <-;
        apply obind_Ret_inv in Hr as (? & Hf & _); unfold isFutureEvent in Hf;
        apply obind_Ret_inv in Hf as (t & Ht & _); by exists t. }
    destruct Ht as [t Ht]. pose proof (get_step_spec now q s t ev s' Hq Hs Ht) as Hg.
    destruct (pt_gtb t now) eqn:Hgt.
    + rewrite Hg in Hr. inv_ret. eauto 6.
    + destruct Hg as (q' & Hg & Hq' & Hc & _). rewrite Hg in Hr. inv_ret.
      exists s'. split; [done|]. split; [done|]. split; [done|]. by exists t.
  - unfold get_step in Hr. rewrite Hq in Hr.
    destruct s as [[p|] [|f l]]; cbn in Hs, Hr; try discriminate. by inv_ret.
Qed.

Lemma get_sched_sound sched (q : TimedEventQueue E) s ev q' rest :
  initialized_ q = true -> represents q s -> spec_ok s ->
  Forall (fun e => time_ok (getTime e) = true) (arrivals sched) ->
  get sched q = Ret (Some (ev, q', rest)) ->
  exists used now s',
    sched = used ++ Wake now :: rest /\
    spec_get (spec_push_all (arrivals used) s) = Some (ev, s') /\
    represents q' s' /\ spec_ok s' /\ due now q ev.
Proof.
  revert q s. induction sched as [|[now|e] sched IH]; intros q s Hi Hq Hok Ht Hg;
    cbn in Hg; rewrite Hi in Hg; cbn [negb] in Hg; [discriminate| |].
  - apply obind_Ret_inv in Hg as (st & Hst & Hg).
    apply (get_step_inv now q s st Hq) in Hst. destruct st as [|t|ev0 q0].
    + destruct (IH q s Hi Hq Hok Ht Hg) as (used & now' & s' & -> & ?). by exists (Wake now :: used), now', s'.
    + destruct (IH q s Hi Hq Hok Ht Hg) as (used & now' & s' & -> & ?). by exists (Wake now :: used), now', s'.
    + injection Hg as -> -> ->. destruct Hst as (s' & Hs & Hr & Hc & Hd).
      exists [], now, s'. cbn. repeat (split; [done|]). split; [by eapply spec_get_ok|done].
  - apply Forall_cons in Ht as [He Ht].
    destruct (push_external_spec e q s Hi Hq Hok He) as (q1 & Hp & Hr1 & Hok1 & Hc1 & _).
    rewrite Hp in Hg. cbn [obind] in Hg.
    destruct (IH q1 (spec_add_external e s)) as (used & now & s' & -> & ? & ? & ? & Hd); [|done..|].
    { destruct Hc1 as [_ ->]. done. }
    exists (External e :: used), now, s'. repeat (split; [done|]).
    eapply due_same_clock; [|exact Hd]. destruct Hc1. by split.
Qed.

Lemma spec_events_add_external ev s e :
  e ∈ spec_events (spec_add_external ev s) -> e = ev \/ e ∈ spec_events s.
Proof.
  unfold spec_events. cbn. rewrite !elem_of_app, elem_of_insert_external.
  destruct (sp_prediction s); cbn; [destruct (_ >? _)%f64; cbn|]; rewrite ?elem_of_cons; tauto.
Qed.

Lemma spec_get_elem s ev s' : spec_get s = Some (ev, s') -> ev ∈ spec_events s.
Proof.
  unfold spec_events. destruct s as [[p|] [|f l]]; cbn; try discriminate; intros [= <- <-]; set_solver.
Qed.

Lemma spec_get_some s e : e ∈ spec_events s -> exists r, spec_get s = Some r.
Proof.
  unfold spec_events. destruct s as [[p|] [|f l]]; cbn; try (intros _; by eexists).
  by intros ?%elem_of_nil.
Qed.

Lemma spec_events_added ev s : ev ∈ spec_events (spec_add_external ev s).
Proof. unfold spec_events. cbn. rewrite elem_of_app, elem_of_insert_external. auto. Qed.

Lemma get_sched_complete used now (q : TimedEventQueue E) s e0 :
  initialized_ q = true -> represents q s -> spec_ok s ->
  Forall (fun e => time_ok (getTime e) = true) (arrivals used) ->
  e0 ∈ spec_events s ++ arrivals used ->
  (forall e, e ∈ spec_events s ++ arrivals used -> due now q e) ->
  exists r, get (used ++ [Wake now]) q = Ret (Some r).
Proof.
  revert q s e0. induction used as [|[w|e] used IH]; intros q s e0 Hi Hq Hok Ht Hne Hdue;
    cbn; rewrite Hi; cbn [negb].
  - rewrite app_nil_r in Hne. destruct (spec_get_some _ _ Hne) as [[ev s'] Hs].
    destruct (Hdue ev) as (t & Hst & Hgt).
    { rewrite app_nil_r. by eapply spec_get_elem. }
    pose proof (get_step_spec now q s t ev s' Hq Hs Hst) as Hg. rewrite Hgt in Hg.
    destruct Hg as (q' & -> & _). cbn. eauto.
  - destruct (spec_get s) as [[ev s']|] eqn:Hs.
    + destruct (Hdue ev) as (t & Hst & Hgt).
      { apply elem_of_app. left. by eapply spec_get_elem. }
      pose proof (get_step_spec w q s t ev s' Hq Hs Hst) as Hg.
      destruct (pt_gtb t w).
      * rewrite Hg. cbn. by apply (IH q s e0).
      * destruct Hg as (q' & -> & _). cbn. eauto.
    + assert (Hg : get_step w q = Ret WaitForEvent).
      { unfold get_step. rewrite Hq. destruct s as [[p|] [|f l]]; done. }
      rewrite Hg. cbn. by apply (IH q s e0).
  - apply Forall_cons in Ht as [He Ht].
    destruct (push_external_spec e q s Hi Hq Hok He) as (q1 & -> & Hr1 & Hok1 & Hc1 & _).
    cbn [obind]. apply (IH q1 (spec_add_external e s) e); [|done..| |].
    + destruct Hc1 as [_ ->]. done.
    + apply elem_of_app. left. apply spec_events_added.
    + intros x [Hx%spec_events_add_external|Hx]%elem_of_app;
        (eapply due_same_clock; [exact Hc1|]); apply Hdue; rewrite elem_of_app; cbn;
        rewrite elem_of_cons; tauto.
Qed.

(** C3: adding an external event to a started queue never blocks, throws or
    fails an assertion: it outdates a prediction that lies more than the
    tolerance behind it, inserts the event into the ordered list of external
    events, logs both facts, and the result is well formed again. *)
Theorem queue_add_external_refines ev (q : TimedEventQueue E) s :
  initialized_ q = true -> represents q s -> spec_ok s -> time_ok (getTime ev) = true ->
  exists q', pushExternalEvent ev q = Ret (Some q') /\
    represents q' (spec_add_external ev s) /\ spec_ok (spec_add_external ev s) /\
    same_clock q q' /\
    eventLog_ q' = eventLog_ q ++ (ev, realTimeGeneration) :: outdated_by ev s.
Proof. apply push_external_spec. Qed.

(** Adding a prediction while none is pending either puts it at the head or,
    when an external event precedes it by more than the tolerance, reports it
    as outdated and leaves the entries as they were; the result is well formed
    again when the two ways of comparing with the tolerance agree. *)
Theorem queue_add_prediction_refines ev (q : TimedEventQueue E) s :
  initialized_ q = true -> represents q s -> spec_ok s -> sp_prediction s = None ->
  time_ok (getTime ev) = true ->
  (forall f, head (sp_external s) = Some f -> tolerance_agrees ev f) ->
  exists q', add ev true q = Ret (Some q') /\
    represents q' (spec_add_prediction ev s) /\ spec_ok (spec_add_prediction ev s) /\
    (spec_refuses ev s = true -> queue_ q' = queue_ q) /\
    eventLog_ q' = eventLog_ q ++ (if spec_refuses ev s then [(ev, outdated)] else []).
Proof.
  intros Hi Hq Hok Hp Ht Ha.
  destruct (add_prediction_spec ev q s Hi Hq Hp) as (q' & Hr & Hq' & _ & Hl).
  exists q'. split; [done|]. split; [done|].
  split; [by apply spec_add_prediction_ok|]. split; [|done].
  intros Hf. rewrite Hq', Hq. unfold spec_add_prediction. by rewrite Hf.
Qed.

(** C4: whatever the interleaving of clock readings and arriving events, an
    event that [get] returns is the first event of the abstract queue at that
    moment, its system time has been reached, and nothing left in the queue
    precedes it. *)
Theorem queue_get_timely sched (q : TimedEventQueue E) s ev q' rest :
  initialized_ q = true -> represents q s -> spec_ok s ->
  Forall (fun e => time_ok (getTime e) = true) (arrivals sched) ->
  get sched q = Ret (Some (ev, q', rest)) ->
  exists used now s',
    sched = used ++ Wake now :: rest /\ due now q ev /\
    spec_get (spec_push_all (arrivals used) s) = Some (ev, s') /\
    represents q' s' /\ spec_ok s' /\
    (forall f, head (sp_external s') = Some f -> before ev f).
Proof.
  intros Hi Hq Hok Ht Hg.
  destruct (get_sched_sound _ _ _ _ _ _ Hi Hq Hok Ht Hg) as (used & now & s' & -> & Hs & ? & ? & ?).
  exists used, now, s'. repeat (split; [done|]).
  assert (Hpok : spec_ok (spec_push_all (arrivals used) s)).
  { clear - Hok Ht. unfold arrivals in Ht. rewrite omap_app in Ht. apply Forall_app in Ht as [Ht _].
    fold (arrivals used) in Ht. revert s Hok. induction Ht as [|e l He _ IH]; intros s Hok; [done|].
    apply IH. by apply spec_add_external_ok. }
  pose proof (spec_get_before _ _ _ Hpok Hs) as Hb. intros f Hf.
  destruct (sp_prediction _).
  - destruct Hb as [_ Hb]. by apply Hb.
  - destruct (sp_external s'); [done|]. injection Hf as <-. by apply Forall_cons in Hb as [? _].
Qed.

(** C37: [get] returns.  Once the clock has reached every event that is queued or
    arrives meanwhile, and there is one, a wake-up makes it return. *)
Theorem queue_get_returns used now (q : TimedEventQueue E) s e0 :
  initialized_ q = true -> represents q s -> spec_ok s ->
  Forall (fun e => time_ok (getTime e) = true) (arrivals used) ->
  e0 ∈ spec_events s ++ arrivals used ->
  (forall e, e ∈ spec_events s ++ arrivals used -> due now q e) ->
  exists ev q' rest, get (used ++ [Wake now]) q = Ret (Some (ev, q', rest)).
Proof.
  intros. destruct (get_sched_complete used now q s e0) as [[[? ?] ?] ?]; eauto.
Qed.

(** No external event is lost or duplicated: in every execution of the
    queue's atomic operations, the external events pushed are those delivered
    plus those still queued.  Only predictions are ever discarded. *)
Theorem queue_no_event_lost (epoch : ptime) tr (q' : TimedEventQueue E) start now :
  (exists q, initStartTimeNow start now (new_TimedEventQueue epoch) = Ret q /\ steps q tr q') ->
  pushed tr ≡ₚ delivered tr ++ externals q'.
Proof.
  intros (q & Hi & Hs). apply steps_conserve in Hs. rewrite <- Hs.
  unfold initStartTimeNow in Hi. cbn in Hi. apply obind_Ret_inv in Hi as (d & _ & Hi). by inv_ret.
Qed.

(** The invariant of the queue's comment: a prediction can only be at the
    first position, for every add that completes on times that are numbers. *)
Theorem queue_prediction_first ev b (q q' : TimedEventQueue E) :
  f64_is_nan (getTime ev + eps_)%f64 = false ->
  Forall (fun x => f64_is_nan (getTime x.1) = false) (queue_ q) ->
  isQueuePredictionConsistent q = true -> add ev b q = Ret (Some q') ->
  isQueuePredictionConsistent q' = true.
Proof. apply add_consistent. Qed.

End Properties.

(** * Concrete queues *)

#[export] Instance sample_event : TimedEvent (nat * fmiTime) := { getTime := snd }.

(** [n] milliseconds as a double. *)
Definition ms (n : Z) : fmiTime := (f64_of_Z n / f64_of_Z 1000)%f64.
(** A reading of the clock, in microseconds. *)
Definition at_us (n : Z) : @ptime micro_clock := n.
Definition sample (n : nat) (t : Z) : nat * fmiTime := (n, ms t).
Definition started : TimedEventQueue (nat * fmiTime) :=
  {| queue_ := []; localEpoch_ := at_us 0; initialized_ := true; eventLog_ := [] |}.
Definition sample_queue : TimedEventQueue (nat * fmiTime) :=
  set_queue [(sample 1 900, true); (sample 2 1000, false)] started.
Definition sample_spec : spec_queue :=
  {| sp_prediction := Some (sample 1 900); sp_external := [sample 2 1000] |}.

Ltac spec_ok_by_computation :=
  split; cbn [sp_prediction sp_external];
  [ repeat (apply Forall_cons; split; [vm_compute; reflexivity|]); apply Forall_nil; exact I
  | intros ? [=]; subst; vm_compute; reflexivity
  | repeat (apply SSorted_cons || apply SSorted_nil || apply Forall_nil || (apply Forall_cons; split));
    try exact I; vm_compute; reflexivity
  | intros ? ? [=] [=]; subst; vm_compute; reflexivity ].

Lemma sample_spec_ok : spec_ok sample_spec.
Proof. spec_ok_by_computation. Qed.

Lemma queue_add_external_refines_witness :
  exists q', pushExternalEvent (sample 3 500) sample_queue = Ret (Some q') /\
    represents q' {| sp_prediction := None; sp_external := [sample 3 500; sample 2 1000] |}.
Proof.
  destruct (queue_add_external_refines (sample 3 500) sample_queue sample_spec)
    as (q' & Hr & Hq & _); [reflexivity|reflexivity|apply sample_spec_ok|vm_compute; reflexivity|].
  exists q'. split; [exact Hr|]. exact Hq.
Defined.

Definition waiting_queue : TimedEventQueue (nat * fmiTime) :=
  set_queue [(sample 2 1000, false)] started.
Definition waiting_spec : spec_queue :=
  {| sp_prediction := None; sp_external := [sample 2 1000] |}.

Lemma waiting_spec_ok : spec_ok waiting_spec.
Proof. spec_ok_by_computation. Qed.

Lemma queue_add_prediction_refines_witness :
  exists q', add (sample 1 1500) true waiting_queue = Ret (Some q') /\
    queue_ q' = queue_ waiting_queue /\ eventLog_ q' = [(sample 1 1500, outdated)].
Proof.
  destruct (queue_add_prediction_refines (sample 1 1500) waiting_queue waiting_spec)
    as (q' & Hr & _ & _ & Hq & Hl);
    [reflexivity|reflexivity|apply waiting_spec_ok|reflexivity|vm_compute; reflexivity| |].
  - intros f [= <-]. vm_compute. discriminate.
  - exists q'. split; [exact Hr|]. split; [apply Hq; vm_compute; reflexivity|exact Hl].
Defined.

Definition sample_schedule : list (sched_action (E := nat * fmiTime)) :=
  [Wake (at_us 100000); External (sample 3 300); Wake (at_us 200000); Wake (at_us 300500)].

(** What is left in the queue after [get] under the schedule. *)
Definition after_get : TimedEventQueue (nat * fmiTime) :=
  match get sample_schedule sample_queue with Ret (Some (_, q, _)) => q | _ => started end.

Lemma queue_get_timely_witness :
  exists used now s',
    sample_schedule = used ++ Wake now :: [] /\
    spec_get (spec_push_all (arrivals used) sample_spec) = Some (sample 3 300, s').
Proof.
  destruct (queue_get_timely sample_schedule sample_queue sample_spec (sample 3 300) after_get [])
    as (used & now & s' & Hu & _ & Hs & _);
    [reflexivity|reflexivity|apply sample_spec_ok| |vm_compute; reflexivity|].
  - apply Forall_cons. split; [vm_compute; reflexivity|]. apply Forall_nil. exact I.
  - exists used, now, s'. split; [exact Hu|exact Hs].
Defined.

Lemma queue_get_returns_witness :
  exists ev q' rest, get ([External (sample 3 300)] ++ [Wake (at_us 300000)]) started = Ret (Some (ev, q', rest)).
Proof.
  apply (queue_get_returns [External (sample 3 300)] (at_us 300000) started
           {| sp_prediction := None; sp_external := [] |} (sample 3 300));
    [reflexivity|reflexivity|spec_ok_by_computation| | |].
  - apply Forall_cons. split; [vm_compute; reflexivity|]. apply Forall_nil. exact I.
  - apply list_elem_of_In. left. reflexivity.
  - intros e He. apply list_elem_of_In in He as [<-|[]].
    exists (at_us 300000). split; [vm_compute; reflexivity|reflexivity].
Defined.

(** An external event outdates a prediction and is delivered; another stays. *)
Definition sample_trace : list (label (E := nat * fmiTime)) :=
  [LPredict (sample 1 900); LExternal (sample 3 300); LExternal (sample 4 700);
   LDeliver (sample 3 300) false].

Lemma queue_no_event_lost_witness :
  exists q', pushed sample_trace ≡ₚ delivered sample_trace ++ externals q'.
Proof.
  eexists. apply (queue_no_event_lost (at_us 0) sample_trace _ f64_zero (at_us 0)).
  eexists. split; [vm_compute; reflexivity|]. unfold sample_trace.
  eapply steps_cons; [apply step_predict; vm_compute; reflexivity|].
  eapply steps_cons; [apply step_external; vm_compute; reflexivity|].
  eapply steps_cons; [apply step_external; vm_compute; reflexivity|].
  eapply steps_cons; [eapply (step_deliver _ (at_us 300000)); vm_compute; reflexivity|].
  apply steps_nil.
Defined.

Lemma queue_prediction_first_witness :
  exists q', add (sample 3 500) false sample_queue = Ret (Some q') /\
    isQueuePredictionConsistent q' = true.
Proof.
  eexists. split; [vm_compute; reflexivity|].
  apply (queue_prediction_first (sample 3 500) false sample_queue);
    [vm_compute; reflexivity| |reflexivity|vm_compute; reflexivity].
  repeat (apply Forall_cons; split; [vm_compute; reflexivity|]). apply Forall_nil. exact I.
Defined.

(** ** Two predictions in a row

    The dispatcher asks for the next event before it adds another prediction.
    A client that replaces a pending prediction meets two defects. *)

(** [n] tenths of a millisecond as a double. *)
Definition tenth_ms (n : Z) : fmiTime := (f64_of_Z n / f64_of_Z 10000)%f64.

(** Adding events and predictions, given in tenths of a millisecond. *)
Definition add_all (l : list (Z * bool)) : result (option (TimedEventQueue (nat * fmiTime))) :=
  foldlM (fun o x => match o with Some q => add (0%nat, tenth_ms x.1) x.2 q | None => Ret None end)
         (Some started) l.

Definition times_of (r : result (option (TimedEventQueue (nat * fmiTime)))) : list (fmiTime * bool) :=
  match r with Ret (Some q) => map (fun x => (getTime x.1, x.2)) (queue_ q) | _ => [] end.

(** [add] tests for prior events before it removes the old prediction, so a
    new prediction hides behind the one it replaces: it is queued ahead of an
    external event that is earlier by more than the tolerance, and the next
    external event makes the ordering assertion of [push] fail. *)
Theorem queue_stale_prediction_kept :
  times_of (add_all [(10000, false); (10009, true); (10018, true)])
    = [(tenth_ms 10018, true); (tenth_ms 10000, false)] /\
  (tenth_ms 10000 <? tenth_ms 10018 - eps_)%f64 = true /\
  add_all [(10000, false); (10009, true); (10018, true); (10030, false)] = Fault AssertionFailed.
Proof. vm_compute. repeat split; reflexivity. Qed.

(** The three comparisons with the tolerance do not cover all doubles: a
    prediction 1 ms before the pending one is neither earlier, concurrent nor
    later, and [push] fails its assertion. *)
Theorem queue_rounding_gap :
  add_all [(3010, true); (3000, true)] = Fault AssertionFailed.
Proof. vm_compute. reflexivity. Qed.
