(* ===== verification/QueueMonitor.v ===== *)
(** * The event queue and its threads (src/timing/TimedEventQueue.cpp)

    The member functions of [TimedEventQueue] step by step, as the threads of the program
    execute them: the mutex of the queue, the condition variable [newEventCondition_], and
    the barrier [InitializationBarrier] with a mutex and a condition variable of its own.
    Thread 0 is the dispatcher, which initialises the time once, adds predictions and gets
    events; every other thread belongs to a subscriber, which pushes external events and
    asks for time stamps. *)

From S2P Require Import Prelude Float64 BaseExceptions Event TimedEventQueue.

Local Open Scope Z_scope.

Section Monitor.
Context {E : Type} `{TimedEvent E} `{PosixTime}.

(** The operations on the queue that take effect at once. *)
Inductive operation :=
  | OInit (start : fmiTime) (now : ptime)
  | OLog (ev : E)
  | OAdd (ev : E) (predicted : bool)
  | OGet (now : ptime) (ev : E).

(** What a call does behind the barrier. *)
Inductive continuation :=
  | ThenLog (ev : E)                   (** [pushExternalEvent]: logs the event *)
  | ThenAdd (ev : E) (predicted : bool)
  | ThenGet
  | ThenStamp (now : ptime).           (** [getTimeStampNow]: has read the clock *)

(** The point a thread has reached, named by what it does next. *)
Inductive point :=
  | Idle                               (** outside the queue *)
  | InitCheck (start : fmiTime)        (** [initStartTimeNow]: the assertion *)
  | InitEpoch (start : fmiTime)        (** reads the clock *)
  | InitCorrect (start : fmiTime) (now : ptime)
  | InitLock (start : fmiTime) (now : ptime)   (** [notifyInitialized] *)
  | InitSet (start : fmiTime) (now : ptime)
  | InitUnlock
  | BarrierLock (k : continuation)     (** [waitIfUninitialized] *)
  | BarrierTest (k : continuation)
  | BarrierSleep (k : continuation)    (** waits on [initializationCondition_] *)
  | BarrierAwake (k : continuation)    (** has been woken, waits for the mutex *)
  | BarrierUnlock (k : continuation)
  | LogPush (ev : E)                   (** [pushExternalEvent], then calls [add] *)
  | AddLock (ev : E) (predicted : bool)
  | AddFuture (ev : E) (predicted : bool)      (** [removeFuturPredictions] *)
  | AddPrior (ev : E) (predicted : bool)       (** [hasPriorEvents] *)
  | AddConcurrent (ev : E) (predicted : bool)  (** [removeConcurrentPrediction] *)
  | AddPush (ev : E) (predicted : bool)
  | AddNotify (ev : E) (predicted : bool)
  | AddUnlock (ev : E) (predicted : bool)
  | GetLock
  | GetTest                            (** a turn of the loop *)
  | GetSleep (deadline : option ptime) (** waits on [newEventCondition_] *)
  | GetAwake                           (** has been woken, waits for the mutex *)
  | GetUnlock (now : ptime) (ev : E)
  | StampRead (now : ptime).           (** [getSimulationTime] *)

(** A thread, with what its calls have done so far; [stamps] are the time stamps it has
    read. *)
Record thread := { pc : point; effects : list operation; stamps : list fmiTime }.

Record Monitor := {
  timed : TimedEventQueue E;
  queueMut_ : option nat;
  accessMut_ : option nat;
  threads : list thread;
}.

(** The dispatcher is about to call [initStartTimeNow]; the other threads may call the
    queue already. *)
Definition new_thread (p : point) : thread := {| pc := p; effects := []; stamps := [] |}.
Definition new_Monitor (n : nat) (start : fmiTime) (now : ptime) : Monitor := {|
  timed := new_TimedEventQueue now; queueMut_ := None; accessMut_ := None;
  threads := new_thread (InitCheck start) :: replicate n (new_thread Idle);
|}.

(** What a thread does next where it has a choice: an idle thread calls a function; the
    clock, where it is read; a sleeping thread wakes up without a notification. *)
Inductive input :=
  | Go
  | Clock (now : ptime)
  | CallPush (ev : E)
  | CallStamp (now : ptime)
  | CallPredict (ev : E)
  | CallGet
  | Spurious.

Definition goto (p : point) (t : thread) : thread := {| pc := p; effects := effects t; stamps := stamps t |}.
Definition commit (l : list operation) (t : thread) : thread :=
  {| pc := pc t; effects := effects t ++ l; stamps := stamps t |}.
Definition set_thread (i : nat) (t : thread) (s : Monitor) : Monitor :=
  {| timed := timed s; queueMut_ := queueMut_ s; accessMut_ := accessMut_ s; threads := <[i := t]> (threads s) |}.
Definition set_timed (q : TimedEventQueue E) (s : Monitor) : Monitor :=
  {| timed := q; queueMut_ := queueMut_ s; accessMut_ := accessMut_ s; threads := threads s |}.
Definition set_queueMut (o : option nat) (s : Monitor) : Monitor :=
  {| timed := timed s; queueMut_ := o; accessMut_ := accessMut_ s; threads := threads s |}.
Definition set_accessMut (o : option nat) (s : Monitor) : Monitor :=
  {| timed := timed s; queueMut_ := queueMut_ s; accessMut_ := o; threads := threads s |}.

(** The epoch and the flag of the queue, and an entry of the log. *)
Definition set_epoch (epoch : ptime) (q : TimedEventQueue E) : TimedEventQueue E :=
  {| queue_ := queue_ q; localEpoch_ := epoch; initialized_ := initialized_ q; eventLog_ := eventLog_ q |}.
Definition set_initialized (q : TimedEventQueue E) : TimedEventQueue E :=
  {| queue_ := queue_ q; localEpoch_ := localEpoch_ q; initialized_ := true; eventLog_ := eventLog_ q |}.
Definition log_entries (l : list (E * ProcessingStage)) (q : TimedEventQueue E) : TimedEventQueue E :=
  {| queue_ := queue_ q; localEpoch_ := localEpoch_ q; initialized_ := initialized_ q; eventLog_ := eventLog_ q ++ l |}.

(** [newEventCondition_.notify_one()]: only the dispatcher waits there. *)
Definition wake_get (t : thread) : thread := match pc t with GetSleep _ => goto GetAwake t | _ => t end.
Definition notify_one (s : Monitor) : Monitor :=
  {| timed := timed s; queueMut_ := queueMut_ s; accessMut_ := accessMut_ s; threads := alter wake_get 0%nat (threads s) |}.

(** [initializationCondition_.notify_all()]. *)
Definition wake_barrier (t : thread) : thread := match pc t with BarrierSleep k => goto (BarrierAwake k) t | _ => t end.
Definition notify_all (s : Monitor) : Monitor :=
  {| timed := timed s; queueMut_ := queueMut_ s; accessMut_ := accessMut_ s; threads := map wake_barrier (threads s) |}.

(** The first point of a call, and the threads that make it. *)
Definition called (i : nat) (inp : input) : option point :=
  match inp, i with
  | CallPredict ev, O => Some (BarrierLock (ThenAdd ev true))
  | CallGet, O => Some (BarrierLock ThenGet)
  | CallPush ev, S _ => Some (BarrierLock (ThenLog ev))
  | CallStamp now, S _ => Some (BarrierLock (ThenStamp now))
  | _, _ => None
  end.

Definition behind_barrier (k : continuation) : point :=
  match k with
  | ThenLog ev => LogPush ev
  | ThenAdd ev predicted => AddLock ev predicted
  | ThenGet => GetLock
  | ThenStamp now => StampRead now
  end.

Definition done (s : Monitor) : option (result Monitor) := Some (Ret s).

(** A thread locks a mutex, or waits for it. *)
Definition lock_queue (i : nat) (p : point) (t : thread) (s : Monitor) : option (result Monitor) :=
  match queueMut_ s with None => done (set_thread i (goto p t) (set_queueMut (Some i) s)) | Some _ => None end.
Definition lock_access (i : nat) (p : point) (t : thread) (s : Monitor) : option (result Monitor) :=
  match accessMut_ s with None => done (set_thread i (goto p t) (set_accessMut (Some i) s)) | Some _ => None end.

(** [initStartTimeNow] and [notifyInitialized]. *)
Definition init_step (i : nat) (inp : input) (t : thread) (s : Monitor) : option (result Monitor) :=
  match pc t, inp with
  | InitCheck start, Go =>
      Some (assert_ (match queue_ (timed s) with [] => true | _ => false end) ;;;
            Ret (set_thread i (goto (InitEpoch start) t) s))
  | InitEpoch start, Clock now =>
      done (set_thread i (goto (InitCorrect start now) t) (set_timed (set_epoch now (timed s)) s))
  | InitCorrect start now, Go =>
      Some (let* d := getRelativeTime start in
            Ret (set_thread i (goto (InitLock start now) t)
                   (set_timed (set_epoch (pt_sub (localEpoch_ (timed s)) d) (timed s)) s)))
  | InitLock start now, Go => lock_access i (InitSet start now) t s
  | InitSet start now, Go =>
      Some (assert_ (negb (initialized_ (timed s))) ;;;
            Ret (set_thread i (commit [OInit start now] (goto InitUnlock t))
                   (notify_all (set_timed (set_initialized (timed s)) s))))
  | InitUnlock, Go => done (set_thread i (goto Idle t) (set_accessMut None s))
  | _, _ => None
  end.

(** [waitIfUninitialized]. *)
Definition barrier_step (i : nat) (inp : input) (t : thread) (s : Monitor) : option (result Monitor) :=
  match pc t, inp with
  | BarrierLock k, Go => lock_access i (BarrierTest k) t s
  | BarrierTest k, Go =>
      if initialized_ (timed s) then done (set_thread i (goto (BarrierUnlock k) t) s)
      else done (set_thread i (goto (BarrierSleep k) t) (set_accessMut None s))
  | BarrierSleep k, Spurious => done (set_thread i (goto (BarrierAwake k) t) s)
  | BarrierAwake k, Go => lock_access i (BarrierTest k) t s
  | BarrierUnlock k, Go => done (set_thread i (goto (behind_barrier k) t) (set_accessMut None s))
  | _, _ => None
  end.

(** [pushExternalEvent] and [add] behind the barrier. *)
Definition add_step (i : nat) (inp : input) (t : thread) (s : Monitor) : option (result Monitor) :=
  let next p q := Ret (set_thread i (goto p t) (set_timed q s)) in
  match pc t, inp with
  | LogPush ev, Go =>
      done (set_thread i (commit [OLog ev] (goto (BarrierLock (ThenAdd ev false)) t))
              (set_timed (log_entries [(ev, realTimeGeneration)] (timed s)) s))
  | AddLock ev predicted, Go => lock_queue i (AddFuture ev predicted) t s
  | AddFuture ev predicted, Go =>
      Some (let* q := removeFuturPredictions (getTime ev) (timed s) in next (AddPrior ev predicted) q)
  | AddPrior ev predicted, Go =>
      if predicted && hasPriorEvents (getTime ev) (timed s)
      then Some (next (AddUnlock ev predicted) (deleteEvent ev (timed s)))
      else Some (next (AddConcurrent ev predicted) (timed s))
  | AddConcurrent ev predicted, Go =>
      Some (let* q := (if predicted then removeConcurrentPrediction (getTime ev) (timed s) else Ret (timed s)) in
            next (AddPush ev predicted) q)
  | AddPush ev predicted, Go =>
      Some (let* q := push ev predicted (timed s) in next (AddNotify ev predicted) q)
  | AddNotify ev predicted, Go => done (set_thread i (goto (AddUnlock ev predicted) t) (notify_one s))
  | AddUnlock ev predicted, Go =>
      done (set_thread i (commit [OAdd ev predicted] (goto Idle t)) (set_queueMut None s))
  | _, _ => None
  end.

(** [get] behind the barrier.  A thread that sleeps has released the mutex; a timed wait
    ends when the clock has reached its deadline. *)
Definition get_step_of (i : nat) (inp : input) (t : thread) (s : Monitor) : option (result Monitor) :=
  match pc t, inp with
  | GetLock, Go => lock_queue i GetTest t s
  | GetTest, Clock now =>
      Some (let* st := get_step now (timed s) in
            match st with
            | WaitForEvent => Ret (set_thread i (goto (GetSleep None) t) (set_queueMut None s))
            | WaitUntil deadline => Ret (set_thread i (goto (GetSleep (Some deadline)) t) (set_queueMut None s))
            | Deliver ev q => Ret (set_thread i (goto (GetUnlock now ev) t) (set_timed q s))
            end)
  | GetSleep (Some deadline), Clock now =>
      if pt_gtb deadline now then None else done (set_thread i (goto GetAwake t) s)
  | GetSleep _, Spurious => done (set_thread i (goto GetAwake t) s)
  | GetAwake, Go => lock_queue i GetTest t s
  | GetUnlock now ev, Go => done (set_thread i (commit [OGet now ev] (goto Idle t)) (set_queueMut None s))
  | _, _ => None
  end.

(** [getTimeStampNow] behind the barrier. *)
Definition stamp_step (i : nat) (inp : input) (t : thread) (s : Monitor) : option (result Monitor) :=
  match pc t, inp with
  | StampRead now, Go =>
      done (set_thread i {| pc := Idle; effects := effects t;
                            stamps := stamps t ++ [getSimulationTime (timed s) now] |} s)
  | _, _ => None
  end.

(** One step of thread [i]; [None]: it waits, or it does not read this input. *)
Definition monitor_step (i : nat) (inp : input) (s : Monitor) : option (result Monitor) :=
  match threads s !! i with
  | None => None
  | Some t =>
      match pc t with
      | Idle => match called i inp with Some p => done (set_thread i (goto p t) s) | None => None end
      | InitCheck _ | InitEpoch _ | InitCorrect _ _ | InitLock _ _ | InitSet _ _ | InitUnlock => init_step i inp t s
      | BarrierLock _ | BarrierTest _ | BarrierSleep _ | BarrierAwake _ | BarrierUnlock _ => barrier_step i inp t s
      | LogPush _ | AddLock _ _ | AddFuture _ _ | AddPrior _ _ | AddConcurrent _ _ | AddPush _ _ | AddNotify _ _
      | AddUnlock _ _ => add_step i inp t s
      | GetLock | GetTest | GetSleep _ | GetAwake | GetUnlock _ _ => get_step_of i inp t s
      | StampRead _ => stamp_step i inp t s
      end
  end.

(** A schedule; steps that are not enabled are skipped. *)
Fixpoint run_schedule (ls : list (nat * input)) (s : Monitor) : result Monitor :=
  match ls with
  | [] => Ret s
  | l :: ls' =>
      match monitor_step l.1 l.2 s with
      | None => run_schedule ls' s
      | Some r => let* s' := r in run_schedule ls' s'
      end
  end.

End Monitor.

Arguments Monitor E {_}.
Arguments continuation E {_}.
Arguments thread E {_}.
Arguments point E {_}.
Arguments operation E {_}.
Arguments input E {_}.
