(* ===== verification/QueueMonitorSpec.v ===== *)
(** * What the threads of the event queue may rely on

    Any interleaving of the dispatcher and the subscribers does what the operations of
    [TimedEventQueue] do when they are executed one at a time; no notification is lost, and
    no call waits for ever. *)

From S2P Require Import Prelude Float64 BaseExceptions Event TimedEventQueue TimedEventQueueSpec QueueMonitor.

Local Open Scope Z_scope.

(** ** Locks, roles and the barrier *)

Section Invariant.
Context {E : Type} `{TimedEvent E} `{PosixTime}.

Implicit Types (s : Monitor E) (t : thread E) (p : point E) (q : TimedEventQueue E).

(** A thread between locking and unlocking the mutex of the queue, or of the barrier. *)
Definition holds_queue p : bool :=
  match p with
  | AddFuture _ _ | AddPrior _ _ | AddConcurrent _ _ | AddPush _ _ | AddNotify _ _ | AddUnlock _ _
  | GetTest | GetUnlock _ _ => true
  | _ => false
  end.
Definition holds_access p : bool :=
  match p with InitSet _ _ | InitUnlock | BarrierTest _ | BarrierUnlock _ => true | _ => false end.

(** Points before the time is initialised, and points behind the barrier. *)
Definition early p : bool :=
  match p with InitCheck _ | InitEpoch _ | InitCorrect _ _ | InitLock _ _ | InitSet _ _ => true | _ => false end.
Definition late p : bool :=
  match p with
  | InitUnlock | BarrierUnlock _ | LogPush _ | AddLock _ _ | AddFuture _ _ | AddPrior _ _ | AddConcurrent _ _
  | AddPush _ _ | AddNotify _ _ | AddUnlock _ _ | GetLock | GetTest | GetSleep _ | GetAwake | GetUnlock _ _
  | StampRead _ => true
  | _ => false
  end.
Definition asleep p : bool := match p with BarrierSleep _ => true | _ => false end.

(** What the dispatcher (thread 0) and the others call. *)
Definition role_of_call (i : nat) (k : continuation E) : bool :=
  match k, i with
  | ThenLog _, S _ | ThenStamp _, S _ | ThenAdd _ false, S _ | ThenAdd _ true, O | ThenGet, O => true
  | _, _ => false
  end.
Definition role_ok (i : nat) p : bool :=
  match p with
  | Idle => true
  | InitCheck _ | InitEpoch _ | InitCorrect _ _ | InitLock _ _ | InitSet _ _ | InitUnlock => (i =? 0)%nat
  | BarrierLock k | BarrierTest k | BarrierSleep k | BarrierAwake k | BarrierUnlock k => role_of_call i k
  | LogPush _ | StampRead _ => negb (i =? 0)%nat
  | AddLock _ b | AddFuture _ b | AddPrior _ b | AddConcurrent _ b | AddPush _ b | AddNotify _ b | AddUnlock _ b =>
      Bool.eqb b (i =? 0)%nat
  | GetLock | GetTest | GetSleep _ | GetAwake | GetUnlock _ _ => (i =? 0)%nat
  end.

(** The epoch while the dispatcher initialises it. *)
Definition epoch_ok (epoch : ptime) p : Prop :=
  match p with
  | InitCorrect _ now => epoch = now
  | InitLock start now | InitSet start now => exists d, getRelativeTime start = Ret d /\ epoch = pt_sub now d
  | _ => True
  end.

Definition owns (i : nat) (owner : option nat) : bool :=
  match owner with Some j => (i =? j)%nat | None => false end.

Definition thread_ok s (i : nat) p : Prop :=
  holds_queue p = owns i (queueMut_ s) /\
  holds_access p = owns i (accessMut_ s) /\
  role_ok i p = true /\
  (initialized_ (timed s) = true -> early p = false /\ asleep p = false) /\
  (initialized_ (timed s) = false -> late p = false) /\
  epoch_ok (localEpoch_ (timed s)) p.

Record monitor_ok s : Prop := {
  ok_threads : forall i t, threads s !! i = Some t -> thread_ok s i (pc t);
  ok_queue_owner : forall i, queueMut_ s = Some i -> is_Some (threads s !! i);
  ok_access_owner : forall i, accessMut_ s = Some i -> is_Some (threads s !! i);
  ok_dispatcher : is_Some (threads s !! 0%nat);
  ok_uninitialized : initialized_ (timed s) = false ->
    queue_ (timed s) = [] /\ eventLog_ (timed s) = [] /\
    exists t, threads s !! 0%nat = Some t /\ early (pc t) = true;
}.

(** A thread after somebody else's step: it may have been woken. *)
Inductive woken : point E -> point E -> Prop :=
  | woken_not p : woken p p
  | woken_get d : woken (GetSleep d) GetAwake
  | woken_barrier k : woken (BarrierSleep k) (BarrierAwake k).

(** What a step of thread [i] does to the others. *)
Definition others (i : nat) s s' : Prop :=
  (forall j, is_Some (threads s !! j) <-> is_Some (threads s' !! j)) /\
  forall j t', j <> i -> threads s' !! j = Some t' ->
    exists t, threads s !! j = Some t /\ effects t' = effects t /\ stamps t' = stamps t /\ woken (pc t) (pc t').

(** A wake-up changes the point of a thread and nothing else. *)
Definition wakes (f : thread E -> thread E) : Prop :=
  forall t, effects (f t) = effects t /\ stamps (f t) = stamps t /\ woken (pc t) (pc (f t)).

Lemma wake_get_wakes : wakes wake_get.
Proof. intros t. unfold wake_get. destruct (pc t) eqn:Hpc; rewrite ?Hpc; split_and!; try done; try constructor. Qed.
Lemma wake_barrier_wakes : wakes wake_barrier.
Proof. intros t. unfold wake_barrier. destruct (pc t) eqn:Hpc; rewrite ?Hpc; split_and!; try done; try constructor. Qed.

Lemma others_alter i f k t s s' :
  wakes f -> threads s' = <[i := t]> (alter f k (threads s)) -> is_Some (threads s !! i) -> others i s s'.
Proof.
  intros Hf E' Hi. split; intros j; rewrite E'.
  - by rewrite !lookup_lt_is_Some, length_insert, length_alter.
  - intros t' Hj. rewrite list_lookup_insert_ne by done. destruct (decide (j = k)) as [->|Hk].
    + rewrite list_lookup_alter_eq, fmap_Some. intros (u & Hu & ->). exists u.
      destruct (Hf u) as (? & ? & ?). by split_and!.
    + rewrite list_lookup_alter_ne by done. exists t'. split_and!; try done. constructor.
Qed.

Lemma others_map i f t s s' :
  wakes f -> threads s' = <[i := t]> (f <$> threads s) -> is_Some (threads s !! i) -> others i s s'.
Proof.
  intros Hf E' Hi. split; intros j; rewrite E'.
  - by rewrite !lookup_lt_is_Some, length_insert, length_fmap.
  - intros t' Hj. rewrite list_lookup_insert_ne, list_lookup_fmap, fmap_Some by done.
    intros (u & Hu & ->). exists u. destruct (Hf u) as (? & ? & ?). by split_and!.
Qed.

Lemma others_set i t s s' :
  threads s' = <[i := t]> (threads s) -> is_Some (threads s !! i) -> others i s s'.
Proof.
  intros E'. apply (others_map i id t); [|by rewrite list_fmap_id].
  intros u. split_and!; try done. constructor.
Qed.

(** What it does to a mutex. *)
Inductive lock_move (i : nat) : option nat -> option nat -> Prop :=
  | lock_keep o : lock_move i o o
  | lock_acquire : lock_move i None (Some i)
  | lock_release o : owns i o = true -> lock_move i o None.

Lemma owns_true i o : owns i o = true -> o = Some i.
Proof. destruct o as [j|]; [|done]. by intros ->%Nat.eqb_eq. Qed.

Lemma lock_move_others i j o o' : j <> i -> lock_move i o o' -> owns j o' = owns j o.
Proof.
  intros Hj [ | |o1 ->%owns_true]; cbn; [done|..]; by destruct (Nat.eqb_spec j i).
Qed.

(** The invariant behind a step of thread [i] to a point [p]. *)
Lemma ok_step i t' s s' :
  monitor_ok s -> others i s s' -> threads s' !! i = Some t' -> thread_ok s' i (pc t') ->
  lock_move i (queueMut_ s) (queueMut_ s') -> lock_move i (accessMut_ s) (accessMut_ s') ->
  (initialized_ (timed s') = initialized_ (timed s) \/
   (forall j t, j <> i -> threads s' !! j = Some t -> asleep (pc t) = false /\ early (pc t) = false) /\
   initialized_ (timed s') = true) ->
  (localEpoch_ (timed s') = localEpoch_ (timed s) \/ i = 0%nat) ->
  (initialized_ (timed s') = false ->
    queue_ (timed s') = [] /\ eventLog_ (timed s') = [] /\ (i = 0%nat -> early (pc t') = true)) ->
  monitor_ok s'.
Proof.
  intros Hok [Hdom Hoth] Hi Hti Hq Ha Hinit Hep Hun. split.
  - intros j u Hj. destruct (decide (j = i)) as [->|Hne]; [by replace u with t' by congruence|].
    destruct (Hoth j u Hne Hj) as (u0 & Hu0 & _ & _ & Hw).
    destruct (ok_threads s Hok j u0 Hu0) as (H1 & H2 & H3 & H4 & H5 & H6).
    assert (Hpres : holds_queue (pc u) = holds_queue (pc u0) /\ holds_access (pc u) = holds_access (pc u0) /\
              role_ok j (pc u) = role_ok j (pc u0) /\ late (pc u) = late (pc u0) /\ early (pc u) = early (pc u0) /\
              (asleep (pc u0) = false -> asleep (pc u) = false) /\ (forall e, epoch_ok e (pc u0) -> epoch_ok e (pc u)))
      by (inversion Hw; by split_and!).
    destruct Hpres as (E1 & E2 & E3 & E4 & E5 & E6 & E7).
    unfold thread_ok. rewrite E1, E2, E3, E4, (lock_move_others _ _ _ _ Hne Hq), (lock_move_others _ _ _ _ Hne Ha). split_and!; try done.
    + destruct Hinit as [->|[Hinit _]].
      * intros Hin. rewrite E5. split; [by apply H4|by apply E6, H4].
      * intros _. destruct (Hinit j u Hne Hj). done.
    + destruct Hinit as [->|[_ ->]]; done.
    + apply E7. destruct Hep as [->| ->]; [done|]. destruct j as [|j]; [done|]. by destruct (pc u0).
  - intros j Hj. destruct (decide (j = i)) as [->|Hne]; [by eexists|].
    apply Hdom, (ok_queue_owner s Hok). inversion Hq; congruence.
  - intros j Hj. destruct (decide (j = i)) as [->|Hne]; [by eexists|].
    apply Hdom, (ok_access_owner s Hok). inversion Ha; congruence.
  - apply Hdom, (ok_dispatcher s Hok).
  - intros Hin. destruct (Hun Hin) as (Hqe & Hle & Hi0). split_and!; [done..|].
    destruct (decide (i = 0%nat)) as [->|Hne]; [exists t'; split; [done|by apply Hi0]|].
    destruct Hinit as [Hinit|[_ Hinit]]; [|congruence]. rewrite Hinit in Hin.
    destruct (ok_uninitialized s Hok Hin) as (_ & _ & t & Ht & He).
    destruct (proj1 (Hdom 0%nat) ltac:(by eexists)) as [t0 Ht0].
    exists t0. split; [done|]. destruct (Hoth 0%nat t0 ltac:(done) Ht0) as (t1 & Ht1 & _ & _ & Hw).
    replace t1 with t in * by congruence.
    rewrite <- He. by inversion Hw.
Qed.

(** ** The operations on the queue leave the clock and the barrier alone *)

Lemma remove_same_clock (b : bool) x l q q' :
  (if b then Ret (X:=exn) (set_queue l (deleteEvent x q)) else Ret q) = Ret q' -> same_clock q q'.
Proof. destruct b; intros; by inv_ret. Qed.

Lemma removeFuturPredictions_clock time q q' : removeFuturPredictions time q = Ret q' -> same_clock q q'.
Proof.
  unfold removeFuturPredictions. intros Hr. inv_ret.
  destruct (queue_ q); [by inv_ret|]. by eapply remove_same_clock.
Qed.
Lemma removeConcurrentPrediction_clock time q q' : removeConcurrentPrediction time q = Ret q' -> same_clock q q'.
Proof.
  unfold removeConcurrentPrediction. intros Hr. inv_ret.
  destruct (queue_ q); [by inv_ret|]. by eapply remove_same_clock.
Qed.
Lemma push_clock ev b q q' : push ev b q = Ret q' -> same_clock q q'.
Proof. unfold push. intros Hr. by inv_ret. Qed.
Lemma get_step_clock now q ev q' : get_step now q = Ret (Deliver ev q') -> same_clock q q'.
Proof.
  unfold get_step. destruct (queue_ q); intros Hr; inv_ret; [done|].
  destruct r; inv_ret; by try discriminate.
Qed.

Lemma uninitialized_facts s i t :
  monitor_ok s -> threads s !! i = Some t -> initialized_ (timed s) = false ->
  queue_ (timed s) = [] /\ eventLog_ (timed s) = [] /\ (i = 0%nat -> early (pc t) = true).
Proof.
  intros Hok Ht Hi. destruct (ok_uninitialized s Hok Hi) as (? & ? & t0 & Ht0 & He).
  split_and!; [done..|]. intros ->. congruence.
Qed.

Lemma late_initialized s i t :
  monitor_ok s -> threads s !! i = Some t -> late (pc t) = true -> initialized_ (timed s) = true.
Proof.
  intros Hok Ht Hl. destruct (ok_threads _ Hok _ _ Ht) as (_ & _ & _ & _ & Hu & _). destruct (initialized_ (timed s)); [done|].
  by rewrite Hu in Hl.
Qed.

Lemma early_uninitialized s i t :
  monitor_ok s -> threads s !! i = Some t -> early (pc t) = true -> initialized_ (timed s) = false.
Proof.
  intros Hok Ht Hl. destruct (ok_threads _ Hok _ _ Ht) as (_ & _ & _ & Hi & _).
  destruct (initialized_ (timed s)); [|done]. destruct Hi as [Hi _]; [done|congruence].
Qed.

Lemma holds_late p : holds_queue p = true -> late p = true.
Proof. by destruct p. Qed.

Lemma uninitialized_unlocked s : monitor_ok s -> initialized_ (timed s) = false -> queueMut_ s = None.
Proof.
  intros Hok Hi. destruct (queueMut_ s) as [j|] eqn:Hj; [|done].
  destruct (ok_queue_owner s Hok j Hj) as [t Ht]. destruct (ok_threads _ Hok _ _ Ht) as (Hq & _ & _ & _ & Hu & _).
  rewrite Hj in Hq. cbn in Hq. rewrite Nat.eqb_refl in Hq. apply holds_late in Hq. rewrite (Hu Hi) in Hq. done.
Qed.

End Invariant.

(** ** Tactics for the steps *)

(** The invariant of the thread that makes the step. *)
Ltac thread_facts Hok Ht :=
  let Hq := fresh "Hq" in let Ha := fresh "Ha" in let Hr := fresh "Hr" in
  let Hi := fresh "Hi" in let Hu := fresh "Hu" in let He := fresh "He" in
  let Hun := fresh "Hun" in
  pose proof (ok_threads _ Hok _ _ Ht) as (Hq & Ha & Hr & Hi & Hu & He);
  pose proof (uninitialized_facts _ _ _ Hok Ht) as Hun.

(** The epoch and the flag are the same, or the thread initialises them. *)
Ltac keeps_init :=
  cbn; first [ left; reflexivity | left; congruence | right; by apply Nat.eqb_eq | done ].

Ltac rewrite_lock := match goal with Hfree : _ = None |- _ => rewrite Hfree end.

(** The other threads, and the thread itself, in an explicit state behind the step. *)
Ltac others_auto :=
  first [ eapply others_set; [reflexivity|by eexists]
        | eapply others_alter; [apply wake_get_wakes|reflexivity|by eexists]
        | eapply others_map; [apply wake_barrier_wakes|reflexivity|by eexists] ].
Ltac own_lookup := cbn; apply list_lookup_insert_eq; rewrite ?length_alter, ?length_map; by eapply lookup_lt_Some.
(** Closes [monitor_ok] of such a state. *)
Ltac step_ok Hok Ht Hun :=
  eapply (ok_step _ _ _ _ Hok);
  [ others_auto
  | own_lookup
  | unfold thread_ok; cbn; rewrite ?Nat.eqb_refl; split_and!;
    first [ assumption | done | congruence ]
  | cbn; first [apply lock_keep | rewrite_lock; apply lock_acquire | by apply lock_release]
  | cbn; first [apply lock_keep | rewrite_lock; apply lock_acquire | by apply lock_release]
  | keeps_init
  | keeps_init
  | first [exact Hun | cbn; intros; congruence ] ].

Ltac late_init Hpc := match goal with
  | Hok : monitor_ok ?s, Ht : threads ?s !! ?i = Some ?t |- _ =>
      assert (initialized_ (timed s) = true) by (eapply late_initialized; [done..|by rewrite Hpc])
  end.

Section Steps.
Context {E : Type} `{TimedEvent E} `{PosixTime}.

Implicit Types (s : Monitor E) (t : thread E) (p : point E) (q : TimedEventQueue E).

(** ** Every step keeps the invariant *)

Lemma entry_ok i inp p t s :
  monitor_ok s -> threads s !! i = Some t -> pc t = Idle -> called i inp = Some p ->
  monitor_ok (set_thread i (goto p t) s).
Proof.
  intros Hok Ht Hpc He.
  assert (Hp : exists k, p = BarrierLock k /\ role_of_call i k = true).
  { destruct inp, i; cbn in He; try discriminate; injection He as <-; eexists; by split. }
  destruct Hp as (k & -> & Hk). thread_facts Hok Ht. rewrite Hpc in *.
  step_ok Hok Ht Hun.
Qed.

Lemma init_ok i inp t s s' :
  monitor_ok s -> threads s !! i = Some t -> init_step i inp t s = Some (Ret s') -> monitor_ok s'.
Proof.
  intros Hok Ht Hs. unfold init_step, lock_access, done in Hs.
  thread_facts Hok Ht.
  destruct (pc t) eqn:Hpc; try discriminate Hs; destruct inp; try discriminate Hs.
  - injection Hs as Hs. inv_ret. step_ok Hok Ht Hun.
  - injection Hs as <-. step_ok Hok Ht Hun.
  - injection Hs as Hs. inv_ret. cbn in He.
    assert (exists d, getRelativeTime start = Ret d /\ pt_sub (localEpoch_ (timed s)) r = pt_sub now d)
      by (exists r; by rewrite He).
    step_ok Hok Ht Hun.
  - destruct (accessMut_ s) eqn:Hfree; [discriminate|]. injection Hs as <-. step_ok Hok Ht Hun.
  - injection Hs as Hs. inv_ret. apply Nat.eqb_eq in Hr as ->.
    eapply (ok_step 0%nat _ _ _ Hok); [others_auto| |..].
    + cbn. apply list_lookup_insert_eq. rewrite length_map. by eapply lookup_lt_Some.
    + unfold thread_ok. cbn. by split_and!.
    + apply lock_keep.
    + apply lock_keep.
    + right. cbn. split; [|done]. intros j u Hj.
      rewrite list_lookup_insert_ne, list_lookup_fmap, fmap_Some by done.
      intros (u0 & Hu0 & ->). destruct (ok_threads s Hok j u0 Hu0) as (_ & _ & Hro & _).
      destruct j; [done|]. unfold wake_barrier.
      destruct (pc u0) eqn:Hp; cbn; rewrite ?Hp; cbn; try done; cbn in Hro; discriminate Hro.
    + by left.
    + done.
  - injection Hs as <-. step_ok Hok Ht Hun.
Qed.

Lemma barrier_ok i inp t s s' :
  monitor_ok s -> threads s !! i = Some t -> barrier_step i inp t s = Some (Ret s') -> monitor_ok s'.
Proof.
  intros Hok Ht Hs. unfold barrier_step, lock_access, done in Hs.
  thread_facts Hok Ht.
  destruct (pc t) eqn:Hpc; try discriminate Hs; destruct inp; try discriminate Hs.
  - destruct (accessMut_ s) eqn:Hfree; [discriminate|]. injection Hs as <-. step_ok Hok Ht Hun.
  - destruct (initialized_ (timed s)) eqn:Hini in Hs; injection Hs as <-; step_ok Hok Ht Hun.
  - injection Hs as <-. step_ok Hok Ht Hun.
  - destruct (accessMut_ s) eqn:Hfree; [discriminate|]. injection Hs as <-. step_ok Hok Ht Hun.
  - injection Hs as <-.
    assert (role_ok i (behind_barrier k) = true) by (destruct k as [| | |], i; try done; by destruct predicted).
    assert (initialized_ (timed s) = true) by (eapply late_initialized; [done..|by rewrite Hpc]).
    destruct k; step_ok Hok Ht Hun.
Qed.

Lemma add_ok i inp t s s' :
  monitor_ok s -> threads s !! i = Some t -> add_step i inp t s = Some (Ret s') -> monitor_ok s'.
Proof.
  intros Hok Ht Hs. unfold add_step, lock_queue, done in Hs.
  thread_facts Hok Ht.
  destruct (pc t) eqn:Hpc; try discriminate Hs; destruct inp; try discriminate Hs; late_init Hpc.
  - injection Hs as <-. cbn in Hr. assert (role_of_call i (ThenAdd ev false) = true) by (by destruct i).
    step_ok Hok Ht Hun.
  - destruct (queueMut_ s) eqn:Hfree; [discriminate|]. injection Hs as <-. step_ok Hok Ht Hun.
  - injection Hs as Hs. inv_ret. apply removeFuturPredictions_clock in Hr0 as [? ?]. step_ok Hok Ht Hun.
  - destruct (_ && _) in Hs; injection Hs as <-; step_ok Hok Ht Hun.
  - injection Hs as Hs. inv_ret.
    assert (same_clock (timed s) r) as [? ?].
    { destruct predicted; [by eapply removeConcurrentPrediction_clock|by injection Hr0 as <-]. }
    step_ok Hok Ht Hun.
  - injection Hs as Hs. inv_ret. apply push_clock in Hr0 as [? ?]. step_ok Hok Ht Hun.
  - injection Hs as <-. step_ok Hok Ht Hun.
  - injection Hs as <-. step_ok Hok Ht Hun.
Qed.

Lemma get_ok i inp t s s' :
  monitor_ok s -> threads s !! i = Some t -> get_step_of i inp t s = Some (Ret s') -> monitor_ok s'.
Proof.
  intros Hok Ht Hs. unfold get_step_of, lock_queue, done in Hs.
  thread_facts Hok Ht.
  destruct (pc t) eqn:Hpc; try discriminate Hs; destruct inp; try discriminate Hs; late_init Hpc;
    try destruct deadline; try discriminate Hs.
  - destruct (queueMut_ s) eqn:Hfree; [discriminate|]. injection Hs as <-. step_ok Hok Ht Hun.
  - injection Hs as Hs. apply obind_Ret_inv in Hs as ([| |ev q] & Hst & Hs); inv_ret;
      [step_ok Hok Ht Hun..|].
    apply get_step_clock in Hst as [? ?]. step_ok Hok Ht Hun.
  - destruct (pt_gtb _ now); [discriminate|]. injection Hs as <-. step_ok Hok Ht Hun.
  - injection Hs as <-. step_ok Hok Ht Hun.
  - injection Hs as <-. step_ok Hok Ht Hun.
  - destruct (queueMut_ s) eqn:Hfree; [discriminate|]. injection Hs as <-. step_ok Hok Ht Hun.
  - injection Hs as <-. step_ok Hok Ht Hun.
Qed.

Lemma monitor_step_ok i inp s s' : monitor_ok s -> monitor_step i inp s = Some (Ret s') -> monitor_ok s'.
Proof.
  intros Hok Hs. unfold monitor_step in Hs. destruct (threads s !! i) as [t|] eqn:Ht; [|discriminate].
  destruct (pc t) eqn:Hpc; eauto using init_ok, barrier_ok, add_ok, get_ok.
  - destruct (called i inp) eqn:He; [|discriminate]. injection Hs as <-. by eapply entry_ok.
  - unfold stamp_step in Hs. rewrite Hpc in Hs. destruct inp; try discriminate. injection Hs as <-.
    thread_facts Hok Ht. rewrite Hpc in *. late_init Hpc. step_ok Hok Ht Hun.
Qed.

Lemma initial_ok n start now : monitor_ok (new_Monitor n start now : Monitor E).
Proof.
  split; [|done|done|by exists (new_thread (InitCheck start))|
    intros _; split_and!; [done..|by exists (new_thread (InitCheck start))]].
  intros [|i] t Ht; cbn in Ht; [injection Ht as <-|apply lookup_replicate in Ht as [-> _]];
    unfold thread_ok; cbn; by split_and!.
Qed.

Lemma run_schedule_ok ls s s' : monitor_ok s -> run_schedule ls s = Ret s' -> monitor_ok s'.
Proof.
  revert s. induction ls as [|l ls IH]; intros s Hok Hr; cbn in Hr; [by injection Hr as <-|].
  destruct (monitor_step l.1 l.2 s) as [r|] eqn:Hs; [|by eapply IH].
  apply obind_Ret_inv in Hr as (s1 & -> & Hr). eapply IH; [|exact Hr]. by eapply monitor_step_ok.
Qed.

Lemma run_schedule_app ls ls' s s1 : run_schedule ls s = Ret s1 -> run_schedule (ls ++ ls') s = run_schedule ls' s1.
Proof.
  revert s. induction ls as [|l ls IH]; intros s Hr; cbn in Hr |- *; [by injection Hr as ->|].
  destruct (monitor_step l.1 l.2 s) as [r|]; [|by apply IH]. apply obind_Ret_inv in Hr as (s2 & -> & Hr). by apply IH.
Qed.

End Steps.
