(* ===== verification/QueueLinearizable.v ===== *)
(** * The event queue is linearizable

    Every interleaving of the threads does what the operations of [TimedEventQueue] do one
    after the other: [add] takes effect at its last change of the queue, [get] when it
    removes the event, [pushExternalEvent] logs first and adds then, and the
    initialisation takes effect when the barrier opens.  Only the order of the log may
    differ, since an event is logged without the mutex of the queue. *)

From S2P Require Import Prelude Float64 BaseExceptions Event TimedEventQueue TimedEventQueueSpec.
From S2P Require Import QueueMonitor QueueMonitorSpec.

Local Open Scope Z_scope.

Section Linearizable.
Context {E : Type} `{TimedEvent E} `{PosixTime}.

Implicit Types (s : Monitor E) (t : thread E) (p : point E) (q : TimedEventQueue E).

(** ** Operations executed at once *)

Inductive executes q : operation E -> TimedEventQueue E -> Prop :=
  | exec_init start now q' : initStartTimeNow start now q = Ret q' -> executes q (OInit start now) q'
  | exec_log ev : initialized_ q = true -> executes q (OLog ev) (log_entries [(ev, realTimeGeneration)] q)
  | exec_add ev b q' : add ev b q = Ret (Some q') -> executes q (OAdd ev b) q'
  | exec_get now ev q' :
      initialized_ q = true -> get_step now q = Ret (Deliver ev q') -> executes q (OGet now ev) q'.

(** The operation that a thread has begun faults on the queue. *)
Definition faults p (inp : input E) q (f : fault) : Prop :=
  match p, inp with
  | InitCorrect start now, _ => initStartTimeNow start now q = Fault f
  | AddFuture ev b, _ | AddConcurrent ev b, _ | AddPush ev b, _ => add ev b q = Fault f
  | GetTest, Clock now => get_step now q = Fault f
  | _, _ => False
  end.

(** A sequence of operations, each with its thread. *)
Inductive execution : TimedEventQueue E -> list (nat * operation E) -> TimedEventQueue E -> Prop :=
  | execution_nil q : execution q [] q
  | execution_snoc q ops q1 i op q2 :
      execution q ops q1 -> executes q1 op q2 -> execution q (ops ++ [(i, op)]) q2.

Definition ops_of (i : nat) (ops : list (nat * operation E)) : list (operation E) :=
  map snd (filter (fun x => x.1 = i) ops).

Lemma ops_of_app i ops ops' : ops_of i (ops ++ ops') = ops_of i ops ++ ops_of i ops'.
Proof. unfold ops_of. by rewrite filter_app, map_app. Qed.

Lemma ops_of_own i l : ops_of i (map (pair i) l) = l.
Proof.
  induction l as [|op l IH]; [done|]. unfold ops_of in *. cbn [map]. rewrite filter_cons, decide_True by done.
  cbn [map]. by rewrite IH.
Qed.

Lemma ops_of_other i j l : j <> i -> ops_of j (map (pair i) l) = [].
Proof.
  intros Hj. induction l as [|op l IH]; [done|]. unfold ops_of in *. cbn [map].
  rewrite filter_cons, decide_False by (cbn; congruence). done.
Qed.

(** ** States that differ in the log *)

(** [q'] is [q] with [l] logged too, in some order. *)
Record logged (l : list (E * ProcessingStage)) q q' : Prop := {
  logged_queue : queue_ q' = queue_ q;
  logged_epoch : localEpoch_ q' = localEpoch_ q;
  logged_initialized : initialized_ q' = initialized_ q;
  logged_log : eventLog_ q' ≡ₚ eventLog_ q ++ l;
}.
#[local] Abbreviation similar := (logged []).

#[local] Instance similar_equivalence : Equivalence similar.
Proof.
  split.
  - intros q. by split; rewrite ?app_nil_r.
  - intros q q' []. rewrite app_nil_r in *. split; rewrite ?app_nil_r; by symmetry.
  - intros q1 q2 q3 [] []. rewrite app_nil_r in *. split; rewrite ?app_nil_r; etrans; eauto.
Qed.

Lemma logged_entries l q : logged l q (log_entries l q).
Proof. by split. Qed.

Lemma logged_set_queue l x q q' : logged l q q' -> logged l (set_queue x q) (set_queue x q').
Proof. by intros []. Qed.

Lemma logged_deleteEvent l ev q q' : logged l q q' -> logged l (deleteEvent ev q) (deleteEvent ev q').
Proof. intros [? ? ? Hl]. split; cbn; try done. rewrite Hl. solve_Permutation. Qed.

Lemma logged_square l q1 q2 q3 q4 :
  logged l q1 q2 -> similar q1 q3 -> logged l q3 q4 -> similar q2 q4.
Proof.
  intros [] [] [Ha Hb Hc Hd]. rewrite app_nil_r in *.
  split; rewrite ?app_nil_r; [congruence..|]. rewrite Hd. by repeat match goal with Hp : _ ≡ₚ _ |- _ => rewrite Hp; clear Hp end.
Qed.

(** ** The operations do not read the log *)

(** A relation of queues that may differ in the log. *)
Class LogBlind (R : relation (TimedEventQueue E)) : Prop := {
  blind_queue q q' : R q q' -> queue_ q' = queue_ q;
  blind_epoch q q' : R q q' -> localEpoch_ q' = localEpoch_ q;
  blind_initialized q q' : R q q' -> initialized_ q' = initialized_ q;
  blind_set_queue x q q' : R q q' -> R (set_queue x q) (set_queue x q');
  blind_deleteEvent ev q q' : R q q' -> R (deleteEvent ev q) (deleteEvent ev q');
}.

#[export] Instance logged_blind l : LogBlind (logged l).
Proof.
  split; [intros q q' []; done..|apply logged_set_queue|apply logged_deleteEvent].
Qed.

(** [add] from a point of its body on. *)
Definition add_push (ev : E) (b : bool) q : result (option (TimedEventQueue E)) := let* q3 := push ev b q in Ret (Some q3).
Definition add_concurrent (ev : E) (b : bool) q : result (option (TimedEventQueue E)) :=
  let* q2 := if b then removeConcurrentPrediction (getTime ev) q else Ret q in add_push ev b q2.
Definition add_prior (ev : E) (b : bool) q : result (option (TimedEventQueue E)) :=
  if b && hasPriorEvents (getTime ev) q then Ret (Some (deleteEvent ev q)) else add_concurrent ev b q.
Definition add_future (ev : E) (b : bool) q : result (option (TimedEventQueue E)) :=
  let* q1 := removeFuturPredictions (getTime ev) q in add_prior ev b q1.

Lemma add_body ev b q : initialized_ q = true -> add ev b q = add_future ev b q.
Proof. intros Hi. unfold add. by rewrite Hi. Qed.

#[local] Ltac log_blind := repeat first [assumption|apply blind_set_queue|apply blind_deleteEvent].

Section Blind.
Context (R : relation (TimedEventQueue E)) `{!LogBlind R}.

Lemma blind_removeFutur time q q' :
  R q q' -> orel R (removeFuturPredictions time q) (removeFuturPredictions time q').
Proof.
  intros Hl. unfold removeFuturPredictions, isQueuePredictionConsistent. rewrite (blind_queue _ _ Hl).
  eapply orel_bind; [by apply (orel_refl eq)|]. intros _ _ _.
  destruct (queue_ q); [by constructor|]. destruct (_ && _); constructor; log_blind.
Qed.

Lemma blind_removeConcurrent time q q' :
  R q q' -> orel R (removeConcurrentPrediction time q) (removeConcurrentPrediction time q').
Proof.
  intros Hl. unfold removeConcurrentPrediction, isQueuePredictionConsistent. rewrite (blind_queue _ _ Hl).
  eapply orel_bind; [by apply (orel_refl eq)|]. intros _ _ _.
  destruct (queue_ q); [by constructor|]. destruct (_ && _); constructor; log_blind.
Qed.

Lemma blind_push ev b q q' : R q q' -> orel R (push ev b q) (push ev b q').
Proof.
  intros Hl. unfold push. rewrite (blind_queue _ _ Hl).
  eapply orel_bind; [by apply (orel_refl eq)|]. intros _ _ _.
  eapply orel_bind; [by apply (orel_refl eq)|]. intros x _ <-. constructor. log_blind.
Qed.

Lemma blind_add_push ev b q q' : R q q' -> orel (option_Forall2 R) (add_push ev b q) (add_push ev b q').
Proof. intros Hl. eapply orel_bind; [by apply blind_push|]. intros q1 q2 Hq. by repeat constructor. Qed.
Lemma blind_add_concurrent ev b q q' :
  R q q' -> orel (option_Forall2 R) (add_concurrent ev b q) (add_concurrent ev b q').
Proof.
  intros Hl. apply (orel_bind R); [|intros; by apply blind_add_push].
  destruct b; [by apply blind_removeConcurrent|by constructor].
Qed.
Lemma blind_add_prior ev b q q' : R q q' -> orel (option_Forall2 R) (add_prior ev b q) (add_prior ev b q').
Proof.
  intros Hl. unfold add_prior, hasPriorEvents. rewrite (blind_queue _ _ Hl).
  destruct (_ && _); [constructor; constructor; log_blind|by apply blind_add_concurrent].
Qed.
Lemma blind_add_future ev b q q' : R q q' -> orel (option_Forall2 R) (add_future ev b q) (add_future ev b q').
Proof. intros Hl. apply (orel_bind R); [by apply blind_removeFutur|]. intros; by apply blind_add_prior. Qed.

Lemma blind_add ev b q q' : R q q' -> orel (option_Forall2 R) (add ev b q) (add ev b q').
Proof.
  intros Hl. destruct (initialized_ q) eqn:Hi.
  - rewrite !add_body by (try rewrite (blind_initialized _ _ Hl); done). by apply blind_add_future.
  - unfold add. rewrite (blind_initialized _ _ Hl), Hi. cbn. repeat constructor.
Qed.

(** A turn of [get] in related states. *)
Inductive blind_status : get_status (E:=E) -> get_status (E:=E) -> Prop :=
  | blind_wait : blind_status WaitForEvent WaitForEvent
  | blind_until d : blind_status (WaitUntil d) (WaitUntil d)
  | blind_deliver ev q q' : R q q' -> blind_status (Deliver ev q) (Deliver ev q').

Lemma blind_get_step now q q' : R q q' -> orel blind_status (get_step now q) (get_step now q').
Proof.
  intros Hl. unfold get_step, isFutureEvent, getSystemTime. rewrite (blind_queue _ _ Hl), (blind_epoch _ _ Hl).
  destruct (queue_ q) as [|x l]; [repeat constructor|].
  eapply orel_bind; [by apply (orel_refl eq)|]. intros [] _ <-.
  - eapply orel_bind; [by apply (orel_refl eq)|]. intros d _ <-. repeat constructor.
  - constructor. constructor. log_blind.
Qed.
End Blind.

#[local] Abbreviation logged_opt l := (option_Forall2 (logged l)).

(** ** The queue as the operations executed so far have left it *)

(** What the holder of the mutex, at point [p], makes of the queue [qt], compared to the
    queue [q] before its operation. *)
Definition view p q (qt : TimedEventQueue E) : Prop :=
  match p with
  | AddFuture ev b => orel (logged_opt []) (add ev b q) (add_future ev b qt)
  | AddPrior ev b => orel (logged_opt []) (add ev b q) (add_prior ev b qt)
  | AddConcurrent ev b => orel (logged_opt []) (add ev b q) (add_concurrent ev b qt)
  | AddPush ev b => orel (logged_opt []) (add ev b q) (add_push ev b qt)
  | _ => similar q qt
  end.

(** Operations that have taken effect and whose call has not returned. *)
Definition pending p : list (operation E) :=
  match p with
  | AddNotify ev b | AddUnlock ev b => [OAdd ev b]
  | GetUnlock now ev => [OGet now ev]
  | _ => []
  end.

Definition current s q : Prop :=
  match queueMut_ s with
  | Some i => forall t, threads s !! i = Some t -> view (pc t) q (timed s)
  | None => similar q (timed s)
  end.

(** Before the barrier opens the dispatcher sets the epoch, which nobody reads. *)
Definition standing (epoch : ptime) s q : Prop :=
  if initialized_ (timed s) then current s q else q = new_TimedEventQueue epoch.

(** [ops] is an order in which the operations may have been executed: each thread finds
    what it has done, and the queue is what they leave. *)
Record history (epoch : ptime) (ops : list (nat * operation E)) s : Prop := {
  history_ids : Forall (fun x => is_Some (threads s !! x.1)) ops;
  history_threads : forall i t, threads s !! i = Some t -> ops_of i ops = effects t ++ pending (pc t);
  history_state : exists q, execution (new_TimedEventQueue epoch) ops q /\ standing epoch s q;
}.

Lemma woken_pending p p' : woken p p' -> pending p' = pending p.
Proof. by intros []. Qed.
Lemma woken_holder p p' : woken p p' -> holds_queue p = true -> p' = p.
Proof. by intros [| |]. Qed.

(** The thread that holds the mutex is the only one that changes the queue. *)
Lemma current_frame i s s' q q' (l : list (E * ProcessingStage)) :
  monitor_ok s -> others i s s' -> queueMut_ s' = queueMut_ s -> owns i (queueMut_ s) = false ->
  logged l (timed s) (timed s') -> logged l q q' -> current s q -> current s' q'.
Proof.
  intros Hok [_ Hoth] HE Hi Hl Hl' Hc. unfold current in *. rewrite HE. destruct (queueMut_ s) as [j|] eqn:Hq.
  - assert (Hj : j <> i) by (intros ->; cbn in Hi; by rewrite Nat.eqb_refl in Hi).
    intros t' Ht'. destruct (Hoth j t' Hj Ht') as (t & Ht & _ & _ & Hw). specialize (Hc t Ht).
    destruct (ok_threads s Hok j t Ht) as (Hh & _). rewrite Hq in Hh. cbn in Hh. rewrite Nat.eqb_refl in Hh.
    rewrite (woken_holder _ _ Hw Hh).
    assert (Hadd : forall ev b f g, (forall qa qb, logged l qa qb -> orel (logged_opt l) (f qa) (f qb)) ->
              g = add ev b -> orel (logged_opt []) (g q) (f (timed s)) -> orel (logged_opt []) (g q') (f (timed s'))).
    { intros ev b f g Hf -> Ho. pose proof (blind_add (logged l) ev b q q' Hl') as H1. pose proof (Hf _ _ Hl) as H2.
      inversion Ho as [a0 b0 Hab E1 E2|x E1 E2|x E1 E2]; rewrite <- E1 in H1; rewrite <- E2 in H2;
        inversion H1; inversion H2; subst; constructor.
      inversion Hab; subst; repeat match goal with
        Ho2 : option_Forall2 _ _ _ |- _ => inversion Ho2; clear Ho2; subst end; constructor.
      by eapply logged_square. }
    destruct (pc t); cbn in *; try (by eapply logged_square);
      (eapply Hadd; [|done|exact Hc]); (intros; first [by apply (blind_add_future (logged l))|by apply (blind_add_prior (logged l))
        |by apply (blind_add_concurrent (logged l))|by apply (blind_add_push (logged l))]).
  - by eapply logged_square.
Qed.

(** ** Each step *)

Lemma execution_app q ops q1 ops' q2 : execution q ops q1 -> execution q1 ops' q2 -> execution q (ops ++ ops') q2.
Proof. intros H1 H2. induction H2; [by rewrite app_nil_r|]. rewrite (assoc_L (++)). econstructor; eauto. Qed.

Lemma execution_one q i op q' : executes q op q' -> execution q [(i, op)] q'.
Proof. intros. apply (execution_snoc q [] q); [constructor|done]. Qed.

(** A step of thread [i] that executes [l]. *)
Lemma history_next epoch ops i (l : list (operation E)) t t' s s' :
  history epoch ops s -> others i s s' -> threads s !! i = Some t -> threads s' !! i = Some t' ->
  effects t' ++ pending (pc t') = effects t ++ pending (pc t) ++ l ->
  (forall q, standing epoch s q -> exists q', execution q (map (pair i) l) q' /\ standing epoch s' q') ->
  history epoch (ops ++ map (pair i) l) s'.
Proof.
  intros [Hids Hth (q & Hex & Hst)] [Hdom Hoth] Ht Ht' Heff Hq. split.
  - apply Forall_app. split.
    + eapply Forall_impl; [exact Hids|]. intros x. apply Hdom.
    + apply Forall_forall. intros x (op & -> & _)%list_elem_of_fmap. by eexists.
  - intros j u' Hu'. rewrite ops_of_app. destruct (decide (j = i)) as [->|Hj].
    + replace u' with t' by congruence. by rewrite Heff, (assoc_L (++)), <- (Hth i t Ht), ops_of_own.
    + destruct (Hoth j u' Hj Hu') as (u & Hu & -> & _ & Hw).
      by rewrite (woken_pending _ _ Hw), <- (Hth j u Hu), ops_of_other, app_nil_r.
  - destruct (Hq q Hst) as (q' & Hq' & Hst'). exists q'. split; [by eapply execution_app|done].
Qed.

(** The body of [add] does not wait. *)
Lemma add_push_some ev b q : add_push ev b q <> Ret None.
Proof. unfold add_push. intros Hr. inv_ret. discriminate. Qed.
Lemma add_concurrent_some ev b q : add_concurrent ev b q <> Ret None.
Proof. unfold add_concurrent. intros (q2 & _ & Hr)%obind_Ret_inv. by eapply add_push_some. Qed.
Lemma add_prior_some ev b q : add_prior ev b q <> Ret None.
Proof. unfold add_prior. destruct (_ && _); [done|apply add_concurrent_some]. Qed.
Lemma add_future_some ev b q : add_future ev b q <> Ret None.
Proof. unfold add_future. intros (q2 & _ & Hr)%obind_Ret_inv. by eapply add_prior_some. Qed.

(** The operation takes effect: nothing of [add] is left. *)
Lemma adds_now ev b q qt :
  orel (logged_opt []) (add ev b q) (Ret (Some qt)) ->
  exists q', executes q (OAdd ev b) q' /\ similar q' qt.
Proof.
  intros Ho. apply orel_Ret_l in Ho as (o & Ha & Ho). inversion Ho; subst. eexists. split; [by constructor|done].
Qed.

Lemma current_initialized s q :
  monitor_ok s -> initialized_ (timed s) = true -> current s q -> initialized_ q = true.
Proof.
  intros Hok Hi Hc. unfold current in Hc. destruct (queueMut_ s) as [j|] eqn:Hj.
  - destruct (ok_queue_owner s Hok j Hj) as [t Ht]. specialize (Hc t Ht).
    destruct (initialized_ q) eqn:Hq; [done|]. exfalso.
    assert (Hadd : forall ev b m, orel (logged_opt []) (add ev b q) m -> m = Ret None).
    { intros ev b m Ho. unfold add in Ho. rewrite Hq in Ho. inversion Ho as [a o Ha E1 E2| |]. by inversion Ha. }
    destruct (pc t); cbn in Hc; try (rewrite (logged_initialized _ _ _ Hc) in Hi; congruence);
      apply Hadd in Hc; revert Hc.
    + apply add_future_some.
    + apply add_prior_some.
    + apply add_concurrent_some.
    + apply add_push_some.
  - rewrite <- Hi. symmetry. apply Hc.
Qed.

(** A step that executes nothing. *)
Lemma history_silent epoch ops i t t' s s' :
  history epoch ops s -> others i s s' -> threads s !! i = Some t -> threads s' !! i = Some t' ->
  effects t' ++ pending (pc t') = effects t ++ pending (pc t) ->
  (forall q, standing epoch s q -> standing epoch s' q) ->
  history epoch ops s'.
Proof.
  intros Hh Ho Ht Ht' Heff Hq. rewrite <- (app_nil_r ops).
  apply (history_next epoch ops i [] t t' s s'); try done; [by rewrite app_nil_r|].
  intros q Hst. exists q. split; [constructor|auto].
Qed.

(** What a step makes of the state: it leaves the queue and its mutex alone, *)
Lemma standing_frame epoch i s s' q :
  monitor_ok s -> others i s s' -> queueMut_ s' = queueMut_ s -> owns i (queueMut_ s) = false ->
  timed s' = timed s -> standing epoch s q -> standing epoch s' q.
Proof.
  intros Hok Ho HE Hi HT. unfold standing. rewrite HT. destruct (initialized_ (timed s)); [|done].
  eapply (current_frame i s s' q q []); try done. by rewrite HT.
Qed.

(** locks or unlocks the mutex, or holds it. *)
Definition holder_view i p s q : Prop :=
  match queueMut_ s with Some j => j = i /\ view p q (timed s) | None => similar q (timed s) end.

Lemma standing_holder epoch i t s q :
  threads s !! i = Some t -> (owns i (queueMut_ s) = true \/ queueMut_ s = None) -> initialized_ (timed s) = true ->
  standing epoch s q <-> holder_view i (pc t) s q.
Proof.
  intros Ht Hi Hin. unfold standing, current, holder_view. rewrite Hin.
  destruct (queueMut_ s) as [j|]; [|done]. destruct Hi as [Hi|]; [|done].
  apply Nat.eqb_eq in Hi as <-. split; [intros Hc; split; [done|by apply Hc]|intros [_ Hv] u Hu].
  by replace u with t by congruence.
Qed.

End Linearizable.

#[local] Abbreviation similar := (logged []).

(** ** Tactics for the steps *)

(** A step that does not touch the queue or its mutex. *)
Ltac frame_step Hok Hh Ht Hpc :=
  exists []; rewrite app_nil_r; eapply (history_silent _ _ _ _ _ _ _ Hh);
  [ others_auto | exact Ht | own_lookup | cbn; rewrite Hpc; reflexivity
  | let q := fresh "q" in let Hst := fresh "Hst" in
    intros q Hst; eapply (standing_frame _ _ _ _ _ Hok);
    [ others_auto | reflexivity | congruence | reflexivity | exact Hst ] ].

(** A step of the thread that holds the mutex, or takes it, from one view to another. *)
Ltac holder_frame Hown Ht :=
  let Hst := fresh "Hst" in
  match goal with |- forall q, standing _ ?s q -> _ =>
    intros q Hst; apply (standing_holder _ _ _ _ _ Ht) in Hst;
      [|first [left; by apply eq_sym | by right]|done];
    unfold holder_view in Hst; rewrite Hown in Hst end.
Ltac holder_goal :=
  eapply standing_holder; [own_lookup|cbn; first [by right|left; first [by rewrite Nat.eqb_refl|congruence]]|cbn; congruence|];
  unfold holder_view; cbn.
Ltac in_view Hst Hown Hpc := rewrite ?Hown; try (split; [done|]); destruct Hst as [_ Hst]; rewrite Hpc in Hst; cbn in Hst.
Ltac holder_step Hh Ht Hpc Hown :=
  exists []; rewrite app_nil_r; eapply (history_silent _ _ _ _ _ _ _ Hh);
  [ others_auto | exact Ht | own_lookup | cbn; rewrite Hpc; cbn; rewrite ?app_nil_r; reflexivity
  | holder_frame Hown Ht; holder_goal ].
Ltac effect_step Hh Ht Hpc Hown l :=
  exists l; eapply (history_next _ _ _ _ _ _ _ _ Hh);
  [ others_auto | exact Ht | own_lookup | cbn; rewrite Hpc; cbn; rewrite ?app_nil_r; reflexivity
  | holder_frame Hown Ht ].

Section Steps.
Context {E : Type} `{TimedEvent E} `{PosixTime}.

Implicit Types (s : Monitor E) (t : thread E) (p : point E) (q : TimedEventQueue E).

Lemma history_entry epoch ops i inp p t s :
  monitor_ok s -> history epoch ops s -> threads s !! i = Some t -> pc t = Idle -> called i inp = Some p ->
  exists l, history epoch (ops ++ map (pair i) l) (set_thread i (goto p t) s).
Proof.
  intros Hok Hh Ht Hpc He.
  assert (Hp : exists k, p = BarrierLock k) by (destruct inp, i; cbn in He; try discriminate; injection He as <-; by eexists).
  destruct Hp as [k ->]. thread_facts Hok Ht. rewrite Hpc in *. cbn in Hq. frame_step Hok Hh Ht Hpc.
Qed.

Lemma history_barrier epoch ops i inp t s s' :
  monitor_ok s -> history epoch ops s -> threads s !! i = Some t -> barrier_step i inp t s = Some (Ret s') ->
  exists l, history epoch (ops ++ map (pair i) l) s'.
Proof.
  intros Hok Hh Ht Hs. unfold barrier_step, lock_access, done in Hs.
  thread_facts Hok Ht.
  destruct (pc t) eqn:Hpc; try discriminate Hs; destruct inp; try discriminate Hs; cbn in Hq.
  - destruct (accessMut_ s) in Hs; [discriminate|]. injection Hs as <-. frame_step Hok Hh Ht Hpc.
  - destruct (initialized_ (timed s)) in Hs; injection Hs as <-; frame_step Hok Hh Ht Hpc.
  - injection Hs as <-. frame_step Hok Hh Ht Hpc.
  - destruct (accessMut_ s) in Hs; [discriminate|]. injection Hs as <-. frame_step Hok Hh Ht Hpc.
  - injection Hs as <-. destruct k; frame_step Hok Hh Ht Hpc.
Qed.

Lemma history_init epoch ops i inp t s s' :
  monitor_ok s -> history epoch ops s -> threads s !! i = Some t -> init_step i inp t s = Some (Ret s') ->
  exists l, history epoch (ops ++ map (pair i) l) s'.
Proof.
  intros Hok Hh Ht Hs. unfold init_step, lock_access, done in Hs.
  thread_facts Hok Ht. pose proof (early_uninitialized _ _ _ Hok Ht) as Hun'.
  destruct (pc t) eqn:Hpc; try discriminate Hs; destruct inp; try discriminate Hs; cbn in Hq.
  - injection Hs as Hs. inv_ret. frame_step Hok Hh Ht Hpc.
  - injection Hs as <-. exists []. rewrite app_nil_r.
    eapply (history_silent _ _ _ _ _ _ _ Hh); [others_auto|exact Ht|own_lookup|cbn; by rewrite Hpc|].
    intros q. unfold standing. cbn. by rewrite Hun'.
  - injection Hs as Hs. inv_ret. exists []. rewrite app_nil_r.
    eapply (history_silent _ _ _ _ _ _ _ Hh); [others_auto|exact Ht|own_lookup|cbn; by rewrite Hpc|].
    intros q. unfold standing. cbn. by rewrite Hun'.
  - destruct (accessMut_ s) in Hs; [discriminate|]. injection Hs as <-. frame_step Hok Hh Ht Hpc.
  - injection Hs as Hs. inv_ret. exists [OInit start now].
    eapply (history_next _ _ _ _ _ _ _ _ Hh); [others_auto|exact Ht|own_lookup|cbn; rewrite Hpc; cbn; by rewrite !app_nil_r|].
    intros q. unfold standing. rewrite (Hun' eq_refl). cbn. intros ->. destruct He as (d & Hd & Hep).
    destruct (Hun (Hun' eq_refl)) as (Hqe & Hle & _).
    eexists. split; [apply execution_one, exec_init; unfold initStartTimeNow; cbn; by rewrite Hd|].
    unfold current. cbn. rewrite (uninitialized_unlocked s Hok (Hun' eq_refl)).
    split; cbn; [congruence..|by rewrite Hle].
  - injection Hs as <-. frame_step Hok Hh Ht Hpc.
Qed.

Lemma history_add epoch ops i inp t s s' :
  monitor_ok s -> history epoch ops s -> threads s !! i = Some t -> add_step i inp t s = Some (Ret s') ->
  exists l, history epoch (ops ++ map (pair i) l) s'.
Proof.
  intros Hok Hh Ht Hs. unfold add_step, lock_queue, done in Hs.
  thread_facts Hok Ht.
  destruct (pc t) eqn:Hpc; try discriminate Hs; destruct inp; try discriminate Hs; cbn in Hq; late_init Hpc.
  - injection Hs as <-. exists [OLog ev].
    eapply (history_next _ _ _ _ _ _ _ _ Hh); [others_auto|exact Ht|own_lookup|cbn; rewrite Hpc; cbn; by rewrite !app_nil_r|].
    intros q. unfold standing. cbn. rewrite H1. intros Hc. eexists. split; [apply execution_one, exec_log|].
    { by eapply current_initialized. }
    eapply (current_frame i); [done|others_auto|done|congruence| | |exact Hc]; apply logged_entries.
  - destruct (queueMut_ s) eqn:Hfree in Hs; [discriminate|]. injection Hs as <-.
    holder_step Hh Ht Hpc Hfree. split; [done|]. rewrite <- add_body by done. by apply (blind_add (logged [])).
  - injection Hs as Hs. inv_ret. apply eq_sym, owns_true in Hq as Hown.
    pose proof (removeFuturPredictions_clock _ _ _ Hr0) as [? ?].
    holder_step Hh Ht Hpc Hown. in_view Hst Hown Hpc. unfold add_future in Hst. by rewrite Hr0 in Hst.
  - apply eq_sym, owns_true in Hq as Hown. destruct (_ && _) eqn:Hprior in Hs; injection Hs as <-.
    + effect_step Hh Ht Hpc Hown [OAdd ev predicted]. in_view Hst Hown Hpc.
      unfold add_prior in Hst. rewrite Hprior in Hst. apply adds_now in Hst as (q' & Hq' & Hs').
      exists q'. split; [by apply execution_one|]. holder_goal. by rewrite Hown.
    + holder_step Hh Ht Hpc Hown. in_view Hst Hown Hpc. unfold add_prior in Hst. by rewrite Hprior in Hst.
  - injection Hs as Hs. inv_ret. apply eq_sym, owns_true in Hq as Hown.
    assert (same_clock (timed s) r) as [? ?].
    { destruct predicted; [by eapply removeConcurrentPrediction_clock|by injection Hr0 as <-]. }
    holder_step Hh Ht Hpc Hown. in_view Hst Hown Hpc. unfold add_concurrent in Hst. by rewrite Hr0 in Hst.
  - injection Hs as Hs. inv_ret. apply eq_sym, owns_true in Hq as Hown.
    pose proof (push_clock _ _ _ _ Hr0) as [? ?].
    effect_step Hh Ht Hpc Hown [OAdd ev predicted]. in_view Hst Hown Hpc.
    unfold add_push in Hst. rewrite Hr0 in Hst. apply adds_now in Hst as (q' & Hq' & Hs').
    exists q'. split; [by apply execution_one|]. holder_goal. by rewrite Hown.
  - injection Hs as <-. apply eq_sym, owns_true in Hq as Hown.
    holder_step Hh Ht Hpc Hown. in_view Hst Hown Hpc. done.
  - injection Hs as <-. apply eq_sym, owns_true in Hq as Hown.
    holder_step Hh Ht Hpc Hown. destruct Hst as [_ Hst]. by rewrite Hpc in Hst.
Qed.

Lemma history_get epoch ops i inp t s s' :
  monitor_ok s -> history epoch ops s -> threads s !! i = Some t -> get_step_of i inp t s = Some (Ret s') ->
  exists l, history epoch (ops ++ map (pair i) l) s'.
Proof.
  intros Hok Hh Ht Hs. unfold get_step_of, lock_queue, done in Hs.
  thread_facts Hok Ht.
  destruct (pc t) eqn:Hpc; try discriminate Hs; destruct inp; try discriminate Hs; late_init Hpc;
    try destruct deadline; try discriminate Hs; cbn in Hq.
  - destruct (queueMut_ s) eqn:Hfree in Hs; [discriminate|]. injection Hs as <-. holder_step Hh Ht Hpc Hfree. done.
  - apply eq_sym, owns_true in Hq as Hown. injection Hs as Hs.
    apply obind_Ret_inv in Hs as ([|d|ev q1] & Hst1 & Hs); inv_ret.
    + holder_step Hh Ht Hpc Hown. destruct Hst as [_ Hst]. by rewrite Hpc in Hst.
    + holder_step Hh Ht Hpc Hown. destruct Hst as [_ Hst]. by rewrite Hpc in Hst.
    + pose proof (get_step_clock _ _ _ _ Hst1) as [? ?].
      effect_step Hh Ht Hpc Hown [OGet now ev]. in_view Hst Hown Hpc.
      pose proof (blind_get_step (logged []) now q (timed s) Hst) as Hg. rewrite Hst1 in Hg.
      apply orel_Ret_l in Hg as (st & Hg & Hs'). inversion Hs' as [| |ev' q' q2 Hq2]; subst.
      exists q'. split; [apply execution_one, exec_get; [by rewrite <- (logged_initialized _ _ _ Hst)|done]|].
      holder_goal. by rewrite Hown.
  - destruct (pt_gtb _ now); [discriminate|]. injection Hs as <-. frame_step Hok Hh Ht Hpc.
  - injection Hs as <-. frame_step Hok Hh Ht Hpc.
  - injection Hs as <-. frame_step Hok Hh Ht Hpc.
  - destruct (queueMut_ s) eqn:Hfree in Hs; [discriminate|]. injection Hs as <-. holder_step Hh Ht Hpc Hfree. done.
  - injection Hs as <-. apply eq_sym, owns_true in Hq as Hown.
    holder_step Hh Ht Hpc Hown. destruct Hst as [_ Hst]. by rewrite Hpc in Hst.
Qed.

Lemma history_step epoch ops i inp s s' :
  monitor_ok s -> history epoch ops s -> monitor_step i inp s = Some (Ret s') ->
  exists l, history epoch (ops ++ map (pair i) l) s'.
Proof.
  intros Hok Hh Hs. unfold monitor_step in Hs. destruct (threads s !! i) as [t|] eqn:Ht; [|discriminate].
  destruct (pc t) eqn:Hpc; eauto using history_init, history_barrier, history_add, history_get.
  - destruct (called i inp) eqn:He; [|discriminate]. injection Hs as <-. by eapply history_entry.
  - unfold stamp_step in Hs. rewrite Hpc in Hs. destruct inp; try discriminate. injection Hs as <-.
    thread_facts Hok Ht. rewrite Hpc in *. cbn in Hq. frame_step Hok Hh Ht Hpc.
Qed.

Lemma history_run epoch ls ops s s' :
  monitor_ok s -> history epoch ops s -> run_schedule ls s = Ret s' ->
  exists ops', history epoch (ops ++ ops') s'.
Proof.
  revert s ops. induction ls as [|l ls IH]; intros s ops Hok Hh Hr; cbn in Hr.
  - injection Hr as <-. exists []. by rewrite app_nil_r.
  - destruct (monitor_step l.1 l.2 s) as [r|] eqn:Hs; [|by eapply IH].
    apply obind_Ret_inv in Hr as (s1 & -> & Hr).
    destruct (history_step _ _ _ _ _ _ Hok Hh Hs) as [l1 Hh1].
    destruct (IH s1 _ (monitor_step_ok _ _ _ _ Hok Hs) Hh1 Hr) as [ops2 Hh2].
    exists (map (pair l.1) l1 ++ ops2). by rewrite (assoc_L (++)).
Qed.

Lemma history_initial n start now : history now [] (new_Monitor n start now : Monitor E).
Proof.
  split; [constructor|..].
  - intros [|i] t Ht; cbn in Ht; [by injection Ht as <-|]. by apply lookup_replicate in Ht as [-> _].
  - eexists. split; [constructor|done].
Qed.

(** ** Faults *)

Lemma standing_view epoch i t s q :
  monitor_ok s -> threads s !! i = Some t -> holds_queue (pc t) = true -> standing epoch s q ->
  view (pc t) q (timed s).
Proof.
  intros Hok Ht Hh Hst. pose proof (late_initialized _ _ _ Hok Ht (holds_late _ Hh)) as Hi.
  destruct (ok_threads _ Hok _ _ Ht) as (Hq & _). rewrite Hh in Hq. symmetry in Hq.
  apply (standing_holder _ _ _ _ _ Ht) in Hst; [|by left|done].
  apply owns_true in Hq. unfold holder_view in Hst. rewrite Hq in Hst. apply Hst.
Qed.

Lemma init_faults epoch i inp t s q f :
  monitor_ok s -> threads s !! i = Some t -> standing epoch s q ->
  init_step i inp t s = Some (Fault f) -> faults (pc t) inp q f.
Proof.
  intros Hok Ht Hst Hs. unfold init_step, lock_access, done in Hs.
  thread_facts Hok Ht. pose proof (early_uninitialized _ _ _ Hok Ht) as Hun'.
  destruct (pc t) eqn:Hpc; try discriminate Hs; destruct inp; try discriminate Hs.
  - destruct (Hun (Hun' eq_refl)) as [Hqe _]. by rewrite Hqe in Hs.
  - unfold standing in Hst. rewrite (Hun' eq_refl) in Hst. subst q.
    cbn. unfold initStartTimeNow. cbn. by destruct (getRelativeTime start); cbn in *; simplify_eq.
  - by destruct (accessMut_ s).
  - by rewrite (Hun' eq_refl) in Hs.
Qed.

Lemma add_faults epoch i inp t s q f :
  monitor_ok s -> threads s !! i = Some t -> standing epoch s q ->
  add_step i inp t s = Some (Fault f) -> faults (pc t) inp q f.
Proof.
  intros Hok Ht Hst Hs. unfold add_step, lock_queue, done in Hs. pose proof (fun Hp => standing_view epoch _ _ _ q Hok Ht Hp Hst) as Hv.
  destruct (pc t) eqn:Hpc; try discriminate Hs; destruct inp; try discriminate Hs; rewrite ?Hpc in Hv; cbn in Hv;
    try specialize (Hv eq_refl).
  - by destruct (queueMut_ s).
  - eapply orel_Fault_l. revert Hv. unfold add_future.
    by destruct (removeFuturPredictions _ _); cbn in *; simplify_eq.
  - by destruct (_ && _).
  - eapply orel_Fault_l. revert Hv. unfold add_concurrent.
    by destruct (if predicted then _ else _); cbn in *; simplify_eq.
  - eapply orel_Fault_l. revert Hv. unfold add_push. by destruct (push _ _ _); cbn in *; simplify_eq.
Qed.

Lemma get_faults epoch i inp t s q f :
  monitor_ok s -> threads s !! i = Some t -> standing epoch s q ->
  get_step_of i inp t s = Some (Fault f) -> faults (pc t) inp q f.
Proof.
  intros Hok Ht Hst Hs. unfold get_step_of, lock_queue, done in Hs. pose proof (fun Hp => standing_view epoch _ _ _ q Hok Ht Hp Hst) as Hv.
  destruct (pc t) eqn:Hpc; try discriminate Hs; destruct inp; try discriminate Hs; rewrite ?Hpc in Hv; cbn in Hv;
    try destruct deadline; try discriminate Hs; try specialize (Hv eq_refl).
  - by destruct (queueMut_ s).
  - eapply orel_Fault_l. pose proof (blind_get_step (logged []) now q (timed s) Hv) as Hg.
    by destruct (get_step now (timed s)) as [[]| |]; cbn in *; simplify_eq.
  - by destruct (pt_gtb _ now).
  - by destruct (queueMut_ s).
Qed.

Lemma step_faults epoch i inp s q f :
  monitor_ok s -> standing epoch s q -> monitor_step i inp s = Some (Fault f) ->
  exists t, threads s !! i = Some t /\ faults (pc t) inp q f.
Proof.
  intros Hok Hst Hs. unfold monitor_step in Hs. destruct (threads s !! i) as [t|] eqn:Ht; [|discriminate].
  exists t. split; [done|].
  destruct (pc t) eqn:Hpc; rewrite <- Hpc; eauto using init_faults, add_faults, get_faults.
  - by destruct (called i inp).
  - unfold barrier_step, lock_access in Hs. rewrite Hpc in Hs. destruct inp; try discriminate. by destruct (accessMut_ s).
  - unfold barrier_step in Hs. rewrite Hpc in Hs. destruct inp; try discriminate. by destruct (initialized_ _).
  - unfold barrier_step in Hs. rewrite Hpc in Hs. by destruct inp.
  - unfold barrier_step, lock_access in Hs. rewrite Hpc in Hs. destruct inp; try discriminate. by destruct (accessMut_ s).
  - unfold barrier_step in Hs. rewrite Hpc in Hs. by destruct inp.
  - unfold stamp_step in Hs. rewrite Hpc in Hs. by destruct inp.
Qed.

Lemma run_faults epoch ls ops s f :
  monitor_ok s -> history epoch ops s -> run_schedule ls s = Fault f ->
  exists ls1 i inp ls2 s1 t ops1 q, ls = ls1 ++ (i, inp) :: ls2 /\ run_schedule ls1 s = Ret s1 /\
    history epoch ops1 s1 /\ execution (new_TimedEventQueue epoch) ops1 q /\
    threads s1 !! i = Some t /\ faults (pc t) inp q f.
Proof.
  revert s ops. induction ls as [|[i inp] ls IH]; intros s ops Hok Hh Hr; cbn in Hr; [discriminate|].
  assert (Hskip : forall s', run_schedule ls s' = Fault f -> monitor_ok s' -> (exists ops', history epoch ops' s') ->
            (forall ls1, run_schedule ((i, inp) :: ls1) s = run_schedule ls1 s') ->
            exists ls1 j inp' ls2 s1 t ops1 q, (i, inp) :: ls = ls1 ++ (j, inp') :: ls2 /\ run_schedule ls1 s = Ret s1 /\
              history epoch ops1 s1 /\ execution (new_TimedEventQueue epoch) ops1 q /\
              threads s1 !! j = Some t /\ faults (pc t) inp' q f).
  { intros s' Hf Hok' [ops' Hh'] Hrun. destruct (IH s' ops' Hok' Hh' Hf) as (ls1 & j & inp' & ls2 & s1 & t & ops1 & q & -> & Hr1 & Hrest).
    exists ((i, inp) :: ls1), j, inp', ls2, s1, t, ops1, q. by rewrite Hrun. }
  destruct (monitor_step i inp s) as [r|] eqn:Hs.
  - destruct r as [s1|x|f1]; cbn in Hr; [|discriminate|injection Hr as ->].
    + apply (Hskip s1 Hr); [by eapply monitor_step_ok| |intros ls1; cbn; by rewrite Hs].
      destruct (history_step _ _ _ _ _ _ Hok Hh Hs) as [l1 Hh1]. by eexists.
    + destruct (history_state _ _ _ Hh) as (q & Hq & Hst).
      destruct (step_faults _ _ _ _ _ _ Hok Hst Hs) as (t & Ht & Hf).
      by exists [], i, inp, ls, s, t, ops, q.
  - apply (Hskip s Hr Hok); [by eexists|intros ls1; cbn; by rewrite Hs].
Qed.

(** ** Events *)

(** The external events and the predictions that some operations add, and the events
    they get. *)
Definition added (l : list (operation E)) : list E :=
  omap (fun op => match op with OAdd ev false => Some ev | _ => None end) l.
Definition foretold (l : list (operation E)) : list E :=
  omap (fun op => match op with OAdd ev true => Some ev | _ => None end) l.
Definition got (l : list (operation E)) : list E :=
  omap (fun op => match op with OGet _ ev => Some ev | _ => None end) l.

Lemma execution_events epoch ops q :
  execution (new_TimedEventQueue epoch) ops q ->
  exists given fulfilled,
    added ops.*2 ≡ₚ given ++ externals q /\ fulfilled ++ predictions (queue_ q) ⊆+ foretold ops.*2 /\
    got ops.*2 ≡ₚ given ++ fulfilled.
Proof.
  remember (new_TimedEventQueue epoch) as q0 eqn:E0. induction 1 as [q|q ops q1 i op q2 Hex IH Hop]; subst q.
  - by exists [], [].
  - destruct (IH eq_refl) as (given & fulfilled & Hg & Hf & Hs). unfold added, foretold, got in *.
    rewrite fmap_app, !omap_app.
    inversion Hop as [start now q' Hr|ev|ev b q' Hr|now ev q' Hi Hr]; subst; cbn.
    + exists given, fulfilled. rewrite !app_nil_r. unfold initStartTimeNow in Hr. by inv_ret.
    + exists given, fulfilled. by rewrite !app_nil_r.
    + exists given, fulfilled. pose proof (predictions_submseteq _ _ (add_queue _ _ _ _ Hr)) as Hp.
      destruct (add_externals _ _ _ _ Hr) as [He _]. rewrite Hg, He, Hs, !app_nil_r. split_and!; [| |done].
      * destruct b; cbn; [by rewrite app_nil_r|]. solve_Permutation.
      * rewrite predictions_cons in Hp. destruct b; cbn in *; rewrite ?app_nil_r.
        -- etrans; [by apply submseteq_skips_l, Hp|].
           rewrite <- Permutation_middle, (Permutation_app_comm _ [ev]). by apply submseteq_skip.
        -- etrans; [|exact Hf]. by apply submseteq_skips_l.
    + rewrite !app_nil_r. destruct (get_step_head _ _ _ _ Hr) as [b Hq]. unfold externals in *.
      rewrite Hq, filter_cons in Hg. rewrite Hq, predictions_cons in Hf. destruct b; cbn in Hg, Hf.
      * exists given, (fulfilled ++ [ev]). rewrite Hs, <- !(assoc_L (++)). done.
      * exists (given ++ [ev]), fulfilled. rewrite Hs, <- !(assoc_L (++)). split_and!; [done..|]. solve_Permutation.
Qed.

(** The operations, thread by thread. *)
Lemma concat_map_app {A B} (f g : A -> list B) l :
  concat (map (fun a => f a ++ g a) l) ≡ₚ concat (map f l) ++ concat (map g l).
Proof. induction l as [|a l IH]; cbn; [done|]. rewrite IH. solve_Permutation. Qed.

Lemma concat_map_single (j : nat) (op : operation E) a n :
  (a <= j < a + n)%nat -> concat (map (fun i => if decide (j = i) then [op] else []) (seq a n)) = [op].
Proof.
  revert a. induction n as [|n IH]; intros a Hj; [lia|]. cbn. destruct (decide (j = a)) as [->|Hne].
  - cbn. f_equal. assert (Hnil : forall b, (a < b)%nat ->
      concat (map (fun i => if decide (a = i) then [op] else []) (seq b n)) = []).
    { clear. induction n as [|n IH]; intros b Hb; cbn; [done|]. rewrite decide_False by lia. cbn. apply IH. lia. }
    apply Hnil. lia.
  - cbn. apply IH. lia.
Qed.

Lemma ops_by_thread (n : nat) (ops : list (nat * operation E)) :
  Forall (fun x => (x.1 < n)%nat) ops -> concat (map (fun i => ops_of i ops) (seq 0 n)) ≡ₚ ops.*2.
Proof.
  induction 1 as [|[j op] ops Hj Hops IH].
  - cbn. generalize (seq 0 n). intros l. by induction l.
  - assert (HE : map (fun i => ops_of i ((j, op) :: ops)) (seq 0 n) =
                 map (fun i => (if decide (j = i) then [op] else []) ++ ops_of i ops) (seq 0 n)).
    { apply map_ext. intros i. unfold ops_of. rewrite filter_cons. cbn. by destruct (decide (j = i)). }
    rewrite HE, concat_map_app, IH, concat_map_single by (cbn in Hj; lia). done.
Qed.

Lemma omap_concat {A B} (f : A -> option B) (l : list (list A)) : omap f (concat l) = concat (map (omap f) l).
Proof. induction l as [|x l IH]; cbn; [done|]. by rewrite omap_app, IH. Qed.

(** With the mutex free, the operations are what the threads have done. *)
Lemma effects_by_thread epoch ops s :
  monitor_ok s -> history epoch ops s -> queueMut_ s = None ->
  concat (map effects (threads s)) ≡ₚ ops.*2.
Proof.
  intros Hok [Hids Hth _] Hm. rewrite <- (ops_by_thread (length (threads s)) ops).
  2:{ eapply Forall_impl; [exact Hids|]. intros x. apply lookup_lt_is_Some_1. }
  replace (map effects (threads s)) with (map (fun i => ops_of i ops) (seq 0 (length (threads s)))); [done|].
  apply list_eq. intros i. rewrite !list_lookup_fmap. destruct (threads s !! i) as [t|] eqn:Ht.
  - rewrite lookup_seq_lt by by eapply lookup_lt_Some. cbn. f_equal. rewrite (Hth i t Ht).
    destruct (ok_threads s Hok i t Ht) as (Hh & _). rewrite Hm in Hh.
    destruct (pc t); cbn in *; rewrite ?app_nil_r; try done; discriminate Hh.
  - rewrite lookup_seq_ge by by apply lookup_ge_None. done.
Qed.

(** A free queue holds what the operations have left. *)
Lemma standing_free epoch s q : monitor_ok s -> queueMut_ s = None -> standing epoch s q -> queue_ (timed s) = queue_ q.
Proof.
  intros Hok Hm Hst. unfold standing, current in Hst. rewrite Hm in Hst. destruct (initialized_ (timed s)) eqn:Hi.
  - by rewrite (logged_queue _ _ _ Hst).
  - destruct (ok_uninitialized _ Hok Hi) as (-> & _). by subst q.
Qed.

(** The events that all threads together have added and got. *)
Definition of_threads (events : list (operation E) -> list E) s : list E :=
  concat (map (fun t => events (effects t)) (threads s)).

Lemma threads_events epoch ops s :
  monitor_ok s -> history epoch ops s -> queueMut_ s = None ->
  exists given fulfilled,
    of_threads added s ≡ₚ given ++ externals (timed s) /\ of_threads got s ≡ₚ given ++ fulfilled /\ fulfilled ⊆+ of_threads foretold s.
Proof.
  intros Hok Hh Hm. pose proof (effects_by_thread _ _ _ Hok Hh Hm) as Heff.
  destruct (history_state _ _ _ Hh) as (q & Hq & Hst).
  destruct (execution_events _ _ _ Hq) as (given & fulfilled & Hg & Hf & Hs). exists given, fulfilled.
  unfold of_threads. rewrite <- (map_map effects added), <- (map_map effects got), <- (map_map effects foretold).
  unfold added, got, foretold in *. rewrite <- !omap_concat, !Heff. split_and!; [|done|].
  - rewrite Hg. unfold externals. by rewrite (standing_free _ _ _ Hok Hm Hst).
  - etrans; [|exact Hf]. by apply submseteq_inserts_r.
Qed.

End Steps.

(** ** The theorems *)

Section Properties.
Context {E : Type} `{TimedEvent E} `{PosixTime}.

(** C2: whatever the interleaving of the dispatcher and the subscribers, there is an order
    of their operations, executed one at a time on a new queue, that gives every thread
    exactly the operations it has made so far, in its own order and with the same events,
    and, when the mutex is free, leaves the same queue and epoch and the same log up to
    its order; what happens later is appended, so a call that has returned is in front of
    every call that starts later. *)
Theorem queue_linearizable n (start : fmiTime) (now : ptime) ls1 ls2 (s1 s2 : Monitor E) :
  run_schedule ls1 (new_Monitor n start now) = Ret s1 -> run_schedule ls2 s1 = Ret s2 ->
  exists ops1 ops2 q,
    execution (new_TimedEventQueue now) (ops1 ++ ops2) q /\
    (initialized_ (timed s2) = true -> queueMut_ s2 = None -> logged [] q (timed s2)) /\
    Forall (fun x => is_Some (threads s2 !! x.1)) (ops1 ++ ops2) /\
    (forall i t, threads s1 !! i = Some t -> ops_of i ops1 = effects t ++ pending (pc t)) /\
    (forall i t, threads s2 !! i = Some t -> ops_of i (ops1 ++ ops2) = effects t ++ pending (pc t)).
Proof.
  intros H1 H2. pose proof (run_schedule_ok _ _ _ (initial_ok n start now) H1) as Hok.
  destruct (history_run now _ [] _ _ (initial_ok n start now) (history_initial n start now) H1) as [ops1 Hh1].
  destruct (history_run _ _ _ _ _ Hok Hh1 H2) as [ops2 Hh2].
  destruct (history_state _ _ _ Hh2) as (q & Hq & Hst). exists ops1, ops2, q. split_and!.
  - done.
  - intros Hi Hm. unfold standing, current in Hst. by rewrite Hi, Hm in Hst.
  - apply Hh2.
  - apply Hh1.
  - apply Hh2.
Qed.

(** An interleaving of the threads fails an assertion or has undefined behaviour only
    where the sequential code does: at the step that fails, some order of the operations
    made so far, executed one at a time, leaves a queue on which the very operation that
    the thread has begun fails in the same way. *)
Theorem queue_interleaving_faults n (start : fmiTime) (now : ptime) ls f :
  run_schedule ls (new_Monitor n start now : Monitor E) = Fault f ->
  exists ls1 i inp ls2 s t ops q,
    ls = ls1 ++ (i, inp) :: ls2 /\ run_schedule ls1 (new_Monitor n start now) = Ret s /\
    execution (new_TimedEventQueue now) ops q /\
    (forall j u, threads s !! j = Some u -> ops_of j ops = effects u ++ pending (pc u)) /\
    threads s !! i = Some t /\ faults (pc t) inp q f.
Proof.
  intros Hr.
  destruct (run_faults _ _ [] _ _ (initial_ok n start now) (history_initial n start now) Hr)
    as (ls1 & i & inp & ls2 & s & t & ops & q & Hls & Hrun & Hh & Hq & Ht & Hf).
  exists ls1, i, inp, ls2, s, t, ops, q. split_and!; try done. apply Hh.
Qed.

(** No interleaving loses an external event or delivers one twice: when the mutex is
    free, the external events that the threads have added are, event for event, those given
    to the dispatcher together with those in the queue, and whatever else it got are
    predictions that were added, none of them twice. *)
Theorem queue_threads_keep_events n (start : fmiTime) (now : ptime) ls (s : Monitor E) :
  run_schedule ls (new_Monitor n start now) = Ret s -> queueMut_ s = None ->
  exists given fulfilled,
    of_threads added s ≡ₚ given ++ externals (timed s) /\
    of_threads got s ≡ₚ given ++ fulfilled /\ fulfilled ⊆+ of_threads foretold s.
Proof.
  intros Hr Hm. pose proof (run_schedule_ok _ _ _ (initial_ok n start now) Hr) as Hok.
  destruct (history_run now _ [] _ _ (initial_ok n start now) (history_initial n start now) Hr) as [ops Hh].
  by eapply threads_events.
Qed.

End Properties.

(** ** A run with two subscribers *)

Definition turns (i k : nat) : list (nat * input (nat * fmiTime)) := replicate k (i, Go).

(** Subscriber 1 calls before the time is initialised; subscriber 2 reads the clock and
    pushes an earlier event while the dispatcher sleeps, which wakes it up. *)
Definition first_calls : list (nat * input (nat * fmiTime)) :=
  [(1%nat, CallPush (sample 1 40))] ++ turns 1 2 ++
  [(0%nat, Go); (0%nat, Clock (at_us 0))] ++ turns 0 4 ++ turns 1 14 ++
  [(0%nat, CallGet)] ++ turns 0 4 ++ [(0%nat, Clock (at_us 10000))].
Definition later_calls : list (nat * input (nat * fmiTime)) :=
  [(2%nat, CallStamp (at_us 20000))] ++ turns 2 4 ++
  [(2%nat, CallPush (sample 2 20))] ++ turns 2 15 ++
  turns 0 1 ++ [(0%nat, Clock (at_us 21000))] ++ turns 0 1.
Definition two_subscribers : Monitor (nat * fmiTime) := new_Monitor 2 (ms 0) (at_us 0).

Definition run_or_start (ls : list (nat * input (nat * fmiTime))) (s : Monitor (nat * fmiTime)) : Monitor (nat * fmiTime) :=
  match run_schedule ls s with Ret s' => s' | _ => s end.
Definition after_first : Monitor (nat * fmiTime) := run_or_start first_calls two_subscribers.
Definition after_later : Monitor (nat * fmiTime) := run_or_start later_calls after_first.

Lemma queue_linearizable_witness :
  (is_Ret (run_schedule first_calls two_subscribers) = true /\ is_Ret (run_schedule later_calls after_first) = true) /\
  exists ops1 ops2 q,
    execution (new_TimedEventQueue (at_us 0)) (ops1 ++ ops2) q /\
    (initialized_ (timed after_later) = true -> queueMut_ after_later = None -> logged [] q (timed after_later)) /\
    Forall (fun x => is_Some (threads after_later !! x.1)) (ops1 ++ ops2) /\
    (forall i t, threads after_first !! i = Some t -> ops_of i ops1 = effects t ++ pending (pc t)) /\
    (forall i t, threads after_later !! i = Some t -> ops_of i (ops1 ++ ops2) = effects t ++ pending (pc t)).
Proof.
  assert (H1 : is_Ret (run_schedule first_calls two_subscribers) = true) by (vm_compute; reflexivity).
  assert (H2 : is_Ret (run_schedule later_calls after_first) = true) by (vm_compute; reflexivity).
  split; [by split|].
  exact (queue_linearizable 2 (ms 0) (at_us 0) first_calls later_calls after_first after_later
           (is_Ret_value _ two_subscribers H1) (is_Ret_value _ after_first H2)).
Defined.

(** A start time beyond the range of the conversion to seconds. *)
Definition late_start : fmiTime := f64_of_Z (10 ^ 30).
Definition bad_init : list (nat * input (nat * fmiTime)) :=
  [(0%nat, Go); (1%nat, CallStamp (at_us 5)); (0%nat, Clock (at_us 0)); (1%nat, Go); (0%nat, Go)].

Lemma queue_interleaving_faults_witness :
  let m := new_Monitor 1 late_start (at_us 0) : Monitor (nat * fmiTime) in
  run_schedule bad_init m = Fault UndefinedBehaviour /\
  exists ls1 i inp ls2 s t ops q,
    bad_init = ls1 ++ (i, inp) :: ls2 /\ run_schedule ls1 m = Ret s /\
    execution (new_TimedEventQueue (at_us 0)) ops q /\
    (forall j u, threads s !! j = Some u -> ops_of j ops = effects u ++ pending (pc u)) /\
    threads s !! i = Some t /\ faults (pc t) inp q UndefinedBehaviour.
Proof.
  assert (H1 : run_schedule bad_init (new_Monitor 1 late_start (at_us 0) : Monitor (nat * fmiTime)) =
               Fault UndefinedBehaviour) by (vm_compute; reflexivity).
  split; [exact H1|]. exact (queue_interleaving_faults 1 late_start (at_us 0) bad_init _ H1).
Defined.

Lemma queue_threads_keep_events_witness :
  queueMut_ after_later = None /\
  exists given fulfilled,
    of_threads added after_later ≡ₚ given ++ externals (timed after_later) /\
    of_threads got after_later ≡ₚ given ++ fulfilled /\ fulfilled ⊆+ of_threads foretold after_later.
Proof.
  assert (E1 : run_schedule (first_calls ++ later_calls) two_subscribers = Ret after_later) by (vm_compute; reflexivity).
  split; [vm_compute; reflexivity|].
  apply (queue_threads_keep_events 2 (ms 0) (at_us 0) (first_calls ++ later_calls)); [exact E1|vm_compute; reflexivity].
Defined.
