(* ===== verification/QueueProgress.v ===== *)
(** * The calls of the event queue return, and the dispatcher is woken

    A dispatcher that sleeps has nothing to deliver, and every other call returns after a
    bounded number of steps, whatever the scheduler does. *)

From S2P Require Import Prelude Float64 BaseExceptions Event TimedEventQueue TimedEventQueueSpec.
From S2P Require Import QueueMonitor QueueMonitorSpec QueueLinearizable.

Section Wakeups.
Context {E : Type} `{TimedEvent E} `{PosixTime}.

Implicit Types (s : Monitor E) (t : thread E) (p : point E) (q : TimedEventQueue E).

(** A thread inside [add] that has not notified yet. *)
Definition adding p : bool :=
  match p with
  | AddFuture _ _ | AddPrior _ _ | AddConcurrent _ _ | AddPush _ _ | AddNotify _ _ => true
  | _ => false
  end.

(** The dispatcher waits for a new event, or until the first event is due. *)
Definition waits_rightly (deadline : option ptime) q : Prop :=
  match deadline with
  | None => queue_ q = []
  | Some d => exists x l, queue_ q = x :: l /\ getSystemTime q x.1 = Ret d
  end.

Definition sleeping_ok s : Prop :=
  forall t d, threads s !! 0%nat = Some t -> pc t = GetSleep d ->
    (forall j u, threads s !! j = Some u -> adding (pc u) = false) -> waits_rightly d (timed s).

Lemma waits_rightly_same d q q' :
  queue_ q' = queue_ q -> localEpoch_ q' = localEpoch_ q -> waits_rightly d q -> waits_rightly d q'.
Proof. intros Hq He. destruct d; cbn; unfold getSystemTime; by rewrite Hq, ?He. Qed.

Lemma get_step_waits now q d : get_step now q = Ret (WaitUntil d) -> waits_rightly (Some d) q.
Proof.
  unfold get_step. destruct (queue_ q) as [|x l] eqn:Hq; intros Hr; inv_ret; [discriminate|].
  destruct r; inv_ret; [|discriminate]. cbn. eauto.
Qed.
Lemma get_step_empty now q : get_step now q = Ret WaitForEvent -> waits_rightly None q.
Proof.
  unfold get_step. destruct (queue_ q) as [|x l] eqn:Hq; intros Hr; inv_ret; [done|].
  destruct r; inv_ret; discriminate.
Qed.

(** A step of thread [i] that leaves the queue alone, or after which it is still adding. *)
Lemma sleeping_step i t t' s s' :
  sleeping_ok s -> others i s s' -> threads s !! i = Some t -> threads s' !! i = Some t' ->
  (adding (pc t') = true \/
   adding (pc t) = false /\ queue_ (timed s') = queue_ (timed s) /\ localEpoch_ (timed s') = localEpoch_ (timed s)) ->
  (forall d, pc t' = GetSleep d -> waits_rightly d (timed s')) ->
  sleeping_ok s'.
Proof.
  intros Hs [Hdom Hoth] Ht Ht' Hadd Hd u d Hu Hpc Hall.
  destruct Hadd as [Hadd|(Hadd & Hq & He)]; [by rewrite (Hall i t' Ht') in Hadd|].
  destruct (decide (i = 0%nat)) as [->|Hi]; [replace u with t' in * by congruence; by apply Hd|].
  destruct (Hoth 0%nat u ltac:(done) Hu) as (u0 & Hu0 & _ & _ & Hw).
  apply (waits_rightly_same d (timed s)); [done..|]. apply (Hs u0 d Hu0).
  - rewrite Hpc in Hw. by inversion Hw.
  - intros j v Hj. destruct (decide (j = i)) as [->|Hne]; [by replace v with t by congruence|].
    destruct (proj1 (Hdom j) ltac:(by eexists)) as [v' Hv'].
    destruct (Hoth j v' Hne Hv') as (v0 & Hv0 & _ & _ & Hw'). replace v0 with v in * by congruence.
    specialize (Hall j v' Hv'). inversion Hw'; congruence || done.
Qed.

(** Nobody sleeps in [get] once the dispatcher has been notified. *)
Lemma sleeping_notified s' :
  (forall t, threads s' !! 0%nat = Some t -> forall d, pc t <> GetSleep d) -> sleeping_ok s'.
Proof. intros Hn t d Ht Hd. by destruct (Hn t Ht d). Qed.

End Wakeups.

(** Closes [sleeping_ok] of an explicit state behind a step. *)
Ltac sleep_step Hsl Ht Hpc :=
  eapply (sleeping_step _ _ _ _ _ Hsl);
  [ others_auto | exact Ht | own_lookup
  | cbn; rewrite ?Hpc; cbn; first [by left | by right]
  | cbn; intros; first [discriminate | congruence] ].

Section WakeupSteps.
Context {E : Type} `{TimedEvent E} `{PosixTime}.

Implicit Types (s : Monitor E) (t : thread E) (p : point E) (q : TimedEventQueue E).

(** The dispatcher itself has made the step. *)
Lemma sleeping_own t' s' :
  threads s' !! 0%nat = Some t' -> (forall d, pc t' <> GetSleep d) -> sleeping_ok s'.
Proof. intros Ht' Hd. apply sleeping_notified. intros u Hu. by replace u with t' by congruence. Qed.

Lemma sleeping_entry i inp p t s :
  sleeping_ok s -> threads s !! i = Some t -> pc t = Idle -> called i inp = Some p ->
  sleeping_ok (set_thread i (goto p t) s).
Proof.
  intros Hsl Ht Hpc He.
  assert (Hp : exists k, p = BarrierLock k) by (destruct inp, i; cbn in He; try discriminate; injection He as <-; by eexists).
  destruct Hp as [k ->]. sleep_step Hsl Ht Hpc.
Qed.

Lemma sleeping_init t inp s s' :
  threads s !! 0%nat = Some t -> init_step 0 inp t s = Some (Ret s') -> sleeping_ok s'.
Proof.
  intros Ht Hs. unfold init_step, lock_access, done in Hs.
  destruct (pc t) eqn:Hpc; try discriminate Hs; destruct inp; try discriminate Hs;
    try (destruct (accessMut_ s); [discriminate|]); injection Hs as Hs; inv_ret; subst;
    (eapply sleeping_own; [own_lookup|done]).
Qed.

Lemma sleeping_barrier i inp t s s' :
  sleeping_ok s -> threads s !! i = Some t -> barrier_step i inp t s = Some (Ret s') -> sleeping_ok s'.
Proof.
  intros Hsl Ht Hs. unfold barrier_step, lock_access, done in Hs.
  destruct (pc t) eqn:Hpc; try discriminate Hs; destruct inp; try discriminate Hs;
    try (destruct (accessMut_ s); [discriminate|]); try (destruct (initialized_ (timed s)));
    injection Hs as <-; try (destruct k); sleep_step Hsl Ht Hpc.
Qed.

Lemma sleeping_add i inp t s s' :
  role_ok i (pc t) = true -> sleeping_ok s -> threads s !! i = Some t -> add_step i inp t s = Some (Ret s') ->
  sleeping_ok s'.
Proof.
  intros Hr Hsl Ht Hs. unfold add_step, lock_queue, done in Hs.
  destruct (pc t) eqn:Hpc; try discriminate Hs; destruct inp; try discriminate Hs.
  - injection Hs as <-. sleep_step Hsl Ht Hpc.
  - destruct (queueMut_ s); [discriminate|]. injection Hs as <-. sleep_step Hsl Ht Hpc.
  - injection Hs as Hs. inv_ret. sleep_step Hsl Ht Hpc.
  - destruct predicted; cbn in Hr, Hs.
    + destruct (Nat.eqb_spec i 0) as [->|]; [|done].
      destruct (hasPriorEvents _ _); injection Hs as <-; (eapply sleeping_own; [own_lookup|done]).
    + injection Hs as <-. sleep_step Hsl Ht Hpc.
  - injection Hs as Hs. inv_ret. sleep_step Hsl Ht Hpc.
  - injection Hs as Hs. inv_ret. sleep_step Hsl Ht Hpc.
  - injection Hs as <-. apply sleeping_notified. cbn. intros u Hu d.
    destruct (decide (i = 0%nat)) as [->|Hi].
    + rewrite list_lookup_insert_eq in Hu by (rewrite length_alter; by eapply lookup_lt_Some).
      injection Hu as <-. done.
    + rewrite list_lookup_insert_ne, list_lookup_alter_eq, fmap_Some in Hu by done.
      destruct Hu as (v & _ & ->). unfold wake_get. destruct (pc v) eqn:Hv; cbn; by rewrite ?Hv.
  - injection Hs as <-. sleep_step Hsl Ht Hpc.
Qed.

Lemma sleeping_get t inp s s' :
  threads s !! 0%nat = Some t -> get_step_of 0 inp t s = Some (Ret s') -> sleeping_ok s'.
Proof.
  intros Ht Hs. unfold get_step_of, lock_queue, done in Hs.
  destruct (pc t) eqn:Hpc; try discriminate Hs; destruct inp; try discriminate Hs;
    try destruct deadline; try discriminate Hs.
  - destruct (queueMut_ s); [discriminate|]. injection Hs as <-. eapply sleeping_own; [own_lookup|done].
  - injection Hs as Hs. apply obind_Ret_inv in Hs as ([|d|ev q] & Hst & Hs); inv_ret.
    + intros u d Hu Hd _. cbn in Hu. rewrite list_lookup_insert_eq in Hu by by eapply lookup_lt_Some.
      injection Hu as <-. injection Hd as <-. by eapply get_step_empty.
    + intros u d' Hu Hd _. cbn in Hu. rewrite list_lookup_insert_eq in Hu by by eapply lookup_lt_Some.
      injection Hu as <-. injection Hd as <-. by eapply get_step_waits.
    + eapply sleeping_own; [own_lookup|done].
  - destruct (pt_gtb _ now); [discriminate|]. injection Hs as <-. eapply sleeping_own; [own_lookup|done].
  - injection Hs as <-. eapply sleeping_own; [own_lookup|done].
  - injection Hs as <-. eapply sleeping_own; [own_lookup|done].
  - destruct (queueMut_ s); [discriminate|]. injection Hs as <-. eapply sleeping_own; [own_lookup|done].
  - injection Hs as <-. eapply sleeping_own; [own_lookup|done].
Qed.

Lemma sleeping_monitor i inp s s' :
  monitor_ok s -> sleeping_ok s -> monitor_step i inp s = Some (Ret s') -> sleeping_ok s'.
Proof.
  intros Hok Hsl Hs. unfold monitor_step in Hs. destruct (threads s !! i) as [t|] eqn:Ht; [|discriminate].
  pose proof (ok_threads s Hok i t Ht) as (_ & _ & Hr & _ & _ & _).
  destruct (pc t) eqn:Hpc; cbn in Hr; try (apply Nat.eqb_eq in Hr; subst i);
    eauto using sleeping_init, sleeping_barrier, sleeping_get.
  - destruct (called i inp) eqn:He; [|discriminate]. injection Hs as <-. by eapply sleeping_entry.
  - eapply sleeping_add; eauto. by rewrite Hpc.
  - eapply sleeping_add; eauto. by rewrite Hpc.
  - eapply sleeping_add; eauto. by rewrite Hpc.
  - eapply sleeping_add; eauto. by rewrite Hpc.
  - eapply sleeping_add; eauto. by rewrite Hpc.
  - eapply sleeping_add; eauto. by rewrite Hpc.
  - eapply sleeping_add; eauto. by rewrite Hpc.
  - eapply sleeping_add; eauto. by rewrite Hpc.
  - unfold stamp_step in Hs. rewrite Hpc in Hs. destruct inp; try discriminate. injection Hs as <-.
    sleep_step Hsl Ht Hpc.
Qed.

Lemma sleeping_run ls s s' :
  monitor_ok s -> sleeping_ok s -> run_schedule ls s = Ret s' -> sleeping_ok s'.
Proof.
  revert s. induction ls as [|l ls IH]; intros s Hok Hsl Hr; cbn in Hr; [by injection Hr as <-|].
  destruct (monitor_step l.1 l.2 s) as [r|] eqn:Hs; [|by eapply IH].
  apply obind_Ret_inv in Hr as (s1 & -> & Hr). eapply IH; [..|exact Hr].
  - by eapply monitor_step_ok.
  - by eapply sleeping_monitor.
Qed.

End WakeupSteps.

(** ** The steps left *)

Section Work.
Context {E : Type} `{TimedEvent E} `{PosixTime}.

Implicit Types (s : Monitor E) (t : thread E) (p : point E) (k : continuation E).

(** Steps a call still makes, with those of the threads it wakes; [n] threads may wait on
    the barrier.  A thread that sleeps makes none until it is woken. *)
Definition steps_behind k : nat :=
  match k with ThenLog _ => 14 | ThenAdd _ _ => 10 | ThenGet => 3 | ThenStamp _ => 1 end.
Definition steps_left (n : nat) p : nat :=
  match p with
  | Idle | BarrierSleep _ | GetSleep _ => 0
  | InitCheck _ => 6 + 17 * n
  | InitEpoch _ => 5 + 17 * n
  | InitCorrect _ _ => 4 + 17 * n
  | InitLock _ _ => 3 + 17 * n
  | InitSet _ _ => 2 + 17 * n
  | InitUnlock => 1
  | BarrierLock k | BarrierAwake k => 3 + steps_behind k
  | BarrierTest k => 2 + steps_behind k
  | BarrierUnlock k => 1 + steps_behind k
  | LogPush _ => 14
  | AddLock _ _ => 10 | AddFuture _ _ => 9 | AddPrior _ _ => 8 | AddConcurrent _ _ => 7 | AddPush _ _ => 6
  | AddNotify _ _ => 5 | AddUnlock _ _ => 1
  | GetLock | GetAwake => 3 | GetTest => 2 | GetUnlock _ _ => 1
  | StampRead _ => 1
  end.

Definition total (n : nat) (l : list (thread E)) : nat := sum_list_with (fun t => steps_left n (pc t)) l.
Definition work s : nat := total (length (threads s)) (threads s).

(** Steps a thread makes by itself: no new call, and no end of a wait. *)
Definition internal p (inp : input E) : bool :=
  match inp, p with
  | Go, _ | Clock _, InitEpoch _ | Clock _, GetTest => true
  | _, _ => false
  end.
Definition internal_step s s' : Prop :=
  exists i t inp, threads s !! i = Some t /\ internal (pc t) inp = true /\ monitor_step i inp s = Some (Ret s').

Lemma total_insert n i t t' l :
  l !! i = Some t -> (total n (<[i := t']> l) + steps_left n (pc t) = total n l + steps_left n (pc t'))%nat.
Proof.
  revert i. unfold total. induction l as [|u l IH]; intros [|i] Hi; simpl in *; try done.
  - injection Hi as ->. lia.
  - specialize (IH i Hi). lia.
Qed.

Lemma total_wake_get n i l : (total n (alter wake_get i l) <= total n l + 3)%nat.
Proof.
  revert i. unfold total. induction l as [|u l IH]; intros [|i]; simpl; [lia..| |specialize (IH i); unfold alter in IH; lia].
  assert (steps_left n (pc (wake_get u)) <= steps_left n (pc u) + 3)%nat; [|lia].
  unfold wake_get. destruct (pc u) eqn:Hp; cbn [pc goto]; rewrite ?Hp; cbn [steps_left]; lia.
Qed.

Lemma total_wake_barrier n l : (total n (map wake_barrier l) <= total n l + 17 * length l)%nat.
Proof.
  unfold total. induction l as [|u l IH]; cbn; [lia|].
  assert (steps_left n (pc (wake_barrier u)) <= steps_left n (pc u) + 17)%nat.
  { unfold wake_barrier. destruct (pc u) eqn:Hp; cbn; rewrite ?Hp; cbn; try lia. destruct k; cbn; lia. }
  lia.
Qed.

Lemma work_set i t t' s s' :
  threads s !! i = Some t -> threads s' = <[i := t']> (threads s) ->
  (steps_left (length (threads s)) (pc t') < steps_left (length (threads s)) (pc t))%nat -> (work s' < work s)%nat.
Proof.
  intros Ht HE Hlt. unfold work. rewrite HE, length_insert.
  pose proof (total_insert (length (threads s)) i t t' _ Ht). lia.
Qed.

End Work.

(** A step of a thread that wakes nobody. *)
Ltac work_step Ht Hpc :=
  eapply (work_set _ _ _ _ _ Ht); [reflexivity|cbn; rewrite Hpc; cbn; lia].

Section Progress.
Context {E : Type} `{TimedEvent E} `{PosixTime}.

Implicit Types (s : Monitor E) (t : thread E) (p : point E) (k : continuation E).

Lemma work_init i inp t s s' :
  threads s !! i = Some t -> init_step i inp t s = Some (Ret s') -> (work s' < work s)%nat.
Proof.
  intros Ht Hs. unfold init_step, lock_access, done in Hs.
  destruct (pc t) eqn:Hpc; try discriminate Hs; destruct inp; try discriminate Hs.
  - injection Hs as Hs. inv_ret. work_step Ht Hpc.
  - injection Hs as <-. work_step Ht Hpc.
  - injection Hs as Hs. inv_ret. work_step Ht Hpc.
  - destruct (accessMut_ s); [discriminate|]. injection Hs as <-. work_step Ht Hpc.
  - injection Hs as Hs. inv_ret. unfold work. cbn [threads set_thread set_timed notify_one notify_all]. rewrite length_insert, length_map.
    pose proof (total_wake_barrier (length (threads s)) (threads s)).
    assert (Hw : map wake_barrier (threads s) !! i = Some t).
    { rewrite list_lookup_fmap, Ht. cbn. unfold wake_barrier. by rewrite Hpc. }
    pose proof (total_insert (length (threads s)) i t (commit [OInit start now] (goto InitUnlock t)) _ Hw) as Hi.
    rewrite Hpc in Hi. cbn [steps_left pc commit goto] in Hi. lia.
  - injection Hs as <-. work_step Ht Hpc.
Qed.

Lemma work_barrier i inp t s s' :
  internal (pc t) inp = true -> threads s !! i = Some t -> barrier_step i inp t s = Some (Ret s') -> (work s' < work s)%nat.
Proof.
  intros Hin Ht Hs. unfold barrier_step, lock_access, done in Hs.
  destruct (pc t) eqn:Hpc; try discriminate Hs; destruct inp; try discriminate Hs; try discriminate Hin;
    try (destruct (accessMut_ s); [discriminate|]); try (destruct (initialized_ (timed s)));
    injection Hs as <-; try (destruct k); work_step Ht Hpc.
Qed.

Lemma work_add i inp t s s' :
  threads s !! i = Some t -> add_step i inp t s = Some (Ret s') -> (work s' < work s)%nat.
Proof.
  intros Ht Hs. unfold add_step, lock_queue, done in Hs.
  destruct (pc t) eqn:Hpc; try discriminate Hs; destruct inp; try discriminate Hs.
  - injection Hs as <-. work_step Ht Hpc.
  - destruct (queueMut_ s); [discriminate|]. injection Hs as <-. work_step Ht Hpc.
  - injection Hs as Hs. inv_ret. work_step Ht Hpc.
  - destruct (_ && _); injection Hs as <-; work_step Ht Hpc.
  - injection Hs as Hs. inv_ret. work_step Ht Hpc.
  - injection Hs as Hs. inv_ret. work_step Ht Hpc.
  - injection Hs as <-. unfold work. cbn [threads set_thread set_timed notify_one notify_all]. rewrite length_insert, length_alter.
    pose proof (total_wake_get (length (threads s)) 0 (threads s)).
    assert (Hw : alter wake_get 0%nat (threads s) !! i = Some t).
    { destruct (decide (i = 0%nat)) as [->|Hi]; [|by rewrite list_lookup_alter_ne].
      rewrite list_lookup_alter_eq, Ht. cbn. unfold wake_get. by rewrite Hpc. }
    pose proof (total_insert (length (threads s)) i t (goto (AddUnlock ev predicted) t) _ Hw) as Hi.
    rewrite Hpc in Hi. cbn [steps_left pc commit goto] in Hi. lia.
  - injection Hs as <-. work_step Ht Hpc.
Qed.

Lemma work_get i inp t s s' :
  internal (pc t) inp = true -> threads s !! i = Some t -> get_step_of i inp t s = Some (Ret s') -> (work s' < work s)%nat.
Proof.
  intros Hin Ht Hs. unfold get_step_of, lock_queue, done in Hs.
  destruct (pc t) eqn:Hpc; try discriminate Hs; destruct inp; try discriminate Hs; try discriminate Hin;
    try destruct deadline; try discriminate Hs; try (destruct (queueMut_ s); [discriminate|]).
  - injection Hs as <-. work_step Ht Hpc.
  - injection Hs as Hs. apply obind_Ret_inv in Hs as ([|d|ev q] & Hst & Hs); inv_ret; work_step Ht Hpc.
  - injection Hs as <-. work_step Ht Hpc.
  - injection Hs as <-. work_step Ht Hpc.
Qed.

Lemma internal_step_work s s' : internal_step s s' -> (work s' < work s)%nat.
Proof.
  intros (i & t & inp & Ht & Hin & Hs). unfold monitor_step in Hs. rewrite Ht in Hs.
  destruct (pc t) eqn:Hpc; try (eapply work_barrier; eauto; by rewrite Hpc);
    try (eapply work_get; eauto; by rewrite Hpc); eauto using work_init, work_add.
  - destruct inp; try discriminate Hin. by destruct i.
  - unfold stamp_step in Hs. rewrite Hpc in Hs. destruct inp; try discriminate. injection Hs as <-.
    work_step Ht Hpc.
Qed.

Lemma internal_bound (k : nat) s s' : relations.nsteps internal_step k s s' -> (k + work s' <= work s)%nat.
Proof. induction 1 as [|k s1 s2 s3 Hs%internal_step_work _ IH]; lia. Qed.

(** A thread inside a call, neither asleep nor behind a mutex that somebody else holds. *)
Lemma enabled i t s (now : ptime) :
  monitor_ok s -> threads s !! i = Some t -> (0 < steps_left (length (threads s)) (pc t))%nat ->
  holds_queue (pc t) = true \/ queueMut_ s = None /\ (holds_access (pc t) = true \/ accessMut_ s = None) ->
  exists inp r, internal (pc t) inp = true /\ monitor_step i inp s = Some r.
Proof.
  intros Hok Ht Hw Hfree.
  exists (match pc t with InitEpoch _ | GetTest => Clock now | _ => Go end).
  unfold monitor_step. rewrite Ht.
  destruct (pc t) eqn:Hpc; cbn in Hw, Hfree; try lia;
    (destruct Hfree as [Hfree|(Hq & [Ha|Ha])]; try discriminate);
    cbn; unfold init_step, barrier_step, add_step, get_step_of, stamp_step, lock_queue, lock_access, done;
    rewrite Hpc, ?Hq, ?Ha; try (by eexists).
  all: first [ by destruct (initialized_ (timed s)); eexists | by destruct (_ && _); eexists ].
Qed.

(** Somebody can make a step, or everybody rests. *)
Lemma progress s (now : ptime) :
  monitor_ok s ->
  (forall i t, threads s !! i = Some t -> pc t = Idle \/ exists d, pc t = GetSleep d) \/
  exists i t inp r, threads s !! i = Some t /\ internal (pc t) inp = true /\ monitor_step i inp s = Some r.
Proof.
  intros Hok. assert (Hne : forall i t, threads s !! i = Some t -> holds_queue (pc t) || holds_access (pc t) = true ->
            (0 < steps_left (length (threads s)) (pc t))%nat).
  { intros i t _. destruct (pc t); cbn; try done; lia. }
  destruct (queueMut_ s) as [j|] eqn:Hq.
  { destruct (ok_queue_owner s Hok j Hq) as [t Ht]. destruct (ok_threads s Hok j t Ht) as (Hh & _).
    rewrite Hq in Hh. cbn in Hh. rewrite Nat.eqb_refl in Hh. right. exists j, t.
    destruct (enabled j t s now Hok Ht) as (inp & r & Hin & Hs); [apply (Hne j t Ht); by rewrite Hh|by left|by exists inp, r]. }
  destruct (accessMut_ s) as [j|] eqn:Ha.
  { destruct (ok_access_owner s Hok j Ha) as [t Ht]. destruct (ok_threads s Hok j t Ht) as (_ & Hh & _).
    rewrite Ha in Hh. cbn in Hh. rewrite Nat.eqb_refl in Hh. right. exists j, t.
    destruct (enabled j t s now Hok Ht) as (inp & r & Hin & Hs);
      [apply (Hne j t Ht); by rewrite Hh, orb_true_r|right; auto|by exists inp, r]. }
  destruct (decide (Forall (fun t => steps_left (length (threads s)) (pc t) = 0%nat) (threads s))) as [Hz|Hz].
  - left. intros i t Ht. pose proof (proj1 (Forall_lookup _ _) Hz i t Ht) as H0'. cbn in H0'.
    destruct (ok_threads s Hok i t Ht) as (_ & _ & _ & Hi & _ & _).
    destruct (pc t) eqn:Hpc; cbn in H0'; try lia; [by left| |by right; eexists].
    destruct (initialized_ (timed s)) eqn:Hin; [by destruct Hi|].
    destruct (ok_uninitialized s Hok Hin) as (_ & _ & t0 & Ht0 & He).
    pose proof (proj1 (Forall_lookup _ _) Hz 0%nat t0 Ht0) as H1'. cbn in H1'. destruct (pc t0); cbn in *; done || lia.
  - right. apply not_Forall_Exists, Exists_exists in Hz as (t & Hin & Hz); [|solve_decision].
    apply list_elem_of_lookup in Hin as [i Ht]. exists i, t.
    destruct (enabled i t s now Hok Ht) as (inp & r & Hint & Hs); [cbn in Hz; lia|right; auto|by exists inp, r].
Qed.

(** ** The theorems *)

(** C10: no wake-up is lost: when the dispatcher sleeps in [get] and no thread is between
    changing the queue and notifying, it waits for a new event only if the queue is empty,
    and until an instant only if that is when the first event of the queue is due. *)
Theorem queue_no_lost_wakeup n (start : fmiTime) (now : ptime) ls s t d :
  run_schedule ls (new_Monitor n start now) = Ret s ->
  threads s !! 0%nat = Some t -> pc t = GetSleep d ->
  (forall j u, threads s !! j = Some u -> adding (pc u) = false) ->
  match d with
  | None => queue_ (timed s) = []
  | Some d => exists x l, queue_ (timed s) = x :: l /\ getSystemTime (timed s) x.1 = Ret d
  end.
Proof.
  intros Hr Ht Hpc Hadd. assert (Hsl : sleeping_ok (new_Monitor n start now)).
  { intros u d' Hu Hp. cbn in Hu. injection Hu as <-. discriminate Hp. }
  exact (sleeping_run _ _ _ (initial_ok n start now) Hsl Hr t d Ht Hpc Hadd).
Qed.

(** C11: every call returns, or sleeps in [get]: whatever the scheduler does, the threads
    make at most [work] steps by themselves until the next call, notification or
    deadline; and as long as some thread is inside a call and does not sleep in [get],
    some thread can make a step, so the two mutexes and the barrier do not deadlock. *)
Theorem queue_calls_return n (start : fmiTime) (now : ptime) ls s :
  run_schedule ls (new_Monitor n start now) = Ret s ->
  (forall (k : nat) s', relations.nsteps internal_step k s s' -> (k <= work s)%nat) /\
  forall clock : ptime,
    (forall i t, threads s !! i = Some t -> pc t = Idle \/ exists d, pc t = GetSleep d) \/
    exists i t inp r, threads s !! i = Some t /\ internal (pc t) inp = true /\ monitor_step i inp s = Some r.
Proof.
  intros Hr. pose proof (run_schedule_ok _ _ _ (initial_ok n start now) Hr) as Hok. split.
  - intros k s' Hk%internal_bound. lia.
  - intros clock. by apply progress.
Qed.

End Progress.

(** ** The run with two subscribers *)

Definition first_thread (s : Monitor (nat * fmiTime)) : thread (nat * fmiTime) :=
  match threads s with t :: _ => t | [] => new_thread Idle end.

Lemma none_adding (s : Monitor (nat * fmiTime)) :
  forallb (fun u => negb (adding (pc u))) (threads s) = true ->
  forall j u, threads s !! j = Some u -> adding (pc u) = false.
Proof.
  intros Hf j u Hu. apply negb_true_iff. rewrite forallb_forall in Hf. apply Hf.
  apply list_elem_of_In. by eapply list_elem_of_lookup_2.
Qed.

Lemma queue_no_lost_wakeup_witness :
  is_Ret (run_schedule first_calls two_subscribers) = true /\
  pc (first_thread after_first) = GetSleep (Some (at_us 40000)) /\
  exists x l, queue_ (timed after_first) = x :: l /\ getSystemTime (timed after_first) x.1 = Ret (at_us 40000).
Proof.
  assert (H1 : is_Ret (run_schedule first_calls two_subscribers) = true) by (vm_compute; reflexivity).
  assert (H2 : pc (first_thread after_first) = GetSleep (Some (at_us 40000))) by (vm_compute; reflexivity).
  split; [exact H1|]. split; [exact H2|].
  apply (queue_no_lost_wakeup 2 (ms 0) (at_us 0) first_calls after_first (first_thread after_first) (Some (at_us 40000))
           (is_Ret_value _ two_subscribers H1)); [vm_compute; reflexivity|exact H2|].
  apply none_adding. vm_compute. reflexivity.
Defined.

(** Subscriber 2 is in the middle of its call. *)
Definition inside_push : list (nat * input (nat * fmiTime)) :=
  first_calls ++ [(2%nat, CallPush (sample 2 20))] ++ turns 2 9.
Definition pushing : Monitor (nat * fmiTime) := run_or_start inside_push two_subscribers.

Lemma queue_calls_return_witness :
  is_Ret (run_schedule inside_push two_subscribers) = true /\ work pushing = 8%nat /\
  (forall (k : nat) s', relations.nsteps internal_step k pushing s' -> (k <= work pushing)%nat) /\
  forall clock : ptime,
    (forall i t, threads pushing !! i = Some t -> pc t = Idle \/ exists d, pc t = GetSleep d) \/
    exists i t inp r, threads pushing !! i = Some t /\ internal (pc t) inp = true /\ monitor_step i inp pushing = Some r.
Proof.
  assert (H1 : is_Ret (run_schedule inside_push two_subscribers) = true) by (vm_compute; reflexivity).
  split; [exact H1|]. split; [vm_compute; reflexivity|].
  exact (queue_calls_return 2 (ms 0) (at_us 0) inside_push pushing (is_Ret_value _ two_subscribers H1)).
Defined.
