(* ===== verification/ChannelMapping.v ===== *)
(** * Channel mappings (src/base/ChannelMapping.cpp, TransmissionChannel.cpp)

    A [TransmissionChannel] lists the ports of one channel; a [ChannelMapping]
    gives every configured variable a port identifier and groups the ports into
    channels.  The reference to the global [PortIDDrawer] is an argument and a
    result of the operations; the references into the configuration tree are the
    subtrees they point to. *)

From S2P Require Import Prelude Float64 BaseExceptions PortID PropertyTree.

Local Open Scope Z_scope.

Definition PROP_TYPE : string := "type".

Section Mapping.
Context `{PropertyTree}.

(** ** TransmissionChannel *)

Record TransmissionChannel := {
  channelConfig_ : ptree;
  portIDs_ : list PortID;
  portConfig_ : list ptree;
}.

Definition new_TransmissionChannel (channelConfig : ptree) : TransmissionChannel :=
  {| channelConfig_ := channelConfig; portIDs_ := []; portConfig_ := [] |}.

Definition getChannelConfig (ch : TransmissionChannel) : ptree := channelConfig_ ch.

Definition same_length {A B} (l : list A) (l' : list B) : bool := (length l =? length l')%nat.

Definition getPortConfig (ch : TransmissionChannel) : result (list ptree) :=
  assert_ (same_length (portConfig_ ch) (portIDs_ ch)) ;;; Ret (portConfig_ ch).

Definition getPortIDs (ch : TransmissionChannel) : result (list PortID) :=
  assert_ (same_length (portConfig_ ch) (portIDs_ ch)) ;;; Ret (portIDs_ ch).

Definition pushBackPort (id : PortID) (portConfig : ptree) (ch : TransmissionChannel)
    : result TransmissionChannel :=
  assert_ (same_length (portConfig_ ch) (portIDs_ ch)) ;;;
  Ret {| channelConfig_ := channelConfig_ ch; portIDs_ := portIDs_ ch ++ [id];
         portConfig_ := portConfig_ ch ++ [portConfig] |}.

(** ** ChannelMapping *)

Record ChannelMapping := {
  variableNames_ : list (list string);
  variableIDs_ : list (list PortID);
  channels_ : list TransmissionChannel;
}.

Definition names_of (m : ChannelMapping) (t : FMIVariableType) : list string :=
  default [] (variableNames_ m !! type_index t).
Definition ids_of (m : ChannelMapping) (t : FMIVariableType) : list PortID :=
  default [] (variableIDs_ m !! type_index t).

(** The constructor of an empty mapping. *)
Definition empty_ChannelMapping : ChannelMapping :=
  {| variableNames_ := replicate 5 []; variableIDs_ := replicate 5 []; channels_ := [] |}.

(** The first identifier whose name is [name]. *)
Fixpoint find_id (name : string) (names : list string) (ids : list PortID) : option PortID :=
  match names, ids with
  | n :: names', i :: ids' => if String.eqb name n then Some i else find_id name names' ids'
  | _, _ => None
  end.

Definition getID (m : ChannelMapping) (name : string) (type : FMIVariableType) : result PortID :=
  assert_ (5 <=? length (variableNames_ m))%nat ;;;
  assert_ (same_length (variableNames_ m) (variableIDs_ m)) ;;;
  assert_ (same_length (names_of m type) (ids_of m type)) ;;;
  assert_ (type_code type <? 5) ;;;
  Ret (default (fmiTypeUnknown, -1) (find_id name (names_of m type) (ids_of m type))).

(** The two [push_back] calls of [addVariables]. *)
Definition push_variable (type : FMIVariableType) (name : string) (id : PortID) (m : ChannelMapping)
    : ChannelMapping :=
  {| variableNames_ := <[type_index type := names_of m type ++ [name]]> (variableNames_ m);
     variableIDs_ := <[type_index type := ids_of m type ++ [id]]> (variableIDs_ m);
     channels_ := channels_ m |}.

(** The type code of a port's configuration; the enumeration is unsigned. *)
Definition configured_type (p : ptree) : option FMIVariableType :=
  type_of_code (wrap 32 (get_default tr_int p PROP_TYPE (type_code fmiTypeUnknown))).

(** The body of the loop of [addVariables]. *)
Definition add_variable (st : TransmissionChannel * ChannelMapping * PortIDDrawer) (p : ptree)
    : result (TransmissionChannel * ChannelMapping * PortIDDrawer) :=
  let '(ch, m, d) := st in
  let name := pt_data p in
  if String.eqb name "" then
    throw_config "At least one channel variable doesn't specify a variable name"
  else
    match configured_type p with
    | None => throw_config_kv "FMI type code does not exist" PROP_TYPE
                (get_default tr_string p PROP_TYPE "4")
    | Some type =>
        let* variableID := getID m name type in
        if variableID.2 <? 0 then
          let '(id, d') := getNextPortID d type in
          let* ch' := pushBackPort id p ch in Ret (ch', push_variable type name id m, d')
        else
          let* ch' := pushBackPort variableID p ch in Ret (ch', m, d)
    end.

Definition addVariables (channelProp : ptree) (st : TransmissionChannel * ChannelMapping * PortIDDrawer)
    : result (TransmissionChannel * ChannelMapping * PortIDDrawer) :=
  let '(_, m, _) := st in
  assert_ (5 <=? length (variableNames_ m))%nat ;;;
  assert_ (same_length (variableIDs_ m) (variableNames_ m)) ;;;
  for_children (S (pt_size channelProp)) add_variable channelProp 0 st.

(** The body of the loop of [addChannels]. *)
Definition add_channel (st : ChannelMapping * PortIDDrawer) (channelProp : ptree)
    : result (ChannelMapping * PortIDDrawer) :=
  let '(m, d) := st in
  let* r := addVariables channelProp (new_TransmissionChannel channelProp, m, d) in
  let '(channel, m', d') := r in
  Ret ({| variableNames_ := variableNames_ m'; variableIDs_ := variableIDs_ m';
          channels_ := channels_ m' ++ [channel] |}, d').

Definition addChannels (prop : ptree) (m : ChannelMapping) (d : PortIDDrawer)
    : result (ChannelMapping * PortIDDrawer) :=
  for_children (S (pt_size prop)) add_channel prop 0 (m, d).

(** The constructor that reads the configuration. *)
Definition new_ChannelMapping (portIDSource : PortIDDrawer) (prop : ptree)
    : result (ChannelMapping * PortIDDrawer) :=
  addChannels prop empty_ChannelMapping portIDSource.

Definition aligned_type (m : ChannelMapping) (type : FMIVariableType) : result unit :=
  assert_ (type_code type <? Z.of_nat (length (variableNames_ m))) ;;;
  assert_ (same_length (variableNames_ m) (variableIDs_ m)) ;;;
  assert_ (same_length (names_of m type) (ids_of m type)).

Definition getVariableNames (m : ChannelMapping) (type : FMIVariableType) : result (list string) :=
  aligned_type m type ;;; Ret (names_of m type).

Definition getVariableIDs (m : ChannelMapping) (type : FMIVariableType) : result (list PortID) :=
  aligned_type m type ;;; Ret (ids_of m type).

Definition getAllVariableNames (m : ChannelMapping) : list string := concat (variableNames_ m).
Definition getAllVariableIDs (m : ChannelMapping) : list PortID := concat (variableIDs_ m).
Definition getTotalNumberOfVariables (m : ChannelMapping) : nat :=
  foldr (fun l n => length l + n)%nat 0%nat (variableIDs_ m).

Fixpoint find_port (name : string) (names : list (list string)) (ids : list (list PortID))
    : result (option PortID) :=
  match names, ids with
  | ns :: names', js :: ids' =>
      assert_ (same_length ns js) ;;;
      match find_id name ns js with
      | Some id => Ret (Some id)
      | None => find_port name names' ids'
      end
  | _, _ => Ret None
  end.

Definition getPortID (m : ChannelMapping) (name : string) : result PortID :=
  assert_ (same_length (variableNames_ m) (variableIDs_ m)) ;;;
  let* o := find_port name (variableNames_ m) (variableIDs_ m) in
  match o with
  | Some id => Ret id
  | None => throw_config ("The variable " +:+ dquote +:+ name +:+ dquote +:+ " could not be resolved.")
  end.

Definition getNumberOfChannels (m : ChannelMapping) : nat := length (channels_ m).

(** [channels_[channelID]] behind its two assertions. *)
Definition getTransmissionChannel (m : ChannelMapping) (channelID : Z) : result TransmissionChannel :=
  assert_ (0 <=? channelID) ;;;
  assert_ (channelID <? Z.of_nat (length (channels_ m))) ;;;
  match channels_ m !! Z.to_nat channelID with
  | Some ch => Ret ch
  | None => Fault UndefinedBehaviour
  end.

Definition getPorts (m : ChannelMapping) (channelID : Z) : result (list PortID) :=
  let* ch := getTransmissionChannel m channelID in getPortIDs ch.

(** ** toString *)

Fixpoint join (sep : string) (l : list string) : string :=
  match l with
  | [] => ""
  | [s] => s
  | s :: l' => s +:+ sep +:+ join sep l'
  end.

Definition id_string (id : PortID) : string :=
  "(" +:+ getVariableTypeString id.1 +:+ ", " +:+ pretty id.2 +:+ ")".

Definition names_string (m : ChannelMapping) (type : FMIVariableType) : string :=
  "defined " +:+ getVariableTypeString type +:+ " variable names: {" +:+
  join ", " (zip_with (fun n id => dquote +:+ n +:+ dquote +:+ " has id " +:+ id_string id)
                      (names_of m type) (ids_of m type)) +:+ "}, ".

(** The entries of channel [i], each with the comma that follows it. *)
Definition channel_string (last : bool) (i : nat) (ids : list PortID) : string :=
  foldr String.append "" (imap (fun j id =>
    "id " +:+ id_string id +:+ " <-> port (" +:+ pretty i +:+ "." +:+ pretty j +:+ ")" +:+
    (if negb last || (S j <? length ids)%nat then ", " else "")) ids).

Definition mapping_toString (m : ChannelMapping) : result string :=
  assert_ (same_length (variableIDs_ m) (variableNames_ m)) ;;;
  assert_ (forallb (fun t => same_length (ids_of m t) (names_of m t)) all_types) ;;;
  let* mp := foldlM (fun s i => let* ids := getPorts m (Z.of_nat i) in
                                Ret (s +:+ channel_string (i =? length (channels_ m) - 1)%nat i ids))
                    "" (seq 0 (length (channels_ m))) in
  Ret ("ChannelMapping: " +:+ foldr String.append "" (map (names_string m) all_types)
       +:+ "mapping: {" +:+ mp +:+ "}").

End Mapping.
