(* ===== verification/ChannelMappingSpec.v ===== *)
(** * What a channel mapping promises

    The declarative reading of a configuration tree, the invariant of the
    mapping under construction, and the theorems on the constructor and on the
    name resolution. *)

From S2P Require Import Prelude Float64 BaseExceptions PortID PropertyTree ChannelMapping.

Local Open Scope Z_scope.

Section MappingSpec.
Context `{PropertyTree, !PropertyTreeLaws _}.

(** The name and the type of a port's configuration, when both are valid. *)
Definition port_entry (p : ptree) : option (string * FMIVariableType) :=
  if String.eqb (pt_data p) "" then None else option_map (pair (pt_data p)) (configured_type p).

(** All ports of all numbered channels. *)
Definition configured_ports (prop : ptree) : list ptree :=
  concat (map indexed_children (indexed_children prop)).

(** The mapping knows the variable [e] under the identifier [id]. *)
Definition resolves (m : ChannelMapping) (e : string * FMIVariableType) (id : PortID) : Prop :=
  exists k, names_of m e.2 !! k = Some e.1 /\ ids_of m e.2 !! k = Some id.

Definition port_ok (m : ChannelMapping) (id : PortID) (p : ptree) : Prop :=
  exists e, port_entry p = Some e /\ resolves m e id.

(** The channel [ch] is the one configured by [c]. *)
Definition channel_ok (m : ChannelMapping) (ch : TransmissionChannel) (c : ptree) : Prop :=
  channelConfig_ ch = c /\ portConfig_ ch = indexed_children c /\
  Forall2 (port_ok m) (portIDs_ ch) (indexed_children c).

(** The identifiers a drawer in state [d0] hands out next for a type. *)
Definition next_ids (d0 : PortIDDrawer) (t : FMIVariableType) (n : nat) : list PortID :=
  map (fun k => (t, next_of d0 t + Z.of_nat k)) (seq 0 n).

(** The variables of a mapping that was built from the drawer state [d0] and
    has seen [n] ports: every type has its list of different names, with
    consecutive identifiers. *)
Record variables_ok (d0 : PortIDDrawer) (n : nat) (m : ChannelMapping) (d : PortIDDrawer) : Prop := {
  vo_names : length (variableNames_ m) = 5%nat;
  vo_ids : length (variableIDs_ m) = 5%nat;
  vo_wf : drawer_wf d;
  vo_id t : ids_of m t = next_ids d0 t (length (names_of m t));
  vo_next t : next_of d t = next_of d0 t + Z.of_nat (length (names_of m t));
  vo_nodup t : NoDup (names_of m t);
  vo_count t : (length (names_of m t) <= n)%nat;
}.

(** The drawer can hand out [n] more identifiers of each type. *)
Definition room (d0 : PortIDDrawer) (n : nat) : Prop :=
  forall t, next_of d0 t + Z.of_nat n <= 2 ^ 31.

(** ** Lemmas *)

Lemma length_next_ids d t n : length (next_ids d t n) = n.
Proof. unfold next_ids. by rewrite length_map, length_seq. Qed.

Lemma next_ids_lookup d t n k id :
  next_ids d t n !! k = Some id -> id = (t, next_of d t + Z.of_nat k) /\ (k < n)%nat.
Proof.
  unfold next_ids. intros Hk. apply list_lookup_fmap_Some in Hk as (j & -> & Hj).
  apply lookup_seq in Hj as [-> Hlt]. split; [done|lia].
Qed.

Lemma next_ids_S d t n : next_ids d t (S n) = next_ids d t n ++ [(t, next_of d t + Z.of_nat n)].
Proof. unfold next_ids. by rewrite seq_S, map_app. Qed.

Lemma names_push m type name id t :
  length (variableNames_ m) = 5%nat ->
  names_of (push_variable type name id m) t =
  if decide (t = type) then names_of m type ++ [name] else names_of m t.
Proof.
  intros Hl. unfold names_of at 1. cbn. destruct (decide (t = type)) as [->|Hne].
  - rewrite list_lookup_insert_eq; [done|]. rewrite Hl. apply type_index_lt.
  - rewrite list_lookup_insert_ne; [done|]. intros E. by apply type_index_inj in E.
Qed.

Lemma ids_push m type name id t :
  length (variableIDs_ m) = 5%nat ->
  ids_of (push_variable type name id m) t =
  if decide (t = type) then ids_of m type ++ [id] else ids_of m t.
Proof.
  intros Hl. unfold ids_of at 1. cbn. destruct (decide (t = type)) as [->|Hne].
  - rewrite list_lookup_insert_eq; [done|]. rewrite Hl. apply type_index_lt.
  - rewrite list_lookup_insert_ne; [done|]. intros E. by apply type_index_inj in E.
Qed.

Lemma find_id_Some name names ids id :
  length names = length ids -> find_id name names ids = Some id ->
  exists k, names !! k = Some name /\ ids !! k = Some id.
Proof.
  revert ids; induction names as [|n names IH]; intros [|i ids] Hl; cbn in *; try done.
  destruct (String.eqb_spec name n) as [->|].
  - intros [= ->]. by exists 0%nat.
  - intros Hf. apply IH in Hf as (k & ? & ?); [|lia]. by exists (S k).
Qed.

Lemma find_id_None name names ids :
  length names = length ids -> find_id name names ids = None -> name ∉ names.
Proof.
  revert ids; induction names as [|n names IH]; intros [|i ids] Hl; cbn in *; try done.
  - intros _ Hin. by apply elem_of_nil in Hin.
  - destruct (String.eqb_spec name n) as [->|Hne]; [done|].
    intros Hf [->|Hin]%elem_of_cons; [done|]. apply (IH ids) in Hin; [done|lia|done].
Qed.

(** A mapping never forgets a variable. *)
Definition extends (m m' : ChannelMapping) : Prop := forall e id, resolves m e id -> resolves m' e id.

Lemma extends_push m type name id :
  length (variableNames_ m) = 5%nat -> length (variableIDs_ m) = 5%nat ->
  extends m (push_variable type name id m).
Proof.
  intros Hn Hi e id0 (k & Ha & Hb). exists k. rewrite names_push, ids_push by done.
  destruct (decide (e.2 = type)) as [<-|]; [|done].
  split; apply lookup_app_l_Some; done.
Qed.

Lemma port_ok_extends m m' id p : extends m m' -> port_ok m id p -> port_ok m' id p.
Proof. intros He (e & ? & ?). exists e. auto. Qed.

Lemma channel_ok_extends m m' ch c : extends m m' -> channel_ok m ch c -> channel_ok m' ch c.
Proof.
  intros He (? & ? & Hp). split; [done|split; [done|]].
  eapply Forall2_impl; [exact Hp|]. intros. by eapply port_ok_extends.
Qed.

Section Build.
Context (d0 : PortIDDrawer) (Hd0 : drawer_wf d0).

Lemma variables_aligned n m d t :
  variables_ok d0 n m d -> length (names_of m t) = length (ids_of m t).
Proof. intros Hv. by rewrite (vo_id _ _ _ _ Hv), length_next_ids. Qed.

Lemma same_length_true {A B} (l : list A) (l' : list B) : length l = length l' -> same_length l l' = true.
Proof. apply Nat.eqb_eq. Qed.

Lemma variables_ok_mono n n' m d : variables_ok d0 n m d -> (n <= n')%nat -> variables_ok d0 n' m d.
Proof. intros [] Hle. split; try done. intros t. specialize (vo_count0 t). lia. Qed.

Lemma getID_spec n m d name type :
  variables_ok d0 n m d ->
  exists id, getID m name type = Ret id /\
  ((id.2 < 0 /\ name ∉ names_of m type) \/ (0 <= id.2 /\ resolves m (name, type) id)).
Proof.
  intros Hv. pose proof (variables_aligned n m d type Hv) as Hl.
  unfold getID. rewrite !obind_assert.
  2: by destruct type.
  2: by apply same_length_true.
  2: { apply same_length_true. by rewrite (vo_names _ _ _ _ Hv), (vo_ids _ _ _ _ Hv). }
  2: by rewrite (vo_names _ _ _ _ Hv).
  eexists; split; [reflexivity|].
  destruct (find_id name (names_of m type) (ids_of m type)) as [id|] eqn:Hf; cbn [default].
  - right. apply find_id_Some in Hf as (k & Hn & Hi); [|done]. split; [|by exists k].
    rewrite (vo_id _ _ _ _ Hv) in Hi. apply next_ids_lookup in Hi as [-> _]. cbn.
    pose proof (proj2 Hd0 type). lia.
  - left. split; [done|]. by eapply find_id_None.
Qed.

(** Drawing an identifier for a new name. *)
Lemma push_new n m d name type :
  room d0 (S n) -> variables_ok d0 n m d -> name ∉ names_of m type ->
  let '(id, d') := getNextPortID d type in
  variables_ok d0 (S n) (push_variable type name id m) d' /\
  resolves (push_variable type name id m) (name, type) id.
Proof.
  intros Hroom Hv Hnew. pose proof (vo_names _ _ _ _ Hv) as Hn. pose proof (vo_ids _ _ _ _ Hv) as Hi.
  pose proof (vo_wf _ _ _ _ Hv) as Hwf. pose proof (variables_aligned n m d type Hv) as Hal.
  assert (Hid : (getNextPortID d type).1 = (type, next_of d0 type + Z.of_nat (length (names_of m type)))).
  { unfold getNextPortID. cbn. f_equal. rewrite <- (vo_next _ _ _ _ Hv).
    unfold to_signed. rewrite wrap_small by apply Hwf.
    destruct (Z.ltb_spec (next_of d type) (2 ^ (32 - 1))) as [|Hge]; [done|].
    specialize (Hroom type). rewrite (vo_next _ _ _ _ Hv) in Hge.
    pose proof (vo_count _ _ _ _ Hv type). lia. }
  destruct (getNextPortID d type) as [id d'] eqn:Hg. cbn in Hid. subst id.
  assert (Hd' : d' = (getNextPortID d type).2) by (by rewrite Hg).
  split.
  - split.
    + cbn. by rewrite length_insert.
    + cbn. by rewrite length_insert.
    + rewrite Hd'. by apply getNextPortID_wf.
    + intros t. rewrite names_push, ids_push by done. destruct (decide (t = type)) as [->|]; [|apply Hv].
      rewrite length_app, Nat.add_1_r, next_ids_S, (vo_id _ _ _ _ Hv) at 1. done.
    + intros t. rewrite names_push, Hd', next_of_getNext by done.
      pose proof (vo_next _ _ _ _ Hv t) as Hnt. destruct (decide (t = type)) as [->|]; [|done].
      rewrite length_app. cbn. specialize (Hroom type). pose proof (vo_count _ _ _ _ Hv type).
      pose proof (proj2 Hd0 type).
      rewrite wrap_small; lia.
    + intros t. rewrite names_push by done. destruct (decide (t = type)) as [->|]; [|apply Hv].
      apply NoDup_app. split; [apply Hv|split; [|apply NoDup_singleton]].
      by intros x Hx ->%list_elem_of_singleton.
    + intros t. rewrite names_push by done. pose proof (vo_count _ _ _ _ Hv t).
      destruct (decide (t = type)) as [->|]; [rewrite length_app; cbn|]; lia.
  - exists (length (names_of m type)). cbn [fst snd]. rewrite names_push, ids_push by done.
    rewrite !decide_True by done. split; by apply list_lookup_middle.
Qed.

(** The exception of an invalid port. *)
Definition invalid_port (l : list ptree) (x : exn) : Prop :=
  exists p, p ∈ l /\ port_entry p = None /\ exists e, x = ExnSystemConfiguration e.

(** What holds inside the loop of [addVariables], after the ports [done]. *)
Definition vars_inv (n0 : nat) (m0 : ChannelMapping) (c : ptree) (done : list ptree)
    (st : TransmissionChannel * ChannelMapping * PortIDDrawer) : Prop :=
  let '(ch, m, d) := st in
  variables_ok d0 (n0 + length done) m d /\ extends m0 m /\ channels_ m = channels_ m0 /\
  channelConfig_ ch = c /\ portConfig_ ch = done /\ Forall2 (port_ok m) (portIDs_ ch) done.

Lemma pushBackPort_ok id p ch m done :
  portConfig_ ch = done -> Forall2 (port_ok m) (portIDs_ ch) done ->
  pushBackPort id p ch = Ret {| channelConfig_ := channelConfig_ ch; portIDs_ := portIDs_ ch ++ [id];
                                portConfig_ := done ++ [p] |}.
Proof.
  intros <- Hf%Forall2_length. unfold pushBackPort. rewrite obind_assert; [done|].
  by apply same_length_true.
Qed.

Lemma add_variable_ok n0 m0 c l done p st :
  room d0 (S (n0 + length done)) -> p ∈ l -> vars_inv n0 m0 c done st ->
  wp (add_variable st p) (vars_inv n0 m0 c (done ++ [p])) (invalid_port l).
Proof.
  destruct st as [[ch m] d]. intros Hroom Hp (Hv & He & Hch & Hc & Hcfg & Hports).
  unfold add_variable.
  destruct (String.eqb (pt_data p) "") eqn:Hname.
  { exists p. unfold port_entry. rewrite Hname. eauto. }
  destruct (configured_type p) as [type|] eqn:Htype.
  2: { exists p. unfold port_entry. rewrite Hname, Htype. eauto. }
  assert (Hentry : port_entry p = Some (pt_data p, type)).
  { unfold port_entry. by rewrite Hname, Htype. }
  destruct (getID_spec _ m d (pt_data p) type Hv) as (id & -> & Hid). cbn [obind].
  unfold vars_inv. rewrite length_app, Nat.add_1_r, Nat.add_succ_r.
  destruct Hid as [[Hneg Hnew]|[Hpos Hres]].
  - rewrite (proj2 (Z.ltb_lt _ _) Hneg). pose proof (push_new _ m d _ _ Hroom Hv Hnew) as Hpush.
    destruct (getNextPortID d type) as [id' d']. destruct Hpush as [Hv' Hres'].
    pose proof (extends_push m type (pt_data p) id' (vo_names _ _ _ _ Hv) (vo_ids _ _ _ _ Hv)) as Hext.
    rewrite (pushBackPort_ok _ _ _ m done) by done. cbn [obind wp].
    split_and!; try done; [unfold extends in *; auto|].
    apply Forall2_app; [|repeat constructor; by exists (pt_data p, type)].
    eapply Forall2_impl; [exact Hports|]. intros. by eapply port_ok_extends.
  - rewrite (proj2 (Z.ltb_ge _ _) Hpos). rewrite (pushBackPort_ok _ _ _ m done) by done.
    cbn [obind wp]. split_and!; try done; [eapply variables_ok_mono; [done|lia]|].
    apply Forall2_app; [done|]. repeat constructor. by exists (pt_data p, type).
Qed.

Lemma addVariables_ok n0 m d c :
  room d0 (n0 + length (indexed_children c)) -> variables_ok d0 n0 m d ->
  wp (addVariables c (new_TransmissionChannel c, m, d))
     (vars_inv n0 m c (indexed_children c)) (invalid_port (indexed_children c)).
Proof.
  intros Hroom Hv. unfold addVariables.
  apply wp_assert; [by rewrite (vo_names _ _ _ _ Hv)|].
  apply wp_assert; [apply same_length_true; by rewrite (vo_names _ _ _ _ Hv), (vo_ids _ _ _ _ Hv)|].
  rewrite for_children_foldlM.
  apply wp_foldlM.
  - intros done p rest st El Hst. apply (add_variable_ok n0 m c _ done p st); [|rewrite El; set_solver|done].
    intros t. specialize (Hroom t). rewrite El, length_app in Hroom. cbn in Hroom. lia.
  - split_and!; [by rewrite Nat.add_0_r|by intros e id|done..|constructor].
Qed.

(** What holds inside the loop of [addChannels], after the channels [done]. *)
Definition channels_inv (done : list ptree) (st : ChannelMapping * PortIDDrawer) : Prop :=
  variables_ok d0 (length (concat (map indexed_children done))) st.1 st.2 /\ Forall2 (channel_ok st.1) (channels_ st.1) done.

Lemma add_channel_ok done c st ports :
  room d0 (length (concat (map indexed_children (done ++ [c])))) ->
  indexed_children c ⊆ ports -> channels_inv done st ->
  wp (add_channel st c) (channels_inv (done ++ [c])) (invalid_port ports).
Proof.
  destruct st as [m d]. intros Hroom Hsub [Hv Hch]. cbn [fst snd] in *. unfold add_channel.
  rewrite map_app, concat_app in Hroom. cbn in Hroom. rewrite app_nil_r, length_app in Hroom.
  apply wp_bind. eapply wp_mono; [by apply addVariables_ok| |].
  2: { intros x (p & Hp & ?). exists p. split; [by apply Hsub|done]. }
  intros [[ch m'] d'] (Hv' & He & Hcs & Hc & Hcfg & Hports). unfold channels_inv. cbn [fst snd wp].
  rewrite map_app, concat_app. cbn. rewrite app_nil_r, length_app. split; [by destruct Hv'; split|].
  rewrite Hcs. apply Forall2_app.
  - eapply Forall2_impl; [exact Hch|]. intros ch' c' Hok. by eapply channel_ok_extends in Hok.
  - repeat constructor; done.
Qed.

Lemma names_of_empty t : names_of empty_ChannelMapping t = [].
Proof. by destruct t. Qed.

Lemma variables_ok_empty : variables_ok d0 0 empty_ChannelMapping d0.
Proof.
  split; try done; intros t; rewrite ?names_of_empty; cbn; [by destruct t|lia|constructor|done].
Qed.

Lemma new_ChannelMapping_ok prop :
  room d0 (length (configured_ports prop)) ->
  wp (new_ChannelMapping d0 prop) (channels_inv (indexed_children prop))
     (invalid_port (configured_ports prop)).
Proof.
  intros Hroom. unfold new_ChannelMapping, addChannels. rewrite for_children_foldlM.
  apply wp_foldlM.
  - intros done c rest st El Hst. unfold configured_ports in *. rewrite El.
    apply add_channel_ok; [|set_unfold; naive_solver|done].
    intros t. specialize (Hroom t). rewrite El, cons_middle, (assoc_L (++)), map_app, concat_app, length_app in Hroom.
    lia.
  - split; [apply variables_ok_empty|constructor].
Qed.

End Build.

(** Two variables with the same identifier are the same variable, and the other
    way round. *)
Lemma resolves_inj d0 n m d e e' id id' :
  variables_ok d0 n m d -> resolves m e id -> resolves m e' id' -> id = id' <-> e = e'.
Proof.
  intros Hv (k & Hn & Hi) (k' & Hn' & Hi'). rewrite (vo_id _ _ _ _ Hv) in Hi, Hi'.
  apply next_ids_lookup in Hi as [-> _], Hi' as [-> _]. destruct e as [s t], e' as [s' t']. cbn in *.
  split; [intros [= -> ?]|intros [= -> ->]].
  - assert (k = k') as -> by lia. congruence.
  - pose proof (vo_nodup _ _ _ _ Hv t') as Hnd. rewrite NoDup_alt in Hnd.
    by rewrite (Hnd k k' s').
Qed.

Lemma five_lists {A} (l : list (list A)) : length l = 5%nat ->
  l = map (fun t => default [] (l !! type_index t)) all_types.
Proof. by destruct l as [|? [|? [|? [|? [|? [|? ?]]]]]]. Qed.

Lemma find_port_ok m name ts :
  (forall t, length (names_of m t) = length (ids_of m t)) ->
  exists o, find_port name (map (names_of m) ts) (map (ids_of m) ts) = Ret o /\
  match o with
  | Some id => exists t ts1 ts2, ts = ts1 ++ t :: ts2 /\ resolves m (name, t) id /\
                                 forall t', t' ∈ ts1 -> name ∉ names_of m t'
  | None => forall t, t ∈ ts -> name ∉ names_of m t
  end.
Proof.
  intros Hal. induction ts as [|t ts IH]; cbn.
  - exists None. split; [done|]. intros t Ht. by apply elem_of_nil in Ht.
  - rewrite obind_assert by by apply same_length_true.
    destruct (find_id name (names_of m t) (ids_of m t)) as [id|] eqn:Hf.
    + exists (Some id). split; [done|]. apply find_id_Some in Hf; [|done].
      exists t, [], ts. split; [done|]. split; [done|]. intros t' Ht'. by apply elem_of_nil in Ht'.
    + apply find_id_None in Hf; [|done]. destruct IH as (o & -> & Ho). exists o. split; [done|].
      destruct o as [id|].
      * destruct Ho as (t0 & ts1 & ts2 & -> & Hr & Hno). exists t0, (t :: ts1), ts2.
        split; [done|split; [done|]]. intros t' [->|Ht']%elem_of_cons; auto.
      * intros t' [->|Ht']%elem_of_cons; auto.
Qed.

Lemma getPortID_ok d0 n m d name :
  variables_ok d0 n m d ->
  wp (getPortID m name)
     (fun id => resolves m (name, id.1) id /\
                forall t, type_code t < type_code id.1 -> name ∉ names_of m t)
     (fun x => (exists msg, x = ExnSystemConfiguration {| sce_what := msg; sce_config := None |}) /\
               forall t, name ∉ names_of m t).
Proof.
  intros Hv. unfold getPortID.
  apply wp_assert; [apply same_length_true; by rewrite (vo_names _ _ _ _ Hv), (vo_ids _ _ _ _ Hv)|].
  rewrite (five_lists _ (vo_names _ _ _ _ Hv)), (five_lists _ (vo_ids _ _ _ _ Hv)).
  fold (names_of m) (ids_of m).
  destruct (find_port_ok m name all_types) as (o & -> & Ho).
  { intros t. by eapply variables_aligned. }
  cbn [obind]. destruct o as [id|]; cbn.
  - destruct Ho as (t & ts1 & ts2 & Hts & Hr & Hno).
    assert (id.1 = t) as ->.
    { destruct Hr as (k & _ & Hi). rewrite (vo_id _ _ _ _ Hv) in Hi. by apply next_ids_lookup in Hi as [-> _]. }
    split; [done|]. intros t' Hlt. apply Hno.
    assert (Ht' : t' ∈ ts1 ++ t :: ts2) by (rewrite <- Hts; destruct t'; set_solver).
    destruct ts1 as [|a [|b [|c [|e [|? ?]]]]]; injection Hts; intros; subst; try done;
      destruct t'; try done; set_solver.
  - split; [eauto|]. intros t. apply Ho. destruct t; set_solver.
Qed.

Lemma elem_of_concat_ids d0 (len : FMIVariableType -> nat) ts id :
  id ∈ concat (map (fun t => next_ids d0 t (len t)) ts) <->
  id.1 ∈ ts /\ exists k, (k < len id.1)%nat /\ id.2 = next_of d0 id.1 + Z.of_nat k.
Proof.
  destruct id as [t i]. cbn. induction ts as [|t0 ts IH]; cbn; [set_solver|].
  rewrite elem_of_app, IH, elem_of_cons. unfold next_ids at 1. rewrite list_elem_of_fmap.
  split.
  - intros [(k & [= -> ->] & [_ Hk]%elem_of_seq)|[? ?]]; [|tauto].
    split; [by left|]. exists k. split; [lia|done].
  - intros [[->|Hin] (k & Hk & ->)]; [|right; split; [done|by exists k]].
    left. exists k. split; [done|]. apply elem_of_seq. lia.
Qed.

Lemma NoDup_next_ids d t n : NoDup (next_ids d t n).
Proof.
  unfold next_ids. apply NoDup_fmap_2_strong; [|apply NoDup_seq].
  intros x y _ _ [= E]. lia.
Qed.

Lemma NoDup_concat_ids d0 (len : FMIVariableType -> nat) ts :
  NoDup ts -> NoDup (concat (map (fun t => next_ids d0 t (len t)) ts)).
Proof.
  induction 1 as [|t ts Hnin Hnd IH]; cbn; [constructor|].
  apply NoDup_app. split_and!; [apply NoDup_next_ids| |done].
  intros id Hid [Ht _]%elem_of_concat_ids.
  apply list_elem_of_fmap in Hid as (k & -> & _). done.
Qed.

(** The identifiers of one mapping are pairwise different, and none of them was
    drawn before. *)
Lemma mapping_ids_fresh d0 n m d :
  variables_ok d0 n m d -> room d0 n -> drawer_wf d0 ->
  NoDup (getAllVariableIDs m) /\
  (forall id, id ∈ getAllVariableIDs m -> id ∈ ids_of m id.1 /\ ~ drawn d0 id /\ drawn d id).
Proof.
  intros Hv Hroom Hd0. unfold getAllVariableIDs. rewrite (five_lists _ (vo_ids _ _ _ _ Hv)).
  fold (ids_of m).
  replace (map (ids_of m) all_types)
    with (map (fun t => next_ids d0 t (length (names_of m t))) all_types)
    by (apply map_ext; intros; symmetry; apply Hv).
  split; [apply (NoDup_concat_ids d0 (fun t => length (names_of m t)) all_types); repeat constructor; set_solver|].
  intros [t i] (_ & k & Hk & Hi)%(elem_of_concat_ids d0 (fun t => length (names_of m t)) all_types).
  cbn in *. subst i.
  pose proof (vo_count _ _ _ _ Hv t). specialize (Hroom t). pose proof (proj2 Hd0 t).
  assert (Hs : forall z, 0 <= z < 2 ^ 31 -> to_signed 32 z = z).
  { intros z Hz. unfold to_signed. rewrite wrap_small by lia. by rewrite (proj2 (Z.ltb_lt _ _)) by lia. }
  split_and!.
  - rewrite (vo_id _ _ _ _ Hv). apply list_elem_of_fmap. exists k. split; [done|]. apply elem_of_seq. lia.
  - intros (j & Hj & E). cbn in *. rewrite Hs in E by lia. lia.
  - exists (next_of d0 t + Z.of_nat k). cbn. rewrite (vo_next _ _ _ _ Hv), Hs by lia. lia.
Qed.

Lemma total_is_length m : getTotalNumberOfVariables m = length (getAllVariableIDs m).
Proof.
  unfold getTotalNumberOfVariables, getAllVariableIDs.
  induction (variableIDs_ m) as [|l ls IH]; cbn; [done|]. by rewrite length_app, IH.
Qed.

Lemma getPorts_lookup m (i : nat) ids :
  getPorts m (Z.of_nat i) = Ret ids -> exists ch, channels_ m !! i = Some ch /\ portIDs_ ch = ids.
Proof.
  unfold getPorts, getTransmissionChannel, getPortIDs. intros Hg. inv_ret.
  rewrite Nat2Z.id in Hr. destruct (channels_ m !! i) as [ch|]; [|done]. injection Hr as ->. eauto.
Qed.

(** ** Properties *)

Section Properties.
Context (d0 : PortIDDrawer) (prop : ptree).
Context (Hd0 : drawer_wf d0) (Hroom : room d0 (length (configured_ports prop))).

(** C27: the constructor of a channel mapping builds exactly the configured
    mapping or reports an invalid port.  It returns precisely when every numbered
    port of every numbered channel has a name and an existing type code; then
    channel [i] holds the ports of the configuration's channel [i] in their order,
    each under the identifier of its variable.  Otherwise it throws a
    [SystemConfigurationException].  It always terminates and no assertion
    fails. *)
Theorem channel_mapping_correct :
  match new_ChannelMapping d0 prop with
  | Ret (m, _) =>
      Forall2 (channel_ok m) (channels_ m) (indexed_children prop) /\
      Forall (fun p => is_Some (port_entry p)) (configured_ports prop)
  | Throw x => invalid_port (configured_ports prop) x
  | Fault _ => False
  end.
Proof.
  pose proof (new_ChannelMapping_ok d0 Hd0 prop Hroom) as Hwp.
  destruct (new_ChannelMapping d0 prop) as [[m d]| |]; [|done..].
  destruct Hwp as [_ Hch]. cbn in Hch. split; [done|].
  apply Forall_concat, Forall_fmap. unfold compose.
  eapply Forall2_Forall_r; [exact Hch|]. apply Forall_true. intros ch c (_ & _ & Hp).
  eapply Forall2_Forall_r; [exact Hp|]. apply Forall_true. intros id p (e & -> & _). eauto.
Qed.

Context (m : ChannelMapping) (d : PortIDDrawer) (Hm : new_ChannelMapping d0 prop = Ret (m, d)).

Lemma built : channels_inv d0 (indexed_children prop) (m, d).
Proof. exact (wp_Ret_inv _ _ _ _ (new_ChannelMapping_ok d0 Hd0 prop Hroom) Hm). Qed.

Lemma configured_port_ok (i j : nat) c ids p id :
  indexed_children prop !! i = Some c -> indexed_children c !! j = Some p ->
  getPorts m (Z.of_nat i) = Ret ids -> ids !! j = Some id -> port_ok m id p.
Proof.
  intros Hc Hp Hids Hid. destruct built as [_ Hch]. cbn in Hch.
  apply getPorts_lookup in Hids as (ch & Hchi & <-).
  destruct (Forall2_lookup_lr _ _ _ _ _ _ Hch Hchi Hc) as (_ & _ & Hports).
  by apply (Forall2_lookup_lr _ _ _ j id p Hports).
Qed.

(** C28: a port identifier stands for one variable.  Two ports, of one channel or
    of two, have the same identifier if and only if they are configured with the
    same name and the same type. *)
Theorem port_identity i j c p ids id i' j' c' p' ids' id' :
  indexed_children prop !! i = Some c -> indexed_children c !! j = Some p ->
  getPorts m (Z.of_nat i) = Ret ids -> ids !! j = Some id ->
  indexed_children prop !! i' = Some c' -> indexed_children c' !! j' = Some p' ->
  getPorts m (Z.of_nat i') = Ret ids' -> ids' !! j' = Some id' ->
  id = id' <-> port_entry p = port_entry p'.
Proof.
  intros Hc Hp Hids Hid Hc' Hp' Hids' Hid'.
  destruct (configured_port_ok i j c ids p id) as (e & -> & Hr); [done..|].
  destruct (configured_port_ok i' j' c' ids' p' id') as (e' & -> & Hr'); [done..|].
  rewrite (resolves_inj _ _ _ _ e e' id id' (proj1 built) Hr Hr'). naive_solver.
Qed.

(** Name resolution.  [getPortID] returns an identifier that belongs to a
    variable of that name, of the first type, in the order of the type codes, that
    knows the name; it throws a [SystemConfigurationException] precisely when no
    type does. *)
Theorem getPortID_correct name :
  match getPortID m name with
  | Ret id => resolves m (name, id.1) id /\
              forall t, type_code t < type_code id.1 -> name ∉ names_of m t
  | Throw x => (exists msg, x = ExnSystemConfiguration {| sce_what := msg; sce_config := None |}) /\
               forall t, name ∉ names_of m t
  | Fault _ => False
  end.
Proof. exact (getPortID_ok _ _ _ _ name (proj1 built)). Qed.

(** The mapping's list of identifiers.  It has no duplicates, as many
    elements as [getTotalNumberOfVariables] says, is aligned with the list of names,
    and every identifier is new: the drawer had not handed it out before. *)
Theorem mapping_ids_unique :
  NoDup (getAllVariableIDs m) /\ getTotalNumberOfVariables m = length (getAllVariableIDs m) /\
  length (getAllVariableNames m) = length (getAllVariableIDs m) /\
  forall id, id ∈ getAllVariableIDs m -> ~ drawn d0 id /\ drawn d id.
Proof.
  destruct (mapping_ids_fresh _ _ _ _ (proj1 built) Hroom Hd0) as [Hnd Hall].
  split_and!; [done|apply total_is_length| |intros id Hid; split; by apply (Hall id Hid)].
  unfold getAllVariableNames, getAllVariableIDs. pose proof (proj1 built) as Hv. cbn in Hv.
  rewrite (five_lists _ (vo_names _ _ _ _ Hv)), (five_lists _ (vo_ids _ _ _ _ Hv)).
  fold (names_of m) (ids_of m). cbn. rewrite !length_app.
  by rewrite <- !(variables_aligned d0 _ m d _ Hv).
Qed.

End Properties.
End MappingSpec.

(** ** A concrete configuration *)

Definition sample_prop : @ptree tree_ptree :=
  config_of [("0.0", "u"); ("0.0.type", "0"); ("0.1", "v"); ("0.1.type", "1");
             ("1.0", "u"); ("1.0.type", "0")].

Definition sample_mapping : ChannelMapping (H := tree_ptree) :=
  match new_ChannelMapping new_PortIDDrawer sample_prop with
  | Ret (m, _) => m
  | _ => empty_ChannelMapping
  end.
Definition sample_drawer : PortIDDrawer :=
  match new_ChannelMapping new_PortIDDrawer sample_prop with
  | Ret (_, d) => d
  | _ => new_PortIDDrawer
  end.

Lemma sample_built : new_ChannelMapping new_PortIDDrawer sample_prop = Ret (sample_mapping, sample_drawer).
Proof. apply is_Ret_pair. vm_compute. reflexivity. Qed.

Lemma sample_room : room new_PortIDDrawer (length (configured_ports sample_prop)).
Proof. intros []; vm_compute; discriminate. Qed.

Example sample_ports :
  map (fun i => getPorts sample_mapping i) [0; 1; 2; -1] =
  [Ret [(fmiTypeReal, 0); (fmiTypeInteger, 0)]; Ret [(fmiTypeReal, 0)];
   Fault AssertionFailed; Fault AssertionFailed].
Proof. vm_compute. reflexivity. Qed.

Example sample_toString :
  mapping_toString sample_mapping =
  Ret ("ChannelMapping: defined Real variable names: {" +:+ dquote +:+ "u" +:+ dquote +:+
       " has id (Real, 0)}, defined Integer variable names: {" +:+ dquote +:+ "v" +:+ dquote +:+
       " has id (Integer, 0)}, defined Boolean variable names: {}, defined String variable names: {}, "
       +:+ "defined Unknown variable names: {}, mapping: {id (Real, 0) <-> port (0.0), "
       +:+ "id (Integer, 0) <-> port (0.1), id (Real, 0) <-> port (1.0)}").
Proof. vm_compute. reflexivity. Qed.

Lemma channel_mapping_correct_witness :
  match new_ChannelMapping new_PortIDDrawer sample_prop with
  | Ret (m, _) => Forall2 (channel_ok m) (channels_ m) (indexed_children sample_prop) /\
                  Forall (fun p => is_Some (port_entry p)) (configured_ports sample_prop)
  | Throw x => invalid_port (configured_ports sample_prop) x
  | Fault _ => False
  end /\ length (configured_ports sample_prop) = 3%nat.
Proof.
  split; [|vm_compute; reflexivity].
  exact (channel_mapping_correct new_PortIDDrawer sample_prop new_PortIDDrawer_wf sample_room).
Defined.

Definition port_at (i j : nat) : @ptree tree_ptree :=
  nth j (indexed_children (nth i (indexed_children sample_prop) pt_empty)) pt_empty.

Lemma port_identity_witness :
  (fmiTypeReal, 0) = (fmiTypeReal, 0) <-> port_entry (port_at 0 0) = port_entry (port_at 1 0).
Proof.
  exact (port_identity new_PortIDDrawer sample_prop new_PortIDDrawer_wf sample_room
           sample_mapping sample_drawer sample_built
           0 0 (nth 0 (indexed_children sample_prop) pt_empty) (port_at 0 0)
           [(fmiTypeReal, 0); (fmiTypeInteger, 0)] (fmiTypeReal, 0)
           1 0 (nth 1 (indexed_children sample_prop) pt_empty) (port_at 1 0)
           [(fmiTypeReal, 0)] (fmiTypeReal, 0)
           eq_refl eq_refl eq_refl eq_refl eq_refl eq_refl eq_refl eq_refl).
Defined.

Lemma getPortID_correct_witness :
  getPortID sample_mapping "v" = Ret (fmiTypeInteger, 0) /\
  (resolves sample_mapping ("v", fmiTypeInteger) (fmiTypeInteger, 0) /\
   forall t, type_code t < type_code fmiTypeInteger -> "v" ∉ names_of sample_mapping t).
Proof.
  split; [vm_compute; reflexivity|].
  exact (getPortID_correct new_PortIDDrawer sample_prop new_PortIDDrawer_wf sample_room
           sample_mapping sample_drawer sample_built "v").
Defined.

Lemma mapping_ids_unique_witness :
  NoDup (getAllVariableIDs sample_mapping) /\ getTotalNumberOfVariables sample_mapping = 2%nat.
Proof.
  pose proof (mapping_ids_unique new_PortIDDrawer sample_prop new_PortIDDrawer_wf sample_room
                sample_mapping sample_drawer sample_built) as (Hnd & _).
  split; [exact Hnd|vm_compute; reflexivity].
Defined.
