(* ===== verification/ApplicationContext.v ===== *)
(** * The application context (src/base/ApplicationContext.cpp)

    The configuration tree, filled from the command line and the model's default
    experiment, the checked access to numeric properties, and the two channel
    mappings that are built on their first use. *)

From Stdlib Require Import Ascii.
From S2P Require Import Prelude Float64 BaseExceptions PortID Format PropertyTree ChannelMapping.

Local Open Scope Z_scope.

Definition PROP_PROGRAM_NAME : string := "app.name".
Definition PROP_START_TIME : string := "app.startTime".
Definition PROP_LOOK_AHEAD_TIME : string := "app.lookAheadTime".
Definition PROP_LOOK_AHEAD_STEP_SIZE : string := "app.lookAheadStepSize".
Definition PROP_INTEGRATOR_STEP_SIZE : string := "app.integratorStepSize".
Definition PROP_OUT : string := "out".
Definition PROP_IN : string := "in".

(** FMI++'s model description: its default experiment. *)
Class ModelDescription (D : Type) := {
  hasDefaultExperiment : D -> bool;
  defaultStartTime : D -> fmiTime;
}.

Definition quoted (s : string) : string := dquote +:+ s +:+ dquote.

(** [opt.find_first_of('=')] with the two parts around the sign. *)
Fixpoint split_option (opt : string) : option (string * string) :=
  match opt with
  | EmptyString => None
  | String c s =>
      if Ascii.eqb c "=" then Some (EmptyString, s)
      else match split_option s with
           | Some (key, value) => Some (String c key, value)
           | None => None
           end
  end.

Section Context.
Context `{PropertyTree}.

Record ApplicationContext := {
  config_ : ptree;
  portIDSource_ : PortIDDrawer;
  outputChannelMap_ : option ChannelMapping;
  inputChannelMap_ : option ChannelMapping;
}.

Definition set_config (c : ptree) (ctx : ApplicationContext) : ApplicationContext :=
  {| config_ := c; portIDSource_ := portIDSource_ ctx;
     outputChannelMap_ := outputChannelMap_ ctx; inputChannelMap_ := inputChannelMap_ ctx |}.

(** The default constructor. *)
Definition new_ApplicationContext : ApplicationContext :=
  {| config_ := put pt_empty PROP_PROGRAM_NAME "not set"; portIDSource_ := new_PortIDDrawer;
     outputChannelMap_ := None; inputChannelMap_ := None |}.

Definition hasProperty (ctx : ApplicationContext) (key : string) : bool :=
  match get_child_optional (config_ ctx) key with Some _ => true | None => false end.

(** [getProperty<Type>(path)]: the library's exceptions become
    [std::invalid_argument]. *)
Definition getProperty {T} (tr : string -> option T) (ctx : ApplicationContext) (path : string) : result T :=
  match get_optional tr (config_ ctx) path with
  | Some v => Ret v
  | None => Throw (ExnInvalidArgument ("The property " +:+ quoted path +:+ " was not found: " +:+
                                       get_error (config_ ctx) path))
  end.

(** [getProperty<Type>(path, def)]. *)
Definition getProperty_def {T} (tr : string -> option T) (ctx : ApplicationContext) (path : string)
    (def : T) : result T :=
  if negb (hasProperty ctx path) then Ret def else getProperty tr ctx path.

(** ** Command line *)

Definition option_error (i : Z) (opt : string) (problem : string) : exn :=
  ExnInvalidArgument ("The program option nr. " +:+ pretty i +:+ " (" +:+ quoted opt +:+ ") " +:+ problem).

Definition addCommandlineOption (ctx : ApplicationContext) (opt : string) (i : Z)
    : result ApplicationContext :=
  match split_option opt with
  | None => Throw (option_error i opt "doesn't contain an = sign")
  | Some ("", _) => Throw (option_error i opt "doesn't contain a key")
  | Some (key, value) =>
      if hasProperty ctx key then
        let* old := getProperty tr_string ctx key in
        Throw (option_error i opt ("has already been set with value " +:+ quoted old))
      else Ret (set_config (put (config_ ctx) key value) ctx)
  end.

(** The options [args], numbered from [i]. *)
Fixpoint addCommandlineOptions (ctx : ApplicationContext) (args : list string) (i : Z)
    : result ApplicationContext :=
  match args with
  | [] => Ret ctx
  | opt :: args' => let* ctx' := addCommandlineOption ctx opt i in addCommandlineOptions ctx' args' (i + 1)
  end.

(** [addCommandlineProperties(const std::vector<std::string> &)]. *)
Definition addCommandlineProperties_vector (ctx : ApplicationContext) (args : list string)
    : result ApplicationContext :=
  addCommandlineOptions ctx args 0.

(** The constructor from an initializer list. *)
Definition new_ApplicationContext_list (initList : list string) : result ApplicationContext :=
  addCommandlineOptions new_ApplicationContext initList 0.

(** The loop of [addCommandlineProperties(int, const char*[])] over [argv[1]],
    ...; [None] is a null pointer.  The text of that exception is the format
    string: its placeholder is malformed. *)
Fixpoint add_arguments (ctx : ApplicationContext) (argv : list (option string)) (i : Z)
    : result ApplicationContext :=
  match argv with
  | [] => Ret ctx
  | None :: _ => Throw (ExnInvalidArgument "Program option nr. %1$ contains an invalid reference")
  | Some opt :: argv' =>
      let* ctx' := addCommandlineOption ctx opt i in add_arguments ctx' argv' (i + 1)
  end.

(** [argv] has [argc] elements. *)
Definition addCommandlineProperties (ctx : ApplicationContext) (argv : list (option string))
    : result ApplicationContext :=
  match argv with
  | Some name :: argv' =>
      add_arguments (set_config (put (config_ ctx) PROP_PROGRAM_NAME name) ctx) argv' 1
  | _ => Throw (ExnInvalidArgument "The program name is not set")
  end.

(** ** Defaults and numeric properties *)

(** [None] is a null pointer. *)
Definition addSensitiveDefaultProperties {D} `{ModelDescription D} (ctx : ApplicationContext)
    (description : option D) : result ApplicationContext :=
  match description with
  | None => Fault AssertionFailed
  | Some d =>
      if negb (hasProperty ctx PROP_START_TIME) && hasDefaultExperiment d
      then Ret (set_config (put (config_ ctx) PROP_START_TIME (to_string_double (defaultStartTime d))) ctx)
      else Ret ctx
  end.

Definition getPositiveDoubleProperty_def (ctx : ApplicationContext) (path : string) (def : fmiTime)
    : result fmiTime :=
  assert_ (f64_zero <=? def)%f64 ;;;
  let* ret :=
    (match getProperty_def tr_double ctx path def with
     | Throw (ExnInvalidArgument _) =>
         let* s := getProperty tr_string ctx path in
         throw_config_kv "The Property is not a floating point number" path s
     | r => r
     end) in
  if negb (f64_zero <=? ret)%f64 then
    let* s := getProperty tr_string ctx path in throw_config_kv "Non-negative value expected" path s
  else Ret ret.

Definition getPositiveDoubleProperty (ctx : ApplicationContext) (path : string) : result fmiTime :=
  if negb (hasProperty ctx path) then throw_config_kv "Missing property" path ""
  else getPositiveDoubleProperty_def ctx path f64_zero.

Definition getRealPositiveDoubleProperty_def (ctx : ApplicationContext) (path : string) (def : fmiTime)
    : result fmiTime :=
  assert_ (f64_zero <? def)%f64 ;;;
  let* ret := getPositiveDoubleProperty_def ctx path def in
  if negb (f64_zero <? ret)%f64 then
    let* s := getProperty tr_string ctx path in throw_config_kv "Real positive value expected" path s
  else Ret ret.

Definition getRealPositiveDoubleProperty (ctx : ApplicationContext) (path : string) : result fmiTime :=
  if negb (hasProperty ctx path) then throw_config_kv "Missing property" path ""
  else getRealPositiveDoubleProperty_def ctx path (f64_of_Z 1).

Definition getPropertyTree (ctx : ApplicationContext) (path : string) : result ptree :=
  match get_child_optional (config_ ctx) path with
  | Some t => Ret t
  | None => throw_config_kv "Missing configuration tree" path ""
  end.

(** ** Channel mappings *)

Definition newChannelMapping (ctx : ApplicationContext) (propertyPrefix : string)
    : result (ChannelMapping * PortIDDrawer) :=
  if hasProperty ctx propertyPrefix then
    let* t := getPropertyTree ctx propertyPrefix in new_ChannelMapping (portIDSource_ ctx) t
  else Ret (empty_ChannelMapping, portIDSource_ ctx).

Definition getOutputChannelMapping (ctx : ApplicationContext)
    : result (ChannelMapping * ApplicationContext) :=
  match outputChannelMap_ ctx with
  | Some m => Ret (m, ctx)
  | None =>
      let* r := newChannelMapping ctx PROP_OUT in
      Ret (r.1, {| config_ := config_ ctx; portIDSource_ := r.2;
                   outputChannelMap_ := Some r.1; inputChannelMap_ := inputChannelMap_ ctx |})
  end.

Definition getInputChannelMapping (ctx : ApplicationContext)
    : result (ChannelMapping * ApplicationContext) :=
  match inputChannelMap_ ctx with
  | Some m => Ret (m, ctx)
  | None =>
      let* r := newChannelMapping ctx PROP_IN in
      Ret (r.1, {| config_ := config_ ctx; portIDSource_ := r.2;
                   outputChannelMap_ := outputChannelMap_ ctx; inputChannelMap_ := Some r.1 |})
  end.

Definition mapping_or_note (m : option ChannelMapping) : result string :=
  match m with Some m => mapping_toString m | None => Ret "<not-constructed>" end.

Definition context_toString (ctx : ApplicationContext) : result string :=
  let* i := mapping_or_note (inputChannelMap_ ctx) in
  let* o := mapping_or_note (outputChannelMap_ ctx) in
  Ret ("ApplicationContext: Configuration: " +:+ write_info (config_ ctx) +:+
       " InputChannelMapping: " +:+ i +:+ " OutputChannelMapping: " +:+ o).

End Context.
