(* ===== verification/ApplicationContextSpec.v ===== *)
(** * What the application context promises

    The command line options are exactly the properties they say, numeric
    properties are in range, and the two channel mappings share no identifier. *)

From Stdlib Require Import Ascii.
From S2P Require Import Prelude Float64 BaseExceptions PortID Format PropertyTree ChannelMapping.
From S2P Require Import ChannelMappingSpec ApplicationContext.

Local Open Scope Z_scope.

Section ContextSpec.
Context `{PropertyTree, !PropertyTreeLaws _}.

(** [opt] is [key=value] with a key that holds no further sign. *)
Definition option_of (opt key value : string) : Prop :=
  opt = key +:+ "=" +:+ value /\ key <> "" /\ "="%char ∉ String.list_ascii_of_string key.

Lemma split_option_Some opt key value :
  split_option opt = Some (key, value) <->
  opt = key +:+ "=" +:+ value /\ "="%char ∉ String.list_ascii_of_string key.
Proof.
  revert key; induction opt as [|c opt IH]; intros key; cbn.
  - split; [done|]. intros [E _]. by destruct key.
  - destruct (Ascii.eqb_spec c "=") as [->|Hc].
    + split.
      * intros [= <- <-]. split; [done|]. cbn. intros Hin. by apply elem_of_nil in Hin.
      * intros [E Hk]. destruct key as [|c' key]; cbn in *; [by injection E as ->|].
        injection E as <- _. set_solver.
    + destruct (split_option opt) as [[k v]|] eqn:Hs.
      * split.
        -- intros [= <- <-]. destruct (proj1 (IH k) eq_refl) as [-> Hk]. split; [done|].
           cbn. set_solver.
        -- intros [E Hk]. destruct key as [|c' key]; cbn in *; [by injection E|].
           injection E as <- E. pose proof (proj2 (IH key)) as IHk.
           specialize (IHk ltac:(split; [done|set_solver])). congruence.
      * split; [done|]. intros [E Hk]. destruct key as [|c' key]; cbn in *; [by injection E|].
        injection E as <- E. pose proof (proj2 (IH key)) as IHk.
        specialize (IHk ltac:(split; [done|set_solver])). congruence.
Qed.

Lemma getProperty_present {T} (tr : string -> option T) ctx path v :
  getProperty tr ctx path = Ret v <-> exists c, get_child_optional (config_ ctx) path = Some c /\ tr (pt_data c) = Some v.
Proof.
  unfold getProperty, get_optional. destruct (get_child_optional (config_ ctx) path) as [c|].
  - destruct (tr (pt_data c)) as [v'|] eqn:E; split; try naive_solver.
  - naive_solver.
Qed.

(** A property keeps its value when another one is set. *)
Lemma getProperty_frame {T} (tr : string -> option T) ctx path v key value :
  hasProperty ctx key = false -> getProperty tr ctx path = Ret v ->
  getProperty tr (set_config (put (config_ ctx) key value) ctx) path = Ret v.
Proof.
  intros Hno (c & Hc & Ht)%getProperty_present. apply getProperty_present. cbn.
  destruct (decide (path_keys path = path_keys key)) as [E|Hne].
  - unfold hasProperty in Hno. by rewrite <- (get_path_keys _ _ _ E), Hc in Hno.
  - destruct (get_put_ne _ _ value _ _ Hne Hc) as (c' & -> & Ed). exists c'. by rewrite Ed.
Qed.

Lemma getProperty_set ctx key value :
  getProperty tr_string (set_config (put (config_ ctx) key value) ctx) key = Ret value.
Proof.
  apply getProperty_present. cbn. destruct (get_put (config_ ctx) key value) as (c & -> & <-). eauto.
Qed.

(** What setting a new property does to the configuration: the property has its value, the
    others keep theirs, and no further path comes into being but those that lead to the
    property, which are empty. *)
Definition only_sets (ctx ctx' : ApplicationContext) (key value : string) : Prop :=
  getProperty tr_string ctx' key = Ret value /\
  (forall path v, getProperty tr_string ctx path = Ret v -> getProperty tr_string ctx' path = Ret v) /\
  (forall path, hasProperty ctx path = false -> path_keys path <> path_keys key ->
     if decide (path_keys path `prefix_of` path_keys key) then getProperty tr_string ctx' path = Ret ""
     else hasProperty ctx' path = false) /\
  ctx' = set_config (config_ ctx') ctx.

Lemma put_only_sets ctx key value :
  hasProperty ctx key = false -> only_sets ctx (set_config (put (config_ ctx) key value) ctx) key value.
Proof.
  intros Hno. unfold only_sets. split_and!; [apply getProperty_set|by intros; apply getProperty_frame| |done].
  intros path Hp Hne. unfold hasProperty in *. cbn [set_config config_].
  destruct (get_child_optional (config_ ctx) path) eqn:Hg; [done|]. case_decide as Hpre.
  - apply getProperty_present. cbn. destruct (get_put_way (config_ ctx) key value path Hpre Hne Hg) as (c & -> & <-).
    by exists c.
  - by rewrite (get_put_new _ _ value _ Hpre Hg).
Qed.

(** An option of the command line. *)
Lemma addCommandlineOption_spec ctx opt i :
  match addCommandlineOption ctx opt i with
  | Ret ctx' => exists key value,
      option_of opt key value /\ hasProperty ctx key = false /\ only_sets ctx ctx' key value
  | Throw x => (exists msg, x = ExnInvalidArgument msg) /\
      forall key value, option_of opt key value -> hasProperty ctx key = true
  | Fault _ => False
  end.
Proof.
  unfold addCommandlineOption.
  destruct (split_option opt) as [[key value]|] eqn:Hs.
  - destruct key as [|c key].
    + split; [unfold option_error; eauto|]. intros k v (E & Hne & Hk).
      assert (Hs' : split_option opt = Some (k, v)) by by apply split_option_Some. congruence.
    + apply split_option_Some in Hs as Ho. destruct Ho as [Ho Hk].
      destruct (hasProperty ctx (String c key)) eqn:Hp.
      * unfold getProperty, get_optional. pose proof Hp as Hp'. unfold hasProperty in Hp'.
        destruct (get_child_optional _ _) as [t|]; [|done]. cbn.
        split; [unfold option_error; eauto|]. intros k v (E & Hne & Hk').
        assert (Hs' : split_option opt = Some (k, v)) by by apply split_option_Some.
        rewrite Hs in Hs'. by injection Hs' as <- <-.
      * exists (String c key), value. split_and!; [done..|]. by apply put_only_sets.
  - split; [unfold option_error; eauto|]. intros k v (E & Hne & Hk).
    assert (Hs' : split_option opt = Some (k, v)) by by apply split_option_Some. congruence.
Qed.

(** C36: one command line option.  The option is accepted precisely when it reads
    [key=value] with a non-empty key that the configuration does not know yet;
    otherwise [std::invalid_argument] is thrown.  Then the property [key] has that value,
    every property that was there keeps its value, and no other comes into being, except
    that the paths which lead to [key] exist from now on, with an empty text. *)
Theorem addCommandlineOption_correct ctx opt i :
  match addCommandlineOption ctx opt i with
  | Ret ctx' => exists key value,
      option_of opt key value /\ hasProperty ctx key = false /\ only_sets ctx ctx' key value
  | Throw x => (exists msg, x = ExnInvalidArgument msg) /\
      forall key value, option_of opt key value -> hasProperty ctx key = true
  | Fault _ => False
  end.
Proof. exact (addCommandlineOption_spec ctx opt i). Qed.

Lemma addCommandlineOption_Ret ctx opt i ctx' :
  addCommandlineOption ctx opt i = Ret ctx' ->
  exists key value, split_option opt = Some (key, value) /\ hasProperty ctx key = false /\
                    ctx' = set_config (put (config_ ctx) key value) ctx.
Proof.
  unfold addCommandlineOption. destruct (split_option opt) as [[[|c key] value]|]; [done| |done].
  destruct (hasProperty _ _) eqn:Hp.
  - by destruct (getProperty _ _ _).
  - intros [= <-]. eauto 10.
Qed.

Lemma addCommandlineOptions_frame ctx args i ctx' path v :
  addCommandlineOptions ctx args i = Ret ctx' -> getProperty tr_string ctx path = Ret v ->
  getProperty tr_string ctx' path = Ret v.
Proof.
  revert ctx i; induction args as [|opt args IH]; intros ctx i; cbn; [by intros [= <-]|].
  intros (ctx1 & Ha & Hrest)%obind_Ret_inv Hp. eapply IH; [exact Hrest|].
  apply addCommandlineOption_Ret in Ha as (key & value & _ & Hno & ->).
  by apply getProperty_frame.
Qed.

(** The whole command line.  When all options are accepted, each of them is
    in the configuration with the value it was given, whatever follows it, and
    no property set before has changed. *)
Theorem commandline_all_set ctx args ctx' :
  addCommandlineProperties_vector ctx args = Ret ctx' ->
  Forall (fun opt => exists key value, option_of opt key value /\
                                       getProperty tr_string ctx' key = Ret value) args /\
  forall path v, getProperty tr_string ctx path = Ret v -> getProperty tr_string ctx' path = Ret v.
Proof.
  unfold addCommandlineProperties_vector. generalize 0 as i. intros i Hargs.
  split; [|intros path v; by eapply addCommandlineOptions_frame].
  revert ctx i Hargs. induction args as [|opt args IH]; intros ctx i Hargs; [constructor|]. cbn in Hargs.
  apply obind_Ret_inv in Hargs as (ctx1 & Ha & Hrest). constructor; [|by eapply IH].
  pose proof (addCommandlineOption_spec ctx opt i) as Hc. rewrite Ha in Hc.
  destruct Hc as (key & value & Ho & _ & Hg & _ & _ & _). exists key, value. split; [done|].
  by eapply addCommandlineOptions_frame.
Qed.

(** ** Numeric properties *)

(** The exception names the path and the text the configuration has there. *)
Definition property_error (ctx : ApplicationContext) (path : string) (x : exn) : Prop :=
  exists msg s, x = ExnSystemConfiguration {| sce_what := msg; sce_config := Some (path, s) |} /\
                getProperty tr_string ctx path = Ret s.

Lemma getProperty_string_present ctx path :
  hasProperty ctx path = true -> exists s, getProperty tr_string ctx path = Ret s.
Proof.
  unfold hasProperty, getProperty, get_optional. destruct (get_child_optional _ _); [eauto|done].
Qed.

Lemma positive_def ctx path def :
  (f64_zero <=? def)%f64 = true ->
  wp (getPositiveDoubleProperty_def ctx path def)
     (fun v => (f64_zero <=? v)%f64 = true /\ getProperty_def tr_double ctx path def = Ret v)
     (property_error ctx path).
Proof.
  intros Hdef. unfold getPositiveDoubleProperty_def. apply wp_assert; [done|].
  unfold getProperty_def. destruct (hasProperty ctx path) eqn:Hp; cbn [negb].
  - destruct (getProperty_string_present ctx path Hp) as [s Hs].
    destruct (getProperty tr_double ctx path) as [v|x|f] eqn:Hg; cbn [obind].
    + destruct (f64_zero <=? v)%f64 eqn:Hv; cbn; [done|]. rewrite Hs. cbn. unfold property_error. eauto.
    + unfold getProperty in Hg. destruct (get_optional _ _ _); [done|]. injection Hg as <-.
      rewrite Hs. cbn. unfold property_error. eauto.
    + unfold getProperty in Hg. by destruct (get_optional _ _ _).
  - cbn. by rewrite Hdef.
Qed.

Lemma real_positive_def ctx path def :
  (f64_zero <? def)%f64 = true ->
  wp (getRealPositiveDoubleProperty_def ctx path def)
     (fun v => (f64_zero <? v)%f64 = true /\ getProperty_def tr_double ctx path def = Ret v)
     (property_error ctx path).
Proof.
  intros Hdef. unfold getRealPositiveDoubleProperty_def. apply wp_assert; [done|]. apply wp_bind.
  eapply wp_mono; [by apply positive_def, f64_ltb_leb| |done].
  intros v [Hv Hg]. cbn beta. destruct (f64_zero <? v)%f64 eqn:Hlt; cbn; [done|].
  destruct (hasProperty ctx path) eqn:Hp.
  - destruct (getProperty_string_present ctx path Hp) as [s Hs]. rewrite Hs. cbn.
    unfold property_error. eauto.
  - unfold getProperty_def in Hg. rewrite Hp in Hg. injection Hg as ->. congruence.
Qed.

(** C38: the checked numeric properties.  With a default in range,
    [getPositiveDoubleProperty] returns the configured value, or the default, and
    it is not negative; [getRealPositiveDoubleProperty] returns one that is
    positive.  Every other text is reported as a [SystemConfigurationException]
    that holds the path and the text; NaN is never returned. *)
Theorem numeric_properties_in_range ctx path def :
  (f64_zero <? def)%f64 = true ->
  wp (getPositiveDoubleProperty_def ctx path def)
     (fun v => (f64_zero <=? v)%f64 = true /\ getProperty_def tr_double ctx path def = Ret v)
     (property_error ctx path) /\
  wp (getRealPositiveDoubleProperty_def ctx path def)
     (fun v => (f64_zero <? v)%f64 = true /\ getProperty_def tr_double ctx path def = Ret v)
     (property_error ctx path).
Proof. intros Hd. split; [by apply positive_def, f64_ltb_leb|by apply real_positive_def]. Qed.

(** ** Channel mappings *)

(** The ports configured under a prefix. *)
Definition prefix_ports (ctx : ApplicationContext) (prefix : string) : list ptree :=
  match get_child_optional (config_ ctx) prefix with
  | Some t => configured_ports t
  | None => []
  end.

Lemma newChannelMapping_ok ctx prefix m d :
  drawer_wf (portIDSource_ ctx) -> room (portIDSource_ ctx) (length (prefix_ports ctx prefix)) ->
  newChannelMapping ctx prefix = Ret (m, d) ->
  variables_ok (portIDSource_ ctx) (length (prefix_ports ctx prefix)) m d.
Proof.
  unfold newChannelMapping, prefix_ports, hasProperty, getPropertyTree. intros Hwf Hroom.
  destruct (get_child_optional (config_ ctx) prefix) as [t|]; cbn.
  - intros Hm. exact (proj1 (built _ t Hwf Hroom m d Hm)).
  - intros [= <- <-]. by apply variables_ok_empty.
Qed.

(** The channels of a mapping without variables of unknown type: the types of their ports
    are known. *)
Definition channel_known (ch : TransmissionChannel) : Prop :=
  length (portConfig_ ch) = length (portIDs_ ch) /\ Forall (fun p : PortID => p.1 <> fmiTypeUnknown) (portIDs_ ch).

Lemma channel_ok_known d0 n m d ch c :
  variables_ok d0 n m d -> names_of m fmiTypeUnknown = [] -> channel_ok m ch c -> channel_known ch.
Proof.
  unfold channel_known. intros Hv Hu (_ & -> & Hp). split; [symmetry; by eapply Forall2_length|].
  eapply Forall2_Forall_l; [exact Hp|]. apply Forall_true. intros port id (e & _ & k & Hn & Hid).
  rewrite (vo_id _ _ _ _ Hv) in Hid. apply next_ids_lookup in Hid as [-> _]. cbn. intros He. by rewrite He, Hu in Hn.
Qed.

Lemma newChannelMapping_known ctx prefix m d :
  drawer_wf (portIDSource_ ctx) -> room (portIDSource_ ctx) (length (prefix_ports ctx prefix)) ->
  newChannelMapping ctx prefix = Ret (m, d) -> names_of m fmiTypeUnknown = [] -> Forall channel_known (channels_ m).
Proof.
  intros Hwf Hroom Hm Hu. pose proof (newChannelMapping_ok _ _ _ _ Hwf Hroom Hm) as Hv.
  unfold newChannelMapping, prefix_ports, hasProperty, getPropertyTree in *.
  destruct (get_child_optional (config_ ctx) prefix) as [t|]; cbn in Hm, Hroom.
  - destruct (built _ t Hwf Hroom m d Hm) as [_ Hch]. eapply Forall2_Forall_l; [exact Hch|]. apply Forall_true.
    intros c ch. by eapply channel_ok_known.
  - injection Hm as <- _. constructor.
Qed.

(** What building the mappings leaves as it is. *)
Lemma getInputChannelMapping_inv ctx r :
  getInputChannelMapping ctx = Ret r ->
  config_ r.2 = config_ ctx /\ inputChannelMap_ r.2 = Some r.1 /\ outputChannelMap_ r.2 = outputChannelMap_ ctx.
Proof. unfold getInputChannelMapping. case_match; intros Hr; inv_ret; done. Qed.

Lemma getOutputChannelMapping_inv ctx r :
  getOutputChannelMapping ctx = Ret r ->
  config_ r.2 = config_ ctx /\ outputChannelMap_ r.2 = Some r.1 /\ inputChannelMap_ r.2 = inputChannelMap_ ctx.
Proof. unfold getOutputChannelMapping. case_match; intros Hr; inv_ret; done. Qed.

Lemma getInputChannelMapping_cached ctx m :
  inputChannelMap_ ctx = Some m -> getInputChannelMapping ctx = Ret (m, ctx).
Proof. unfold getInputChannelMapping. by intros ->. Qed.

Lemma getOutputChannelMapping_cached ctx m :
  outputChannelMap_ ctx = Some m -> getOutputChannelMapping ctx = Ret (m, ctx).
Proof. unfold getOutputChannelMapping. by intros ->. Qed.

Lemma room_after d0 n n' m d : variables_ok d0 n m d -> room d0 (n + n') -> room d n'.
Proof.
  intros Hv Hroom t. specialize (Hroom t). rewrite (vo_next _ _ _ _ Hv).
  pose proof (vo_count _ _ _ _ Hv t). lia.
Qed.

Lemma room_mono d n n' : (n' <= n)%nat -> room d n -> room d n'.
Proof. intros Hle Hroom t. specialize (Hroom t). lia. Qed.

Section Mappings.
Variables (ctx ctx1 ctx2 : ApplicationContext) (mo mi : ChannelMapping).
Hypothesis Ho : outputChannelMap_ ctx = None.
Hypothesis Hi : inputChannelMap_ ctx = None.
Hypothesis Hwf : drawer_wf (portIDSource_ ctx).
Hypothesis Hroom : room (portIDSource_ ctx) (length (prefix_ports ctx PROP_OUT) + length (prefix_ports ctx PROP_IN)).
Hypothesis Hout : getOutputChannelMapping ctx = Ret (mo, ctx1).
Hypothesis Hin : getInputChannelMapping ctx1 = Ret (mi, ctx2).

(** Both mappings were drawn from the context's drawer, one after the other. *)
Lemma context_mappings :
  exists d, variables_ok (portIDSource_ ctx) (length (prefix_ports ctx PROP_OUT)) mo d /\
    variables_ok d (length (prefix_ports ctx PROP_IN)) mi (portIDSource_ ctx2) /\
    room d (length (prefix_ports ctx PROP_IN)) /\
    outputChannelMap_ ctx2 = Some mo /\ inputChannelMap_ ctx2 = Some mi.
Proof.
  unfold getOutputChannelMapping in Hout. rewrite Ho in Hout.
  apply obind_Ret_inv in Hout as ([mo' d1] & Hmo & [= <- <-]).
  unfold getInputChannelMapping in Hin. cbn in Hin. rewrite Hi in Hin.
  apply obind_Ret_inv in Hin as ([mi' d2] & Hmi & [= <- <-]). cbn.
  apply newChannelMapping_ok in Hmo as Hvo; [|done|eapply room_mono; [|exact Hroom]; lia].
  pose proof (room_after _ _ _ _ _ Hvo Hroom) as Hroom1.
  apply newChannelMapping_ok in Hmi as Hvi; cbn [portIDSource_] in *; [|apply Hvo|done].
  exists d1. by split_and!.
Qed.

Lemma mappings_share_no_id id : id ∈ getAllVariableIDs mo -> id ∉ getAllVariableIDs mi.
Proof.
  destruct context_mappings as (d & Hvo & Hvi & Hroom1 & _). intros Hido Hidi.
  destruct (mapping_ids_fresh _ _ _ _ Hvo) as [_ Hfo]; [eapply room_mono; [|exact Hroom]; lia|done|].
  destruct (mapping_ids_fresh _ _ _ _ Hvi) as [_ Hfi]; [done|apply Hvo|].
  destruct (Hfo id Hido) as (_ & _ & Hd). by destruct (Hfi id Hidi) as (_ & Hn & _).
Qed.

Lemma ids_of_all m t id : length (variableIDs_ m) = 5%nat -> id ∈ ids_of m t -> id ∈ getAllVariableIDs m.
Proof.
  intros H5 Hid. unfold getAllVariableIDs. apply list_elem_of_In, in_concat. exists (ids_of m t).
  split; [|by apply list_elem_of_In]. apply list_elem_of_In. unfold ids_of in *.
  destruct (lookup_lt_is_Some_2 (variableIDs_ m) (type_index t)) as [l Hl]; [rewrite H5; apply type_index_lt|].
  rewrite Hl in *. by eapply list_elem_of_lookup_2.
Qed.

(** Seen by type: the identifiers have the type, and those of outputs are no inputs. *)
Lemma mappings_by_type t :
  Forall (fun id : PortID => id.1 = t) (ids_of mo t) /\ Forall (fun id : PortID => id.1 = t) (ids_of mi t) /\
  forall id, id ∈ ids_of mo t -> id ∉ ids_of mi t.
Proof.
  destruct context_mappings as (d & Hvo & Hvi & _). split_and!.
  - rewrite (vo_id _ _ _ _ Hvo). apply Forall_fmap, Forall_true. done.
  - rewrite (vo_id _ _ _ _ Hvi). apply Forall_fmap, Forall_true. done.
  - intros id Hido Hidi. apply (mappings_share_no_id id); eapply ids_of_all; [apply Hvo|done|apply Hvi|done].
Qed.

End Mappings.

(** C35: the input and the output mapping share no port identifier, and each is
    built once: asking again gives the same mapping and changes nothing. *)
Theorem channel_mappings_disjoint ctx mo ctx1 mi ctx2 :
  outputChannelMap_ ctx = None -> inputChannelMap_ ctx = None -> drawer_wf (portIDSource_ ctx) ->
  room (portIDSource_ ctx) (length (prefix_ports ctx PROP_OUT) + length (prefix_ports ctx PROP_IN)) ->
  getOutputChannelMapping ctx = Ret (mo, ctx1) -> getInputChannelMapping ctx1 = Ret (mi, ctx2) ->
  (forall id, id ∈ getAllVariableIDs mo -> id ∉ getAllVariableIDs mi) /\
  getOutputChannelMapping ctx2 = Ret (mo, ctx2) /\ getInputChannelMapping ctx2 = Ret (mi, ctx2).
Proof.
  intros Ho Hi Hwf Hroom Hout Hin. split; [intros id; by eapply mappings_share_no_id|].
  destruct (context_mappings ctx ctx1 ctx2 mo mi) as (d & _ & _ & _ & Hco & Hci); [done..|].
  unfold getOutputChannelMapping, getInputChannelMapping. by rewrite Hco, Hci.
Qed.

End ContextSpec.

(** ** A concrete command line *)

Definition sample_args : list string :=
  ["app.startTime=0.5"; "out.0=tcp"; "out.0.0=u"; "out.0.0.type=0"; "in.0.0=u"; "in.0.0.type=0"].

Definition sample_context : ApplicationContext (H := tree_ptree) :=
  match addCommandlineProperties_vector new_ApplicationContext sample_args with
  | Ret ctx => ctx
  | _ => new_ApplicationContext
  end.

Lemma sample_context_built :
  addCommandlineProperties_vector new_ApplicationContext sample_args = Ret sample_context.
Proof. apply is_Ret_value. vm_compute. reflexivity. Qed.

Example sample_errors :
  map (fun opt => is_Ret (addCommandlineOption sample_context opt 1)) ["a=b=c"; "a"; "=a"; "out=x"; "out.1="]
  = [true; false; false; false; true].
Proof. vm_compute. reflexivity. Qed.

Lemma addCommandlineOption_correct_witness :
  match addCommandlineOption sample_context "app.lookAheadTime=1" 7 with
  | Ret ctx' => exists key value,
      option_of "app.lookAheadTime=1" key value /\ hasProperty sample_context key = false /\
      only_sets sample_context ctx' key value
  | Throw x => (exists msg, x = ExnInvalidArgument msg) /\
      forall key value, option_of "app.lookAheadTime=1" key value -> hasProperty sample_context key = true
  | Fault _ => False
  end.
Proof. exact (addCommandlineOption_correct sample_context "app.lookAheadTime=1" 7). Defined.

Lemma commandline_all_set_witness :
  Forall (fun opt => exists key value, option_of opt key value /\
                     getProperty tr_string sample_context key = Ret value) sample_args /\
  getProperty tr_string sample_context PROP_PROGRAM_NAME = Ret "not set".
Proof.
  destruct (commandline_all_set new_ApplicationContext sample_args sample_context sample_context_built)
    as [Hall Hkeep].
  split; [exact Hall|]. apply Hkeep. vm_compute. reflexivity.
Defined.

Lemma numeric_properties_in_range_witness :
  wp (getPositiveDoubleProperty_def sample_context PROP_START_TIME (f64_of_Z 1))
     (fun v => (f64_zero <=? v)%f64 = true /\ getProperty_def tr_double sample_context PROP_START_TIME (f64_of_Z 1) = Ret v)
     (property_error sample_context PROP_START_TIME) /\
  getPositiveDoubleProperty_def sample_context PROP_START_TIME (f64_of_Z 1) = Ret (f64_of_Z 1 / f64_of_Z 2)%f64.
Proof.
  split; [|vm_compute; reflexivity].
  exact (proj1 (numeric_properties_in_range sample_context PROP_START_TIME (f64_of_Z 1) eq_refl)).
Defined.

Definition sample_out : ChannelMapping (H := tree_ptree) :=
  match getOutputChannelMapping sample_context with Ret (m, _) => m | _ => empty_ChannelMapping end.
Definition sample_ctx1 : ApplicationContext (H := tree_ptree) :=
  match getOutputChannelMapping sample_context with Ret (_, c) => c | _ => new_ApplicationContext end.
Definition sample_in : ChannelMapping (H := tree_ptree) :=
  match getInputChannelMapping sample_ctx1 with Ret (m, _) => m | _ => empty_ChannelMapping end.
Definition sample_ctx2 : ApplicationContext (H := tree_ptree) :=
  match getInputChannelMapping sample_ctx1 with Ret (_, c) => c | _ => new_ApplicationContext end.

Lemma sample_out_built : getOutputChannelMapping sample_context = Ret (sample_out, sample_ctx1).
Proof. apply is_Ret_pair. vm_compute. reflexivity. Qed.

Lemma sample_in_built : getInputChannelMapping sample_ctx1 = Ret (sample_in, sample_ctx2).
Proof. apply is_Ret_pair. vm_compute. reflexivity. Qed.

Lemma channel_mappings_disjoint_witness :
  (getAllVariableIDs sample_out = [(fmiTypeReal, 0)] /\ getAllVariableIDs sample_in = [(fmiTypeReal, 1)]) /\
  forall id, id ∈ getAllVariableIDs sample_out -> id ∉ getAllVariableIDs sample_in.
Proof.
  split; [vm_compute; split; reflexivity|].
  apply (channel_mappings_disjoint sample_context sample_out sample_ctx1 sample_in sample_ctx2);
    [reflexivity|reflexivity| | |exact sample_out_built|exact sample_in_built].
  - exact new_PortIDDrawer_wf.
  - intros []; vm_compute; discriminate.
Defined.
