(* ===== verification/ASN1Commons.v ===== *)
(** * Numbers and bytes of the ASN.1 encoding (include/network/ASN1Commons.h)

    Tags and data types of the compact encoding of IEC 61499, big-endian byte
    sequences, and the IEEE 754 bit patterns of floating point numbers.  A byte is
    an integer from 0 to 255. *)

From S2P Require Import Prelude Float64.

Local Open Scope Z_scope.

Definition CLASS_UNIVERSAL : Z := 0.
Definition CLASS_APPLICATION : Z := 64.
Definition CLASS_CONTEXT : Z := 128.
Definition CLASS_PRIVATE : Z := 192.
Definition BOOL0_TAG_NR : Z := 0.
Definition BOOL1_TAG_NR : Z := 1.
Definition DINT_TAG_NR : Z := 4.
Definition LINT_TAG_NR : Z := 5.
Definition REAL_TAG_NR : Z := 10.
Definition LREAL_TAG_NR : Z := 11.
Definition STRING_TAG_NR : Z := 16.

Inductive DataType :=
  | REAL
  | LREAL
  | DINT
  | BOOL
  | STRING.

#[export] Instance DataType_eq_dec : EqDecision DataType.
Proof. solve_decision. Defined.

(** The types in the order of their codes. *)
Definition data_types : list DataType := [REAL; LREAL; DINT; BOOL; STRING].

Definition DATA_TYPE_NAMES (t : DataType) : string :=
  match t with
  | REAL => "REAL"
  | LREAL => "LREAL"
  | DINT => "DINT"
  | BOOL => "BOOL"
  | STRING => "STRING"
  end.

Definition byte_ok (b : Z) : Prop := 0 <= b < 256.

(** [(v >> (8*i)) & 0xFF] for [i] from [n - 1] down to 0. *)
Definition be_bytes (n : nat) (v : Z) : list Z :=
  map (fun i => Z.land (Z.shiftr v (8 * Z.of_nat i)) 255) (rev (seq 0 n)).

(** The unsigned number of a big-endian byte sequence. *)
Definition be_value (bs : list Z) : Z := fold_left (fun acc b => acc * 256 + b) bs 0.

(** The bytes of a character string. *)
Definition string_bytes (s : string) : list Z :=
  map (fun c => Z.of_N (Ascii.N_of_ascii c)) (String.list_ascii_of_string s).

Definition bytes_string (bs : list Z) : string :=
  String.string_of_list_ascii (map (fun b => Ascii.ascii_of_N (Z.to_N b)) bs).

(** The bit pattern of a number in an IEEE 754 format with [mw] bits of mantissa,
    [ew] bits of exponent and the smallest exponent [emin]. *)
Definition ieee_bits (mw ew emin : Z) (x : fmiTime) : Z :=
  let sign (s : bool) := if s then 2 ^ (mw + ew) else 0 in
  match x with
  | S754_zero s => sign s
  | S754_infinity s => sign s + (2 ^ ew - 1) * 2 ^ mw
  | S754_nan => (2 ^ ew - 1) * 2 ^ mw + 2 ^ (mw - 1)
  | S754_finite s m e =>
      sign s + (if Zpos m <? 2 ^ mw then Zpos m else (e - emin + 1) * 2 ^ mw + (Zpos m - 2 ^ mw))
  end.

(** The number of a bit pattern. *)
Definition ieee_value (mw ew emin : Z) (bits : Z) : fmiTime :=
  let s := Z.testbit bits (mw + ew) in
  let ex := Z.land (Z.shiftr bits mw) (2 ^ ew - 1) in
  let mant := Z.land bits (2 ^ mw - 1) in
  if ex =? 2 ^ ew - 1 then (if mant =? 0 then S754_infinity s else S754_nan)
  else if ex =? 0 then (match mant with Zpos m => S754_finite s m emin | _ => S754_zero s end)
  else S754_finite s (Z.to_pos (2 ^ mw + mant)) (ex + emin - 1).

Definition double_bits : fmiTime -> Z := ieee_bits 52 11 (-1074).
Definition float_bits : fmiTime -> Z := ieee_bits 23 8 (-149).
Definition float_value : Z -> fmiTime := ieee_value 23 8 (-149).

(** The cast from [double] to [float], on bit patterns. *)
Definition float_of_double (x : fmiTime) : Z :=
  match x with
  | S754_finite s m e => float_bits (binary_normalize 24 128 (if s then Zneg m else Zpos m) e s)
  | _ => float_bits x
  end.

(** ** Lemmas *)

Lemma length_be_bytes n v : length (be_bytes n v) = n.
Proof. unfold be_bytes. by rewrite length_map, length_rev, length_seq. Qed.

Lemma be_bytes_S n v : be_bytes (S n) v = Z.land (Z.shiftr v (8 * Z.of_nat n)) 255 :: be_bytes n v.
Proof. unfold be_bytes. rewrite seq_S, rev_app_distr. done. Qed.

Lemma land_255 z : Z.land z 255 = z mod 256.
Proof. change 255 with (Z.ones 8). by rewrite Z.land_ones. Qed.

Lemma be_bytes_ok n v : Forall byte_ok (be_bytes n v).
Proof.
  unfold be_bytes. apply Forall_fmap, Forall_true. intros i. unfold compose, byte_ok.
  rewrite land_255. apply Z.mod_pos_bound. lia.
Qed.

Lemma be_value_acc bs acc :
  fold_left (fun acc b => acc * 256 + b) bs acc = acc * 256 ^ Z.of_nat (length bs) + be_value bs.
Proof.
  revert acc; induction bs as [|b bs IH]; intros acc; unfold be_value; cbn [fold_left length]; [lia|].
  rewrite IH, (IH (0 * 256 + b)), Nat2Z.inj_succ, Z.pow_succ_r by lia. lia.
Qed.

Lemma be_value_cons b bs : be_value (b :: bs) = b * 256 ^ Z.of_nat (length bs) + be_value bs.
Proof. unfold be_value at 1. cbn [fold_left]. rewrite be_value_acc. lia. Qed.

(** Big-endian encoding and decoding of an [n]-byte number. *)
Lemma be_value_bytes n v : be_value (be_bytes n v) = v mod 256 ^ Z.of_nat n.
Proof.
  induction n as [|n IH]; [by rewrite Z.mod_1_r|].
  rewrite be_bytes_S, be_value_cons, length_be_bytes, IH, land_255, Nat2Z.inj_succ, Z.pow_succ_r by lia.
  assert (H8 : 2 ^ (8 * Z.of_nat n) = 256 ^ Z.of_nat n) by (rewrite Z.pow_mul_r by lia; done).
  rewrite Z.shiftr_div_pow2, H8 by lia.
  assert (Hp : 0 < 256 ^ Z.of_nat n) by (apply Z.pow_pos_nonneg; lia).
  rewrite (Z.mul_comm 256), Z.rem_mul_r by lia. lia.
Qed.

Lemma bytes_string_bytes s : bytes_string (string_bytes s) = s.
Proof.
  unfold bytes_string, string_bytes. rewrite map_map.
  rewrite <- (String.string_of_list_ascii_of_string s) at 2. f_equal.
  induction (String.list_ascii_of_string s) as [|c l IH]; cbn; [done|].
  by rewrite N2Z.id, Ascii.ascii_N_embedding, IH.
Qed.

Lemma string_bytes_ok s : Forall byte_ok (string_bytes s).
Proof.
  unfold string_bytes. apply Forall_fmap, Forall_true. intros c. unfold compose, byte_ok.
  pose proof (Ascii.N_ascii_bounded c). lia.
Qed.

Lemma length_string_bytes s : length (string_bytes s) = String.length s.
Proof.
  unfold string_bytes. rewrite length_map. induction s; cbn; auto.
Qed.

#[export] Hint Resolve be_bytes_ok string_bytes_ok : fmitb.

Example bits_examples :
  map double_bits [f64_of_Z 1; f64_1em3; f64_of_Z (-2); f64_zero] =
    [4607182418800017408; 4562254508917369340; 13835058055282163712; 0] /\
  map float_of_double [f64_of_Z 1; f64_1em3; f64_of_Z (-2); f64_DBL_MAX] =
    [1065353216; 981668463; 3221225472; 2139095040] /\
  be_bytes 4 (-2) = [255; 255; 255; 254] /\ be_value [1; 2] = 258.
Proof. vm_compute. done. Qed.
