(* ===== verification/ASN1Publisher.v ===== *)
(** * The compact ASN.1 publisher (src/network/CompactASN1Publisher.cpp)

    The publisher keeps the last value of each port of its channel and encodes
    all of them whenever an event touches one.  [sendData] of a concrete
    publisher takes the encoded buffer; here the buffer is the result. *)

From S2P Require Import Prelude Float64 BaseExceptions PortID Format Variables PropertyTree.
From S2P Require Import ChannelMapping ASN1Commons.

Local Open Scope Z_scope.

Definition PROP_ENCODE_TYPE : string := "encoding".

Definition CASTABLE (src : FMIVariableType) (dst : DataType) : bool :=
  match src, dst with
  | fmiTypeReal, REAL | fmiTypeReal, LREAL => true
  | fmiTypeInteger, DINT => true
  | fmiTypeBoolean, BOOL => true
  | fmiTypeString, STRING => true
  | _, _ => false
  end.

Record CompactASN1Publisher := {
  outputVariables_ : list Variable_t;
  outputTypes_ : list DataType;
}.

Definition new_CompactASN1Publisher : CompactASN1Publisher :=
  {| outputVariables_ := []; outputTypes_ := [] |}.

(** ** Initialization *)

(** The value an output variable starts with. *)
Definition default_value (t : FMIVariableType) : result any :=
  match t with
  | fmiTypeReal => Ret (AnyReal 0)
  | fmiTypeInteger => Ret (AnyInteger 0)
  | fmiTypeBoolean => Ret (AnyBoolean fmiFalse)
  | fmiTypeString => Ret (AnyString "")
  | fmiTypeUnknown => Fault AssertionFailed
  end.

Definition initOutputVariables (ports : list PortID) (p : CompactASN1Publisher)
    : result CompactASN1Publisher :=
  let* vars := foldlM (fun vars (port : PortID) =>
                         let* v := default_value port.1 in
                         Ret (vars ++ [{| id_ := port; data_ := v |}])) [] ports in
  Ret {| outputVariables_ := vars; outputTypes_ := outputTypes_ p |}.

Definition getDefaultType (srcType : FMIVariableType) : result DataType :=
  match srcType with
  | fmiTypeReal => Ret LREAL
  | fmiTypeInteger => Ret DINT
  | fmiTypeBoolean => Ret BOOL
  | fmiTypeString => Ret STRING
  | fmiTypeUnknown => Fault AssertionFailed
  end.

(** The data type of a name. *)
Definition named_type (name : string) : option DataType :=
  find (fun t => String.eqb name (DATA_TYPE_NAMES t)) data_types.

Section Init.
Context `{PropertyTree}.

(** The encoding of port [i]: the default type or the configured one. *)
Definition port_type (i : nat) (port : PortID) (portConfig : ptree) : result DataType :=
  let* type := getDefaultType port.1 in
  match get_optional tr_string portConfig PROP_ENCODE_TYPE with
  | None => Ret type
  | Some name =>
      match named_type name with
      | None => throw_config_kv "The given encoding type is not supported." PROP_ENCODE_TYPE name
      | Some type =>
          if negb (CASTABLE port.1 type) then
            throw_config ("Can't convert the fmiType (" +:+ pretty (type_code port.1) +:+
              ") to the IEC 61499/ASN.1 type " +:+ DATA_TYPE_NAMES type +:+
              ". The operation is not supported but configured at the ASN.1 publisher port " +:+ pretty i)
          else Ret type
      end
  end.

(** The loop over the ports; the types are appended to [outputTypes_]. *)
Fixpoint add_types (i : nat) (ports : list PortID) (configs : list ptree) (types : list DataType)
    : result (list DataType) :=
  match ports, configs with
  | port :: ports', cfg :: configs' =>
      let* t := port_type i port cfg in add_types (S i) ports' configs' (types ++ [t])
  | [], _ => Ret types
  | _ :: _, [] => Fault UndefinedBehaviour
  end.

Definition initOutputTypes (channel : TransmissionChannel) (p : CompactASN1Publisher)
    : result CompactASN1Publisher :=
  let* ports := getPortIDs channel in
  let* configs := getPortConfig channel in
  let* types := add_types 0 ports configs (outputTypes_ p) in
  Ret {| outputVariables_ := outputVariables_ p; outputTypes_ := types |}.

Definition init (channel : TransmissionChannel) (p : CompactASN1Publisher) : result CompactASN1Publisher :=
  let* ports := getPortIDs channel in
  let* p1 := initOutputVariables ports p in
  initOutputTypes channel p1.

End Init.

(** ** Events *)

(** The inner loop of [updateOutputVariables]. *)
Fixpoint update_matching (v : Variable_t) (outs : list Variable_t) : result (list Variable_t * bool) :=
  match outs with
  | [] => Ret ([], false)
  | o :: outs' =>
      if portid_eqb (Variables.getID v) (Variables.getID o) then
        let* d := getValue v in
        let* r := update_matching v outs' in Ret (setValue d o :: r.1, true)
      else let* r := update_matching v outs' in Ret (o :: r.1, r.2)
  end.

Definition updateOutputVariables (vars : list Variable_t) (p : CompactASN1Publisher)
    : result (CompactASN1Publisher * bool) :=
  let* r := foldlM (fun (st : list Variable_t * bool) v =>
                      let* r := update_matching v st.1 in Ret (r.1, st.2 || r.2))
                   (outputVariables_ p, false) vars in
  Ret ({| outputVariables_ := r.1; outputTypes_ := outputTypes_ p |}, r.2).

(** ** Encoding *)

Definition tag (nr : Z) : Z := Z.lor CLASS_APPLICATION nr.

(** [memcpy(&dst, &src, n)] between two objects of the given sizes: the low [n]
    bytes of the source, unless the copy leaves one of the objects. *)
Definition memcpy_value (dst_size src_size n src : Z) : result Z :=
  if (n <=? dst_size) && (n <=? src_size) then Ret (wrap (8 * n) src) else Fault UndefinedBehaviour.

Definition encodeLREALValue (buffer : list Z) (value : Z) : result (list Z) :=
  let buffer1 := buffer ++ [tag LREAL_TAG_NR] in
  let* val := memcpy_value 8 8 8 value in
  Ret (buffer1 ++ be_bytes 8 val).

(** The copy takes [sizeof(value)] bytes, the size of a [double]. *)
Definition encodeREALValue (buffer : list Z) (value : Z) : result (list Z) :=
  let buffer1 := buffer ++ [tag REAL_TAG_NR] in
  let tmpVal := float_of_double (real_value value) in
  let* val := memcpy_value 4 4 8 tmpVal in
  Ret (buffer1 ++ be_bytes 4 val).

Definition encodeValue_integer (buffer : list Z) (value : Z) : list Z :=
  buffer ++ [tag DINT_TAG_NR] ++ be_bytes 4 value.

Definition encodeValue_boolean (buffer : list Z) (value : Z) : list Z :=
  if negb (value =? 0) then buffer ++ [tag BOOL1_TAG_NR] else buffer ++ [tag BOOL0_TAG_NR].

Definition encodeValue_string (buffer : list Z) (value : string) : list Z :=
  let size := Z.land (Z.of_nat (String.length value)) 65535 in
  buffer ++ [tag STRING_TAG_NR; Z.land (wrap 8 (Z.shiftr size 8)) 255; Z.land (wrap 8 size) 255] ++
  take (Z.to_nat size) (string_bytes value).

Definition encode_variable (buffer : list Z) (t : DataType) (v : Variable_t) : result (list Z) :=
  match t with
  | LREAL => let* x := getRealValue v in encodeLREALValue buffer x
  | REAL => let* x := getRealValue v in encodeREALValue buffer x
  | DINT => let* x := getIntegerValue v in Ret (encodeValue_integer buffer x)
  | BOOL => let* x := getBooleanValue v in Ret (encodeValue_boolean buffer x)
  | STRING => let* x := getStringValue v in Ret (encodeValue_string buffer x)
  end.

Fixpoint encode_all (buffer : list Z) (vars : list Variable_t) (types : list DataType)
    : result (list Z) :=
  match vars, types with
  | v :: vars', t :: types' =>
      let* b := encode_variable buffer t v in encode_all b vars' types'
  | _, _ => Ret buffer
  end.

Definition encodeASN1OutputVariables (buffer : list Z) (p : CompactASN1Publisher) : result (list Z) :=
  assert_ (same_length (outputVariables_ p) (outputTypes_ p)) ;;;
  encode_all buffer (outputVariables_ p) (outputTypes_ p).

(** [eventTriggered]: the new state and the buffer handed to [sendData], if any. *)
Definition eventTriggered (vars : list Variable_t) (p : CompactASN1Publisher)
    : result (CompactASN1Publisher * option (list Z)) :=
  let* r := updateOutputVariables vars p in
  if r.2 then let* buffer := encodeASN1OutputVariables [] r.1 in Ret (r.1, Some buffer)
  else Ret (r.1, None).

(** [toString]: hexadecimal bytes. *)
Definition hex_digit (z : Z) : Ascii.ascii :=
  Ascii.ascii_of_N (Z.to_N (if z <? 10 then 48 + z else 87 + z)).
Definition hex_byte (b : Z) : string :=
  String (hex_digit (b / 16)) (String (hex_digit (b mod 16)) EmptyString).
Definition buffer_toString (buffer : list Z) : string := "0x" +:+ join " " (map hex_byte buffer).
