(* ===== verification/ASN1Subscriber.v ===== *)
(** * The compact ASN.1 subscriber (src/network/CompactASN1Subscriber.cpp,
    PartialEvent.cpp)

    The subscriber collects bytes, decodes them into the ports of its channel and
    hands complete (or timed out) partial events to the event sink.  Boost's
    lexical conversion, the event sink and the timer service are interfaces. *)

From S2P Require Import Prelude Float64 BaseExceptions PortID Format Variables PropertyTree.
From S2P Require Import ChannelMapping ASN1Commons ASN1Publisher.

Local Open Scope Z_scope.

Definition PROP_PACKET_TIMEOUT : string := "packetTimeout".

(** ** PartialEvent *)

Record PartialEvent := mk_partial {
  pe_time : fmiTime;
  portTemplate_ : list PortID;
  var_ : list Variable_t;
  nextTemplateIndex_ : nat;
}.

Definition new_PartialEvent (time : fmiTime) (portTemplate : list PortID) : PartialEvent :=
  {| pe_time := time; portTemplate_ := portTemplate; var_ := []; nextTemplateIndex_ := 0 |}.

Definition hasRemainingElements (pe : PartialEvent) : bool :=
  (nextTemplateIndex_ pe <? length (portTemplate_ pe))%nat.

(** [portTemplate_[nextTemplateIndex_]]. *)
Definition next_port (pe : PartialEvent) : result PortID :=
  match portTemplate_ pe !! nextTemplateIndex_ pe with
  | Some port => Ret port
  | None => Fault UndefinedBehaviour
  end.

Definition getNextPortType (pe : PartialEvent) : result FMIVariableType :=
  assert_ (hasRemainingElements pe) ;;;
  let* port := next_port pe in Ret port.1.

Definition pushNextValue (value : any) (pe : PartialEvent) : result PartialEvent :=
  assert_ (hasRemainingElements pe) ;;;
  assert_ (length (var_ pe) <? length (portTemplate_ pe))%nat ;;;
  let* port := next_port pe in
  Ret {| pe_time := pe_time pe; portTemplate_ := portTemplate_ pe;
         var_ := var_ pe ++ [{| id_ := port; data_ := value |}];
         nextTemplateIndex_ := S (nextTemplateIndex_ pe) |}.

Definition ignoreNextValue (pe : PartialEvent) : result PartialEvent :=
  assert_ (hasRemainingElements pe) ;;;
  Ret {| pe_time := pe_time pe; portTemplate_ := portTemplate_ pe; var_ := var_ pe;
         nextTemplateIndex_ := S (nextTemplateIndex_ pe) |}.

(** [PartialEvent::getVariables]. *)
Definition partial_getVariables (pe : PartialEvent) : list Variable_t := var_ pe.

Definition partial_toString (pe : PartialEvent) : result string :=
  let* s := variables_toString (var_ pe) in
  Ret ("PartialEvent: " +:+ event_toString (pe_time pe) +:+ s +:+ " -- " +:+ pretty (nextTemplateIndex_ pe)
       +:+ " of " +:+ pretty (length (portTemplate_ pe)) +:+ " variables registered").

(** ** Parsing *)

Inductive ParsingStatusCode :=
  | Ok
  | TypeConversionError
  | InvalidBufferContent
  | Incomplete.

#[export] Instance ParsingStatusCode_eq_dec : EqDecision ParsingStatusCode.
Proof. solve_decision. Defined.

Record ParsingStatus := mk_status { state : ParsingStatusCode; missingData : Z }.

(** A value as the wire carries it: the intermediate types of the readers. *)
Inductive wire :=
  | WireDouble (bits : Z)
  | WireFloat (bits : Z)
  | WireString (s : string)
  | WireBoolean (c : Z)
  | WireInt32 (i : Z).

(** [boost::convert<DestinationType>(value, lexical_cast)]. *)
Class LexicalConvert := { lexical_convert : FMIVariableType -> wire -> option any }.

(** A conversion yields the destination type and leaves values that have it
    already as they are. *)
Class LexicalConvertLaws (L : LexicalConvert) := {
  convert_type t w v : lexical_convert t w = Some v -> any_type v = Some t;
  convert_double b : lexical_convert fmiTypeReal (WireDouble b) = Some (AnyReal b);
  convert_string s : lexical_convert fmiTypeString (WireString s) = Some (AnyString s);
  convert_boolean c : lexical_convert fmiTypeBoolean (WireBoolean c) = Some (AnyBoolean c);
  convert_int32 i : lexical_convert fmiTypeInteger (WireInt32 i) = Some (AnyInteger i);
}.

(** The outcome of a reader: the status, the value and the bytes left. *)
Notation reading A := (ParsingStatus * option A * list Z)%type.

Definition blen (buf : list Z) : Z := Z.of_nat (length buf).

Definition getFirstRawDataByte (buf : list Z) : result Z :=
  match buf with b :: _ => Ret b | [] => Fault AssertionFailed end.

(** [readXREALVariable<UIntType, FloatType>] of [n] bytes. *)
Definition readXREALVariable (n : nat) (mk : Z -> wire) (buf : list Z) : result (reading wire) :=
  let expectedSize := Z.of_nat n + 1 in
  if blen buf <? expectedSize then
    Ret (mk_status Incomplete (expectedSize - blen buf), None, buf)
  else
    let buf1 := drop 1 buf in
    Ret (mk_status Ok 0, Some (mk (be_value (take n buf1))), drop n buf1).

Definition readSTRINGVariable (buf : list Z) : result (reading wire) :=
  let expectedMetaDataSize := 3 in
  if blen buf <? expectedMetaDataSize then
    Ret (mk_status Incomplete (expectedMetaDataSize - blen buf), None, buf)
  else
    let* first := getFirstRawDataByte buf in
    assert_ (first =? tag STRING_TAG_NR) ;;;
    let len := be_value (take 2 (drop 1 buf)) in
    if blen buf <? expectedMetaDataSize + len then
      Ret (mk_status Incomplete (expectedMetaDataSize + len - blen buf), None, buf)
    else
      Ret (mk_status Ok 0, Some (WireString (bytes_string (take (Z.to_nat len) (drop 3 buf)))),
           drop (3 + Z.to_nat len) buf).

(** [readBOOL0Variable] and [readBOOL1Variable]. *)
Definition readBOOLVariable (nr value : Z) (buf : list Z) : result (reading wire) :=
  let* first := getFirstRawDataByte buf in
  assert_ (first =? tag nr) ;;;
  Ret (mk_status Ok 0, Some (WireBoolean value), drop 1 buf).

Definition readXINTVariable (buf : list Z) : result (reading wire) :=
  let expectedSize := 5 in
  if blen buf <? expectedSize then
    Ret (mk_status Incomplete (expectedSize - blen buf), None, buf)
  else
    let buf1 := drop 1 buf in
    Ret (mk_status Ok 0, Some (WireInt32 (to_signed 32 (be_value (take 4 buf1)))), drop 4 buf1).

(** What the subscriber asks of its event sink. *)
Class EventSink (S : Type) := {
  sink_getTimeStampNow : S -> fmiTime * S;
  sink_pushExternalEvent : PartialEvent -> S -> S;
}.

(** The sink takes every event, in order; reading its clock takes none. *)
Class EventSinkLaws (S : Type) `{EventSink S} := {
  pushed : S -> list PartialEvent;
  pushed_push pe s : pushed (sink_pushExternalEvent pe s) = pushed s ++ [pe];
  pushed_stamp s : pushed (sink_getTimeStampNow s).2 = pushed s;
}.

Section Subscriber.
Context `{LexicalConvert}.

Definition readAndConvertVariable (t : FMIVariableType) (rFcn : list Z -> result (reading wire))
    (buf : list Z) : result (reading any) :=
  let* r := rFcn buf in
  let '(st, value, buf') := r in
  match state st, value with
  | Ok, Some w =>
      match lexical_convert t w with
      | Some v => Ret (st, Some v, buf')
      | None => Ret (mk_status TypeConversionError (missingData st), None, buf')
      end
  | _, _ => Ret (st, None, buf')
  end.

Definition readNextVariable (t : FMIVariableType) (buf : list Z) : result (reading any) :=
  assert_ (0 <? blen buf) ;;;
  let* first := getFirstRawDataByte buf in
  let tg := to_signed 8 first in
  if tg =? tag LREAL_TAG_NR then readAndConvertVariable t (readXREALVariable 8 WireDouble) buf else
  if tg =? tag REAL_TAG_NR then readAndConvertVariable t (readXREALVariable 4 WireFloat) buf else
  if tg =? tag STRING_TAG_NR then readAndConvertVariable t readSTRINGVariable buf else
  if tg =? tag BOOL0_TAG_NR then readAndConvertVariable t (readBOOLVariable BOOL0_TAG_NR fmiFalse) buf else
  if tg =? tag BOOL1_TAG_NR then readAndConvertVariable t (readBOOLVariable BOOL1_TAG_NR fmiTrue) buf else
  if tg =? tag DINT_TAG_NR then readAndConvertVariable t readXINTVariable buf else
  Ret (mk_status InvalidBufferContent 0, None, buf).

(** The loop of [processRawDataToEvent].  [st] is the status of the last value. *)
Fixpoint process_loop (fuel : nat) (st : ParsingStatus) (pe : PartialEvent) (buf : list Z)
    : result (ParsingStatus * PartialEvent * list Z) :=
  match fuel with
  | O => Fault OutOfFuel
  | S fuel' =>
      if (0 <? blen buf) && hasRemainingElements pe
         && bool_decide (state st = Ok \/ state st = TypeConversionError)
      then
        let* t := getNextPortType pe in
        assert_ (negb (bool_decide (t = fmiTypeUnknown))) ;;;
        let* r := readNextVariable t buf in
        let '(st', value, buf') := r in
        let* pe' := match state st', value with
                    | Ok, Some v => pushNextValue v pe
                    | Ok, None => Fault UndefinedBehaviour
                    | TypeConversionError, _ => ignoreNextValue pe
                    | _, _ => Ret pe
                    end in
        process_loop fuel' st' pe' buf'
      else Ret (st, pe, buf)
  end.

Definition processRawDataToEvent (pe : PartialEvent) (buf : list Z)
    : result (ParsingStatus * PartialEvent * list Z) :=
  process_loop (S (S (length buf))) (mk_status Ok 0) pe buf.

(** ** The subscriber object *)

Context {Sk : Type} `{EventSink Sk}.

(** [channelPorts_] stands for the ports of [channelConfig_].  The timer is its
    expiry, in milliseconds, and whether a wait is pending. *)
Record CompactASN1Subscriber := mk_subscriber {
  channelPorts_ : list PortID;
  eventSink_ : Sk;
  partialData_ : option PartialEvent;
  remainingRawData_ : list Z;
  busyKeeper_ : bool;
  timerExpiry_ : Z;
  timerWaiting_ : bool;
  serviceStopped_ : bool;
}.

Definition set_data (pd : option PartialEvent) (buf : list Z) (sink : Sk) (s : CompactASN1Subscriber)
    : CompactASN1Subscriber :=
  {| channelPorts_ := channelPorts_ s; eventSink_ := sink; partialData_ := pd;
     remainingRawData_ := buf; busyKeeper_ := busyKeeper_ s; timerExpiry_ := timerExpiry_ s;
     timerWaiting_ := timerWaiting_ s; serviceStopped_ := serviceStopped_ s |}.

Definition clearUnprocessedData (s : CompactASN1Subscriber) : CompactASN1Subscriber :=
  set_data (partialData_ s) [] (eventSink_ s) s.

(** [init], before [initNetwork]; [now] is the clock in milliseconds. *)
Definition subscriber_init `{PropertyTree} (settings : TransmissionChannel) (sink : Sk) (now : Z)
    (s : CompactASN1Subscriber) : result CompactASN1Subscriber :=
  let* ports := getPortIDs settings in
  if (length ports <=? 0)%nat then throw_config "Compact ASN.1 channel has no associated ports" else
  let s1 := clearUnprocessedData (set_data (partialData_ s) (remainingRawData_ s) sink s) in
  let packetTimeout := wrap 32 (get_default tr_int (getChannelConfig settings) PROP_PACKET_TIMEOUT 500) in
  Ret {| channelPorts_ := ports; eventSink_ := sink; partialData_ := partialData_ s1;
         remainingRawData_ := remainingRawData_ s1; busyKeeper_ := true;
         timerExpiry_ := now + packetTimeout; timerWaiting_ := false; serviceStopped_ := serviceStopped_ s1 |}.

(** [restartPacketTimer]: the pending wait is cancelled and a new one started,
    for the expiry the timer already has. *)
Definition restartPacketTimer (s : CompactASN1Subscriber) : CompactASN1Subscriber :=
  {| channelPorts_ := channelPorts_ s; eventSink_ := eventSink_ s; partialData_ := partialData_ s;
     remainingRawData_ := remainingRawData_ s; busyKeeper_ := busyKeeper_ s;
     timerExpiry_ := timerExpiry_ s; timerWaiting_ := true; serviceStopped_ := serviceStopped_ s |}.

Definition pushPartialEvent (s : CompactASN1Subscriber) : result CompactASN1Subscriber :=
  match partialData_ s with
  | None => Fault AssertionFailed
  | Some pe => Ret (set_data None (remainingRawData_ s) (sink_pushExternalEvent pe (eventSink_ s)) s)
  end.

(** [handlePacketTimeout(error)]. *)
Definition handlePacketTimeout (error : bool) (s : CompactASN1Subscriber) : result CompactASN1Subscriber :=
  match partialData_ s with
  | Some _ => if error then Ret s else let* s1 := pushPartialEvent s in Ret (clearUnprocessedData s1)
  | None => Ret s
  end.

(** The timer service at time [now]: a pending wait completes when the timer has
    expired. *)
Definition runTimer (now : Z) (s : CompactASN1Subscriber) : result CompactASN1Subscriber :=
  if timerWaiting_ s && (timerExpiry_ s <=? now) then
    handlePacketTimeout false
      {| channelPorts_ := channelPorts_ s; eventSink_ := eventSink_ s; partialData_ := partialData_ s;
         remainingRawData_ := remainingRawData_ s; busyKeeper_ := busyKeeper_ s;
         timerExpiry_ := timerExpiry_ s; timerWaiting_ := false; serviceStopped_ := serviceStopped_ s |}
  else Ret s.

(** The partial event at the head of a turn of the loop of [commitData]. *)
Definition current_partial (s : CompactASN1Subscriber) : PartialEvent * Sk :=
  match partialData_ s with
  | Some pe => (pe, eventSink_ s)
  | None => let '(t, sink) := sink_getTimeStampNow (eventSink_ s) in
            (new_PartialEvent t (channelPorts_ s), sink)
  end.

Fixpoint commit_loop (fuel : nat) (s : CompactASN1Subscriber) : result CompactASN1Subscriber :=
  match fuel with
  | O => Fault OutOfFuel
  | S fuel' =>
      if 0 <? blen (remainingRawData_ s) then
        let '(pe, sink) := current_partial s in
        let* r := processRawDataToEvent pe (remainingRawData_ s) in
        let '(st, pe', buf') := r in
        let s1 := set_data (Some pe') buf' sink s in
        let finish (s2 : CompactASN1Subscriber) :=
          match partialData_ s2 with
          | Some pe2 =>
              if hasRemainingElements pe2 then commit_loop fuel' s2
              else let* s3 := pushPartialEvent s2 in commit_loop fuel' s3
          | None => commit_loop fuel' s2
          end in
        match state st with
        | InvalidBufferContent => let* s2 := pushPartialEvent s1 in finish (clearUnprocessedData s2)
        | Incomplete => Ret s1
        | _ => finish s1
        end
      else Ret s
  end.

(** [commitData]: [bytes] are the bytes received into the prepared buffer. *)
Definition commitData (bytes : list Z) (s : CompactASN1Subscriber) : result CompactASN1Subscriber :=
  let s1 := restartPacketTimer s in
  let s2 := set_data (partialData_ s1) (remainingRawData_ s1 ++ bytes) (eventSink_ s1) s1 in
  commit_loop (S (length (remainingRawData_ s2))) s2.

(** [handleTermination]; the subclass closes its connection in between. *)
Definition handleTermination (s : CompactASN1Subscriber) : CompactASN1Subscriber :=
  clearUnprocessedData
    {| channelPorts_ := channelPorts_ s; eventSink_ := eventSink_ s; partialData_ := None;
       remainingRawData_ := remainingRawData_ s; busyKeeper_ := false;
       timerExpiry_ := timerExpiry_ s; timerWaiting_ := false; serviceStopped_ := true |}.

(** ** The handlers of the service

    What [run] lets the service execute: the bytes of a receive operation are committed,
    after the clock of the sink has gone on by [f], or the timer is served at the time
    [now].  The service may do so in any order and at any times. *)
Inductive handler :=
  | HandleReceive (f : Sk -> Sk) (bytes : list Z)
  | HandleTimer (now : Z).

Definition tick (f : Sk -> Sk) (s : CompactASN1Subscriber) : CompactASN1Subscriber :=
  set_data (partialData_ s) (remainingRawData_ s) (f (eventSink_ s)) s.

Definition handle (h : handler) (s : CompactASN1Subscriber) : result CompactASN1Subscriber :=
  match h with
  | HandleReceive f bytes => commitData bytes (tick f s)
  | HandleTimer now => runTimer now s
  end.

Fixpoint serve (hs : list handler) (s : CompactASN1Subscriber) : result CompactASN1Subscriber :=
  match hs with
  | [] => Ret s
  | h :: hs' => let* s1 := handle h s in serve hs' s1
  end.

(** The bytes that have arrived. *)
Definition arrived (hs : list handler) : list Z :=
  concat (map (fun h => match h with HandleReceive _ bytes => bytes | HandleTimer _ => [] end) hs).

End Subscriber.

Arguments CompactASN1Subscriber Sk : clear implicits.
Arguments handler Sk : clear implicits.
