(* ===== verification/ASN1SubscriberSpec.v ===== *)
(** * What the subscriber promises

    A reference decoder of the compact ASN.1 stream as a step function on a
    buffer, the invariant of the subscriber, and the refinement: whatever the
    chunks the network delivers, the subscriber emits what the decoder reads. *)

From stdpp Require Import relations.
From S2P Require Import Prelude Float64 BaseExceptions PortID Format Variables PropertyTree.
From S2P Require Import ChannelMapping ASN1Commons ASN1Publisher ASN1Subscriber.

Local Open Scope Z_scope.

Section Readers.
Context `{LexicalConvert, !LexicalConvertLaws _}.

(** The bytes left behind a value that takes at least one byte. *)
Definition consumed (buf buf' : list Z) : Prop :=
  exists k, (0 < k <= length buf)%nat /\ buf' = drop k buf.

Lemma consumed_length buf buf' : consumed buf buf' -> (length buf' < length buf)%nat.
Proof. intros (k & Hk & ->). rewrite length_drop. lia. Qed.

Lemma consumed_Forall P buf buf' : consumed buf buf' -> Forall P buf -> Forall P buf'.
Proof. intros (k & _ & ->). apply Forall_drop. Qed.

(** What a reader does with a buffer: it takes at least one byte and does not
    look behind the value, or leaves the buffer alone.  An incomplete value stays
    incomplete until [missingData] more bytes have arrived. *)
Definition reads {A} (P : A -> Prop) (r : list Z -> result (reading A)) (buf : list Z) : Prop :=
  exists st v buf', r buf = Ret (st, v, buf') /\
  match state st with
  | Ok => (exists a, v = Some a /\ P a) /\ consumed buf buf' /\
          forall x, r (buf ++ x) = Ret (st, v, buf' ++ x)
  | TypeConversionError => consumed buf buf' /\ forall x, r (buf ++ x) = Ret (st, v, buf' ++ x)
  | InvalidBufferContent => buf' = buf /\ forall x, r (buf ++ x) = Ret (st, v, buf ++ x)
  | Incomplete => buf' = buf /\ 0 < missingData st /\
      forall x, blen x < missingData st ->
        exists m v', r (buf ++ x) = Ret (mk_status Incomplete m, v', buf ++ x)
  end.

Lemma blen_app a b : blen (a ++ b) = blen a + blen b.
Proof. unfold blen. rewrite length_app. lia. Qed.

Lemma blen_cons z b : blen (z :: b) = 1 + blen b.
Proof. unfold blen. cbn. lia. Qed.

Lemma blen_nonneg b : 0 <= blen b.
Proof. unfold blen. lia. Qed.

(** A value of a fixed length behind its tag. *)
Lemma reads_fixed (n : nat) (mk : list Z -> wire) r buf :
  (forall b, r b = if blen b <? Z.of_nat n + 1
                   then Ret (mk_status Incomplete (Z.of_nat n + 1 - blen b), None, b)
                   else Ret (mk_status Ok 0, Some (mk (take n (drop 1 b))), drop n (drop 1 b))) ->
  reads (fun _ => True) r buf.
Proof.
  intros Hr. unfold reads. rewrite Hr.
  destruct (Z.ltb_spec (blen buf) (Z.of_nat n + 1)) as [Hlt|Hge];
    do 3 eexists; (split; [reflexivity|]); cbn [state missingData].
  - split; [done|]. split; [lia|]. intros x Hx. rewrite Hr, blen_app.
    rewrite (proj2 (Z.ltb_lt _ _)) by lia. eauto.
  - unfold blen in *. split; [eauto|]. split.
    { exists (n + 1)%nat. split; [lia|]. rewrite drop_drop. f_equal. lia. }
    intros x.
    rewrite Hr, (proj2 (Z.ltb_ge _ _)) by (unfold blen; rewrite length_app; lia).
    rewrite !(drop_app_le _ x), take_app_le by (rewrite ?length_drop; lia). done.
Qed.

Lemma reads_XREAL n mk buf : reads (fun _ => True) (readXREALVariable n mk) buf.
Proof. by apply (reads_fixed n (fun l => mk (be_value l))). Qed.

Lemma reads_XINT buf : reads (fun _ => True) readXINTVariable buf.
Proof. by apply (reads_fixed 4 (fun l => WireInt32 (to_signed 32 (be_value l)))). Qed.

Lemma reads_BOOL nr value buf : reads (fun _ => True) (readBOOLVariable nr value) (tag nr :: buf).
Proof.
  unfold reads, readBOOLVariable. cbn [getFirstRawDataByte obind app]. rewrite !Z.eqb_refl. cbn [assert_ obind].
  do 3 eexists. split; [reflexivity|]. cbn [state]. split; [eauto|]. split; [exists 1%nat; split; [cbn; lia|done]|].
  done.
Qed.

Lemma reads_STRING buf : reads (fun _ => True) readSTRINGVariable (tag STRING_TAG_NR :: buf).
Proof.
  unfold reads, readSTRINGVariable. cbn [app getFirstRawDataByte obind drop]. rewrite Z.eqb_refl.
  cbn [assert_ obind]. rewrite !blen_cons, ?drop_0.
  destruct (Z.ltb_spec (1 + blen buf) 3) as [Hlt|Hge].
  - do 3 eexists; split; [reflexivity|]. cbn [state missingData].
    split; [done|]. split; [lia|]. intros x Hx. rewrite blen_cons, blen_app.
    rewrite (proj2 (Z.ltb_lt _ _)) by lia. eauto.
  - assert (Htake : forall x, take 2 (buf ++ x) = take 2 buf).
    { intros x. apply take_app_le. unfold blen in Hge. lia. }
    destruct (Z.ltb_spec (1 + blen buf) (3 + be_value (take 2 buf))) as [Hlt|Hge2];
      do 3 eexists; (split; [reflexivity|]); cbn [state missingData].
    + split; [done|]. split; [lia|]. intros x Hx. rewrite ?drop_0, blen_cons, blen_app, Htake.
      pose proof (blen_nonneg x) as Hx0.
      destruct (Z.ltb_spec (1 + (blen buf + blen x)) 3); [lia|].
      rewrite (proj2 (Z.ltb_lt _ _)) by lia. eauto.
    + split; [eauto|]. split; [eexists; split; [|reflexivity]; unfold blen in *; cbn; lia|]. intros x.
      rewrite ?drop_0, blen_cons, blen_app, Htake. unfold blen in *.
      rewrite (proj2 (Z.ltb_ge _ 3)) by lia.
      rewrite (proj2 (Z.ltb_ge _ _)) by lia.
      rewrite !app_comm_cons, !drop_app_le, take_app_le by (rewrite ?length_drop; cbn; lia). done.
Qed.

(** The conversion behind a reader. *)
Lemma reads_convert t r buf :
  reads (fun _ => True) r buf -> reads (fun a => any_type a = Some t) (readAndConvertVariable t r) buf.
Proof.
  intros (st & v & buf' & Hr & Hst). unfold reads, readAndConvertVariable. rewrite Hr. cbn [obind].
  destruct st as [sc md]. cbn [state missingData] in Hst |- *. destruct sc.
  - destruct Hst as ((w & -> & _) & Hlen & Hx). destruct (lexical_convert t w) as [a|] eqn:Hc.
    + do 3 eexists. split; [reflexivity|]. cbn [state]. split; [exists a; split; [done|by eapply convert_type]|].
      split; [done|]. intros x. rewrite Hx. cbn. by rewrite Hc.
    + do 3 eexists. split; [reflexivity|]. cbn [state]. split; [done|]. intros x. rewrite Hx. cbn. by rewrite Hc.
  - do 3 eexists. split; [reflexivity|]. cbn [state]. destruct Hst as [Hlen Hx]. split; [done|].
    intros x. by rewrite Hx.
  - do 3 eexists. split; [reflexivity|]. cbn [state]. destruct Hst as [-> Hx]. split; [done|].
    intros x. by rewrite Hx.
  - do 3 eexists. split; [reflexivity|]. cbn [state missingData]. destruct Hst as (-> & Hm & Hx).
    split; [done|]. split; [done|]. intros x Hlt. destruct (Hx x Hlt) as (m & v' & ->). cbn. eauto.
Qed.

(** The switch over the tag. *)
Definition tag_reader (t : FMIVariableType) (first : Z) : list Z -> result (reading any) :=
  let tg := to_signed 8 first in
  if tg =? tag LREAL_TAG_NR then readAndConvertVariable t (readXREALVariable 8 WireDouble) else
  if tg =? tag REAL_TAG_NR then readAndConvertVariable t (readXREALVariable 4 WireFloat) else
  if tg =? tag STRING_TAG_NR then readAndConvertVariable t readSTRINGVariable else
  if tg =? tag BOOL0_TAG_NR then readAndConvertVariable t (readBOOLVariable BOOL0_TAG_NR fmiFalse) else
  if tg =? tag BOOL1_TAG_NR then readAndConvertVariable t (readBOOLVariable BOOL1_TAG_NR fmiTrue) else
  if tg =? tag DINT_TAG_NR then readAndConvertVariable t readXINTVariable else
  fun buf => Ret (mk_status InvalidBufferContent 0, None, buf).

Lemma readNextVariable_tag t b buf : readNextVariable t (b :: buf) = tag_reader t b (b :: buf).
Proof.
  unfold readNextVariable, tag_reader. rewrite blen_cons, (proj2 (Z.ltb_lt 0 _)) by (pose proof (blen_nonneg buf); lia).
  cbn [assert_ obind getFirstRawDataByte].
  repeat match goal with |- context [if ?b then _ else _] => destruct b end; done.
Qed.

Lemma to_signed_8_tag b nr : byte_ok b -> 0 <= nr < 64 -> to_signed 8 b = tag nr -> b = tag nr.
Proof.
  intros Hb Hnr. unfold to_signed, byte_ok in *. rewrite wrap_small by lia.
  assert (0 <= tag nr).
  { unfold tag, CLASS_APPLICATION. apply Z.lor_nonneg. lia. }
  destruct (Z.ltb_spec b (2 ^ (8 - 1))); lia.
Qed.

Lemma reads_tag_reader t b buf : byte_ok b -> reads (fun a => any_type a = Some t) (tag_reader t b) (b :: buf).
Proof.
  intros Hb. unfold tag_reader.
  pose proof (to_signed_8_tag b STRING_TAG_NR Hb ltac:(unfold STRING_TAG_NR; lia)) as H1.
  pose proof (to_signed_8_tag b BOOL0_TAG_NR Hb ltac:(unfold BOOL0_TAG_NR; lia)) as H2.
  pose proof (to_signed_8_tag b BOOL1_TAG_NR Hb ltac:(unfold BOOL1_TAG_NR; lia)) as H3.
  destruct (_ =? tag LREAL_TAG_NR); [apply reads_convert, reads_XREAL|].
  destruct (_ =? tag REAL_TAG_NR); [apply reads_convert, reads_XREAL|].
  destruct (Z.eqb_spec (to_signed 8 b) (tag STRING_TAG_NR)) as [E|_].
  { rewrite (H1 E). apply reads_convert, reads_STRING. }
  destruct (Z.eqb_spec (to_signed 8 b) (tag BOOL0_TAG_NR)) as [E|_].
  { rewrite (H2 E). apply reads_convert, reads_BOOL. }
  destruct (Z.eqb_spec (to_signed 8 b) (tag BOOL1_TAG_NR)) as [E|_].
  { rewrite (H3 E). apply reads_convert, reads_BOOL. }
  destruct (_ =? tag DINT_TAG_NR); [apply reads_convert, reads_XINT|].
  do 3 eexists. split; [reflexivity|]. cbn. done.
Qed.

Lemma reads_readNextVariable t b buf :
  byte_ok b -> reads (fun a => any_type a = Some t) (readNextVariable t) (b :: buf).
Proof.
  intros Hb. destruct (reads_tag_reader t b buf Hb) as (st & v & buf' & Hr & Hst).
  exists st, v, buf'. rewrite readNextVariable_tag. split; [done|].
  destruct (state st).
  - destruct Hst as (? & ? & Hx). split; [done|]. split; [done|]. intros x. cbn [app].
    rewrite readNextVariable_tag. apply Hx.
  - destruct Hst as (? & Hx). split; [done|]. intros x. cbn [app]. rewrite readNextVariable_tag. apply Hx.
  - destruct Hst as (? & Hx). split; [done|]. intros x. cbn [app]. rewrite readNextVariable_tag. apply Hx.
  - destruct Hst as (? & ? & Hx). split; [done|]. split; [done|]. intros x Hlt. cbn [app].
    rewrite readNextVariable_tag. by apply Hx.
Qed.

End Readers.

(** ** The reference decoder *)

Section Decoder.
Context `{LexicalConvert, !LexicalConvertLaws _}.
Context (ports : list PortID).

(** The message being read (its values and the index of the next port), the bytes
    left and the messages read. *)
Record decoder := { d_msg : option (list Variable_t * nat); d_buf : list Z; d_out : list (list Variable_t) }.

(** Behind the value of a port: the message ends with its last port. *)
Definition advance (vs : list Variable_t) (i : nat) (buf : list Z) (out : list (list Variable_t)) : decoder :=
  if (i <? length ports)%nat then {| d_msg := Some (vs, i); d_buf := buf; d_out := out |}
  else {| d_msg := None; d_buf := buf; d_out := out ++ [vs] |}.

(** One step: a message begins, a value is read or dropped; or ([false]) an invalid
    tag ends the message and the buffer. *)
Definition dstep (d : decoder) : option (bool * decoder) :=
  match d_buf d with
  | [] => None
  | _ =>
      match d_msg d with
      | None => Some (true, {| d_msg := Some ([], 0%nat); d_buf := d_buf d; d_out := d_out d |})
      | Some (vs, i) =>
          match (ports !! i : option PortID) with
          | None => None
          | Some port =>
              match readNextVariable port.1 (d_buf d) with
              | Ret ({| state := Ok |}, Some a, buf') =>
                  Some (true, advance (vs ++ [{| id_ := port; data_ := a |}]) (S i) buf' (d_out d))
              | Ret ({| state := TypeConversionError |}, _, buf') =>
                  Some (true, advance vs (S i) buf' (d_out d))
              | Ret ({| state := InvalidBufferContent |}, _, _) =>
                  Some (false, {| d_msg := None; d_buf := []; d_out := d_out d ++ [vs] |})
              | _ => None
              end
          end
      end
  end.

Definition any_step (d d' : decoder) : Prop := exists b, dstep d = Some (b, d').
Definition valid_step (d d' : decoder) : Prop := dstep d = Some (true, d').

(** The decoder reads everything it can, without an invalid tag. *)
Definition decodes (d e : decoder) : Prop := rtc valid_step d e /\ dstep e = None.

Definition more (d : decoder) (x : list Z) : decoder :=
  {| d_msg := d_msg d; d_buf := d_buf d ++ x; d_out := d_out d |}.

Lemma more_advance vs i buf out x : more (advance vs i buf out) x = advance vs i (buf ++ x) out.
Proof. unfold more, advance. by destruct (_ <? _)%nat. Qed.

Lemma d_buf_advance vs i buf out : d_buf (advance vs i buf out) = buf.
Proof. unfold advance. by destruct (_ <? _)%nat. Qed.

Lemma more_app d x y : more (more d x) y = more d (x ++ y).
Proof. unfold more. cbn. by rewrite <- (assoc_L (++)). Qed.

Lemma more_nil d : more d [] = d.
Proof. destruct d. unfold more. cbn. by rewrite app_nil_r. Qed.

(** A step does not depend on the bytes behind it. *)
Lemma dstep_more d b d' x :
  Forall byte_ok (d_buf d) -> dstep d = Some (b, d') ->
  dstep (more d x) = Some (b, if b then more d' x else d').
Proof.
  destruct d as [msg buf out]. unfold dstep. cbn [d_msg d_buf d_out more].
  destruct buf as [|z buf]; [done|]. intros Hok. cbn [app].
  destruct msg as [[vs i]|]; [|by intros [= <- <-]].
  destruct (ports !! i) as [port|]; [|done].
  destruct (reads_readNextVariable port.1 z buf) as (st & v & buf' & Hr & Hst).
  { by inversion Hok. }
  rewrite Hr. destruct st as [sc md]. cbn [state] in Hst. rewrite app_comm_cons.
  destruct sc.
  - destruct Hst as ((a & -> & _) & _ & ->). intros [= <- <-]. by rewrite more_advance.
  - destruct Hst as (_ & ->). intros [= <- <-]. by rewrite more_advance.
  - destruct Hst as (-> & ->). by intros [= <- <-].
  - done.
Qed.

Lemma dstep_buf_ok d b d' : Forall byte_ok (d_buf d) -> dstep d = Some (b, d') -> Forall byte_ok (d_buf d').
Proof.
  destruct d as [msg buf out]. unfold dstep. cbn [d_msg d_buf d_out].
  destruct buf as [|z buf]; [done|]. intros Hok.
  destruct msg as [[vs i]|]; [|by intros [= <- <-]].
  destruct (ports !! i) as [port|]; [|done].
  destruct (reads_readNextVariable port.1 z buf) as (st & v & buf' & Hr & Hst).
  { by inversion Hok. }
  rewrite Hr. destruct st as [sc md]. cbn [state] in Hst. destruct sc.
  - destruct Hst as ((a & -> & _) & Hc & _). intros [= <- <-]. rewrite d_buf_advance.
    by eapply consumed_Forall.
  - destruct Hst as (Hc & _). intros [= <- <-]. rewrite d_buf_advance. by eapply consumed_Forall.
  - by intros [= <- <-].
  - done.
Qed.

(** What was decoded from the first bytes is what the decoder reads on its way
    through all of them. *)
Lemma steps_more d e1 x e :
  Forall byte_ok (d_buf d) -> rtc any_step d e1 -> decodes (more d x) e -> rtc valid_step (more e1 x) e.
Proof.
  intros Hok Hd [Hrun Hend]. induction Hd as [d|d d' e1 [b Hs] Hd IH]; [done|].
  pose proof (dstep_more _ _ _ x Hok Hs) as Hm. pose proof (dstep_buf_ok _ _ _ Hok Hs) as Hok'.
  inversion Hrun as [E|d0 d2 e0 Hv Hrun' E1 E2]; subst; [congruence|].
  unfold valid_step in Hv. rewrite Hm in Hv. injection Hv as -> <-. by apply IH.
Qed.

Lemma decodes_unique d e e' : decodes d e -> rtc any_step d e' -> dstep e' = None -> e' = e.
Proof.
  intros [Hrun Hend] Hd Hn. induction Hd as [d|d d' e1 [b Hs] Hd IH].
  - inversion Hrun as [|d0 d2 e0 Hv]; subst; [done|]. unfold valid_step in Hv. congruence.
  - inversion Hrun as [|d0 d2 e0 Hv Hrun']; subst; [congruence|].
    unfold valid_step in Hv. rewrite Hs in Hv. injection Hv as -> ->. by apply IH.
Qed.

End Decoder.

(** ** The subscriber refines the decoder *)

Section Refinement.
Context `{LexicalConvert, !LexicalConvertLaws _}.
Context {Sk : Type} `{EventSink Sk, !EventSinkLaws Sk}.

(** A partial event under construction: its variables are valid values of ports
    of the channel, in the channel's order. *)
Record partial_ok (ports : list PortID) (pe : PartialEvent) : Prop := {
  po_template : portTemplate_ pe = ports;
  po_index : (nextTemplateIndex_ pe <= length ports)%nat;
  po_ports : sublist (map id_ (var_ pe)) (take (nextTemplateIndex_ pe) ports);
  po_valid : Forall (fun v => isValid v = true) (var_ pe);
}.

Record subscriber_ok (s : CompactASN1Subscriber Sk) : Prop := {
  so_nonempty : channelPorts_ s <> [];
  so_known : Forall (fun p : PortID => p.1 <> fmiTypeUnknown) (channelPorts_ s);
  so_bytes : Forall byte_ok (remainingRawData_ s);
  so_partial pe : partialData_ s = Some pe ->
    partial_ok (channelPorts_ s) pe /\ hasRemainingElements pe = true;
}.

(** The variables of the events the sink has received. *)
Definition emitted (s : CompactASN1Subscriber Sk) : list (list Variable_t) :=
  map var_ (pushed (eventSink_ s)).

(** The subscriber as a decoder: times are forgotten. *)
Definition decoder_of (s : CompactASN1Subscriber Sk) : decoder :=
  {| d_msg := option_map (fun pe => (var_ pe, nextTemplateIndex_ pe)) (partialData_ s);
     d_buf := remainingRawData_ s; d_out := emitted s |}.

(** The decoder state of a partial event that may be complete. *)
Definition after_partial (ports : list PortID) (pe : PartialEvent) (buf : list Z)
    (out : list (list Variable_t)) : decoder :=
  advance ports (var_ pe) (nextTemplateIndex_ pe) buf out.

Lemma hasRemaining_lookup ports pe :
  portTemplate_ pe = ports -> hasRemainingElements pe = true ->
  exists port, ports !! nextTemplateIndex_ pe = Some port /\ next_port pe = Ret port.
Proof.
  unfold hasRemainingElements, next_port. intros -> Hlt%Nat.ltb_lt.
  destruct (lookup_lt_is_Some_2 ports _ Hlt) as [port E]. rewrite E. eauto.
Qed.

Lemma var_length ports pe : partial_ok ports pe -> (length (var_ pe) <= nextTemplateIndex_ pe)%nat.
Proof.
  intros Hp. pose proof (sublist_length _ _ (po_ports _ _ Hp)) as Hl.
  rewrite length_map, length_take in Hl. lia.
Qed.

(** Reading or dropping the value of the next port. *)
Lemma pushNextValue_ok ports pe (port : PortID) a :
  partial_ok ports pe -> hasRemainingElements pe = true -> ports !! nextTemplateIndex_ pe = Some port ->
  port.1 <> fmiTypeUnknown -> any_type a = Some port.1 ->
  exists pe', pushNextValue a pe = Ret pe' /\ partial_ok ports pe' /\
    var_ pe' = var_ pe ++ [{| id_ := port; data_ := a |}] /\ nextTemplateIndex_ pe' = S (nextTemplateIndex_ pe).
Proof.
  intros Hp Hrem Hport Hu Ha. pose proof (var_length _ _ Hp) as Hl.
  pose proof (lookup_lt_Some _ _ _ Hport) as Hlt.
  unfold pushNextValue. rewrite Hrem. cbn [assert_ obind].
  rewrite obind_assert.
  2: { apply Nat.ltb_lt. rewrite (po_template _ _ Hp). exact (Nat.le_lt_trans _ _ _ Hl Hlt). }
  unfold next_port. rewrite (po_template _ _ Hp), Hport. cbn [obind].
  eexists. split; [reflexivity|]. split; [|done]. destruct Hp as [Ht Hi Hs Hv].
  split; cbn [portTemplate_ nextTemplateIndex_ var_]; [done|exact Hlt| |].
  - rewrite (take_S_r _ _ _ Hport), map_app. by apply sublist_app.
  - apply Forall_app. split; [done|]. repeat constructor. by apply isValid_type.
Qed.

Lemma ignoreNextValue_ok ports pe :
  partial_ok ports pe -> hasRemainingElements pe = true ->
  exists pe', ignoreNextValue pe = Ret pe' /\ partial_ok ports pe' /\
    var_ pe' = var_ pe /\ nextTemplateIndex_ pe' = S (nextTemplateIndex_ pe).
Proof.
  intros Hp Hrem. destruct (hasRemaining_lookup ports pe (po_template _ _ Hp) Hrem) as (port & Hport & _).
  unfold ignoreNextValue. rewrite Hrem. cbn [assert_ obind].
  eexists. split; [reflexivity|]. split; [|done]. destruct Hp as [Ht Hi Hs Hv].
  split; cbn [portTemplate_ nextTemplateIndex_ var_]; [done|by eapply lookup_lt_Some| |done].
  rewrite (take_S_r _ _ _ Hport). by apply sublist_inserts_r.
Qed.

Lemma after_partial_open ports pe buf out :
  portTemplate_ pe = ports -> hasRemainingElements pe = true ->
  after_partial ports pe buf out =
  {| d_msg := Some (var_ pe, nextTemplateIndex_ pe); d_buf := buf; d_out := out |}.
Proof. unfold after_partial, advance, hasRemainingElements. by intros -> ->. Qed.

(** The state in which [processRawDataToEvent] returns. *)
Definition processed (ports : list PortID) (st : ParsingStatus) (pe : PartialEvent) (buf : list Z)
    (out : list (list Variable_t)) : Prop :=
  match state st with
  | Ok | TypeConversionError => buf = [] \/ hasRemainingElements pe = false
  | InvalidBufferContent =>
      hasRemainingElements pe = true /\
      dstep ports (after_partial ports pe buf out) =
        Some (false, {| d_msg := None; d_buf := []; d_out := out ++ [var_ pe] |})
  | Incomplete =>
      hasRemainingElements pe = true /\ dstep ports (after_partial ports pe buf out) = None
  end.

(** What the loop makes of a partial event and a buffer. *)
Definition loop_result (ports : list PortID) (out : list (list Variable_t)) (pe : PartialEvent) (buf : list Z)
    (r : result (ParsingStatus * PartialEvent * list Z)) : Prop :=
  exists st' pe' buf', r = Ret (st', pe', buf') /\
    partial_ok ports pe' /\ Forall byte_ok buf' /\ (length buf' <= length buf)%nat /\
    rtc (any_step ports) (after_partial ports pe buf out) (after_partial ports pe' buf' out) /\
    processed ports st' pe' buf' out /\
    (buf <> [] -> hasRemainingElements pe = true ->
     state st' = Ok \/ state st' = TypeConversionError -> (length buf' < length buf)%nat).

(** The loop ends. *)
Lemma process_loop_end ports out fuel st pe buf :
  (0 < fuel)%nat -> Forall byte_ok buf -> partial_ok ports pe -> processed ports st pe buf out ->
  (state st = Ok \/ state st = TypeConversionError -> buf = [] \/ hasRemainingElements pe = false) ->
  loop_result ports out pe buf (process_loop fuel st pe buf).
Proof.
  intros Hfuel Hok Hp Hpr Hst. destruct fuel as [|fuel]; [lia|]. exists st, pe, buf.
  split; [|split_and!; [done..|constructor|done|intros Hne Hrem [? | ?]%Hst; congruence]].
  cbn [process_loop]. destruct buf as [|z buf]; [done|].
  destruct (hasRemainingElements pe); [|by rewrite andb_false_r].
  rewrite bool_decide_false, andb_false_r; [done|]. intros [? | ?]%Hst; done.
Qed.

(** A turn that reads a value or drops it. *)
Lemma loop_result_step ports out pe pe1 buf buf1 r :
  dstep ports (after_partial ports pe buf out) = Some (true, after_partial ports pe1 buf1 out) ->
  (length buf1 < length buf)%nat -> loop_result ports out pe1 buf1 r -> loop_result ports out pe buf r.
Proof.
  intros Hs Hl (st' & pe' & buf' & -> & Hp' & Hok' & Hl' & Hrun & Hpr & Hlt). exists st', pe', buf'.
  split_and!; try done; [lia|by eapply rtc_l; [exists true|]|lia].
Qed.

Lemma process_loop_ok ports out fuel st pe buf :
  Forall (fun p : PortID => p.1 <> fmiTypeUnknown) ports -> Forall byte_ok buf ->
  partial_ok ports pe -> (length buf < fuel)%nat -> state st = Ok \/ state st = TypeConversionError ->
  loop_result ports out pe buf (process_loop fuel st pe buf).
Proof.
  intros Hknown. revert st pe buf; induction fuel as [|fuel IH]; intros st pe buf Hok Hp Hfuel Hst; [lia|].
  destruct (decide (buf = [] \/ hasRemainingElements pe = false)) as [Hend|Hgo].
  { apply process_loop_end; try done; [lia|]. unfold processed. by destruct Hst as [-> | ->]. }
  destruct buf as [|z buf]; [tauto|]. destruct (hasRemainingElements pe) eqn:Hrem; [clear Hgo|tauto].
  cbn [process_loop]. rewrite Hrem, bool_decide_true, blen_cons, (proj2 (Z.ltb_lt 0 _)) by (try done; pose proof (blen_nonneg buf); lia).
  cbn [andb]. destruct (hasRemaining_lookup ports pe (po_template _ _ Hp) Hrem) as (port & Hport & Hnext).
  pose proof (Forall_lookup_1 _ _ _ _ Hknown Hport) as Hu.
  unfold getNextPortType. rewrite Hrem, Hnext. cbn [assert_ obind]. rewrite bool_decide_false by done.
  cbn [negb assert_ obind].
  destruct (reads_readNextVariable port.1 z buf) as ([sc md] & v & buf1 & Hr & Hst1); [by inversion Hok|].
  rewrite Hr. cbn [obind state] in Hst1 |- *.
  assert (Hstep : dstep ports (after_partial ports pe (z :: buf) out) = _) by
    (rewrite (after_partial_open ports pe _ out (po_template _ _ Hp) Hrem); unfold dstep; cbn [d_buf d_msg d_out];
     rewrite Hport, Hr; reflexivity).
  destruct sc.
  - destruct Hst1 as ((a & -> & Ha) & Hc & _).
    destruct (pushNextValue_ok ports pe port a Hp Hrem Hport Hu Ha) as (pe1 & -> & Hp1 & Hv1 & Hi1).
    cbn [obind]. apply consumed_length in Hc as Hl. apply (loop_result_step _ _ _ pe1 _ buf1); [|done|].
    + rewrite Hstep. unfold after_partial. by rewrite Hv1, Hi1.
    + apply IH; [by eapply consumed_Forall|done|cbn in *; lia|by left].
  - destruct Hst1 as (Hc & _).
    destruct (ignoreNextValue_ok ports pe Hp Hrem) as (pe1 & Hig & Hp1 & Hv1 & Hi1).
    replace (match v with Some _ => ignoreNextValue pe | None => ignoreNextValue pe end)
      with (ignoreNextValue pe) by (by destruct v).
    rewrite Hig. cbn [obind]. apply consumed_length in Hc as Hl. apply (loop_result_step _ _ _ pe1 _ buf1); [|done|].
    + rewrite Hstep. unfold after_partial. by rewrite Hv1, Hi1.
    + apply IH; [by eapply consumed_Forall|done|cbn in *; lia|by right].
  - destruct Hst1 as (-> & _). apply process_loop_end; cbn in *; [lia|done|done|by split|by intros [|]].
  - destruct Hst1 as (-> & _). apply process_loop_end; cbn in *; [lia|done|done|by split|by intros [|]].
Qed.

(** The states of the subscriber during [commitData]. *)
Lemma decoder_of_open s pe buf sink :
  partial_ok (channelPorts_ s) pe -> hasRemainingElements pe = true -> pushed sink = pushed (eventSink_ s) ->
  decoder_of (set_data (Some pe) buf sink s) = after_partial (channelPorts_ s) pe buf (emitted s).
Proof.
  intros Hp Hrem Hs. rewrite (after_partial_open _ _ _ _ (po_template _ _ Hp) Hrem).
  unfold decoder_of, emitted. cbn. by rewrite Hs.
Qed.

Lemma decoder_of_pushed s pe buf sink :
  pushed sink = pushed (eventSink_ s) ->
  decoder_of (set_data None buf (sink_pushExternalEvent pe sink) s) =
  {| d_msg := None; d_buf := buf; d_out := emitted s ++ [var_ pe] |}.
Proof. intros Hs. unfold decoder_of, emitted. cbn. by rewrite pushed_push, Hs, map_app. Qed.

Lemma set_data_ok s pd buf sink :
  subscriber_ok s -> Forall byte_ok buf ->
  (forall pe, pd = Some pe -> partial_ok (channelPorts_ s) pe /\ hasRemainingElements pe = true) ->
  subscriber_ok (set_data pd buf sink s).
Proof. intros [? ? ? ?] ? ?. by split. Qed.

Lemma current_partial_ok s :
  subscriber_ok s -> remainingRawData_ s <> [] ->
  exists pe sink, current_partial s = (pe, sink) /\ partial_ok (channelPorts_ s) pe /\
    hasRemainingElements pe = true /\ pushed sink = pushed (eventSink_ s) /\
    rtc (any_step (channelPorts_ s)) (decoder_of s)
        (after_partial (channelPorts_ s) pe (remainingRawData_ s) (emitted s)).
Proof.
  intros Hs Hne. unfold current_partial. destruct (partialData_ s) as [pe|] eqn:Hpd.
  - destruct (so_partial s Hs pe Hpd) as [Hp Hrem]. exists pe, (eventSink_ s). split_and!; try done.
    rewrite (after_partial_open _ _ _ _ (po_template _ _ Hp) Hrem). unfold decoder_of. by rewrite Hpd.
  - pose proof (pushed_stamp (eventSink_ s)) as Hst.
    destruct (sink_getTimeStampNow (eventSink_ s)) as [t sink] eqn:Ht.
    assert (Hp : partial_ok (channelPorts_ s) (new_PartialEvent t (channelPorts_ s))).
    { split; cbn; [done|lia|constructor|constructor]. }
    assert (Hrem : hasRemainingElements (new_PartialEvent t (channelPorts_ s)) = true).
    { unfold hasRemainingElements. cbn. pose proof (so_nonempty s Hs). by destruct (channelPorts_ s). }
    exists (new_PartialEvent t (channelPorts_ s)), sink. split_and!; try done.
    apply rtc_once. exists true. rewrite (after_partial_open _ _ _ _ (po_template _ _ Hp) Hrem).
    unfold dstep, decoder_of. rewrite Hpd. cbn. by destruct (remainingRawData_ s).
Qed.

(** What an operation that decodes leaves behind. *)
Definition decoded (s s' : CompactASN1Subscriber Sk) : Prop :=
  subscriber_ok s' /\ channelPorts_ s' = channelPorts_ s /\
  rtc (any_step (channelPorts_ s)) (decoder_of s) (decoder_of s') /\
  dstep (channelPorts_ s) (decoder_of s') = None.

Lemma decoded_step s s1 s2 :
  decoded s1 s2 -> channelPorts_ s1 = channelPorts_ s ->
  rtc (any_step (channelPorts_ s)) (decoder_of s) (decoder_of s1) -> decoded s s2.
Proof.
  intros (Hok & Hp & Hr & Hn) Hports Hrun. rewrite Hports in *. split_and!; try done.
  by etransitivity.
Qed.

(** The loop goes on with an event that may be complete. *)
Lemma commit_loop_turn fuel s pe buf sink :
  (forall s1, subscriber_ok s1 -> (length (remainingRawData_ s1) < fuel)%nat ->
     exists s', commit_loop fuel s1 = Ret s' /\ decoded s1 s') ->
  subscriber_ok s -> partial_ok (channelPorts_ s) pe -> Forall byte_ok buf -> (length buf < fuel)%nat ->
  pushed sink = pushed (eventSink_ s) ->
  rtc (any_step (channelPorts_ s)) (decoder_of s) (after_partial (channelPorts_ s) pe buf (emitted s)) ->
  exists s', (if hasRemainingElements pe then commit_loop fuel (set_data (Some pe) buf sink s)
              else let* s3 := pushPartialEvent (set_data (Some pe) buf sink s) in commit_loop fuel s3) = Ret s' /\
             decoded s s'.
Proof.
  intros IH Hs Hp Hok Hlen Hsink Hrun. destruct (hasRemainingElements pe) eqn:Hrem.
  - destruct (IH (set_data (Some pe) buf sink s)) as (s' & Hc & Hd); [|done|].
    + apply set_data_ok; try done. by intros ? [= <-].
    + exists s'. split; [done|]. refine (decoded_step s _ s' Hd eq_refl _). by rewrite decoder_of_open.
  - cbn [pushPartialEvent partialData_ set_data obind remainingRawData_ eventSink_].
    change (set_data None buf ?k (set_data _ _ _ s)) with (set_data None buf k s).
    destruct (IH (set_data None buf (sink_pushExternalEvent pe sink) s)) as (s' & Hc & Hd); [by apply set_data_ok|done|].
    exists s'. split; [done|]. refine (decoded_step s _ s' Hd eq_refl _). rewrite decoder_of_pushed by done.
    unfold after_partial, advance in Hrun. unfold hasRemainingElements in Hrem.
    rewrite (po_template _ _ Hp) in Hrem. by rewrite Hrem in Hrun.
Qed.

Lemma commit_loop_ok fuel s :
  subscriber_ok s -> (length (remainingRawData_ s) < fuel)%nat ->
  exists s', commit_loop fuel s = Ret s' /\ decoded s s'.
Proof.
  revert s; induction fuel as [|fuel IH]; intros s Hs Hfuel; [lia|]. cbn [commit_loop].
  destruct (Z.ltb_spec 0 (blen (remainingRawData_ s))) as [Hlt|Hge].
  2: { exists s. split; [done|]. split_and!; try done. unfold dstep, decoder_of. cbn [d_buf].
       destruct (remainingRawData_ s); [done|]. rewrite blen_cons in Hge. pose proof (blen_nonneg l). lia. }
  assert (Hne : remainingRawData_ s <> []) by (intros E; rewrite E in Hlt; by cbn in Hlt).
  destruct (current_partial_ok s Hs Hne) as (pe & sink & -> & Hp & Hrem & Hsink & Hopen).
  unfold processRawDataToEvent.
  destruct (process_loop_ok (channelPorts_ s) (emitted s) (S (S (length (remainingRawData_ s))))
              (mk_status Ok 0) pe (remainingRawData_ s))
    as (st & pe' & buf' & -> & Hp' & Hok' & Hlen & Hrun & Hpr & Hshort);
    [apply Hs|apply Hs|done|lia|by left|].
  cbn [obind]. pose proof (transitivity Hopen Hrun) as Hrun'. specialize (Hshort Hne Hrem).
  unfold processed in Hpr. destruct (state st) eqn:Hst.
  - apply commit_loop_turn; try done. specialize (Hshort ltac:(by left)). lia.
  - apply commit_loop_turn; try done. specialize (Hshort ltac:(by right)). lia.
  - destruct Hpr as [Hrem' Hstep].
    cbn [pushPartialEvent partialData_ set_data obind remainingRawData_ eventSink_ clearUnprocessedData].
    destruct (IH (set_data None [] (sink_pushExternalEvent pe' sink) s)) as (s' & Hc & Hd); [by apply set_data_ok| |].
    + cbn. unfold blen in Hlt. lia.
    + exists s'. split; [exact Hc|]. refine (decoded_step s _ s' Hd eq_refl _).
      rewrite decoder_of_pushed by done. eapply rtc_r; [exact Hrun'|]. by exists false.
  - destruct Hpr as [Hrem' Hstep]. eexists. split; [reflexivity|]. rewrite <- (decoder_of_open s pe' buf' sink) in * by done.
    split_and!; try done. apply set_data_ok; try done. by intros ? [= <-].
Qed.

(** The subscriber with new bytes behind its buffer. *)
Lemma commitData_ok bytes s :
  subscriber_ok s -> Forall byte_ok bytes ->
  exists s', commitData bytes s = Ret s' /\ subscriber_ok s' /\ channelPorts_ s' = channelPorts_ s /\
    rtc (any_step (channelPorts_ s)) (more (decoder_of s) bytes) (decoder_of s') /\
    dstep (channelPorts_ s) (decoder_of s') = None.
Proof.
  intros Hs Hb. unfold commitData.
  match goal with |- context [commit_loop _ ?s2] => destruct (commit_loop_ok (S (length (remainingRawData_ s2))) s2)
    as (s' & Hc & Hd); [| |exists s'] end.
  - destruct Hs as [? ? ? ?]. split; cbn; try done. by apply Forall_app.
  - apply Nat.lt_succ_diag_r.
  - split; [exact Hc|]. destruct Hd as (? & ? & ? & ?). done.
Qed.

End Refinement.
