(* ===== verification/ASN1Spec.v ===== *)
(** * The compact ASN.1 transmission

    Theorems on the subscriber (robustness, independence of the chunks, recovery,
    timer), on the publisher (state and encoding) and on the two together. *)

From stdpp Require Import relations.
From S2P Require Import Prelude Float64 BaseExceptions PortID Format Variables PropertyTree.
From S2P Require Import ChannelMapping ASN1Commons ASN1Publisher ASN1Subscriber ASN1SubscriberSpec.

Local Open Scope Z_scope.

(** ** Messages *)

Section Messages.
Context `{LexicalConvert, !LexicalConvertLaws _}.

(** The variables of an event of the channel: valid values of some of its ports, in
    the channel's order. *)
Definition message_ok (ports : list PortID) (vs : list Variable_t) : Prop :=
  sublist (map id_ vs) ports /\ Forall (fun v => isValid v = true) vs.

Definition open_message_ok (ports : list PortID) (m : list Variable_t * nat) : Prop :=
  sublist (map id_ m.1) (take m.2 ports) /\ Forall (fun v => isValid v = true) m.1.

Definition decoder_ok (ports : list PortID) (d : decoder) : Prop :=
  Forall byte_ok (d_buf d) /\ Forall (message_ok ports) (d_out d) /\
  forall m, d_msg d = Some m -> open_message_ok ports m.

Lemma open_message_closed ports m : open_message_ok ports m -> message_ok ports m.1.
Proof.
  intros [Hs Hv]. split; [|done]. etransitivity; [exact Hs|].
  rewrite <- (take_drop m.2 ports) at 2. by apply sublist_inserts_r.
Qed.

Lemma advance_ok ports vs i buf out :
  Forall byte_ok buf -> Forall (message_ok ports) out -> open_message_ok ports (vs, i) ->
  decoder_ok ports (advance ports vs i buf out).
Proof.
  intros Hb Ho Hm. unfold advance. destruct (_ <? _)%nat; split_and!; cbn; try done.
  - by intros ? [= <-].
  - apply Forall_app. split; [done|]. repeat constructor; apply (open_message_closed ports (vs, i) Hm).
Qed.

Lemma dstep_ok ports d b d' :
  Forall (fun p : PortID => p.1 <> fmiTypeUnknown) ports ->
  decoder_ok ports d -> dstep ports d = Some (b, d') -> decoder_ok ports d' /\ d_out d `prefix_of` d_out d'.
Proof.
  intros Hknown (Hb & Ho & Hm). destruct d as [msg buf out]. cbn [d_buf d_out d_msg] in *.
  unfold dstep. cbn [d_buf d_msg d_out]. destruct buf as [|z buf]; [done|].
  destruct msg as [[vs i]|].
  2: { intros [= <- <-]. split; [|done]. split_and!; try done. intros ? [= <-]. cbn. split; [constructor|constructor]. }
  specialize (Hm _ eq_refl). destruct (ports !! i) as [port|] eqn:Hport; [|done].
  destruct (reads_readNextVariable port.1 z buf) as (st & v & buf' & Hr & Hst).
  { by inversion Hb. }
  pose proof (Forall_lookup_1 _ _ _ _ Hknown Hport) as Hu.
  assert (Hadv : forall vs' : list Variable_t, out `prefix_of` d_out (advance ports vs' (S i) buf' out)).
  { intros vs'. unfold advance. destruct (_ <? _)%nat; cbn; [done|by apply prefix_app_r]. }
  rewrite Hr. destruct st as [sc md]. cbn [state] in Hst. destruct Hm as [Hs Hv]. cbn [fst snd] in *. destruct sc.
  - destruct Hst as ((a & -> & Ha) & Hc & _). intros [= <- <-]. split; [|apply Hadv].
    apply advance_ok; [by eapply consumed_Forall|done|]. split; cbn [fst snd].
    + rewrite (take_S_r _ _ _ Hport), map_app. by apply sublist_app.
    + apply Forall_app. split; [done|]. repeat constructor. by apply isValid_type.
  - destruct Hst as (Hc & _). intros [= <- <-]. split; [|apply Hadv].
    apply advance_ok; [by eapply consumed_Forall|done|]. split; cbn [fst snd]; [|done].
    rewrite (take_S_r _ _ _ Hport). by apply sublist_inserts_r.
  - intros [= <- <-]. split; [|by apply prefix_app_r]. split_and!; cbn; try done.
    apply Forall_app. split; [done|]. repeat constructor; by apply (open_message_closed ports (vs, i)).
  - done.
Qed.

Lemma steps_ok ports d d' :
  Forall (fun p : PortID => p.1 <> fmiTypeUnknown) ports ->
  decoder_ok ports d -> rtc (any_step ports) d d' -> decoder_ok ports d' /\ d_out d `prefix_of` d_out d'.
Proof.
  intros Hknown Hd Hrun. induction Hrun as [d|d d1 d' [b Hs] _ IH]; [done|].
  destruct (dstep_ok ports d b d1 Hknown Hd Hs) as [Hd1 Hp]. destruct (IH Hd1) as [Hd' Hp'].
  split; [done|]. by etransitivity.
Qed.

Lemma steps_end_unique ports d e e' :
  rtc (any_step ports) d e -> dstep ports e = None -> rtc (any_step ports) d e' -> dstep ports e' = None -> e = e'.
Proof.
  intros Hrun He. induction Hrun as [d|d d1 e [b Hs] _ IH]; intros Hrun' He'.
  - inversion Hrun' as [|d0 d2 e0 [b Hs]]; subst; [done|congruence].
  - inversion Hrun' as [|d0 d2 e0 [b' Hs'] Hrun2]; subst; [congruence|].
    rewrite Hs in Hs'. injection Hs' as -> ->. by apply IH.
Qed.

Lemma valid_any ports d e : rtc (valid_step ports) d e -> rtc (any_step ports) d e.
Proof. apply rtc_congruence with (f := fun d => d). intros x y Hv. by exists true. Qed.

End Messages.

(** ** The subscriber *)

Section SubscriberProperties.
Context `{LexicalConvert, !LexicalConvertLaws _}.
Context {Sk : Type} `{EventSink Sk, !EventSinkLaws Sk}.

Lemma partial_ok_open ports pe :
  partial_ok ports pe -> open_message_ok ports (var_ pe, nextTemplateIndex_ pe).
Proof. intros [_ _ Hs Hv]. done. Qed.

Lemma decoder_of_ok s :
  subscriber_ok s -> Forall (message_ok (channelPorts_ s)) (emitted s) -> decoder_ok (channelPorts_ s) (decoder_of s).
Proof.
  intros Hs He. split_and!; [apply Hs|done|]. intros m. unfold decoder_of. cbn.
  destruct (partialData_ s) as [pe|] eqn:Hpd; [|done]. intros [= <-].
  apply partial_ok_open. by apply (so_partial s Hs).
Qed.

(** [commitData] on any input. *)
Lemma commitData_total bytes (s : CompactASN1Subscriber Sk) :
  subscriber_ok s -> Forall byte_ok bytes -> Forall (message_ok (channelPorts_ s)) (emitted s) ->
  exists s', commitData bytes s = Ret s' /\ subscriber_ok s' /\ channelPorts_ s' = channelPorts_ s /\
    emitted s `prefix_of` emitted s' /\ Forall (message_ok (channelPorts_ s)) (emitted s').
Proof.
  intros Hs Hb He. destruct (commitData_ok bytes s Hs Hb) as (s' & Hc & Hs' & Hp & Hrun & _).
  exists s'. split; [done|]. split; [done|]. split; [done|].
  pose proof (decoder_of_ok s Hs He) as (Hb0 & Ho & Hm).
  destruct (steps_ok (channelPorts_ s) (more (decoder_of s) bytes) (decoder_of s')) as [(_ & Ho' & _) Hpre];
    [apply Hs| |done|done].
  split_and!; [by apply Forall_app|done|done].
Qed.

(** C14: the subscriber withstands any input.  Whatever bytes arrive, [commitData]
    terminates without a failed assertion, keeps its invariant, keeps the events it
    has emitted, and every event it emits holds valid values for ports of the
    channel, in the channel's order. *)
Theorem subscriber_total bytes (s : CompactASN1Subscriber Sk) :
  subscriber_ok s -> Forall byte_ok bytes -> Forall (message_ok (channelPorts_ s)) (emitted s) ->
  exists s', commitData bytes s = Ret s' /\ subscriber_ok s' /\ channelPorts_ s' = channelPorts_ s /\
    emitted s `prefix_of` emitted s' /\ Forall (message_ok (channelPorts_ s)) (emitted s').
Proof. apply commitData_total. Qed.

(** ** The handlers of the service *)

Definition handler_ok (h : handler Sk) : Prop :=
  match h with
  | HandleReceive f bytes => (forall k, pushed (f k) = pushed k) /\ Forall byte_ok bytes
  | HandleTimer _ => True
  end.

(** The timer cuts no message: it is served before its expiry, or when the bytes that have
    arrived end where a message does. *)
Definition undisturbed (expiry : Z) (boundary : list Z -> Prop) (hs : list (handler Sk)) : Prop :=
  forall before now after, hs = before ++ HandleTimer now :: after -> now < expiry \/ boundary (arrived before).

(** The reference decoder is between two messages behind these bytes. *)
Definition between_messages (ports : list PortID) (d : decoder) (bytes : list Z) : Prop :=
  exists d', decodes ports (more d bytes) d' /\ d_msg d' = None.

Lemma undisturbed_cons expiry P h hs :
  undisturbed expiry P (h :: hs) -> undisturbed expiry (fun bytes => P (arrived [h] ++ bytes)) hs.
Proof.
  intros Hu before now after ->. destruct (Hu (h :: before) now after eq_refl) as [|Hp]; [by left|right].
  unfold arrived in *. cbn in *. by rewrite app_nil_r.
Qed.

Lemma undisturbed_mono expiry (P P' : list Z -> Prop) hs :
  (forall bytes, P bytes -> P' bytes) -> undisturbed expiry P hs -> undisturbed expiry P' hs.
Proof. intros HP Hu before now after E. destruct (Hu before now after E); [by left|right; auto]. Qed.

Lemma decoder_of_tick f s : (forall k, pushed (f k) = pushed k) -> decoder_of (tick f s) = decoder_of s.
Proof. intros Hf. unfold decoder_of, emitted. cbn. by rewrite Hf. Qed.

(** The fields of the timer. *)
Definition same_timer (s s' : CompactASN1Subscriber Sk) : Prop :=
  timerExpiry_ s' = timerExpiry_ s /\ timerWaiting_ s' = timerWaiting_ s.

Lemma commit_loop_timer fuel s s' : commit_loop fuel s = Ret s' -> same_timer s s'.
Proof.
  unfold same_timer. revert s; induction fuel as [|fuel IH]; intros s; cbn [commit_loop]; [done|].
  destruct (0 <? _); [|by intros [= <-]]. destruct (current_partial s) as [pe sink].
  intros (((st & pe') & buf') & _ & Hr)%obind_Ret_inv.
  assert (Hrest : forall s2, timerExpiry_ s2 = timerExpiry_ s /\ timerWaiting_ s2 = timerWaiting_ s ->
    match partialData_ s2 with
    | Some pe2 => if hasRemainingElements pe2 then commit_loop fuel s2
                  else let* s3 := pushPartialEvent s2 in commit_loop fuel s3
    | None => commit_loop fuel s2 end = Ret s' ->
    timerExpiry_ s' = timerExpiry_ s /\ timerWaiting_ s' = timerWaiting_ s).
  { intros s2 [Ha Hb] Hc. destruct (partialData_ s2) as [pe2|] eqn:Hpd.
    - destruct (hasRemainingElements pe2).
      + apply IH in Hc as [-> ->]. done.
      + unfold pushPartialEvent in Hc. rewrite Hpd in Hc. apply IH in Hc as [-> ->]. done.
    - apply IH in Hc as [-> ->]. done. }
  destruct (state st).
  - by apply (Hrest (set_data (Some pe') buf' sink s)).
  - by apply (Hrest (set_data (Some pe') buf' sink s)).
  - cbn [pushPartialEvent partialData_ set_data obind] in Hr. by eapply Hrest in Hr.
  - by injection Hr as <-.
Qed.

(** Serving the timer early, or between two messages, changes nothing the decoder sees. *)
Lemma runTimer_quiet now (s : CompactASN1Subscriber Sk) :
  subscriber_ok s -> now < timerExpiry_ s \/ partialData_ s = None ->
  exists s', runTimer now s = Ret s' /\ subscriber_ok s' /\ channelPorts_ s' = channelPorts_ s /\
    decoder_of s' = decoder_of s /\ timerExpiry_ s' = timerExpiry_ s.
Proof.
  intros Hs Hq. unfold runTimer. destruct (timerWaiting_ s && _) eqn:Hfire; [|by exists s].
  apply andb_prop in Hfire as [_ Hexp%Z.leb_le]. destruct Hq as [|Hpd]; [lia|].
  unfold handlePacketTimeout. cbn [partialData_]. rewrite Hpd. eexists. split; [done|]. destruct Hs.
  split; [by split|]. split_and!; [done| |done]. unfold decoder_of. cbn. by rewrite Hpd.
Qed.

(** Whatever the service does, when the timer cuts no message the decoder reads the bytes
    as if they had arrived at once. *)
Lemma serve_decodes hs (s : CompactASN1Subscriber Sk) e :
  subscriber_ok s -> Forall handler_ok hs -> dstep (channelPorts_ s) (decoder_of s) = None ->
  undisturbed (timerExpiry_ s) (between_messages (channelPorts_ s) (decoder_of s)) hs ->
  decodes (channelPorts_ s) (more (decoder_of s) (arrived hs)) e ->
  exists s', serve hs s = Ret s' /\ decoder_of s' = e /\ subscriber_ok s'.
Proof.
  revert s; induction hs as [|h hs IH]; intros s Hs Hhs Hn Hu Hd; cbn [serve].
  { rewrite more_nil in Hd. exists s. split; [done|]. split; [|done]. eapply decodes_unique; [exact Hd|done|done]. }
  apply Forall_cons in Hhs as [Hh Hhs]. destruct h as [f bytes|now]; cbn [handle].
  - destruct Hh as [Hf Hb]. assert (Hst : subscriber_ok (tick f s)) by (destruct Hs; by split).
    destruct (commitData_ok bytes (tick f s) Hst Hb) as (s1 & Hc & Hs1 & Hp1 & Hrun & Hn1). rewrite Hc. cbn [obind].
    assert (Hexp : timerExpiry_ s1 = timerExpiry_ s).
    { unfold commitData in Hc. by apply commit_loop_timer in Hc as [-> _]. }
    rewrite (decoder_of_tick _ _ Hf) in Hrun. cbn [tick set_data channelPorts_] in *.
    assert (Hmore : forall rest d, decodes (channelPorts_ s) (more (decoder_of s) (bytes ++ rest)) d ->
                                   decodes (channelPorts_ s) (more (decoder_of s1) rest) d).
    { intros rest d Hr. rewrite <- more_app in Hr. split; [|apply Hr]. eapply steps_more; [|exact Hrun|exact Hr].
      apply Forall_app. split; [apply Hs|done]. }
    apply IH; rewrite ?Hp1, ?Hexp; [done..| |by apply Hmore].
    eapply undisturbed_mono; [|by apply (undisturbed_cons _ _ _ _ Hu)]. intros rest (d & Hdec & Hmsg).
    exists d. split; [|done]. apply Hmore. unfold arrived in Hdec. cbn in Hdec. by rewrite app_nil_r in Hdec.
  - destruct (runTimer_quiet now s Hs) as (s1 & -> & Hs1 & Hp1 & Hd1 & Hexp).
    { destruct (Hu [] now hs eq_refl) as [|(d & Hdec & Hmsg)]; [by left|right]. rewrite more_nil in Hdec.
      rewrite <- (decodes_unique _ _ _ _ Hdec (rtc_refl _ _) Hn) in Hmsg. cbn in Hmsg. by destruct (partialData_ s). }
    cbn [obind]. apply IH; rewrite ?Hp1, ?Hd1, ?Hexp; [done..| |exact Hd]. exact (undisturbed_cons _ _ _ _ Hu).
Qed.

(** C13: chunks do not matter, as far as the timer and the tags allow.  Suppose that the
    reference decoder reads a byte stream to its end without an invalid tag, and that the
    timer is served only before its expiry or when the bytes received end where a message
    does.  Then the subscriber, given the bytes in any chunks, emits the same messages and
    keeps the same incomplete rest. *)
Theorem chunking_independent hs hs' (s : CompactASN1Subscriber Sk) e :
  subscriber_ok s -> Forall handler_ok hs -> Forall handler_ok hs' -> arrived hs = arrived hs' ->
  dstep (channelPorts_ s) (decoder_of s) = None ->
  undisturbed (timerExpiry_ s) (between_messages (channelPorts_ s) (decoder_of s)) hs ->
  undisturbed (timerExpiry_ s) (between_messages (channelPorts_ s) (decoder_of s)) hs' ->
  decodes (channelPorts_ s) (more (decoder_of s) (arrived hs)) e ->
  exists s1 s2, serve hs s = Ret s1 /\ serve hs' s = Ret s2 /\ decoder_of s1 = e /\ decoder_of s2 = e.
Proof.
  intros Hs Hhs Hhs' Heq Hn Hu Hu' Hd.
  destruct (serve_decodes hs s e Hs Hhs Hn Hu Hd) as (s1 & ? & ? & _).
  rewrite Heq in Hd. destruct (serve_decodes hs' s e Hs Hhs' Hn Hu' Hd) as (s2 & ? & ? & _).
  by exists s1, s2.
Qed.

(** Recovery from an invalid tag.  When the decoder meets an invalid tag, the
    message in progress is emitted with the values it has, the rest of the buffer is
    dropped, and the next byte begins a new message. *)
Theorem invalid_tag_recovers bytes (s : CompactASN1Subscriber Sk) d1 d2 :
  subscriber_ok s -> Forall byte_ok bytes ->
  rtc (valid_step (channelPorts_ s)) (more (decoder_of s) bytes) d1 ->
  dstep (channelPorts_ s) d1 = Some (false, d2) ->
  exists s' vs, commitData bytes s = Ret s' /\ partialData_ s' = None /\ remainingRawData_ s' = [] /\
    (exists i, d_msg d1 = Some (vs, i)) /\ emitted s' = d_out d1 ++ [vs].
Proof.
  intros Hs Hb Hrun Hinv. destruct (commitData_ok bytes s Hs Hb) as (s' & Hc & _ & _ & Hrun' & Hn').
  assert (Hd2 : exists vs i, d_msg d1 = Some (vs, i) /\ d2 = {| d_msg := None; d_buf := []; d_out := d_out d1 ++ [vs] |}).
  { unfold dstep in Hinv. destruct (d_buf d1) as [|z buf]; [done|].
    destruct (d_msg d1) as [[vs i]|]; [|done]. exists vs, i. split; [done|].
    repeat case_scrut_in Hinv; try done; by injection Hinv as <-. }
  destruct Hd2 as (vs & i & Hm & ->). exists s', vs. split; [done|].
  assert (Heq : {| d_msg := None; d_buf := []; d_out := d_out d1 ++ [vs] |} = decoder_of s').
  { eapply steps_end_unique; [|done|exact Hrun'|done]. eapply rtc_r; [by apply valid_any|]. by exists false. }
  unfold decoder_of in Heq. injection Heq as E1 E2 E3.
  split_and!; [by destruct (partialData_ s')|done|by exists i|done].
Qed.

(** The packet timer keeps its first expiry.  [commitData] starts a new wait
    but leaves the expiry that was set once by [init]; from that time on, every
    message whose bytes arrive in two chunks is cut: as soon as the timer service
    runs, the part received is emitted and forgotten. *)
Theorem packet_timer_not_restarted bytes (s s' : CompactASN1Subscriber Sk) now pe :
  commitData bytes s = Ret s' -> partialData_ s' = Some pe -> timerExpiry_ s <= now ->
  timerExpiry_ s' = timerExpiry_ s /\
  exists s2, runTimer now s' = Ret s2 /\ emitted s2 = emitted s' ++ [var_ pe] /\
             partialData_ s2 = None /\ remainingRawData_ s2 = [].
Proof.
  intros Hc Hpd Hnow. unfold commitData in Hc. apply commit_loop_timer in Hc as [Hexp Hwait].
  cbn in Hexp, Hwait. split; [done|]. unfold runTimer. rewrite Hwait, Hexp, (proj2 (Z.leb_le _ _)) by done.
  unfold handlePacketTimeout, pushPartialEvent. cbn [andb partialData_]. rewrite Hpd. cbn [obind].
  eexists. split; [reflexivity|]. unfold emitted. cbn. by rewrite pushed_push, map_app.
Qed.

End SubscriberProperties.

(** ** The publisher *)

(** Every output variable has a value, and the encoding of its port can carry it. *)
Definition castable_output (o : Variable_t) (t : DataType) : Prop :=
  isValid o = true /\ CASTABLE (id_ o).1 t = true.

Definition publisher_ok (p : CompactASN1Publisher) : Prop :=
  Forall2 castable_output (outputVariables_ p) (outputTypes_ p).

(** The encoding of a value in the type of its kind. *)
Definition value_bytes (d : any) : list Z :=
  match d with
  | AnyReal b => tag LREAL_TAG_NR :: be_bytes 8 (wrap 64 b)
  | AnyInteger i => tag DINT_TAG_NR :: be_bytes 4 i
  | AnyBoolean c => [tag (if c =? 0 then BOOL0_TAG_NR else BOOL1_TAG_NR)]
  | AnyString s => encodeValue_string [] s
  | AnyEmpty => []
  end.

Lemma encode_variable_ok buffer o t :
  castable_output o t -> t <> REAL -> encode_variable buffer t o = Ret (buffer ++ value_bytes (data_ o)).
Proof.
  intros [Hv Hc] Ht. pose proof (typed_accessors o Hv) as Ha.
  destruct (id_ o).1, t; try done; destruct Ha as (x & -> & Hx); cbn; rewrite Hx; cbn [obind].
  - unfold encodeLREALValue, memcpy_value. cbn. by rewrite <- (assoc_L (++)).
  - done.
  - unfold encodeValue_boolean. by destruct (x =? 0).
  - done.
Qed.

(** A [REAL] output cannot be encoded: the copy leaves the 32-bit object. *)
Lemma encode_variable_REAL buffer o :
  castable_output o REAL -> encode_variable buffer REAL o = Fault UndefinedBehaviour.
Proof.
  intros [Hv Hc]. pose proof (typed_accessors o Hv) as Ha.
  destruct (id_ o).1; try done. destruct Ha as (x & _ & Hx). cbn. by rewrite Hx.
Qed.

Lemma encode_all_ok buffer vars types :
  Forall2 castable_output vars types -> REAL ∉ types ->
  encode_all buffer vars types = Ret (buffer ++ concat (map (fun o => value_bytes (data_ o)) vars)).
Proof.
  intros Hf. revert buffer. induction Hf as [|o t vars types Ho Hf IH]; intros buffer Hreal; cbn [encode_all map concat].
  - by rewrite app_nil_r.
  - rewrite encode_variable_ok by set_solver. cbn [obind]. rewrite IH by set_solver.
    by rewrite <- (assoc_L (++)).
Qed.

Lemma encode_all_REAL buffer vars types :
  Forall2 castable_output vars types -> REAL ∈ types ->
  encode_all buffer vars types = Fault UndefinedBehaviour.
Proof.
  intros Hf. revert buffer. induction Hf as [|o t vars types Ho Hf IH]; intros buffer Hreal; [by apply elem_of_nil in Hreal|].
  cbn [encode_all]. destruct (decide (t = REAL)) as [->|Ht].
  - by rewrite encode_variable_REAL.
  - rewrite encode_variable_ok by done. cbn [obind]. apply IH. set_solver.
Qed.

(** The value an output has after a list of variables: the last one with its
    identifier, or the old one. *)
Definition last_value (id : PortID) (vars : list Variable_t) (old : any) : any :=
  fold_left (fun d v => if portid_eqb (id_ v) id then data_ v else d) vars old.

Definition updated (vars : list Variable_t) (o : Variable_t) : Variable_t :=
  {| id_ := id_ o; data_ := last_value (id_ o) vars (data_ o) |}.

Lemma update_matching_ok v outs :
  isValid v = true ->
  update_matching v outs =
  Ret (map (updated [v]) outs, existsb (fun o => portid_eqb (id_ v) (id_ o)) outs).
Proof.
  intros Hv. induction outs as [|o outs IH]; [done|]. cbn [update_matching map existsb].
  unfold Variables.getID. unfold updated at 1, last_value. cbn [fold_left].
  destruct (portid_eqb (id_ v) (id_ o)).
  - rewrite getValue_valid, IH by done. done.
  - rewrite IH. by destruct o.
Qed.

Lemma existsb_updated (v : Variable_t) vs outs :
  existsb (fun o => portid_eqb (id_ v) (id_ o)) (map (updated vs) outs) =
  existsb (fun o => portid_eqb (id_ v) (id_ o)) outs.
Proof. induction outs as [|o outs IH]; cbn; [done|]. by rewrite IH. Qed.

Definition touches (vars outs : list Variable_t) : bool :=
  existsb (fun v => existsb (fun o => portid_eqb (id_ v) (id_ o)) outs) vars.

Lemma touches_updated vars vs outs : touches vars (map (updated vs) outs) = touches vars outs.
Proof. unfold touches. induction vars as [|v vars IH]; cbn; [done|]. by rewrite existsb_updated, IH. Qed.

Lemma updated_cons v vars o : updated vars (updated [v] o) = updated (v :: vars) o.
Proof. done. Qed.

Lemma updateOutputVariables_ok vars p :
  Forall (fun v => isValid v = true) vars ->
  updateOutputVariables vars p =
  Ret ({| outputVariables_ := map (updated vars) (outputVariables_ p); outputTypes_ := outputTypes_ p |},
       touches vars (outputVariables_ p)).
Proof.
  intros Hv. unfold updateOutputVariables.
  match goal with |- obind (foldlM ?f _ _) _ = _ =>
    enough (forall outs b, foldlM f (outs, b) vars = Ret (map (updated vars) outs, b || touches vars outs)) as ->
  end; [done|].
  induction Hv as [|v vars Hv _ IH]; intros outs b; cbn [foldlM].
  - rewrite orb_false_r. f_equal. f_equal. symmetry. rewrite <- (map_id outs) at 2.
    apply map_ext. by intros [].
  - rewrite update_matching_ok by done. cbn [obind fst snd].
    rewrite IH, map_map, touches_updated, <- orb_assoc. done.
Qed.

Lemma updated_valid vars o :
  Forall (fun v => isValid v = true) vars -> isValid o = true -> isValid (updated vars o) = true.
Proof.
  intros Hv. revert o. induction Hv as [|v vars Hvalid _ IH]; intros o Ho.
  - by destruct o.
  - rewrite <- updated_cons. apply IH. unfold updated, last_value. cbn [fold_left].
    destruct (portid_eqb (id_ v) (id_ o)) eqn:E; [|by destruct o].
    apply portid_eqb_eq in E. rewrite <- E. by destruct v.
Qed.

Lemma updated_publisher_ok vars p :
  Forall (fun v => isValid v = true) vars -> publisher_ok p ->
  publisher_ok {| outputVariables_ := map (updated vars) (outputVariables_ p); outputTypes_ := outputTypes_ p |}.
Proof.
  intros Hv Hp. unfold publisher_ok. cbn. apply Forall2_fmap_l. eapply Forall2_impl; [exact Hp|].
  intros o t [Ho Hc]. split; [by apply updated_valid|done].
Qed.

Lemma publisher_same_length p : publisher_ok p -> same_length (outputVariables_ p) (outputTypes_ p) = true.
Proof. intros Hp. apply Nat.eqb_eq. by eapply Forall2_length. Qed.

(** An event at the publisher.  Each output takes the last value the event has
    for its port and keeps its own otherwise; a packet is sent exactly when the event
    touches a port of the channel, and it holds the values of all outputs in their
    order.  (Encodings other than [REAL].) *)
Theorem eventTriggered_correct vars p :
  publisher_ok p -> Forall (fun v => isValid v = true) vars -> REAL ∉ outputTypes_ p ->
  exists p', eventTriggered vars p =
      Ret (p', if touches vars (outputVariables_ p)
               then Some (concat (map (fun o => value_bytes (data_ o)) (outputVariables_ p'))) else None) /\
    outputVariables_ p' = map (updated vars) (outputVariables_ p) /\
    outputTypes_ p' = outputTypes_ p /\ publisher_ok p'.
Proof.
  intros Hp Hv Hreal. pose proof (updated_publisher_ok vars p Hv Hp) as Hp'.
  exists {| outputVariables_ := map (updated vars) (outputVariables_ p); outputTypes_ := outputTypes_ p |}.
  split; [|split; [reflexivity|split; [reflexivity|exact Hp']]].
  unfold eventTriggered. rewrite updateOutputVariables_ok by done. cbn [obind fst snd].
  destruct (touches vars (outputVariables_ p)); [|done].
  unfold encodeASN1OutputVariables. rewrite obind_assert by by apply publisher_same_length.
  by rewrite encode_all_ok.
Qed.

(** A channel with a [REAL] port has no defined behaviour.  [encodeREALValue]
    copies [sizeof(double)] bytes between two 32-bit objects, so every event that
    touches such a channel ends in undefined behaviour. *)
Theorem real_encoding_undefined vars p :
  publisher_ok p -> Forall (fun v => isValid v = true) vars -> REAL ∈ outputTypes_ p ->
  touches vars (outputVariables_ p) = true -> eventTriggered vars p = Fault UndefinedBehaviour.
Proof.
  intros Hp Hv Hreal Ht. pose proof (updated_publisher_ok vars p Hv Hp) as Hp'.
  unfold eventTriggered. rewrite updateOutputVariables_ok by done. cbn [obind fst snd]. rewrite Ht.
  unfold encodeASN1OutputVariables. rewrite obind_assert by by apply publisher_same_length.
  by rewrite encode_all_REAL.
Qed.

Section PublisherInit.
Context `{PropertyTree}.

Lemma port_type_ok i port cfg :
  port.1 <> fmiTypeUnknown ->
  wp (port_type i port cfg) (fun t => CASTABLE port.1 t = true) (fun x => exists e, x = ExnSystemConfiguration e).
Proof.
  intros Hu. unfold port_type. apply wp_bind. destruct port as [ty n]. cbn [fst] in *.
  destruct ty; try done; cbn [getDefaultType wp]; destruct (get_optional _ _ _) as [name|]; try done;
    destruct (named_type name) as [t|]; try (eexists; reflexivity);
    destruct t; try done; eexists; reflexivity.
Qed.

Lemma add_types_ok i (ports : list PortID) (configs : list ptree) types :
  Forall (fun p : PortID => p.1 <> fmiTypeUnknown) ports -> length configs = length ports ->
  wp (add_types i ports configs types)
     (fun ts => exists new, ts = types ++ new /\ Forall2 (fun (p : PortID) t => CASTABLE p.1 t = true) ports new)
     (fun x => exists e, x = ExnSystemConfiguration e).
Proof.
  intros Hp. revert i configs types; induction Hp as [|port ports Hu _ IH]; intros i [|cfg configs] types Hl; try done; cbn.
  - exists []. by rewrite app_nil_r.
  - apply wp_bind. eapply wp_mono; [by apply port_type_ok| |done]. intros t Ht.
    eapply wp_mono; [apply IH; by injection Hl| |done]. intros ts (new & -> & Hnew).
    exists (t :: new). rewrite <- (assoc_L (++)). split; [done|by constructor].
Qed.

Lemma default_values_ok (ports : list PortID) vars :
  Forall (fun p : PortID => p.1 <> fmiTypeUnknown) ports ->
  exists new, foldlM (fun vars (port : PortID) =>
                         let* v := default_value port.1 in
                         Ret (vars ++ [{| id_ := port; data_ := v |}])) vars ports = Ret (X:=exn) (vars ++ new) /\
    map id_ new = ports /\ Forall (fun o => isValid o = true) new.
Proof.
  intros Hp. revert vars; induction Hp as [|port ports Hu _ IH]; intros vars; cbn [foldlM].
  - exists []. rewrite app_nil_r. done.
  - destruct port as [t n]. cbn [fst] in Hu.
    assert (Hd : exists v, default_value t = Ret v /\ any_type v = Some t) by (destruct t; try done; eexists; done).
    destruct Hd as (v & Hd & Ht). cbn [fst]. rewrite Hd. cbn [obind].
    destruct (IH (vars ++ [{| id_ := (t, n); data_ := v |}])) as (new & -> & Hids & Hval).
    exists ({| id_ := (t, n); data_ := v |} :: new). rewrite <- (assoc_L (++)).
    split; [done|]. split; [cbn; by rewrite Hids|]. constructor; [by apply isValid_type|done].
Qed.

(** The initialization of a publisher.  For a channel whose ports have known
    types, [init] gives every port a valid value and an encoding that can carry it, in
    the order of the ports, or it throws a [SystemConfigurationException]. *)
Theorem publisher_init_correct (channel : TransmissionChannel) :
  length (portConfig_ channel) = length (portIDs_ channel) ->
  Forall (fun p : PortID => p.1 <> fmiTypeUnknown) (portIDs_ channel) ->
  wp (init channel new_CompactASN1Publisher)
     (fun p => publisher_ok p /\ map id_ (outputVariables_ p) = portIDs_ channel)
     (fun x => exists e, x = ExnSystemConfiguration e).
Proof.
  intros Hl Hu. unfold init, initOutputTypes, initOutputVariables, getPortIDs, getPortConfig.
  assert (Hsame : same_length (portConfig_ channel) (portIDs_ channel) = true) by by apply Nat.eqb_eq.
  rewrite Hsame. cbn [assert_ obind]. destruct (default_values_ok (portIDs_ channel) [] Hu) as (vars & -> & Hids & Hval).
  cbn [obind app]. apply wp_bind. eapply wp_mono; [by apply add_types_ok| |done].
  intros ts (new & -> & Hnew). cbn. split; [|done]. unfold publisher_ok. cbn.
  rewrite <- Hids in Hnew. apply Forall2_fmap_l in Hnew.
  clear -Hval Hnew. induction Hnew as [|o t vars new Hc Hnew IH]; [constructor|].
  apply Forall_cons in Hval as [Ho Hval]. constructor; [done|by apply IH].
Qed.

End PublisherInit.

(** ** Round trip *)

(** The values a packet can carry without loss. *)
Definition transmissible (d : any) : bool :=
  match d with
  | AnyReal b => (0 <=? b) && (b <? 2 ^ 64)
  | AnyInteger i => in_signed 32 i
  | AnyBoolean _ => true
  | AnyString s => (String.length s <? Z.to_nat 65536)%nat
  | AnyEmpty => false
  end.

(** The value that arrives: a boolean is normalised. *)
Definition received (d : any) : any :=
  match d with
  | AnyBoolean c => AnyBoolean (if c =? 0 then fmiFalse else fmiTrue)
  | d => d
  end.

(** The length field of a string. *)
Lemma string_header s :
  (String.length s < Z.to_nat 65536)%nat ->
  exists hi lo, value_bytes (AnyString s) = tag STRING_TAG_NR :: hi :: lo :: string_bytes s /\
                be_value [hi; lo] = Z.of_nat (String.length s).
Proof.
  intros Hs. cbn [value_bytes]. unfold encodeValue_string. set (n := Z.of_nat (String.length s)).
  assert (Hn : 0 <= n < 2 ^ 16) by (subst n; lia).
  assert (Hland : Z.land n 65535 = n).
  { change 65535 with (Z.ones 16). rewrite Z.land_ones, Z.mod_small; lia. }
  rewrite Hland. do 2 eexists. split.
  - cbn [app]. do 3 f_equal. rewrite take_ge; [done|]. subst n. rewrite length_string_bytes. lia.
  - rewrite !land_255, Z.shiftr_div_pow2 by lia. unfold wrap. rewrite !(Z.mod_mod _ 256) by lia.
    unfold be_value. cbn [fold_left]. change (2 ^ 8) with 256. rewrite (Z.mod_small (n / 256)).
    + pose proof (Z.div_mod n 256). lia.
    + split; [apply Z.div_pos; lia|apply Z.div_lt_upper_bound; lia].
Qed.

Section RoundTrip.
Context `{LexicalConvert, !LexicalConvertLaws _}.

Lemma read_fixed (n : nat) mk bs rest :
  length bs = n ->
  readXREALVariable n mk (tag LREAL_TAG_NR :: bs ++ rest) = Ret (mk_status Ok 0, Some (mk (be_value bs)), rest).
Proof.
  intros Hn. unfold readXREALVariable. rewrite blen_cons, blen_app. unfold blen.
  rewrite (proj2 (Z.ltb_ge _ _)) by lia. change (drop 1 (?x :: ?l)) with l.
  by rewrite take_app_length', drop_app_length'.
Qed.

Lemma read_value t d rest :
  transmissible d = true -> any_type d = Some t ->
  readNextVariable t (value_bytes d ++ rest) = Ret (mk_status Ok 0, Some (received d), rest).
Proof.
  intros Hd Ht. destruct d as [|b|i|c|s]; [done|..]; injection Ht as <-; cbn [value_bytes received transmissible] in *.
  - apply andb_prop in Hd as [Hb0%Z.leb_le Hb1%Z.ltb_lt].
    rewrite <- app_comm_cons, readNextVariable_tag. cbn [tag_reader].
    change (tag_reader fmiTypeReal (tag LREAL_TAG_NR)) with (readAndConvertVariable fmiTypeReal (readXREALVariable 8 WireDouble)).
    unfold readAndConvertVariable. rewrite read_fixed by apply length_be_bytes.
    cbn [obind state]. rewrite convert_double, be_value_bytes. repeat f_equal.
    rewrite wrap_small by lia. apply Z.mod_small. change (256 ^ Z.of_nat 8) with (2 ^ 64). lia.
  - rewrite <- app_comm_cons, readNextVariable_tag.
    change (tag_reader fmiTypeInteger (tag DINT_TAG_NR)) with (readAndConvertVariable fmiTypeInteger readXINTVariable).
    unfold readAndConvertVariable, readXINTVariable. rewrite blen_cons, blen_app.
    unfold blen. rewrite length_be_bytes, (proj2 (Z.ltb_ge _ _)) by lia. change (drop 1 (?x :: ?l)) with l.
    rewrite take_app_length', drop_app_length' by by rewrite length_be_bytes.
    cbn [obind state]. rewrite convert_int32, be_value_bytes. repeat f_equal.
    change (256 ^ Z.of_nat 4) with (2 ^ 32). by apply (to_signed_wrap 32).
  - destruct (c =? 0); cbn [app]; rewrite readNextVariable_tag.
    + change (tag_reader fmiTypeBoolean (tag BOOL0_TAG_NR))
        with (readAndConvertVariable fmiTypeBoolean (readBOOLVariable BOOL0_TAG_NR fmiFalse)).
      unfold readAndConvertVariable, readBOOLVariable. cbn [getFirstRawDataByte obind].
      rewrite Z.eqb_refl. cbn [assert_ obind state]. by rewrite convert_boolean.
    + change (tag_reader fmiTypeBoolean (tag BOOL1_TAG_NR))
        with (readAndConvertVariable fmiTypeBoolean (readBOOLVariable BOOL1_TAG_NR fmiTrue)).
      unfold readAndConvertVariable, readBOOLVariable. cbn [getFirstRawDataByte obind].
      rewrite Z.eqb_refl. cbn [assert_ obind state]. by rewrite convert_boolean.
  - apply Nat.ltb_lt in Hd. destruct (string_header s) as (hi & lo & Hbytes & Hval); [lia|].
    cbn [value_bytes] in Hbytes. rewrite Hbytes, <- !app_comm_cons, readNextVariable_tag.
    change (tag_reader fmiTypeString (tag STRING_TAG_NR)) with (readAndConvertVariable fmiTypeString readSTRINGVariable).
    unfold readAndConvertVariable, readSTRINGVariable. cbn [getFirstRawDataByte obind].
    rewrite Z.eqb_refl, !blen_cons, blen_app. unfold blen. rewrite length_string_bytes.
    change (take 2 (drop 1 (?a :: ?b :: ?c :: ?l))) with [b; c].
    rewrite Hval, (proj2 (Z.ltb_ge _ 3)) by lia. cbn [assert_ obind].
    rewrite (proj2 (Z.ltb_ge _ _)) by lia. change (drop 3 (?a :: ?b :: ?c :: ?l)) with l.
    rewrite Nat2Z.id. change (drop (3 + ?n) (?a :: ?b :: ?c :: ?l)) with (drop n l).
    rewrite take_app_length', drop_app_length' by by rewrite length_string_bytes.
    cbn [obind state]. by rewrite bytes_string_bytes, convert_string.
Qed.

Lemma value_bytes_nonempty d : transmissible d = true -> exists z l, value_bytes d = z :: l.
Proof. destruct d; cbn; try done; eauto. Qed.

Lemma value_bytes_ok d : transmissible d = true -> Forall byte_ok (value_bytes d).
Proof.
  assert (Htag : Forall (fun nr => byte_ok (tag nr)) [LREAL_TAG_NR; DINT_TAG_NR; BOOL0_TAG_NR; BOOL1_TAG_NR; STRING_TAG_NR]).
  { repeat constructor; vm_compute; discriminate. }
  rewrite !Forall_cons in Htag. destruct Htag as (H1 & H2 & H3 & H4 & H5 & _).
  destruct d as [|b|i|c|s]; intros Hd; cbn [value_bytes].
  - done.
  - constructor; [done|apply be_bytes_ok].
  - constructor; [done|apply be_bytes_ok].
  - by destruct (c =? 0); repeat constructor.
  - unfold encodeValue_string. rewrite !land_255. cbn [app].
    repeat (constructor; [try done; split; first [apply Z.mod_pos_bound; lia]|]).
    apply Forall_take, string_bytes_ok.
Qed.

(** A port and the value it is to receive. *)
Definition sends (port : PortID) (d : any) : Prop := transmissible d = true /\ any_type d = Some port.1.

Definition receive (port : PortID) (d : any) : Variable_t := {| id_ := port; data_ := received d |}.

(** The decoder on the values of the ports from [i] on. *)
Lemma decode_values ports i vs ds rest out :
  Forall2 sends (drop i ports) ds -> ds <> [] ->
  rtc (valid_step ports)
    {| d_msg := Some (vs, i); d_buf := concat (map value_bytes ds) ++ rest; d_out := out |}
    {| d_msg := None; d_buf := rest; d_out := out ++ [vs ++ zip_with receive (drop i ports) ds] |}.
Proof.
  revert i vs; induction ds as [|d ds IH]; intros i vs Hf Hne; [done|].
  destruct (drop i ports) as [|port ports'] eqn:Hdrop; [by inversion Hf|].
  apply Forall2_cons in Hf as [[Hd Ht] Hf].
  assert (Hport : ports !! i = Some port).
  { rewrite <- (Nat.add_0_r i), <- lookup_drop. by rewrite Hdrop. }
  assert (Hdrop' : drop (S i) ports = ports').
  { rewrite <- Nat.add_1_r, <- drop_drop, Hdrop. done. }
  assert (Hlen : length ports = (S i + length ports')%nat).
  { rewrite <- Hdrop', length_drop. apply lookup_lt_Some in Hport. unfold PortID in *. lia. }
  cbn [map concat]. rewrite <- (assoc_L (++)). eapply rtc_l.
  - unfold valid_step, dstep. cbn [d_buf d_msg d_out]. rewrite Hport, (read_value _ _ _ Hd Ht).
    destruct (value_bytes_nonempty d Hd) as (z & l & ->). reflexivity.
  - unfold advance. destruct ds as [|d' ds].
    + apply Forall2_nil_inv_r in Hf as ->. rewrite (proj2 (Nat.ltb_ge _ _)) by (unfold PortID in *; cbn in *; lia).
      done.
    + destruct ports' as [|port' ports']; [by inversion Hf|].
      rewrite (proj2 (Nat.ltb_lt _ _)) by (unfold PortID in *; cbn in *; lia).
      rewrite <- Hdrop' in Hf |- *. cbn [zip_with].
      specialize (IH (S i) (vs ++ [receive port d]) Hf ltac:(done)).
      rewrite <- (assoc_L (++)) in IH. exact IH.
Qed.

Context {Sk : Type} `{EventSink Sk, !EventSinkLaws Sk}.

(** The decoder on a packet. *)
Lemma packet_decodes (p : CompactASN1Publisher) packet (s : CompactASN1Subscriber Sk) :
  publisher_ok p -> REAL ∉ outputTypes_ p ->
  Forall2 (fun port o => sends port (data_ o)) (channelPorts_ s) (outputVariables_ p) ->
  encodeASN1OutputVariables [] p = Ret packet ->
  subscriber_ok s -> partialData_ s = None -> remainingRawData_ s = [] ->
  decodes (channelPorts_ s) (more (decoder_of s) packet)
    {| d_msg := None; d_buf := [];
       d_out := emitted s ++ [zip_with (fun port o => receive port (data_ o)) (channelPorts_ s) (outputVariables_ p)] |}.
Proof.
  intros Hp Hreal Hf Henc Hs Hpd Hbuf.
  unfold encodeASN1OutputVariables in Henc. rewrite obind_assert in Henc by by apply publisher_same_length.
  rewrite encode_all_ok in Henc by done. injection Henc as Hpacket. cbn [app] in Hpacket.
  assert (Hd0 : decoder_of s = {| d_msg := None; d_buf := []; d_out := emitted s |}).
  { unfold decoder_of. by rewrite Hpd, Hbuf. }
  remember (map data_ (outputVariables_ p)) as ds eqn:Hds.
  assert (Hsends : Forall2 sends (drop 0 (channelPorts_ s)) ds) by (rewrite Hds; apply Forall2_fmap_r; exact Hf).
  assert (Hne : ds <> []).
  { intros E. rewrite E in Hsends. apply Forall2_nil_inv_r in Hsends. by apply (so_nonempty s Hs). }
  assert (Hbytes : packet = concat (map value_bytes ds) ++ []).
  { rewrite app_nil_r, <- Hpacket, Hds. by rewrite map_map. }
  replace (zip_with _ (channelPorts_ s) (outputVariables_ p)) with ([] ++ zip_with receive (drop 0 (channelPorts_ s)) ds)
    by (cbn; rewrite Hds; by rewrite zip_with_fmap_r).
  split; [|done]. rewrite Hd0, Hbytes. unfold more. cbn [d_msg d_buf d_out app].
  eapply rtc_l; [|exact (decode_values (channelPorts_ s) 0 [] ds [] (emitted s) Hsends Hne)].
  unfold valid_step, dstep. cbn [d_msg d_buf d_out]. clear Hds Hbytes. destruct ds as [|d ds']; [done|].
  inversion Hsends as [|port ? ? ? [Hd _]]; subst. cbn [map concat].
  destruct (value_bytes_nonempty d Hd) as (z & bs & ->). reflexivity.
Qed.

(** A packet arrives. *)
Lemma packet_received (p : CompactASN1Publisher) packet (hs : list (handler Sk)) (s : CompactASN1Subscriber Sk) :
  publisher_ok p -> REAL ∉ outputTypes_ p ->
  Forall2 (fun port o => sends port (data_ o)) (channelPorts_ s) (outputVariables_ p) ->
  encodeASN1OutputVariables [] p = Ret packet ->
  subscriber_ok s -> partialData_ s = None -> remainingRawData_ s = [] ->
  Forall handler_ok hs -> arrived hs = packet ->
  undisturbed (timerExpiry_ s) (fun bytes => bytes = [] \/ bytes = packet) hs ->
  exists s', serve hs s = Ret s' /\ partialData_ s' = None /\ remainingRawData_ s' = [] /\
    emitted s' = emitted s ++ [zip_with (fun port o => receive port (data_ o)) (channelPorts_ s) (outputVariables_ p)].
Proof.
  intros Hp Hreal Hf Henc Hs Hpd Hbuf Hhs Hcat Hu. pose proof (packet_decodes p packet s Hp Hreal Hf Henc Hs Hpd Hbuf) as Hd.
  assert (Hn : dstep (channelPorts_ s) (decoder_of s) = None) by (unfold decoder_of, dstep; by rewrite Hpd, Hbuf).
  subst packet. eassert (Hq : undisturbed _ (between_messages (channelPorts_ s) (decoder_of s)) hs).
  { eapply undisturbed_mono; [|exact Hu]. intros bytes [-> | ->]; [|by eexists].
    exists (decoder_of s). rewrite more_nil. split; [by split; [apply rtc_refl|]|]. unfold decoder_of. by rewrite Hpd. }
  destruct (serve_decodes hs s _ Hs Hhs Hn Hq Hd) as (s' & Hserve & He & _).
  exists s'. split; [done|]. unfold decoder_of in He. injection He as E1 E2 E3.
  split; [by destruct (partialData_ s')|]. by split.
Qed.

(** C12: the round trip.  What a publisher encodes, a subscriber whose ports have the
    same types decodes to exactly one event, with every value as it was sent (booleans as
    0 or 1), at the subscriber's own ports.  No port is encoded as REAL, and strings are
    shorter than 65536 characters.  The packet may arrive in any chunks, provided that the
    timer of the subscriber is not served after its expiry while a part of the packet is
    missing: it expires once, a fixed time after the initialisation, and cuts every packet
    that is incomplete when it is served later. *)
Theorem publisher_subscriber_roundtrip (p : CompactASN1Publisher) packet (hs : list (handler Sk))
    (s : CompactASN1Subscriber Sk) :
  publisher_ok p -> REAL ∉ outputTypes_ p ->
  Forall2 (fun port o => sends port (data_ o)) (channelPorts_ s) (outputVariables_ p) ->
  encodeASN1OutputVariables [] p = Ret packet ->
  subscriber_ok s -> partialData_ s = None -> remainingRawData_ s = [] ->
  Forall handler_ok hs -> arrived hs = packet ->
  undisturbed (timerExpiry_ s) (fun bytes => bytes = [] \/ bytes = packet) hs ->
  exists s', serve hs s = Ret s' /\ partialData_ s' = None /\ remainingRawData_ s' = [] /\
    emitted s' = emitted s ++ [zip_with (fun port o => receive port (data_ o)) (channelPorts_ s) (outputVariables_ p)].
Proof. exact (packet_received p packet hs s). Qed.

End RoundTrip.

(** ** Concrete runs *)

(** Conversions between equal types, and from [float] to [double]. *)
#[export] Instance exact_convert : LexicalConvert := {
  lexical_convert t w :=
    match t, w with
    | fmiTypeReal, WireDouble b => Some (AnyReal b)
    | fmiTypeReal, WireFloat b => Some (AnyReal (double_bits (float_value b)))
    | fmiTypeString, WireString s => Some (AnyString s)
    | fmiTypeBoolean, WireBoolean c => Some (AnyBoolean c)
    | fmiTypeInteger, WireInt32 i => Some (AnyInteger i)
    | _, _ => None
    end
}.

#[export] Instance exact_convert_laws : LexicalConvertLaws exact_convert.
Proof.
  split; try reflexivity. intros t w v. destruct t, w; cbn [lexical_convert exact_convert]; intros E;
    first [exact (eq_sym (f_equal (fun o => match o with Some a => any_type a | None => None end) E)) | discriminate E].
Qed.

(** A sink that counts seconds and collects events. *)
#[export] Instance list_sink : EventSink (Z * list PartialEvent) := {
  sink_getTimeStampNow s := (f64_of_Z s.1, s);
  sink_pushExternalEvent pe s := (s.1, s.2 ++ [pe]);
}.

#[export] Instance list_sink_laws : EventSinkLaws (Z * list PartialEvent).
Proof. by refine {| pushed := snd |}. Defined.

Definition sample_in_ports : list PortID :=
  [(fmiTypeReal, 7); (fmiTypeBoolean, 7); (fmiTypeString, 7); (fmiTypeInteger, 7)].

Definition sample_publisher : CompactASN1Publisher := {|
  outputVariables_ := [ {| id_ := (fmiTypeReal, 0); data_ := AnyReal 4562254508917369340 |};
                        {| id_ := (fmiTypeBoolean, 0); data_ := AnyBoolean 5 |};
                        {| id_ := (fmiTypeString, 0); data_ := AnyString "go" |};
                        {| id_ := (fmiTypeInteger, 0); data_ := AnyInteger (-2) |} ];
  outputTypes_ := [LREAL; BOOL; STRING; DINT];
|}.

Definition sample_packet : list Z :=
  [75; 63; 80; 98; 77; 210; 241; 169; 252; 65; 80; 0; 2; 103; 111; 68; 255; 255; 255; 254].

Example sample_encoding : encodeASN1OutputVariables [] sample_publisher = Ret sample_packet.
Proof. vm_compute. reflexivity. Qed.

Example sample_hex : buffer_toString [0; 171; 255] = "0x00 ab ff".
Proof. reflexivity. Qed.

Definition sample_subscriber : CompactASN1Subscriber (Z * list PartialEvent) := {|
  channelPorts_ := sample_in_ports; eventSink_ := (0, []); partialData_ := None; remainingRawData_ := [];
  busyKeeper_ := true; timerExpiry_ := 500; timerWaiting_ := false; serviceStopped_ := false;
|}.

Lemma sample_publisher_ok : publisher_ok sample_publisher.
Proof. unfold publisher_ok, castable_output. repeat constructor. Qed.

Lemma sample_subscriber_ok : subscriber_ok sample_subscriber.
Proof. split; try done; repeat constructor; done. Qed.

(** The packet in three chunks, with time going by in between; the timer is served at
    200 ms, and again when the packet is complete and the timer has expired.  In the second
    schedule the whole packet arrives long after the expiry. *)
Definition sample_handlers : list (handler (Z * list PartialEvent)) :=
  [HandleReceive (fun k => k) (take 3 sample_packet); HandleTimer 200;
   HandleReceive (fun k => (k.1 + 1, k.2)) (take 10 (drop 3 sample_packet));
   HandleReceive (fun k => (k.1 + 1, k.2)) (drop 13 sample_packet); HandleTimer 700].
Definition late_handlers : list (handler (Z * list PartialEvent)) :=
  [HandleTimer 10000; HandleReceive (fun k => k) sample_packet; HandleTimer 10000].

(** The same chunks, with the timer served at 600 ms between them: the message is cut. *)
Example late_chunks_cut :
  match serve [HandleReceive (fun k => k) (take 13 sample_packet); HandleTimer 600;
               HandleReceive (fun k => k) (drop 13 sample_packet)] sample_subscriber with
  | Ret s => map (fun vs => length vs) (emitted s) = [2%nat; 0%nat]
  | _ => False
  end.
Proof. vm_compute. reflexivity. Qed.

Lemma sample_bytes_ok : Forall byte_ok sample_packet.
Proof. repeat constructor; vm_compute; discriminate. Qed.

Lemma sample_handlers_ok : Forall handler_ok sample_handlers /\ Forall handler_ok late_handlers.
Proof.
  repeat constructor; unfold byte_ok; try (vm_compute; discriminate); try reflexivity;
    try (apply Z.ltb_lt; reflexivity); apply Z.leb_le; reflexivity.
Qed.

(** A schedule is undisturbed, by a look at every prefix. *)
Lemma undisturbed_check expiry (boundary : list Z -> Prop) (check : list Z -> bool) {Sk} (hs : list (handler Sk)) :
  (forall bytes, check bytes = true -> boundary bytes) ->
  forallb (fun k => match hs !! k with
                    | Some (HandleTimer now) => (now <? expiry) || check (arrived (take k hs))
                    | _ => true
                    end) (seq 0 (length hs)) = true ->
  undisturbed expiry boundary hs.
Proof.
  intros Hb Hc before now after ->. rewrite forallb_forall in Hc. specialize (Hc (length before)).
  rewrite list_lookup_middle in Hc by done. rewrite take_app_length in Hc.
  apply orb_prop in Hc as [Hlt|Hbd]; [left; by apply Z.ltb_lt|right; auto|]. apply in_seq. rewrite length_app. cbn. lia.
Qed.

Lemma sample_undisturbed hs :
  hs = sample_handlers \/ hs = late_handlers ->
  undisturbed (timerExpiry_ sample_subscriber) (fun bytes => bytes = [] \/ bytes = sample_packet) hs.
Proof.
  intros Hhs. apply (undisturbed_check _ _ (fun bytes => bool_decide (bytes = []) || bool_decide (bytes = sample_packet))).
  - intros bytes [H%bool_decide_eq_true|H%bool_decide_eq_true]%orb_prop; auto.
  - destruct Hhs as [-> | ->]; vm_compute; reflexivity.
Qed.

Definition sample_received : list Variable_t :=
  [ {| id_ := (fmiTypeReal, 7); data_ := AnyReal 4562254508917369340 |};
    {| id_ := (fmiTypeBoolean, 7); data_ := AnyBoolean 1 |};
    {| id_ := (fmiTypeString, 7); data_ := AnyString "go" |};
    {| id_ := (fmiTypeInteger, 7); data_ := AnyInteger (-2) |} ].

Lemma publisher_subscriber_roundtrip_witness :
  Forall (fun hs => exists s', serve hs sample_subscriber = Ret s' /\ partialData_ s' = None /\
                               remainingRawData_ s' = [] /\ emitted s' = [sample_received])
    [sample_handlers; late_handlers].
Proof.
  apply Forall_forall. intros hs Hhs. change [sample_received]
    with (emitted sample_subscriber ++
          [zip_with (fun port o => receive port (data_ o)) (channelPorts_ sample_subscriber)
             (outputVariables_ sample_publisher)]).
  assert (Hcases : hs = sample_handlers \/ hs = late_handlers) by (clear -Hhs; set_solver).
  apply (publisher_subscriber_roundtrip sample_publisher sample_packet hs sample_subscriber).
  - exact sample_publisher_ok.
  - rewrite list_elem_of_In. intros [|[|[|[|[]]]]]; discriminate.
  - repeat constructor.
  - exact sample_encoding.
  - exact sample_subscriber_ok.
  - reflexivity.
  - reflexivity.
  - destruct Hcases as [-> | ->]; apply sample_handlers_ok.
  - destruct Hcases as [-> | ->]; reflexivity.
  - exact (sample_undisturbed hs Hcases).
Defined.

Lemma subscriber_total_witness :
  exists s', commitData [75; 1; 2; 99] sample_subscriber = Ret s' /\ subscriber_ok s' /\
    channelPorts_ s' = sample_in_ports /\ emitted sample_subscriber `prefix_of` emitted s' /\ Forall (message_ok sample_in_ports) (emitted s').
Proof.
  apply (subscriber_total [75; 1; 2; 99] sample_subscriber).
  - exact sample_subscriber_ok.
  - repeat constructor; vm_compute; discriminate.
  - constructor.
Defined.

Definition sample_end : decoder := {| d_msg := None; d_buf := []; d_out := [sample_received] |}.

Lemma sample_decodes :
  decodes sample_in_ports (more (decoder_of sample_subscriber) sample_packet) sample_end.
Proof.
  split; [|reflexivity].
  repeat (eapply rtc_l; [vm_compute; reflexivity|]). apply rtc_refl.
Qed.

Lemma sample_boundaries hs :
  hs = sample_handlers \/ hs = late_handlers ->
  undisturbed (timerExpiry_ sample_subscriber) (between_messages sample_in_ports (decoder_of sample_subscriber)) hs.
Proof.
  intros Hhs. eapply undisturbed_mono; [|by apply sample_undisturbed]. intros bytes [-> | ->].
  - exists (decoder_of sample_subscriber). split; [split; [apply rtc_refl|reflexivity]|reflexivity].
  - exists sample_end. split; [exact sample_decodes|reflexivity].
Qed.

Lemma chunking_independent_witness :
  exists s1 s2, serve sample_handlers sample_subscriber = Ret s1 /\ serve late_handlers sample_subscriber = Ret s2 /\
    decoder_of s1 = sample_end /\ decoder_of s2 = sample_end.
Proof.
  apply (chunking_independent sample_handlers late_handlers sample_subscriber sample_end).
  - exact sample_subscriber_ok.
  - apply sample_handlers_ok.
  - apply sample_handlers_ok.
  - reflexivity.
  - reflexivity.
  - apply sample_boundaries. left. reflexivity.
  - apply sample_boundaries. right. reflexivity.
  - exact sample_decodes.
Defined.

(** A real value, then a tag that does not exist. *)
Definition sample_garbage : list Z := take 9 sample_packet ++ [99; 75].

Lemma invalid_tag_recovers_witness :
  exists s' vs, commitData sample_garbage sample_subscriber = Ret s' /\ partialData_ s' = None /\
    remainingRawData_ s' = [] /\ (exists i, Some (take 1 sample_received, 1%nat) = Some (vs, i)) /\ emitted s' = [] ++ [vs].
Proof.
  apply (invalid_tag_recovers sample_garbage sample_subscriber
           {| d_msg := Some (take 1 sample_received, 1%nat); d_buf := [99; 75]; d_out := [] |}
           {| d_msg := None; d_buf := []; d_out := [take 1 sample_received] |}).
  - exact sample_subscriber_ok.
  - repeat constructor; vm_compute; discriminate.
  - do 2 (eapply rtc_l; [vm_compute; reflexivity|]). apply rtc_refl.
  - reflexivity.
Defined.

(** The first four bytes of the packet arrive after the initial 500 ms. *)
Definition sample_waiting : CompactASN1Subscriber (Z * list PartialEvent) := {|
  channelPorts_ := sample_in_ports; eventSink_ := (0, []);
  partialData_ := Some (new_PartialEvent f64_zero sample_in_ports); remainingRawData_ := take 4 sample_packet;
  busyKeeper_ := true; timerExpiry_ := 500; timerWaiting_ := true; serviceStopped_ := false;
|}.

Lemma packet_timer_not_restarted_witness :
  timerExpiry_ sample_waiting = timerExpiry_ sample_subscriber /\
  exists s2, runTimer 10000 sample_waiting = Ret s2 /\
             emitted s2 = emitted sample_waiting ++ [var_ (new_PartialEvent f64_zero sample_in_ports)] /\
             partialData_ s2 = None /\ remainingRawData_ s2 = [].
Proof.
  apply (packet_timer_not_restarted (take 4 sample_packet) sample_subscriber sample_waiting 10000
           (new_PartialEvent f64_zero sample_in_ports)).
  - vm_compute. reflexivity.
  - reflexivity.
  - vm_compute. discriminate.
Defined.

Definition sample_event : list Variable_t :=
  [ {| id_ := (fmiTypeInteger, 0); data_ := AnyInteger 3 |}; {| id_ := (fmiTypeInteger, 9); data_ := AnyInteger 4 |} ].

Lemma eventTriggered_correct_witness :
  exists p', eventTriggered sample_event sample_publisher =
      Ret (p', Some (concat (map (fun o => value_bytes (data_ o)) (outputVariables_ p')))) /\
    outputVariables_ p' = map (updated sample_event) (outputVariables_ sample_publisher) /\
    outputTypes_ p' = [LREAL; BOOL; STRING; DINT] /\ publisher_ok p'.
Proof.
  apply (eventTriggered_correct sample_event sample_publisher).
  - exact sample_publisher_ok.
  - repeat constructor.
  - rewrite list_elem_of_In. intros [|[|[|[|[]]]]]; discriminate.
Defined.

Definition sample_real_publisher : CompactASN1Publisher := {|
  outputVariables_ := [ {| id_ := (fmiTypeReal, 0); data_ := AnyReal 0 |} ]; outputTypes_ := [REAL];
|}.

Lemma real_encoding_undefined_witness :
  eventTriggered [ {| id_ := (fmiTypeReal, 0); data_ := AnyReal 1 |} ] sample_real_publisher = Fault UndefinedBehaviour.
Proof.
  apply real_encoding_undefined.
  - unfold publisher_ok, castable_output. repeat constructor.
  - repeat constructor.
  - left.
  - reflexivity.
Defined.

Definition sample_channel : TransmissionChannel (H := tree_ptree) := {|
  channelConfig_ := pt_empty; portIDs_ := [(fmiTypeReal, 0); (fmiTypeString, 0)];
  portConfig_ := [config_of [("encoding", "REAL")]; pt_empty];
|}.

Lemma publisher_init_correct_witness :
  wp (init sample_channel new_CompactASN1Publisher)
     (fun p => publisher_ok p /\ map id_ (outputVariables_ p) = portIDs_ sample_channel)
     (fun x => exists e, x = ExnSystemConfiguration e).
Proof.
  apply (publisher_init_correct sample_channel).
  - reflexivity.
  - repeat constructor; discriminate.
Defined.
