(* ===== verification/EventDispatcher.v ===== *)
(** * The event dispatcher (src/timing/EventDispatcher.cpp)

    The main loop: ask the predictor for the next event, queue it, take the next
    event from the queue, hand it to every listener, until the stop time.  The
    queue (include/timing/EventQueue.h), the predictor
    (include/model/AbstractEventPredictor.h) and the listeners
    (include/timing/EventListener.h) are interfaces. *)

From S2P Require Import Prelude Float64 BaseExceptions PropertyTree ApplicationContext.
From S2P Require Import Event TimedEventQueue.

Local Open Scope Z_scope.

Definition PROP_STOP_TIME : string := "app.stopTime".

(** The class [EventQueue].  [C] is what the queue reads the clock from when it
    starts, [S] what happens while a thread waits in [get].  [Ret None] means that
    the caller is still blocked. *)
Class EventQueue (Q E C S : Type) := {
  q_new : C -> Q;
  q_initStartTimeNow : fmiTime -> C -> Q -> result Q;
  q_add : E -> bool -> Q -> result (option Q);
  q_pushExternalEvent : E -> Q -> result (option Q);
  q_get : S -> Q -> result (option (E * Q * S));
  (** the external events that arrive in [S] *)
  q_arrivals : S -> list E;
}.

(** What a queue promises: an external event is delivered once or still pending, and any
    other event that is delivered is a prediction it holds, which it then gives up. *)
Class EventQueueLaws (Q E C S : Type) `{EventQueue Q E C S} := {
  q_pending : Q -> list E;
  q_foretold : Q -> list E;
  q_new_pending c start c' q :
    q_initStartTimeNow start c' (q_new c) = Ret q -> q_pending q = [] /\ q_foretold q = [];
  q_push_pending ev q q' :
    q_pushExternalEvent ev q = Ret (Some q') ->
    q_pending q' ≡ₚ ev :: q_pending q /\ q_foretold q' ⊆+ q_foretold q;
  q_add_pending ev q q' :
    q_add ev true q = Ret (Some q') -> q_pending q' ≡ₚ q_pending q /\ q_foretold q' ⊆+ ev :: q_foretold q;
  q_get_pending s q ev q' s' :
    q_get s q = Ret (Some (ev, q', s')) ->
    exists given fulfilled, [ev] = given ++ fulfilled /\
      q_pending q ++ q_arrivals s ≡ₚ given ++ q_pending q' ++ q_arrivals s' /\
      fulfilled ++ q_foretold q' ⊆+ q_foretold q;
}.

(** The class [AbstractEventPredictor], over the state [W] of the program outside
    the dispatcher. *)
Class AbstractEventPredictor (W E : Type) := {
  predictNext : W -> result (E * W);
  predictor_eventTriggered : E -> W -> result W;
}.

(** A listener: its [eventTriggered]. *)
Definition EventListener (W E : Type) : Type := E -> W -> result W.

Section Dispatcher.
Context {W Q E C S : Type} `{TimedEvent E} `{EventQueue Q E C S} `{!AbstractEventPredictor W E}.

Record EventDispatcher := {
  theEnd_ : fmiTime;
  queue : Q;
  listener_ : list (EventListener W E);
  timingLogger_ : list (E * ProcessingStage);
}.

Definition set_dispatcher_queue (q : Q) (d : EventDispatcher) : EventDispatcher :=
  {| theEnd_ := theEnd_ d; queue := q; listener_ := listener_ d; timingLogger_ := timingLogger_ d |}.

Definition logEvent (ev : E) (s : ProcessingStage) (d : EventDispatcher) : EventDispatcher :=
  {| theEnd_ := theEnd_ d; queue := queue d; listener_ := listener_ d;
     timingLogger_ := timingLogger_ d ++ [(ev, s)] |}.

(** The queue as an event sink. *)
Definition getEventSink (d : EventDispatcher) : Q := queue d.

Definition addEventListener (l : EventListener W E) (d : EventDispatcher) : EventDispatcher :=
  {| theEnd_ := theEnd_ d; queue := queue d; listener_ := listener_ d ++ [l];
     timingLogger_ := timingLogger_ d |}.

(** The constructor registers the predictor as the first listener. *)
Definition new_EventDispatcher `{PropertyTree} (context : ApplicationContext) (clock : C)
    : result EventDispatcher :=
  let* theEnd := getProperty_def tr_double context PROP_STOP_TIME f64_DBL_MAX in
  Ret (addEventListener predictor_eventTriggered
         {| theEnd_ := theEnd; queue := q_new clock; listener_ := []; timingLogger_ := [] |}).

Definition processEvent (ev : E) (d : EventDispatcher) (w : W) : result (EventDispatcher * W) :=
  let d1 := logEvent ev beginOfDistribution d in
  let* w' := foldlM (fun w l => l ev w) w (listener_ d1) in
  Ret (logEvent ev endOfDistribution d1, w').

Definition dispatcher_initStartTimeNow `{PropertyTree} (context : ApplicationContext) (clock : C)
    (d : EventDispatcher) : result EventDispatcher :=
  let* start := getProperty tr_double context PROP_START_TIME in
  let* q := q_initStartTimeNow start clock (queue d) in
  Ret (set_dispatcher_queue q d).

(** One turn of the loop: the external events that other threads push before the
    prediction is added, and what happens while the dispatcher waits. *)
Record turn := { t_before : list E; t_during : S }.

Fixpoint push_all (evs : list E) (q : Q) : result (option Q) :=
  match evs with
  | [] => Ret (Some q)
  | ev :: evs' =>
      let* o := q_pushExternalEvent ev q in
      match o with Some q' => push_all evs' q' | None => Ret None end
  end.

(** The loop of [run].  Events that arrive after [get] has returned ([carry]) are
    pushed before the next prediction.  [Ret None]: the turns end while the dispatcher
    is still running. *)
Fixpoint run_loop (turns : list turn) (carry : list E) (d : EventDispatcher) (w : W)
    : result (option (EventDispatcher * W * list E)) :=
  match turns with
  | [] => Ret None
  | t :: turns' =>
      let* o := push_all (carry ++ t_before t) (queue d) in
      match o with
      | None => Ret None
      | Some q0 =>
          let* p := predictNext w in
          let d1 := logEvent p.1 prediction (set_dispatcher_queue q0 d) in
          let* o := q_add p.1 true (queue d1) in
          match o with
          | None => Ret None
          | Some q1 =>
              let* g := q_get (t_during t) q1 in
              match g with
              | None => Ret None
              | Some (nextEvent, q2, rest) =>
                  let* r := processEvent nextEvent (set_dispatcher_queue q2 d1) p.2 in
                  if (getTime nextEvent <? theEnd_ r.1)%f64
                  then run_loop turns' (q_arrivals rest) r.1 r.2
                  else Ret (Some (r.1, r.2, q_arrivals rest))
              end
          end
      end
  end.

Definition run `{PropertyTree} (context : ApplicationContext) (clock : C) (turns : list turn)
    (d : EventDispatcher) (w : W) : result (option (EventDispatcher * W * list E)) :=
  let* d1 := dispatcher_initStartTimeNow context clock d in
  run_loop turns [] d1 w.

(** ** What was distributed *)

(** The events of the log at a stage. *)
Definition at_stage (s : ProcessingStage) (log : list (E * ProcessingStage)) : list E :=
  omap (fun x => if decide (x.2 = s) then Some x.1 else None) log.

Definition distributed (d : EventDispatcher) : list E := at_stage beginOfDistribution (timingLogger_ d).

(** What the predictor has predicted. *)
Definition predicted (d : EventDispatcher) : list E := at_stage prediction (timingLogger_ d).

Lemma at_stage_app s l1 l2 : at_stage s (l1 ++ l2) = at_stage s l1 ++ at_stage s l2.
Proof. apply omap_app. Qed.

Lemma processEvent_predicted ev d w d' w' : processEvent ev d w = Ret (d', w') -> predicted d' = predicted d.
Proof.
  unfold processEvent. intros (w1 & _ & [= <- <-])%obind_Ret_inv. unfold predicted, logEvent. cbn [timingLogger_].
  rewrite !at_stage_app. cbn. by rewrite !app_nil_r.
Qed.

Lemma predicted_logged ev d : predicted (logEvent ev prediction d) = predicted d ++ [ev].
Proof. unfold predicted, logEvent. cbn [timingLogger_]. by rewrite at_stage_app. Qed.

Lemma processEvent_inv ev d w d' w' :
  processEvent ev d w = Ret (d', w') ->
  distributed d' = distributed d ++ [ev] /\ theEnd_ d' = theEnd_ d /\ queue d' = queue d /\
  listener_ d' = listener_ d /\ foldlM (fun w l => l ev w) w (listener_ d) = Ret w'.
Proof.
  unfold processEvent. intros (w1 & Hw & [= <- <-])%obind_Ret_inv.
  split_and!; try done. unfold distributed, logEvent. cbn [timingLogger_].
  rewrite !at_stage_app. cbn. by rewrite app_nil_r.
Qed.

Lemma distributed_prediction q q0 ev d :
  distributed (set_dispatcher_queue q (logEvent ev prediction (set_dispatcher_queue q0 d))) = distributed d.
Proof.
  unfold distributed, logEvent, set_dispatcher_queue. cbn [timingLogger_]. rewrite at_stage_app.
  cbn. by rewrite app_nil_r.
Qed.

(** A turn that distributes an event. *)
Lemma run_loop_turn t turns carry d w r :
  run_loop (t :: turns) carry d w = Ret (Some r) ->
  exists q0 ev0 w1 q1 ev q2 rest d' w',
    push_all (carry ++ t_before t) (queue d) = Ret (Some q0) /\
    predictNext w = Ret (ev0, w1) /\ q_add ev0 true q0 = Ret (Some q1) /\
    q_get (t_during t) q1 = Ret (Some (ev, q2, rest)) /\
    foldlM (fun w l => l ev w) w1 (listener_ d) = Ret w' /\
    distributed d' = distributed d ++ [ev] /\ predicted d' = predicted d ++ [ev0] /\
    theEnd_ d' = theEnd_ d /\ queue d' = q2 /\ listener_ d' = listener_ d /\
    (if (getTime ev <? theEnd_ d)%f64 then run_loop turns (q_arrivals rest) d' w' = Ret (Some r)
     else r = (d', w', q_arrivals rest)).
Proof.
  cbn [run_loop]. intros (o & Hpush & Hr)%obind_Ret_inv. destruct o as [q0|]; [|done].
  apply obind_Ret_inv in Hr as ([ev0 w1] & Hp & Hr). cbn [fst snd] in Hr.
  apply obind_Ret_inv in Hr as (o & Ha & Hr). destruct o as [q1|]; [|done].
  apply obind_Ret_inv in Hr as (g & Hg & Hr). destruct g as [[[ev q2] rest]|]; [|done].
  apply obind_Ret_inv in Hr as ([d' w'] & Hpr & Hr). cbn [fst snd] in Hr.
  pose proof (processEvent_predicted _ _ _ _ _ Hpr) as Hpd.
  apply processEvent_inv in Hpr as (Hd & He & Hq & Hl & Hw).
  rewrite distributed_prediction in Hd. change (predicted d' = predicted (logEvent ev0 prediction d)) in Hpd.
  rewrite predicted_logged in Hpd. cbn in He, Hq, Hl, Hw. exists q0, ev0, w1, q1, ev, q2, rest, d', w'.
  split_and!; try done. rewrite He in Hr. destruct (getTime ev <? theEnd_ d)%f64; [done|by injection Hr as <-].
Qed.

(** The events of a run: some before the stop time, and a last one that is not. *)
Lemma run_loop_stops turns carry d w d' w' carry' :
  run_loop turns carry d w = Ret (Some (d', w', carry')) ->
  exists evs last, distributed d' = distributed d ++ evs ++ [last] /\
    Forall (fun ev => (getTime ev <? theEnd_ d)%f64 = true) evs /\ (getTime last <? theEnd_ d)%f64 = false.
Proof.
  revert carry d w; induction turns as [|t turns IH]; intros carry d w; [done|].
  intros (q0 & ev0 & w1 & q1 & ev & q2 & rest & d1 & w2 & _ & _ & _ & _ & _ & Hd & _ & He & _ & _ & Hr)%run_loop_turn.
  destruct (getTime ev <? theEnd_ d)%f64 eqn:Ht.
  - destruct (IH _ _ _ Hr) as (evs & last & Hd' & Hall & Hlast). rewrite He in *.
    exists (ev :: evs), last. rewrite Hd', Hd, <- (assoc_L (++)). split_and!; [done|by constructor|done].
  - injection Hr as -> -> ->. exists [], ev. split_and!; [done|constructor|done].
Qed.

(** The dispatcher runs until the stop time.  When [run] returns, the events
    distributed are some events before the stop time and one last event that is not:
    the first event at or after the stop time is still distributed, and none
    follows it. *)
Theorem run_stops_at_end turns carry d w d' w' carry' :
  run_loop turns carry d w = Ret (Some (d', w', carry')) ->
  exists evs last, distributed d' = distributed d ++ evs ++ [last] /\
    Forall (fun ev => (getTime ev <? theEnd_ d)%f64 = true) evs /\ (getTime last <? theEnd_ d)%f64 = false.
Proof. apply run_loop_stops. Qed.

(** What the predictor keeps and every distribution carries on holds at the end, for
    the events distributed. *)
Lemma run_tracks (R : list E -> W -> Prop) turns carry d w d' w' carry' :
  (forall evs w ev w1, R evs w -> predictNext w = Ret (ev, w1) -> R evs w1) ->
  (forall evs w ev w1, R evs w -> foldlM (fun w l => l ev w) w (listener_ d) = Ret w1 -> R (evs ++ [ev]) w1) ->
  R (distributed d) w -> run_loop turns carry d w = Ret (Some (d', w', carry')) -> R (distributed d') w'.
Proof.
  intros Hp. revert carry d w; induction turns as [|t turns IH]; intros carry d w Hl Hw; [done|].
  intros (q0 & ev0 & w1 & q1 & ev & q2 & rest & d1 & w2 & _ & Hpred & _ & _ & Hproc & Hd & _ & _ & _ & Hlis & Hr)%run_loop_turn.
  assert (Hw2 : R (distributed d1) w2) by (rewrite Hd; eauto).
  destruct (getTime ev <? theEnd_ d)%f64.
  - apply (IH _ d1 w2 ltac:(by rewrite Hlis) Hw2 Hr).
  - by injection Hr as -> -> ->.
Qed.

(** The protocol between the dispatcher, the predictor and the listeners.  If
    the predictor answers [predictNext] from its idle states, and distributing any
    event leads from the states behind a prediction back to idle states, then the
    dispatcher never asks in another state: [run] ends idle, and no call was out of
    turn. *)
Theorem run_protocol (idle : W -> Prop) (predicted : W -> Prop) turns carry d w d' w' carry' :
  (forall w ev w1, idle w -> predictNext w = Ret (ev, w1) -> predicted w1) ->
  (forall w ev w1, predicted w -> foldlM (fun w l => l ev w) w (listener_ d) = Ret w1 -> idle w1) ->
  idle w -> run_loop turns carry d w = Ret (Some (d', w', carry')) -> idle w' /\ listener_ d' = listener_ d.
Proof.
  intros Hp Hl. revert carry d w Hl; induction turns as [|t turns IH]; intros carry d w Hl Hw; [done|].
  intros (q0 & ev0 & w1 & q1 & ev & q2 & rest & d1 & w2 & _ & Hpred & _ & _ & Hproc & _ & _ & _ & _ & Hlis & Hr)%run_loop_turn.
  assert (Hw2 : idle w2) by eauto.
  destruct (getTime ev <? theEnd_ d)%f64.
  - rewrite <- Hlis. apply (IH _ d1 w2 ltac:(by rewrite Hlis) Hw2 Hr).
  - by injection Hr as -> -> ->.
Qed.

Context `{!EventQueueLaws Q E C S}.

Lemma push_all_pending evs q q' :
  push_all evs q = Ret (Some q') -> q_pending q' ≡ₚ q_pending q ++ evs /\ q_foretold q' ⊆+ q_foretold q.
Proof.
  revert q; induction evs as [|ev evs IH]; intros q; cbn.
  - intros [= <-]. by rewrite app_nil_r.
  - intros (o & Ho & Hr)%obind_Ret_inv. destruct o as [q1|]; [|done].
    destruct (IH _ Hr) as [-> Hf], (q_push_pending _ _ _ Ho) as [-> Hf1].
    split; [cbn; by rewrite Permutation_middle|by etrans].
Qed.

(** All external events of a list of turns. *)
Definition turn_arrivals (turns : list turn) : list E :=
  concat (map (fun t => t_before t ++ q_arrivals (t_during t)) turns).

(** C18: the dispatcher neither loses, repeats nor invents an event.  The events it has
    distributed in a run are, event for event, external events and predictions.  The
    external events that were pending or arrived during the turns it used are those
    distributed, each as often as it came, together with those still in the queue and
    those that arrived after the last [get].  The predictions distributed, and those still
    in the queue, are among the predictions of the run and those the queue held before,
    none of them twice. *)
Theorem run_conserves_events turns carry d w d' w' carry' :
  run_loop turns carry d w = Ret (Some (d', w', carry')) ->
  exists used evs news given fulfilled,
    used `prefix_of` turns /\ distributed d' = distributed d ++ evs /\ predicted d' = predicted d ++ news /\
    evs ≡ₚ given ++ fulfilled /\
    q_pending (queue d) ++ carry ++ turn_arrivals used ≡ₚ given ++ q_pending (queue d') ++ carry' /\
    fulfilled ++ q_foretold (queue d') ⊆+ q_foretold (queue d) ++ news.
Proof.
  revert carry d w; induction turns as [|t turns IH]; intros carry d w; [done|].
  intros (q0 & ev0 & w1 & q1 & ev & q2 & rest & d1 & w2 & Hpush & _ & Hadd & Hget & _ & Hd & Hnew & _ & Hq & _ & Hr)%run_loop_turn.
  apply push_all_pending in Hpush as [Hpush Hf0]. apply q_add_pending in Hadd as [Hadd Hf1].
  destruct (q_get_pending _ _ _ _ _ Hget) as (given & fulfilled & Hev & Hperm & Hf2).
  assert (Hstep : q_pending (queue d) ++ carry ++ t_before t ++ q_arrivals (t_during t) ≡ₚ
                  given ++ q_pending (queue d1) ++ q_arrivals rest).
  { rewrite Hq, <- Hperm, Hadd, Hpush. by rewrite <- !(assoc_L (++)). }
  assert (Hfor : fulfilled ++ q_foretold (queue d1) ⊆+ ev0 :: q_foretold (queue d)).
  { rewrite Hq. etrans; [exact Hf2|]. etrans; [exact Hf1|]. by apply submseteq_skip. }
  destruct (getTime ev <? theEnd_ d)%f64.
  - destruct (IH _ _ _ Hr) as (used & evs & news & given' & fulfilled' & Hused & Hd' & Hnew' & Hsplit & Hp & Hf).
    exists (t :: used), (ev :: evs), (ev0 :: news), (given ++ given'), (fulfilled ++ fulfilled'). split_and!.
    + by apply prefix_cons.
    + by rewrite Hd', Hd, <- (assoc_L (++)).
    + by rewrite Hnew', Hnew, <- (assoc_L (++)).
    + change (ev :: evs) with ([ev] ++ evs). rewrite Hev, Hsplit. solve_Permutation.
    + unfold turn_arrivals in *. cbn [map concat]. rewrite <- (assoc_L (++) given), <- Hp, !(assoc_L (++)).
      apply Permutation_app_tail. rewrite <- !(assoc_L (++)). exact Hstep.
    + rewrite <- (assoc_L (++)). etrans; [by apply submseteq_skips_l, Hf|]. rewrite (assoc_L (++)).
      etrans; [by apply submseteq_skips_r, Hfor|]. by rewrite <- Permutation_middle.
  - injection Hr as -> -> ->. exists [t], [ev], [ev0], given, fulfilled.
    split_and!; [by apply prefix_cons, prefix_nil|done|done|by rewrite Hev| |].
    + unfold turn_arrivals. cbn. rewrite app_nil_r. exact Hstep.
    + etrans; [exact Hfor|]. by rewrite <- Permutation_cons_append.
Qed.

End Dispatcher.

Arguments EventDispatcher W Q E : clear implicits.
Arguments turn E S : clear implicits.

(** ** The timed event queue as the dispatcher's queue *)

From S2P Require Import TimedEventQueueSpec.

Section TimedInstance.
Context {E : Type} `{TimedEvent E} `{PosixTime}.

#[export] Instance timed_EventQueue : EventQueue (TimedEventQueue E) E ptime (list (sched_action (E := E))) := {
  q_new := new_TimedEventQueue;
  q_initStartTimeNow start now q := initStartTimeNow start now q;
  q_add := add;
  q_pushExternalEvent := pushExternalEvent;
  q_get := get;
  q_arrivals := arrivals;
}.

Lemma push_timed ev (q q' : TimedEventQueue E) :
  pushExternalEvent ev q = Ret (Some q') ->
  externals q' ≡ₚ ev :: externals q /\ predictions (queue_ q') ⊆+ predictions (queue_ q).
Proof.
  unfold pushExternalEvent. destruct (negb _); [done|]. intros Ha. split; [by destruct (add_externals _ _ _ _ Ha)|].
  apply add_queue, predictions_submseteq in Ha. by rewrite predictions_cons in Ha.
Qed.

Lemma get_pending sched (q : TimedEventQueue E) ev q' rest :
  get sched q = Ret (Some (ev, q', rest)) ->
  exists given fulfilled, [ev] = given ++ fulfilled /\
    externals q ++ arrivals sched ≡ₚ given ++ externals q' ++ arrivals rest /\
    fulfilled ++ predictions (queue_ q') ⊆+ predictions (queue_ q).
Proof.
  revert q; induction sched as [|a sched IH]; intros q; cbn [get].
  { by destruct (negb _). }
  destruct (negb (initialized_ q)); [done|]. destruct a as [now|e].
  - intros (st & Hst & Hr)%obind_Ret_inv. destruct st as [|t|ev0 q0].
    + by apply IH.
    + by apply IH.
    + injection Hr as -> -> ->. apply get_step_head in Hst as [b Hq].
      unfold externals. rewrite Hq, filter_cons, predictions_cons. destruct b; cbn.
      * by exists [], [ev].
      * by exists [ev], [].
  - intros (o & Ho & Hr)%obind_Ret_inv. destruct o as [q1|]; [|done].
    destruct (IH _ Hr) as (given & fulfilled & Hev & Hp & Hf).
    destruct (push_timed e q q1 Ho) as [He Hf1]. exists given, fulfilled. split_and!; [done| |by etrans].
    rewrite <- Hp, He. cbn. by rewrite Permutation_middle.
Qed.

#[export] Instance timed_EventQueueLaws :
  EventQueueLaws (TimedEventQueue E) E ptime (list (sched_action (E := E))).
Proof.
  refine {| q_pending := externals; q_foretold q := predictions (queue_ q) |}.
  - intros c start c' q Hi. cbn in Hi. unfold initStartTimeNow in Hi. cbn in Hi.
    apply obind_Ret_inv in Hi as (d & _ & Hi). by inv_ret.
  - intros ev q q'. apply push_timed.
  - intros ev q q' Ha. split; [by destruct (add_externals _ _ _ _ Ha)|].
    apply add_queue, predictions_submseteq in Ha. by rewrite predictions_cons in Ha.
  - intros s q ev q' s' Hg. by apply (get_pending s q ev q' s').
Defined.

End TimedInstance.

(** ** Runs without external events *)

Section Quiet.
Context {W E : Type} `{TimedEvent E} `{PosixTime} `{!AbstractEventPredictor W E}.

(** The predictor and the listeners alone, for at most [n] events. *)
Fixpoint drive (n : nat) (theEnd : fmiTime) (ls : list (EventListener W E)) (w : W)
    : result (option (list E * W)) :=
  match n with
  | O => Ret None
  | S n' =>
      let* p := predictNext w in
      let* w2 := foldlM (fun w l => l p.1 w) p.2 ls in
      if (getTime p.1 <? theEnd)%f64 then
        let* r := drive n' theEnd ls w2 in
        match r with Some (evs, w') => Ret (Some (p.1 :: evs, w')) | None => Ret None end
      else Ret (Some ([p.1], w2))
  end.

(** A turn in which the dispatcher wakes up at [now] and nothing else happens. *)
Definition quiet_turn (now : ptime) : turn E (list (sched_action (E := E))) :=
  {| t_before := []; t_during := [Wake now] |}.

Lemma add_to_empty (q : TimedEventQueue E) ev :
  initialized_ q = true -> queue_ q = [] -> add ev true q = Ret (Some (set_queue [(ev, true)] q)).
Proof.
  intros Hi Hq. unfold add, removeFuturPredictions, removeConcurrentPrediction, hasPriorEvents, push,
    isQueuePredictionConsistent. by rewrite Hi, Hq; cbn; rewrite Hq; cbn; rewrite Hq.
Qed.

Lemma get_due now (q : TimedEventQueue E) ev b :
  initialized_ q = true -> queue_ q = [(ev, b)] -> due now q ev ->
  get [Wake now] q = Ret (Some (ev, set_queue [] q, [])).
Proof.
  intros Hi Hq (t & Ht & Hd). cbn [get]. rewrite Hi. cbn [negb]. unfold get_step. rewrite Hq. cbn [fst].
  unfold isFutureEvent. rewrite Ht. cbn [obind]. by rewrite Hd.
Qed.

(** C20: without external events the dispatcher distributes exactly the predictions.
    With an empty queue and a wake-up at or after each predicted time, [run] returns
    after the same events, and with the same final state, as the predictor and the
    listeners run by themselves up to the first event at or after the stop time. *)
Theorem run_distributes_predictions nows (d : EventDispatcher W (TimedEventQueue E) E) w evs w' :
  initialized_ (queue d) = true -> queue_ (queue d) = [] ->
  drive (length nows) (theEnd_ d) (listener_ d) w = Ret (Some (evs, w')) ->
  Forall2 (fun ev now => due now (queue d) ev) evs (take (length evs) nows) ->
  exists d', run_loop (map quiet_turn nows) [] d w = Ret (Some (d', w', [])) /\
             distributed d' = distributed d ++ evs /\ queue_ (queue d') = [].
Proof.
  revert d w evs; induction nows as [|now nows IH]; intros d w evs Hi Hq; [done|].
  cbn [length drive]. intros ([ev w1] & Hp & Hr)%obind_Ret_inv. cbn [fst snd] in Hr.
  apply obind_Ret_inv in Hr as (w2 & Hw & Hr).
  destruct (processEvent ev (set_dispatcher_queue (set_queue [] (set_queue [(ev, true)] (queue d)))
              (logEvent ev prediction (set_dispatcher_queue (queue d) d))) w1) as [[d1 w2']| |] eqn:Hpr.
  2,3: unfold processEvent in Hpr; cbn [logEvent listener_ set_dispatcher_queue] in Hpr; by rewrite Hw in Hpr.
  pose proof (processEvent_inv _ _ _ _ _ Hpr) as (Hd & He & Hqd & Hl & Hw').
  rewrite distributed_prediction in Hd.
  cbn [logEvent listener_ set_dispatcher_queue theEnd_ queue] in *.
  rewrite Hw in Hw'. injection Hw' as ->.
  assert (Hturn : forall evs0, Forall2 (fun ev now => due now (queue d) ev) (ev :: evs0) (take (length (ev :: evs0)) (now :: nows)) ->
    run_loop (map quiet_turn (now :: nows)) [] d w =
    if (getTime ev <? theEnd_ d)%f64 then run_loop (map quiet_turn nows) [] d1 w2'
    else Ret (Some (d1, w2', []))).
  { intros evs0 Hf. apply Forall2_cons in Hf as [Hdue _]. cbn [map run_loop].
    unfold quiet_turn at 1. cbn [t_before t_during app push_all obind]. rewrite Hp. cbn [obind fst snd].
    cbn [queue logEvent set_dispatcher_queue q_add timed_EventQueue q_get q_arrivals].
    rewrite (add_to_empty _ _ Hi Hq). cbn [obind].
    rewrite (get_due now _ ev true); [|done|done|done]. cbn [obind]. rewrite Hpr. cbn [obind fst snd].
    rewrite He. done. }
  destruct (getTime ev <? theEnd_ d)%f64 eqn:Hend.
  - apply obind_Ret_inv in Hr as (r & Hr & Hrest). destruct r as [[evs0 w0]|]; [|done].
    injection Hrest as <- <-. intros Hf. rewrite (Hturn evs0 Hf).
    cbn [length take] in Hf. apply Forall2_cons in Hf as [_ Hf].
    destruct (IH d1 w2' evs0) as (d' & Hrun & Hd' & Hq'); [by rewrite Hqd|by rewrite Hqd|by rewrite He, Hl| |].
    + eapply Forall2_impl; [exact Hf|]. intros ev' now' Hdue. by rewrite Hqd.
    + exists d'. split; [exact Hrun|]. split; [|done]. by rewrite Hd', Hd, <- (assoc_L (++)).
  - injection Hr as <- <-. intros Hf. rewrite (Hturn [] Hf).
    exists d1. split; [done|]. split; [done|]. by rewrite Hqd.
Qed.

End Quiet.

(** ** A concrete run *)

(** A predictor that expects an event every 100 ms; its state is the number of the
    next one. *)
#[export] Instance counting_predictor : AbstractEventPredictor nat (nat * fmiTime) := {
  predictNext n := Ret ((n, ms (100 * Z.of_nat n)), n);
  predictor_eventTriggered ev n := Ret (if (ev.1 <? 100)%nat then S n else n);
}.

Definition sample_dispatcher : EventDispatcher nat (TimedEventQueue (nat * fmiTime)) (nat * fmiTime) :=
  addEventListener predictor_eventTriggered
    {| theEnd_ := ms 250; queue := started; listener_ := []; timingLogger_ := [] |}.

(** An external event at 50 ms arrives during the second wait. *)
Definition sample_turns : list (turn (nat * fmiTime) (list (sched_action (E := nat * fmiTime)))) :=
  [ {| t_before := []; t_during := [Wake (at_us 0)] |};
    {| t_before := []; t_during := [Wake (at_us 10); External (sample 101 50); Wake (at_us 60000)] |};
    {| t_before := []; t_during := [Wake (at_us 100000)] |};
    {| t_before := []; t_during := [Wake (at_us 200000)] |};
    {| t_before := []; t_during := [Wake (at_us 300000)] |} ].

Definition sample_final : EventDispatcher nat (TimedEventQueue (nat * fmiTime)) (nat * fmiTime) :=
  match run_loop sample_turns [] sample_dispatcher 0%nat with
  | Ret (Some (d, _, _)) => d
  | _ => sample_dispatcher
  end.

Example sample_distributed : map fst (distributed sample_final) = [0; 101; 1; 2; 3]%nat.
Proof. vm_compute. reflexivity. Qed.

Lemma sample_run : run_loop sample_turns [] sample_dispatcher 0%nat = Ret (Some (sample_final, 4%nat, [])).
Proof. vm_compute. reflexivity. Qed.

Lemma run_stops_at_end_witness :
  exists evs last, distributed sample_final = [] ++ evs ++ [last] /\
    Forall (fun ev => (getTime ev <? ms 250)%f64 = true) evs /\ (getTime last <? ms 250)%f64 = false.
Proof. exact (run_stops_at_end sample_turns [] sample_dispatcher 0%nat sample_final 4%nat [] sample_run). Defined.

Lemma run_conserves_events_witness :
  exists used evs news given fulfilled,
    used `prefix_of` sample_turns /\ distributed sample_final = distributed sample_dispatcher ++ evs /\
    predicted sample_final = predicted sample_dispatcher ++ news /\ evs ≡ₚ given ++ fulfilled /\
    q_pending (queue sample_dispatcher) ++ [] ++ turn_arrivals used ≡ₚ given ++ q_pending (queue sample_final) ++ [] /\
    fulfilled ++ q_foretold (queue sample_final) ⊆+ q_foretold (queue sample_dispatcher) ++ news.
Proof. exact (run_conserves_events sample_turns [] sample_dispatcher 0%nat sample_final 4%nat [] sample_run). Defined.

(** A predictor that asserts the protocol: its flag says that a prediction is out. *)
#[export] Instance strict_predictor : AbstractEventPredictor (nat * bool) (nat * fmiTime) := {
  predictNext w := assert_ (negb w.2) ;;; Ret ((w.1, ms (100 * Z.of_nat w.1)), (w.1, true));
  predictor_eventTriggered ev w := assert_ w.2 ;;; Ret (if (ev.1 <? 100)%nat then S w.1 else w.1, false);
}.

Definition strict_dispatcher : EventDispatcher (nat * bool) (TimedEventQueue (nat * fmiTime)) (nat * fmiTime) :=
  addEventListener predictor_eventTriggered
    {| theEnd_ := ms 250; queue := started; listener_ := []; timingLogger_ := [] |}.

Definition strict_final : EventDispatcher (nat * bool) (TimedEventQueue (nat * fmiTime)) (nat * fmiTime) :=
  match run_loop sample_turns [] strict_dispatcher (0%nat, false) with
  | Ret (Some (d, _, _)) => d
  | _ => strict_dispatcher
  end.

Lemma strict_run : run_loop sample_turns [] strict_dispatcher (0%nat, false) = Ret (Some (strict_final, (4%nat, false), [])).
Proof. vm_compute. reflexivity. Qed.

Lemma run_protocol_witness :
  (fun w : nat * bool => w.2 = false) (4%nat, false) /\ listener_ strict_final = listener_ strict_dispatcher.
Proof.
  apply (run_protocol (fun w => w.2 = false) (fun w => w.2 = true) sample_turns [] strict_dispatcher (0%nat, false)
           strict_final (4%nat, false) []).
  - intros [n b] ev w1 Hb Hp. cbn in Hb. subst b. cbn in Hp. by injection Hp as <- <-.
  - intros [n b] ev w1 Hb Hl. cbn in Hb. subst b. cbn in Hl. by injection Hl as <-.
  - reflexivity.
  - exact strict_run.
Defined.

Definition quiet_nows : list (@ptime micro_clock) := [at_us 0; at_us 100000; at_us 200000; at_us 300000; at_us 400000].

Lemma run_distributes_predictions_witness :
  exists d', run_loop (map quiet_turn quiet_nows) [] sample_dispatcher 0%nat = Ret (Some (d', 4%nat, [])) /\
    distributed d' = [] ++ [sample 0 0; sample 1 100; sample 2 200; sample 3 300] /\ queue_ (queue d') = [].
Proof.
  apply (run_distributes_predictions quiet_nows sample_dispatcher 0%nat).
  - reflexivity.
  - reflexivity.
  - vm_compute. reflexivity.
  - repeat constructor; (eexists; split; [vm_compute; reflexivity|vm_compute; reflexivity]).
Defined.
