(* ===== verification/DispatcherThreads.v ===== *)
(** * The dispatcher among the threads (src/timing/EventDispatcher.cpp, src/main.cpp)

    [EventDispatcher::run] as the main thread executes it while the subscribers push
    events: thread 0 of [QueueMonitor] belongs to the dispatcher, whose code calls the
    predictor, the queue and the listeners; between any two steps of it the other threads
    may make steps of their own.  The queue of the dispatcher is the one of the monitor. *)

From S2P Require Import Prelude Float64 BaseExceptions PropertyTree ApplicationContext.
From S2P Require Import Event TimedEventQueue QueueMonitor EventDispatcher.

Local Open Scope Z_scope.

Section Threads.
Context {W E : Type} `{TimedEvent E} `{PosixTime} `{!AbstractEventPredictor W E}.

(** What the loop of [run] does next, when the call of the queue it is in has returned. *)
Inductive run_point :=
  | NextPrediction     (** behind [initStartTimeNow] or at the head of the loop *)
  | Queued             (** [queue_->add] has been called *)
  | Asked              (** [queue_->get] has been called *)
  | Returned.

(** The queue is shared, so that of the dispatcher has no content of its own. *)
Record RunState := {
  monitor : Monitor E;
  dispatcher : EventDispatcher W unit E;
  world : W;
  next_ : run_point;
}.

Definition set_monitor (m : Monitor E) (s : RunState) : RunState :=
  {| monitor := m; dispatcher := dispatcher s; world := world s; next_ := next_ s |}.

(** The main thread is about to call [initStartTimeNow]; there are [n] other threads. *)
Definition new_RunState (n : nat) (start : fmiTime) (now : ptime) (d : EventDispatcher W unit E) (w : W) : RunState :=
  {| monitor := new_Monitor n start now; dispatcher := d; world := w; next_ := NextPrediction |}.

(** A call of the queue begins. *)
Definition call_queue (inp : input E) (t : thread E) (m : Monitor E) : Monitor E :=
  match called 0 inp with Some p => set_thread 0 (goto p t) m | None => m end.

(** The code of [run] between two calls of the queue. *)
Definition run_code (t : thread E) (s : RunState) : option (result RunState) :=
  match next_ s with
  | NextPrediction =>
      Some (let* p := predictNext (world s) in
            Ret {| monitor := call_queue (CallPredict p.1) t (monitor s);
                   dispatcher := EventDispatcher.logEvent p.1 prediction (dispatcher s);
                   world := p.2; next_ := Queued |})
  | Queued =>
      Some (Ret {| monitor := call_queue CallGet t (monitor s); dispatcher := dispatcher s;
                   world := world s; next_ := Asked |})
  | Asked =>
      match last (effects t) with
      | Some (OGet _ nextEvent) =>
          Some (let* r := processEvent nextEvent (dispatcher s) (world s) in
                Ret {| monitor := monitor s; dispatcher := r.1; world := r.2;
                       next_ := if (getTime nextEvent <? theEnd_ r.1)%f64 then NextPrediction else Returned |})
      | _ => None
      end
  | Returned => None
  end.

(** A step of the code of the dispatcher, or of a thread inside the queue; a subscriber
    calls the queue when it likes. *)
Inductive run_label :=
  | Code
  | InQueue (i : nat) (inp : input E).

Definition run_step (l : run_label) (s : RunState) : option (result RunState) :=
  match l with
  | Code =>
      match threads (monitor s) !! 0%nat with
      | Some t => match pc t with Idle => run_code t s | _ => None end
      | None => None
      end
  | InQueue _ (CallPredict _) | InQueue _ CallGet => None
  | InQueue i inp =>
      match monitor_step i inp (monitor s) with
      | Some r => Some (let* m := r in Ret (set_monitor m s))
      | None => None
      end
  end.

(** A schedule; steps that are not enabled are skipped. *)
Fixpoint run_steps (ls : list run_label) (s : RunState) : result RunState :=
  match ls with
  | [] => Ret s
  | l :: ls' =>
      match run_step l s with
      | None => run_steps ls' s
      | Some r => let* s' := r in run_steps ls' s'
      end
  end.

End Threads.

Arguments RunState W E {_}.
Arguments run_label E {_}.
