(* ===== verification/DispatcherRefinement.v ===== *)
(** * The dispatcher among the threads does what its sequential run does

    Every interleaving of the dispatcher with the subscribers is explained by a run of
    [EventDispatcher.run_loop], in which the events of the subscribers arrive between the
    operations of the dispatcher; so what is proved of [run_loop] holds for the threads. *)

From S2P Require Import Prelude Float64 BaseExceptions PropertyTree ApplicationContext.
From S2P Require Import Event TimedEventQueue TimedEventQueueSpec.
From S2P Require Import QueueMonitor QueueMonitorSpec QueueLinearizable EventDispatcher DispatcherThreads.

Local Open Scope Z_scope.

(** ** What a call of the queue is for *)

Section Errands.
Context {E : Type} `{TimedEvent E} `{PosixTime}.

Implicit Types (s : Monitor E) (t : thread E) (p : point E).

#[export] Instance idle_decision p : Decision (p = Idle).
Proof. destruct p; (by left) || by right. Defined.

(** What a thread has still to do before its call returns. *)
Inductive errand := Nothing | Initialise (start : fmiTime) | Log (ev : E) | Add (ev : E) (predicted : bool) | Get | Stamp.

Definition call_errand (k : continuation E) : errand :=
  match k with ThenLog ev => Log ev | ThenAdd ev b => Add ev b | ThenGet => Get | ThenStamp _ => Stamp end.

Definition errand_of p : errand :=
  match p with
  | InitCheck start | InitEpoch start | InitCorrect start _ | InitLock start _ | InitSet start _ => Initialise start
  | BarrierLock k | BarrierTest k | BarrierSleep k | BarrierAwake k | BarrierUnlock k => call_errand k
  | LogPush ev => Log ev
  | AddLock ev b | AddFuture ev b | AddPrior ev b | AddConcurrent ev b | AddPush ev b => Add ev b
  | GetLock | GetTest | GetSleep _ | GetAwake => Get
  | StampRead _ => Stamp
  | Idle | InitUnlock | AddNotify _ _ | AddUnlock _ _ | GetUnlock _ _ => Nothing
  end.

(** The operation that settles an errand, and what is left then. *)
Definition settles (e : errand) (op : operation E) : Prop :=
  match e, op with
  | Initialise start, OInit start' _ => start' = start
  | Log ev, OLog ev' => ev' = ev
  | Add ev b, OAdd ev' b' => ev' = ev /\ b' = b
  | Get, OGet _ _ => True
  | _, _ => False
  end.
Definition settled (e : errand) : errand := match e with Log ev => Add ev false | _ => Nothing end.

(** What a thread has done, its call included. *)
Definition deeds t : list (operation E) := effects t ++ pending (pc t).

(** A step inside a call: it goes on, or it settles the errand. *)
Definition goes_on t t' : Prop :=
  (errand_of (pc t') = errand_of (pc t) /\ deeds t' = deeds t) \/
  (exists op, settles (errand_of (pc t)) op /\ deeds t' = deeds t ++ [op] /\ errand_of (pc t') = settled (errand_of (pc t))) \/
  (errand_of (pc t) = Stamp /\ errand_of (pc t') = Nothing /\ deeds t' = deeds t).

Lemma woken_errand p p' : woken p p' -> errand_of p' = errand_of p /\ pending p' = pending p.
Proof. by intros []. Qed.

#[local] Ltac goes_silently Hpc := eexists; split; [own_lookup|left; unfold deeds; cbn; rewrite Hpc; cbn; rewrite ?app_nil_r; by split].
#[local] Ltac goes_settling Hpc op :=
  eexists; split; [own_lookup|right; left; exists op; unfold deeds; cbn; rewrite Hpc; cbn; rewrite ?app_nil_r; by split_and!].

Lemma init_goes_on i inp t s s' :
  threads s !! i = Some t -> init_step i inp t s = Some (Ret s') ->
  exists t', threads s' !! i = Some t' /\ goes_on t t'.
Proof.
  intros Ht Hs. unfold init_step, lock_access, done in Hs.
  destruct (pc t) eqn:Hpc; try discriminate Hs; destruct inp; try discriminate Hs.
  - injection Hs as Hs. inv_ret. goes_silently Hpc.
  - injection Hs as <-. goes_silently Hpc.
  - injection Hs as Hs. inv_ret. goes_silently Hpc.
  - destruct (accessMut_ s) in Hs; [discriminate|]. injection Hs as <-. goes_silently Hpc.
  - injection Hs as Hs. inv_ret. goes_settling Hpc (OInit start now : operation E).
  - injection Hs as <-. goes_silently Hpc.
Qed.

Lemma barrier_goes_on i inp t s s' :
  threads s !! i = Some t -> barrier_step i inp t s = Some (Ret s') ->
  exists t', threads s' !! i = Some t' /\ goes_on t t'.
Proof.
  intros Ht Hs. unfold barrier_step, lock_access, done in Hs.
  destruct (pc t) eqn:Hpc; try discriminate Hs; destruct inp; try discriminate Hs.
  - destruct (accessMut_ s) in Hs; [discriminate|]. injection Hs as <-. goes_silently Hpc.
  - destruct (initialized_ (timed s)) in Hs; injection Hs as <-; goes_silently Hpc.
  - injection Hs as <-. goes_silently Hpc.
  - destruct (accessMut_ s) in Hs; [discriminate|]. injection Hs as <-. goes_silently Hpc.
  - injection Hs as <-. destruct k; goes_silently Hpc.
Qed.

Lemma add_goes_on i inp t s s' :
  threads s !! i = Some t -> add_step i inp t s = Some (Ret s') ->
  exists t', threads s' !! i = Some t' /\ goes_on t t'.
Proof.
  intros Ht Hs. unfold add_step, lock_queue, done in Hs.
  destruct (pc t) eqn:Hpc; try discriminate Hs; destruct inp; try discriminate Hs.
  - injection Hs as <-. goes_settling Hpc (OLog ev).
  - destruct (queueMut_ s) in Hs; [discriminate|]. injection Hs as <-. goes_silently Hpc.
  - injection Hs as Hs. inv_ret. goes_silently Hpc.
  - destruct (_ && _) in Hs; injection Hs as <-; [goes_settling Hpc (OAdd ev predicted)|goes_silently Hpc].
  - injection Hs as Hs. inv_ret. goes_silently Hpc.
  - injection Hs as Hs. inv_ret. goes_settling Hpc (OAdd ev predicted).
  - injection Hs as <-. goes_silently Hpc.
  - injection Hs as <-. goes_silently Hpc.
Qed.

Lemma get_goes_on i inp t s s' :
  threads s !! i = Some t -> get_step_of i inp t s = Some (Ret s') ->
  exists t', threads s' !! i = Some t' /\ goes_on t t'.
Proof.
  intros Ht Hs. unfold get_step_of, lock_queue, done in Hs.
  destruct (pc t) eqn:Hpc; try discriminate Hs; destruct inp; try discriminate Hs; try destruct deadline; try discriminate Hs.
  - destruct (queueMut_ s) in Hs; [discriminate|]. injection Hs as <-. goes_silently Hpc.
  - injection Hs as Hs. apply obind_Ret_inv in Hs as ([| |ev q1] & _ & Hs); inv_ret; [goes_silently Hpc..|].
    goes_settling Hpc (OGet now ev).
  - destruct (pt_gtb _ now); [discriminate|]. injection Hs as <-. goes_silently Hpc.
  - injection Hs as <-. goes_silently Hpc.
  - injection Hs as <-. goes_silently Hpc.
  - destruct (queueMut_ s) in Hs; [discriminate|]. injection Hs as <-. goes_silently Hpc.
  - injection Hs as <-. goes_silently Hpc.
Qed.

(** A thread inside a call. *)
Lemma monitor_goes_on i inp t s s' :
  threads s !! i = Some t -> pc t <> Idle -> monitor_step i inp s = Some (Ret s') ->
  exists t', threads s' !! i = Some t' /\ goes_on t t'.
Proof.
  intros Ht Hidle Hs. unfold monitor_step in Hs. rewrite Ht in Hs.
  destruct (pc t) eqn:Hpc; eauto using init_goes_on, barrier_goes_on, add_goes_on, get_goes_on; [done|].
  unfold stamp_step in Hs. rewrite Hpc in Hs. destruct inp; try discriminate. injection Hs as <-.
  eexists. split; [own_lookup|]. right. right. unfold deeds. cbn. by rewrite Hpc.
Qed.

(** The other threads. *)
Lemma monitor_step_others i inp s s' : monitor_step i inp s = Some (Ret s') -> others i s s'.
Proof.
  unfold monitor_step. destruct (threads s !! i) as [t|] eqn:Ht; [|done].
  unfold init_step, barrier_step, add_step, get_step_of, stamp_step, lock_access, lock_queue, done.
  destruct (pc t) eqn:Hpc; intros Hs; repeat case_match; simplify_eq; inv_ret; try others_auto.
  destruct r; injection Hs as <-; others_auto.
Qed.

End Errands.
Arguments errand E : clear implicits.

(** ** Queues that hold the same events *)

Section SameEvents.
Context {E : Type} `{TimedEvent E} `{PosixTime}.

Implicit Types q : TimedEventQueue E.

(** The logs may differ in any way. *)
Record same_events q q' : Prop := {
  same_queue : queue_ q' = queue_ q;
  same_epoch : localEpoch_ q' = localEpoch_ q;
  same_initialized : initialized_ q' = initialized_ q;
}.

#[export] Instance same_events_equivalence : Equivalence same_events.
Proof. split; [by intros q|by intros q q' []|intros q1 q2 q3 [] []; split; congruence]. Qed.

#[export] Instance same_events_blind : LogBlind same_events.
Proof. split; [intros q q' []..|intros x q q' []|intros ev q q' []]; done. Qed.

Lemma logged_same l q q' : logged l q q' -> same_events q q'.
Proof. by intros []. Qed.

(** [add] of the sequential queue. *)
Lemma same_add ev b q q' q2 :
  same_events q' q -> add ev b q = Ret (Some q2) -> exists q2', add ev b q' = Ret (Some q2') /\ same_events q2' q2.
Proof.
  intros Hs Ha. pose proof (blind_add same_events ev b q' q Hs) as Ho. rewrite Ha in Ho.
  apply orel_Ret_l in Ho as (o & Ho & Hr). inversion Hr; subst. by eexists.
Qed.
Lemma same_add_fault ev b q q' f : same_events q' q -> add ev b q = Fault f -> add ev b q' = Fault f.
Proof.
  intros Hs Ha. pose proof (blind_add same_events ev b q' q Hs) as Ho. rewrite Ha in Ho. by apply orel_Fault_l in Ho.
Qed.

Lemma same_push ev q q' q2 :
  same_events q' q -> add ev false q = Ret (Some q2) ->
  exists q2', pushExternalEvent ev q' = Ret (Some q2') /\ same_events q2' q2.
Proof.
  intros Hs Ha. assert (Hi : initialized_ q' = true).
  { destruct (initialized_ q') eqn:Hi; [done|]. unfold add in Ha. by rewrite (same_initialized _ _ Hs), Hi in Ha. }
  unfold pushExternalEvent. rewrite Hi. apply (same_add ev false q); [|done]. split; cbn; [apply Hs..|]. rewrite <- Hi. apply Hs.
Qed.

Lemma same_deliver now q q' ev q2 :
  same_events q' q -> get_step now q = Ret (Deliver ev q2) ->
  exists q2', get_step now q' = Ret (Deliver ev q2') /\ same_events q2' q2.
Proof.
  intros Hs Hg. pose proof (blind_get_step same_events now q' q Hs) as Ho. rewrite Hg in Ho.
  apply orel_Ret_l in Ho as (st & Ho & Hr). inversion Hr; subst. by eexists.
Qed.
Lemma same_get_fault now q q' f : same_events q' q -> get_step now q = Fault f -> get_step now q' = Fault f.
Proof.
  intros Hs Hg. pose proof (blind_get_step same_events now q' q Hs) as Ho. rewrite Hg in Ho. by apply orel_Fault_l in Ho.
Qed.

(** [add] leaves at least one event. *)
Lemma push_scan_nonempty ev b old l r : push_scan ev b old l = Ret r -> r <> [].
Proof. intros Hr%push_scan_Permutation ->. by apply Permutation_nil_cons in Hr. Qed.

Lemma add_nonempty ev b q q' : add ev b q = Ret (Some q') -> queue_ q' <> [].
Proof.
  unfold add. destruct (negb (initialized_ q)); [discriminate|]. intros (q1 & _ & Hr)%obind_Ret_inv.
  destruct (b && hasPriorEvents (getTime ev) q1) eqn:Hb.
  - inv_ret. apply andb_prop in Hb as [_ Hb]. unfold hasPriorEvents in Hb. cbn. by destruct (queue_ q1).
  - apply obind_Ret_inv in Hr as (q2 & _ & Hr). apply obind_Ret_inv in Hr as (q3 & H3 & Hr).
    unfold push in H3. apply obind_Ret_inv in H3 as (? & _ & H3).
    apply obind_Ret_inv in H3 as (l & Hl%push_scan_nonempty & H3). by inv_ret.
Qed.
End SameEvents.

(** ** The dispatcher alone *)

(** The same dispatcher over another queue. *)
Definition at_queue {W Q Q' E} (q : Q') (d : EventDispatcher W Q E) : EventDispatcher W Q' E :=
  {| theEnd_ := theEnd_ d; queue := q; listener_ := listener_ d; timingLogger_ := timingLogger_ d |}.

Section Sequential.
Context {W E : Type} `{PropertyTree} `{TimedEvent E} `{PosixTime} `{!AbstractEventPredictor W E}.
Context (context : ApplicationContext) (start : fmiTime) (now : ptime).
Context (Hstart : getProperty tr_double context PROP_START_TIME = Ret start).
Context (d0 : EventDispatcher W unit E) (w0 : W).

Notation timed_turn := (turn E (list (sched_action (E := E)))).
Implicit Types (d : EventDispatcher W unit E) (w : W) (q : TimedEventQueue E) (turns : list timed_turn).

(** The run of the program with the events of the subscribers as its environment. *)
Definition sequential_run (clock : ptime) turns :
    result (option (EventDispatcher W (TimedEventQueue E) E * W * list E)) :=
  run context clock turns (at_queue (new_TimedEventQueue now) d0) w0.

(** The rest of a turn behind [get]. *)
Definition after_get d w turns (g : option (E * TimedEventQueue E * list (sched_action (E := E)))) :
    result (option (EventDispatcher W (TimedEventQueue E) E * W * list E)) :=
  match g with
  | None => Ret None
  | Some (ev, q, rest) =>
      let* r := processEvent ev (at_queue q d) w in
      if (getTime ev <? theEnd_ r.1)%f64 then run_loop turns (arrivals rest) r.1 r.2
      else Ret (Some (r.1, r.2, arrivals rest))
  end.

(** What the dispatcher has done: its operations on the queue and where they lead. *)
Inductive phase :=
  | Fresh
  | Next d w              (** at the head of the loop *)
  | Outstanding d w            (** a prediction has been added *)
  | Taken (ev : E) d w.    (** [get] has returned the event *)

Inductive acts : list (operation E) -> phase -> Prop :=
  | acts_none : acts [] Fresh
  | acts_init clock : acts [OInit start clock] (Next d0 w0)
  | acts_add l d w ev w' :
      acts l (Next d w) -> predictNext w = Ret (ev, w') ->
      acts (l ++ [OAdd ev true]) (Outstanding (EventDispatcher.logEvent ev prediction d) w')
  | acts_get l d w clock ev : acts l (Outstanding d w) -> acts (l ++ [OGet clock ev]) (Taken ev d w)
  | acts_process l d w ev d' w' :
      acts l (Taken ev d w) -> processEvent ev d w = Ret (d', w') -> (getTime ev <? theEnd_ d')%f64 = true ->
      acts l (Next d' w').

(** What the sequential run does from there, whatever follows, when [q] is the queue that
    the operations of all threads have left. *)
Definition explained (ph : phase) q : Prop :=
  match ph with
  | Fresh => q = new_TimedEventQueue now
  | Next d w => exists clock turns qb evs q',
      (forall more, sequential_run clock (turns ++ more) = run_loop more [] (at_queue qb d) w) /\
      push_all evs qb = Ret (Some q') /\ same_events q' q
  | Outstanding d w => queue_ q <> [] /\ exists clock turns before sched q',
      (forall during more,
         sequential_run clock (turns ++ {| t_before := before; t_during := sched ++ during |} :: more) =
         obind (get during q') (after_get d w more)) /\
      same_events q' q
  | Taken ev d w => exists clock turns qb evs q',
      (forall more, sequential_run clock (turns ++ more) = after_get d w more (Some (ev, qb, []))) /\
      push_all evs qb = Ret (Some q') /\ same_events q' q
  end.

(** An operation of a subscriber. *)
Definition external (op : operation E) : Prop :=
  match op with OLog _ | OAdd _ false => True | _ => False end.

Lemma push_all_snoc evs ev q q1 :
  push_all evs q = Ret (Some q1) -> push_all (evs ++ [ev]) q = pushExternalEvent ev q1.
Proof.
  revert q. induction evs as [|e evs IH]; intros q; cbn.
  - intros [= ->]. by destruct (pushExternalEvent ev q1) as [[]| |].
  - intros (o & -> & Hr)%obind_Ret_inv. cbn. destruct o as [q2|]; [by apply IH|done].
Qed.

Lemma explained_same ph q q2 :
  ph <> Fresh -> explained ph q -> same_events q q2 -> explained ph q2.
Proof.
  intros Hph He Hs. destruct ph as [|d w|d w|ev d w]; [done|..]; cbn in *.
  - destruct He as (clock & turns & qb & evs & q' & Hrun & Hp & Hq). exists clock, turns, qb, evs, q'.
    split_and!; [done..|]. by etrans.
  - destruct He as (Hne & clock & turns & before & sched & q' & Hrun & Hq). split; [by rewrite (same_queue _ _ Hs)|].
    exists clock, turns, before, sched, q'. split; [done|]. by etrans.
  - destruct He as (clock & turns & qb & evs & q' & Hrun & Hp & Hq). exists clock, turns, qb, evs, q'.
    split_and!; [done..|]. by etrans.
Qed.

(** Another thread's operation. *)
Lemma explained_external ph q op q2 : external op -> explained ph q -> executes q op q2 -> explained ph q2.
Proof.
  intros Hop He Hx. assert (Hi : initialized_ q = true).
  { inversion Hx as [| |ev b ? Ha|]; subst; try done.
    unfold add in Ha. by destruct (initialized_ q). }
  assert (Hph : ph <> Fresh) by (intros ->; cbn in He; by rewrite He in Hi).
  inversion Hx as [|ev|ev b ? Ha|]; subst; try done.
  { by apply (explained_same ph q); [..|split]. }
  destruct b; [done|]. destruct ph as [|d w|d w|ev' d w]; [done|..]; cbn in *.
  - destruct He as (clock & turns & qb & evs & q' & Hrun & Hp & Hq).
    destruct (same_push _ _ _ _ Hq Ha) as (q2' & Hp2 & Hq2).
    exists clock, turns, qb, (evs ++ [ev]), q2'. split_and!; [done| |done]. by rewrite (push_all_snoc _ _ _ _ Hp).
  - destruct He as (Hne & clock & turns & before & sched & q' & Hrun & Hq).
    destruct (same_push _ _ _ _ Hq Ha) as (q2' & Hp2 & Hq2). split; [by eapply add_nonempty|].
    exists clock, turns, before, (sched ++ [External ev]), q2'. split; [|done]. intros during more.
    rewrite <- (assoc_L (++)), Hrun. cbn [app get].
    assert (Hi' : initialized_ q' = true) by (rewrite <- Hi; symmetry; apply Hq). rewrite Hi'. cbn [negb].
    by rewrite Hp2.
  - destruct He as (clock & turns & qb & evs & q' & Hrun & Hp & Hq).
    destruct (same_push _ _ _ _ Hq Ha) as (q2' & Hp2 & Hq2).
    exists clock, turns, qb, (evs ++ [ev]), q2'. split_and!; [done| |done]. by rewrite (push_all_snoc _ _ _ _ Hp).
Qed.

(** ** The dispatcher's own operations *)

Lemma sequential_started clock q :
  initStartTimeNow start clock (new_TimedEventQueue now) = Ret q ->
  forall turns, sequential_run clock turns = run_loop turns [] (at_queue q d0) w0.
Proof. intros Hi turns. unfold sequential_run, run, dispatcher_initStartTimeNow. rewrite Hstart. cbn [obind queue at_queue q_initStartTimeNow timed_EventQueue]. by rewrite Hi. Qed.

Lemma explained_init clock q q2 :
  explained Fresh q -> initStartTimeNow start clock q = Ret q2 -> explained (Next d0 w0) q2.
Proof.
  intros -> Hi. exists clock, [], q2, [], q2. split_and!; [by apply sequential_started|done|done].
Qed.

(** At the head of the loop, the events that have arrived are pushed first. *)
Lemma next_turn d w q (r : result (option (EventDispatcher W (TimedEventQueue E) E * W * list E))) :
  explained (Next d w) q ->
  (forall before qb q' during more,
     push_all before qb = Ret (Some q') -> same_events q' q ->
     run_loop ({| t_before := before; t_during := during |} :: more) [] (at_queue qb d) w = r) ->
  exists clock turns, sequential_run clock turns = r.
Proof.
  intros (clock & turns & qb & evs & q' & Hrun & Hp & Hq) Hr.
  exists clock, (turns ++ [{| t_before := evs; t_during := [] |}]). rewrite Hrun. by eapply Hr.
Qed.

Lemma run_loop_pushed before during more d w q q' :
  push_all before q = Ret (Some q') ->
  run_loop ({| t_before := before; t_during := during |} :: more) [] (at_queue q d) w =
  let* p := predictNext w in
  let* o := add p.1 true q' in
  match o with
  | None => Ret None
  | Some q1 => obind (get during q1) (after_get (EventDispatcher.logEvent p.1 prediction d) p.2 more)
  end.
Proof.
  intros Hp. cbn [run_loop t_before t_during app queue at_queue]. rewrite Hp. cbn [obind].
  destruct (predictNext w) as [p| |]; cbn [obind]; [|done..]. cbn [q_add timed_EventQueue queue EventDispatcher.logEvent set_dispatcher_queue].
  destruct (add p.1 true q') as [[q1|]| |]; cbn [obind]; [|done..]. cbn [q_get timed_EventQueue q_arrivals].
  destruct (get during q1) as [[[[ev q2] rest]|]| |]; done.
Qed.

Lemma explained_add d w q ev w' q2 :
  explained (Next d w) q -> predictNext w = Ret (ev, w') -> add ev true q = Ret (Some q2) ->
  explained (Outstanding (EventDispatcher.logEvent ev prediction d) w') q2.
Proof.
  intros (clock & turns & qb & evs & q' & Hrun & Hp & Hq) Hpred Ha. split; [by eapply add_nonempty|].
  destruct (same_add _ _ _ _ _ Hq Ha) as (q2' & Ha2 & Hq2). exists clock, turns, evs, [], q2'. split; [|done].
  intros during more. by rewrite Hrun, (run_loop_pushed _ _ _ _ _ _ q'), Hpred by done; cbn [obind fst snd]; rewrite Ha2.
Qed.

Lemma explained_get d w q clock ev q2 :
  explained (Outstanding d w) q -> initialized_ q = true -> get_step clock q = Ret (Deliver ev q2) ->
  explained (Taken ev d w) q2.
Proof.
  intros (_ & clock' & turns & before & sched & q' & Hrun & Hq) Hi Hg.
  destruct (same_deliver _ _ _ _ _ Hq Hg) as (q2' & Hg2 & Hq2).
  exists clock', (turns ++ [{| t_before := before; t_during := sched ++ [Wake clock] |}]), q2', [], q2'.
  split_and!; [|done..]. intros more. rewrite <- (assoc_L (++)). cbn [app]. rewrite Hrun. cbn [get].
  assert (Hi' : initialized_ q' = true) by (rewrite <- Hi; symmetry; apply Hq). by rewrite Hi'; cbn [negb]; rewrite Hg2.
Qed.

(** [processEvent] does not look at the queue. *)
Lemma processEvent_at_queue ev q d w :
  processEvent ev (at_queue q d) w = let* r := processEvent ev d w in Ret (at_queue q r.1, r.2).
Proof. unfold processEvent. cbn. by destruct (foldlM (X:=exn) (fun w l => l ev w) w (listener_ d)). Qed.

Lemma explained_process ev d w q d' w' :
  explained (Taken ev d w) q -> processEvent ev d w = Ret (d', w') -> (getTime ev <? theEnd_ d')%f64 = true ->
  explained (Next d' w') q.
Proof.
  intros (clock & turns & qb & evs & q' & Hrun & Hp & Hq) Hev Hend. exists clock, turns, qb, evs, q'.
  split_and!; [|done..]. intros more. rewrite Hrun. cbn [after_get]. rewrite processEvent_at_queue, Hev. cbn.
  by rewrite Hend.
Qed.

(** ** All threads together *)

(** What every operation keeps; the operations of the other threads are [foreign]. *)
Record phase_invariant (I : phase -> TimedEventQueue E -> Prop) (foreign : operation E -> Prop) : Prop := {
  pi_fresh : I Fresh (new_TimedEventQueue now);
  pi_init clock q q2 : I Fresh q -> initStartTimeNow start clock q = Ret q2 -> I (Next d0 w0) q2;
  pi_add d w q ev w' q2 :
    I (Next d w) q -> predictNext w = Ret (ev, w') -> add ev true q = Ret (Some q2) ->
    I (Outstanding (EventDispatcher.logEvent ev prediction d) w') q2;
  pi_get d w q clock ev q2 :
    I (Outstanding d w) q -> initialized_ q = true -> get_step clock q = Ret (Deliver ev q2) -> I (Taken ev d w) q2;
  pi_process ev d w q d' w' :
    I (Taken ev d w) q -> processEvent ev d w = Ret (d', w') -> (getTime ev <? theEnd_ d')%f64 = true -> I (Next d' w') q;
  pi_foreign ph q op q2 : foreign op -> I ph q -> executes q op q2 -> I ph q2;
}.

Lemma acts_invariant I foreign ops q ph :
  phase_invariant I foreign ->
  execution (new_TimedEventQueue now) ops q -> Forall (fun x => x.1 <> 0%nat -> foreign x.2) ops ->
  acts (ops_of 0 ops) ph -> I ph q.
Proof.
  intros HI. remember (new_TimedEventQueue now) as q0 eqn:E0. intros Hex. revert ph.
  induction Hex as [q|q ops q1 i op q2 Hex IH Hop]; intros ph Hall Hacts; subst q.
  - remember (ops_of 0 []) as l eqn:El. induction Hacts; try (by destruct l); [apply HI|discriminate|].
    eapply pi_process; eauto.
  - apply Forall_app in Hall as [Hall Hi]. rewrite Forall_singleton in Hi. rewrite ops_of_app in Hacts.
    destruct (decide (i = 0%nat)) as [->|Hne].
    + change (ops_of 0 [(0%nat, op)]) with [op] in Hacts. remember (ops_of 0 ops ++ [op]) as l eqn:El.
      induction Hacts as [|clock|l d w ev w' Hl _ Hp|l d w clock ev Hl _|l d w ev d' w' Hl IHl Hp Hend].
      * by destruct (ops_of 0 ops).
      * assert (Hnil : ops_of 0 ops = [] /\ op = OInit start clock).
        { destruct (ops_of 0 ops) as [|? []]; simplify_eq/=; done. }
        destruct Hnil as [Hnil ->]. inversion Hop; subst. eapply pi_init; [done| |done].
        apply IH; [done..|]. rewrite Hnil. constructor.
      * apply app_inj_tail in El as [-> <-]. inversion Hop; subst. eapply pi_add; eauto.
      * apply app_inj_tail in El as [-> <-]. inversion Hop; subst. eapply pi_get; [done|by apply IH|done..].
      * eapply pi_process; eauto.
    + change [(i, op)] with (map (pair i) [op]) in Hacts. rewrite ops_of_other in Hacts by congruence. rewrite app_nil_r in Hacts.
      eapply pi_foreign; [done|by apply Hi|by apply IH|exact Hop].
Qed.

Lemma explained_invariant : phase_invariant explained external.
Proof.
  split; [done|by apply explained_init|by apply explained_add|by apply explained_get|by apply explained_process|].
  by apply explained_external.
Qed.
End Sequential.
