(* ===== verification/DispatcherThreadsSpec.v ===== *)
(** * What the program with all its threads does

    The invariant of the main thread among the subscribers, and the theorems: the threads
    together do what a sequential run of the dispatcher does, every event that is
    distributed has been predicted or pushed, and the dispatcher never waits without a
    deadline. *)

From S2P Require Import Prelude Float64 BaseExceptions PropertyTree ApplicationContext.
From S2P Require Import Event TimedEventQueue TimedEventQueueSpec.
From S2P Require Import QueueMonitor QueueMonitorSpec QueueLinearizable QueueProgress.
From S2P Require Import EventDispatcher DispatcherThreads DispatcherRefinement.

Local Open Scope Z_scope.

Section Threads.
Context {W E : Type} `{PropertyTree} `{TimedEvent E} `{PosixTime} `{!AbstractEventPredictor W E}.
Context (context : ApplicationContext) (start : fmiTime) (now : ptime).
Context (Hstart : getProperty tr_double context PROP_START_TIME = Ret start).
Context (d0 : EventDispatcher W unit E) (w0 : W).

Notation acts := (acts start d0 w0).
Notation explained := (explained context now d0 w0).
Notation sequential_run := (sequential_run context now d0 w0).
Implicit Types (s : RunState W E) (t : thread E) (d : EventDispatcher W unit E) (w : W) (q : TimedEventQueue E).

(** ** The invariant *)

(** Where the code of the dispatcher is, against what its thread has still to do and has
    done on the queue. *)
Definition point_ok (p : run_point) (e : errand E) (l : list (operation E)) d w : Prop :=
  match p with
  | NextPrediction => (e = Initialise start /\ l = [] /\ d = d0 /\ w = w0) \/ (e = Nothing /\ acts l (Next d w))
  | Queued =>
      (exists ev d1 w1, e = Add ev true /\ acts l (Next d1 w1) /\ predictNext w1 = Ret (ev, w) /\
         d = EventDispatcher.logEvent ev prediction d1) \/
      (e = Nothing /\ acts l (Outstanding d w))
  | Asked =>
      (e = Get /\ acts l (Outstanding d w)) \/
      (e = Nothing /\ exists clock ev, last l = Some (OGet clock ev) /\ acts l (Taken ev d w))
  | Returned =>
      e = Nothing /\ exists ev d1 w1, acts l (Taken ev d1 w1) /\ processEvent ev d1 w1 = Ret (d, w) /\
        (getTime ev <? theEnd_ d)%f64 = false
  end.

(** The call that the code waits for. *)
Lemma point_errand p e l d w :
  point_ok p e l d w ->
  match e with
  | Nothing => True
  | Initialise _ => p = NextPrediction
  | Add _ b => p = Queued /\ b = true
  | Get => p = Asked
  | Log _ | Stamp => False
  end.
Proof.
  destruct p; cbn; [intros [(-> & _)|[-> _]]|intros [(ev & d1 & w1 & -> & _)|[-> _]]|intros [[-> _]|[-> _]]|intros [-> _]]; done.
Qed.

Record main_ok s : Prop := {
  ro_monitor : monitor_ok (monitor s);
  ro_history : exists ops, history now ops (monitor s);
  ro_main : exists t, threads (monitor s) !! 0%nat = Some t /\
    point_ok (next_ s) (errand_of (pc t)) (deeds t) (dispatcher s) (world s);
  ro_others : forall i t, i <> 0%nat -> threads (monitor s) !! i = Some t -> Forall external (deeds t);
}.

Lemma point_goes_on p t t' d w :
  point_ok p (errand_of (pc t)) (deeds t) d w -> goes_on t t' -> point_ok p (errand_of (pc t')) (deeds t') d w.
Proof.
  intros Hp [[-> ->]|[(op & Hop & -> & ->)|(Hst & _)]]; [done| |].
  - destruct p; cbn in *.
    + destruct Hp as [(He & -> & -> & ->)|[He _]]; rewrite He in *; [|done].
      destruct op; try done. cbn in Hop. subst. right. split; [done|constructor].
    + destruct Hp as [(ev & d1 & w1 & He & Ha & Hpr & ->)|[He _]]; rewrite He in *; [|done].
      destruct op; try done. destruct Hop as [-> ->]. right. split; [done|by eapply acts_add].
    + destruct Hp as [[He Ha]|[He _]]; rewrite He in *; [|done].
      destruct op as [| | |clock ev]; try done. right. split; [done|]. exists clock, ev. rewrite last_snoc. split; [done|by constructor].
    + destruct Hp as [He _]. by rewrite He in Hop.
  - apply point_errand in Hp. by rewrite Hst in Hp.
Qed.

Lemma role_errand i (p : point E) (op : operation E) :
  i <> 0%nat -> role_ok i p = true -> settles (errand_of p) op -> external op.
Proof.
  intros Hi Hr Hs. destruct i as [|i]; [done|]. destruct p; cbn in *; try done;
    repeat match goal with k : continuation E |- _ => destruct k end; cbn in *; try done;
    destruct op; cbn in *; try done; destruct Hs as [-> ->]; by destruct predicted.
Qed.

(** A thread of a subscriber. *)
Lemma others_goes_on i t t' :
  i <> 0%nat -> role_ok i (pc t) = true -> goes_on t t' -> Forall external (deeds t) -> Forall external (deeds t').
Proof.
  intros Hi Hr [[_ ->]|[(op & Hop & -> & _)|(_ & _ & ->)]] Hall; [done| |done].
  apply Forall_app. split; [done|]. constructor; [by eapply role_errand|constructor].
Qed.

(** A step of a thread inside the queue, or the beginning of a call. *)
Lemma history_kept i inp (m m' : Monitor E) :
  monitor_ok m -> (exists ops, history now ops m) -> monitor_step i inp m = Some (Ret m') ->
  monitor_ok m' /\ exists ops, history now ops m'.
Proof.
  intros Hok [ops Hh] Hs. split; [by eapply monitor_step_ok|].
  destruct (history_step _ _ _ _ _ _ Hok Hh Hs) as [l Hl]. by eexists.
Qed.

Lemma others_kept j i inp (m m' : Monitor E) t' :
  monitor_step i inp m = Some (Ret m') -> j <> i -> threads m' !! j = Some t' ->
  exists t, threads m !! j = Some t /\ deeds t' = deeds t /\ errand_of (pc t') = errand_of (pc t).
Proof.
  intros [_ Ho]%monitor_step_others Hj Ht'. destruct (Ho j t' Hj Ht') as (t & Ht & He & _ & [Hw1 Hw2]%woken_errand).
  exists t. unfold deeds. by rewrite He, Hw2.
Qed.

Lemma idle_call i inp t (m : Monitor E) :
  threads m !! i = Some t -> pc t = Idle -> forall m', monitor_step i inp m = Some (Ret m') ->
  exists p, called i inp = Some p /\ m' = set_thread i (goto p t) m.
Proof.
  intros Ht Hpc m' Hs. unfold monitor_step in Hs. rewrite Ht, Hpc in Hs.
  destruct (called i inp) as [p|]; [|done]. injection Hs as <-. by exists p.
Qed.

Lemma called_pending i inp (p : point E) : called i inp = Some p -> pending p = [].
Proof. destruct inp, i; cbn; intros [= <-]; done. Qed.

(** The code of the dispatcher calls the queue. *)
Lemma call_queue_step inp p t (m : Monitor E) :
  threads m !! 0%nat = Some t -> pc t = Idle -> called 0 inp = Some p ->
  monitor_step 0 inp m = Some (Ret (call_queue inp t m)) /\
  threads (call_queue inp t m) !! 0%nat = Some (goto p t) /\ deeds (goto p t) = deeds t.
Proof.
  intros Ht Hpc Hp. unfold monitor_step, call_queue. rewrite Ht, Hpc, Hp. split_and!; [done|own_lookup|].
  unfold deeds. cbn. by rewrite Hpc, (called_pending _ _ _ Hp).
Qed.

Lemma queue_step_inv i inp s s' :
  run_step (InQueue i inp) s = Some (Ret s') ->
  (forall ev, inp <> CallPredict ev) /\ inp <> CallGet /\
  exists m', monitor_step i inp (monitor s) = Some (Ret m') /\ s' = set_monitor m' s.
Proof.
  intros Hs. destruct inp; try discriminate Hs; cbn [run_step] in Hs;
    destruct (monitor_step i _ (monitor s)) as [r|]; try discriminate Hs; injection Hs as Hs;
    apply obind_Ret_inv in Hs as (m' & -> & Hs); injection Hs as <-; split_and!; try done; by exists m'.
Qed.

Lemma main_ok_queue i inp s s' : main_ok s -> run_step (InQueue i inp) s = Some (Ret s') -> main_ok s'.
Proof.
  intros [Hm Hh (t & Ht & Hp) Hoth] (Hpred & Hget & m' & Hs & ->)%queue_step_inv.
  destruct (history_kept _ _ _ _ Hm Hh Hs) as [Hm' Hh']. split; [done..| |]; cbn [monitor set_monitor next_ dispatcher world].
  - destruct (decide (i = 0%nat)) as [->|Hi].
    + destruct (decide (pc t = Idle)) as [Hpc|Hpc].
      { destruct (idle_call _ _ _ _ Ht Hpc _ Hs) as (p & Hc & _). exfalso. destruct inp; cbn in Hc; try done; by eapply Hpred. }
      destruct (monitor_goes_on _ _ _ _ _ Ht Hpc Hs) as (t' & Ht' & Hg). exists t'. split; [done|]. by eapply point_goes_on.
    + pose proof (monitor_step_others _ _ _ _ Hs) as [Hdom _]. destruct (proj1 (Hdom 0%nat) ltac:(by eexists)) as [t' Ht'].
      destruct (others_kept 0 _ _ _ _ _ Hs ltac:(done) Ht') as (u & Hu & Hd & He). exists t'. split; [done|].
      replace u with t in * by congruence. by rewrite Hd, He.
  - intros j t' Hj Ht'. destruct (decide (i = j)) as [->|Hi].
    + pose proof (monitor_step_others _ _ _ _ Hs) as [Hdom _]. destruct (proj2 (Hdom j) ltac:(by eexists)) as [u Hu].
      destruct (ok_threads _ Hm _ _ Hu) as (_ & _ & Hr & _). destruct (decide (pc u = Idle)) as [Hpc|Hpc].
      * destruct (idle_call _ _ _ _ Hu Hpc _ Hs) as (p & Hc & ->).
        assert (t' = goto p u) as -> by (cbn in Ht'; rewrite list_lookup_insert_eq in Ht' by (by eapply lookup_lt_Some); congruence).
        specialize (Hoth j u Hj Hu). unfold deeds in *. cbn. by rewrite Hpc in Hoth; rewrite (called_pending _ _ _ Hc).
      * destruct (monitor_goes_on _ _ _ _ _ Hu Hpc Hs) as (t1 & Ht1 & Hg). replace t1 with t' in * by congruence.
        eapply others_goes_on; eauto.
    + destruct (others_kept j _ _ _ _ _ Hs ltac:(done) Ht') as (u & Hu & -> & _). eauto.
Qed.

(** A call by the code of the dispatcher. *)
Lemma main_ok_call (inp : input E) (p : point E) t d w (n : run_point) s :
  main_ok s -> threads (monitor s) !! 0%nat = Some t -> pc t = Idle -> called 0 inp = Some p ->
  point_ok n (errand_of (pc (goto p t))) (deeds t) d w ->
  main_ok {| monitor := call_queue inp t (monitor s); dispatcher := d; world := w; next_ := n |}.
Proof.
  intros [Hm Hh _ Hoth] Ht Hpc Hc Hp. destruct (call_queue_step _ _ _ _ Ht Hpc Hc) as (Hs & Ht' & Hd).
  destruct (history_kept _ _ _ _ Hm Hh Hs) as [Hm' Hh']. split; [done..| |]; cbn [monitor next_ dispatcher world].
  - exists (goto p t). split; [done|]. by rewrite Hd.
  - intros j u Hj Hu. destruct (others_kept j _ _ _ _ _ Hs ltac:(done) Hu) as (u0 & Hu0 & -> & _). eauto.
Qed.

Lemma main_ok_code s s' : main_ok s -> run_step Code s = Some (Ret s') -> main_ok s'.
Proof.
  intros Hok Hs. pose proof Hok as [Hm Hh (t & Ht & Hp) Hoth]. cbn [run_step] in Hs. rewrite Ht in Hs.
  destruct (pc t) eqn:Hpc; try discriminate Hs. unfold run_code in Hs.
  destruct (next_ s) eqn:Hn; cbn [point_ok errand_of] in Hp; [| | |done].
  - destruct Hp as [(He & _)|[_ Hp]]; [done|]. injection Hs as Hs.
    apply obind_Ret_inv in Hs as ([ev w'] & Hpred & [= <-]). cbn [fst snd].
    eapply main_ok_call; [done..|]. cbn. left. by exists ev, (dispatcher s), (world s).
  - destruct Hp as [(ev & d1 & w1 & He & _)|[_ Hp]]; [done|]. injection Hs as <-.
    eapply main_ok_call; [done..|]. cbn. by left.
  - destruct Hp as [(He & _)|(_ & clock & ev & Hl & Hp)]; [done|].
    assert (He : effects t = deeds t) by (unfold deeds; rewrite Hpc; cbn; by rewrite app_nil_r).
    rewrite He, Hl in Hs. injection Hs as Hs. apply obind_Ret_inv in Hs as ([d' w'] & Hpr & [= <-]). cbn [fst snd].
    split; [done..| |done]. exists t. split; [done|]. rewrite Hpc. cbn [errand_of next_ dispatcher world].
    destruct (getTime ev <? theEnd_ d')%f64 eqn:Hend; cbn.
    + right. split; [done|]. by eapply acts_process.
    + split; [done|]. by exists ev, (dispatcher s), (world s).
Qed.

Lemma main_ok_initial n : main_ok (new_RunState n start now d0 w0).
Proof.
  split; cbn.
  - apply initial_ok.
  - exists []. apply history_initial.
  - eexists. split; [done|]. left. by split_and!.
  - intros [|i] t Hi Ht; [done|]. cbn in Ht. apply lookup_replicate in Ht as [-> _]. constructor.
Qed.

Lemma main_ok_steps ls s s' : main_ok s -> run_steps ls s = Ret s' -> main_ok s'.
Proof.
  revert s. induction ls as [|l ls IH]; intros s Hok Hr; cbn in Hr; [by injection Hr as <-|].
  destruct (run_step l s) as [r|] eqn:Hs; [|by eapply IH]. apply obind_Ret_inv in Hr as (s1 & -> & Hr).
  eapply IH; [|exact Hr]. destruct l; [by eapply main_ok_code|by eapply main_ok_queue].
Qed.

(** ** The sequential run behind a state *)

Lemma history_others ops (m : Monitor E) (P : operation E -> Prop) :
  history now ops m -> (forall i t, i <> 0%nat -> threads m !! i = Some t -> Forall P (deeds t)) ->
  Forall (fun x => x.1 <> 0%nat -> P x.2) ops.
Proof.
  intros [Hids Hth _] Hoth. apply Forall_forall. intros [i op] Hin Hi.
  destruct (proj1 (Forall_forall _ _) Hids _ Hin) as [t Ht]. cbn [fst snd] in *.
  pose proof (Hoth i t Hi Ht) as Hall. unfold deeds in Hall. rewrite <- (Hth i t Ht) in Hall.
  apply (proj1 (Forall_forall _ _) Hall). unfold ops_of. apply list_elem_of_fmap. exists (i, op). split; [done|].
  by apply list_elem_of_filter.
Qed.

Lemma others_external ops s :
  main_ok s -> history now ops (monitor s) -> Forall (fun x => x.1 <> 0%nat -> external x.2) ops.
Proof. intros Hok Hh. eapply history_others; [done|by apply ro_others]. Qed.

Lemma run_explained s :
  main_ok s -> exists t q, threads (monitor s) !! 0%nat = Some t /\ standing now (monitor s) q /\
    point_ok (next_ s) (errand_of (pc t)) (deeds t) (dispatcher s) (world s) /\
    forall ph, acts (deeds t) ph -> explained ph q.
Proof.
  intros Hok. pose proof Hok as [Hm [ops Hh] (t & Ht & Hp) _]. pose proof Hh as [_ Hth (q & Hq & Hst)].
  exists t, q. split_and!; [done..|]. intros ph Ha.
  eapply (acts_invariant start now); [by apply explained_invariant|done|by eapply others_external|].
  unfold deeds in Ha. by rewrite (Hth 0%nat t Ht).
Qed.

Lemma idle_initialized s t :
  main_ok s -> threads (monitor s) !! 0%nat = Some t -> early (pc t) = false -> initialized_ (timed (monitor s)) = true.
Proof.
  intros Hok Ht Hpc. destruct (initialized_ (timed (monitor s))) eqn:Hi; [done|].
  destruct (ok_uninitialized _ (ro_monitor s Hok) Hi) as (_ & _ & u & Hu & He). congruence.
Qed.

(** The turn that fails. *)
Lemma predict_throws d w q x :
  explained (Next d w) q -> predictNext w = Throw x -> exists clock turns, sequential_run clock turns = Throw x.
Proof.
  intros He Hp. eapply next_turn; [exact He|]. intros. by rewrite (run_loop_pushed _ _ _ _ _ _ q'), Hp.
Qed.
Lemma predict_faults d w q f :
  explained (Next d w) q -> predictNext w = Fault f -> exists clock turns, sequential_run clock turns = Fault f.
Proof.
  intros He Hp. eapply next_turn; [exact He|]. intros. by rewrite (run_loop_pushed _ _ _ _ _ _ q'), Hp.
Qed.
Lemma add_ends d w q ev w' f :
  explained (Next d w) q -> predictNext w = Ret (ev, w') -> add ev true q = Fault f ->
  exists clock turns, sequential_run clock turns = Fault f.
Proof.
  intros He Hp Ha. eapply next_turn; [exact He|]. intros before qb q' during more Hpush Hq.
  rewrite (run_loop_pushed _ _ _ _ _ _ q'), Hp by done. cbn [obind fst snd].
  by rewrite (same_add_fault _ _ _ _ _ Hq Ha).
Qed.
Lemma get_ends d w q clock f :
  explained (Outstanding d w) q -> initialized_ q = true -> get_step clock q = Fault f ->
  exists clock turns, sequential_run clock turns = Fault f.
Proof.
  intros (_ & clock' & turns & before & sched & q' & Hrun & Hq) Hi Hg.
  exists clock', (turns ++ [{| t_before := before; t_during := sched ++ [Wake clock] |}]). rewrite Hrun. cbn [get].
  assert (Hi' : initialized_ q' = true) by (rewrite <- Hi; symmetry; apply Hq).
  by rewrite Hi'; cbn [negb]; rewrite (same_get_fault _ _ _ _ Hq Hg).
Qed.

(** The last turn. *)
Lemma process_ends ev d w q (r : result (EventDispatcher W unit E * W)) :
  explained (Taken ev d w) q -> processEvent ev d w = r ->
  exists clock turns qb evs q', push_all evs qb = Ret (Some q') /\ same_events q' q /\
    sequential_run clock turns =
    let* x := r in
    if (getTime ev <? theEnd_ x.1)%f64 then Ret None else Ret (Some (at_queue qb x.1, x.2, [])).
Proof.
  intros (clock & turns & qb & evs & q' & Hrun & Hp & Hq) <-. exists clock, (turns ++ []), qb, evs, q'.
  split_and!; [done..|]. rewrite Hrun. cbn [after_get]. rewrite processEvent_at_queue.
  by destruct (processEvent ev d w) as [[d' w']| |].
Qed.

(** The dispatcher has finished. *)
Lemma finished_run s :
  main_ok s -> next_ s = Returned ->
  exists clock turns q arrived q',
    sequential_run clock turns = Ret (Some (at_queue q (dispatcher s), world s, [])) /\
    push_all arrived q = Ret (Some q') /\
    (queueMut_ (monitor s) = None -> queue_ (timed (monitor s)) = queue_ q').
Proof.
  intros Hok Hn. destruct (run_explained s Hok) as (t & q & Ht & Hst & Hp & He).
  rewrite Hn in Hp. destruct Hp as (Hpc & ev & d1 & w1 & Hp & Hpr & Hend).
  destruct (process_ends _ _ _ _ _ (He _ Hp) Hpr) as (clock & turns & qb & evs & q' & Hpush & Hq & Hrun).
  exists clock, turns, qb, evs, q'. split_and!; [|done|].
  - rewrite Hrun. cbn. by rewrite Hend.
  - intros Hm. rewrite (standing_free _ _ _ (ro_monitor s Hok) Hm Hst). apply Hq.
Qed.

(** A step that fails: the sequential run fails in the same way. *)
Lemma code_ends s r :
  main_ok s -> run_step Code s = Some r -> (forall s', r <> Ret s') ->
  exists clock turns, sequential_run clock turns = let* _ := r in Ret None.
Proof.
  intros Hok Hs Hr. destruct (run_explained s Hok) as (t & q & Ht & Hst & Hp & He). cbn [run_step] in Hs. rewrite Ht in Hs.
  destruct (pc t) eqn:Hpc; try discriminate Hs. unfold run_code in Hs.
  destruct (next_ s) eqn:Hn; cbn [point_ok errand_of] in Hp; [| | |done].
  - destruct Hp as [(Hx & _)|[_ Hp]]; [done|]. injection Hs as <-. specialize (He _ Hp).
    destruct (predictNext (world s)) as [p|x|f] eqn:Hpred; cbn in Hr |- *; [by edestruct Hr| |].
    + by eapply predict_throws.
    + by eapply predict_faults.
  - injection Hs as <-. by edestruct Hr.
  - destruct Hp as [(Hx & _)|(_ & clock & ev & Hl & Hp)]; [done|]. specialize (He _ Hp).
    assert (Heff : effects t = deeds t) by (unfold deeds; rewrite Hpc; cbn; by rewrite app_nil_r).
    rewrite Heff, Hl in Hs. injection Hs as <-.
    destruct (process_ends _ _ _ _ _ He eq_refl) as (clock' & turns & qb & evs & q' & _ & _ & Hrun).
    exists clock', turns. rewrite Hrun. destruct (processEvent ev (dispatcher s) (world s)) as [x|x|f]; cbn in Hr |- *; [by edestruct Hr|done..].
Qed.

Lemma queue_ends inp s f :
  main_ok s -> run_step (InQueue 0 inp) s = Some (Fault f) -> exists clock turns, sequential_run clock turns = Fault f.
Proof.
  intros Hok Hs. destruct (run_explained s Hok) as (t & q & Ht & Hst & Hp & He).
  assert (Hs' : monitor_step 0 inp (monitor s) = Some (Fault f)).
  { cbn [run_step] in Hs. destruct inp; try discriminate Hs; destruct (monitor_step 0 _ (monitor s)) as [[]|]; by simplify_eq/=. }
  destruct (step_faults _ _ _ _ q _ (ro_monitor s Hok) Hst Hs') as (u & Hu & Hf). replace u with t in * by congruence.
  assert (Hadd : forall ev b, errand_of (pc t) = Add ev b -> add ev b q = Fault f ->
                   exists clock turns, sequential_run clock turns = Fault f).
  { intros ev b Herr Ha. rewrite Herr in Hp. destruct (point_errand _ _ _ _ _ Hp) as [Hn ->]. rewrite Hn in Hp.
    destruct Hp as [(ev' & d1 & w1 & [= ->] & Hacts & Hpred & _)|[Hx _]]; [|done]. eapply add_ends; eauto. }
  destruct (pc t) eqn:Hpc; cbn [faults] in Hf; try done; try (by eapply Hadd).
  - pose proof (point_errand _ _ _ _ _ Hp) as Hn. cbn in Hn. rewrite Hn in Hp. destruct Hp as [([= ->] & Hd & _)|[Hx _]]; [|done].
    specialize (He Fresh ltac:(rewrite Hd; constructor)). cbn in He. subst q. exists now0, [].
    unfold sequential_run, run, dispatcher_initStartTimeNow. rewrite Hstart.
    cbn [obind queue at_queue q_initStartTimeNow timed_EventQueue]. by rewrite Hf.
  - destruct inp; try done. pose proof (point_errand _ _ _ _ _ Hp) as Hn. cbn in Hn. rewrite Hn in Hp.
    destruct Hp as [[_ Hacts]|[Hx _]]; [|done]. specialize (He _ Hacts). eapply get_ends; [done| |done].
    pose proof (idle_initialized _ _ Hok Ht ltac:(by rewrite Hpc)) as Hin.
    unfold standing in Hst. rewrite Hin in Hst. eapply current_initialized; [apply Hok|done..].
Qed.

(** ** Events *)

(** The log of the dispatcher, against its operations on the queue. *)
Definition log_agrees (l : list (operation E)) (ph : phase (W:=W) (E:=E)) : Prop :=
  match ph with
  | Fresh => l = []
  | Next d _ | Outstanding d _ =>
      distributed d = distributed d0 ++ got l /\ predicted d = predicted d0 ++ foretold l
  | Taken ev d _ =>
      distributed d ++ [ev] = distributed d0 ++ got l /\ predicted d = predicted d0 ++ foretold l
  end.

Lemma predicted_log ev d :
  distributed (EventDispatcher.logEvent ev prediction d) = distributed d /\
  predicted (EventDispatcher.logEvent ev prediction d) = predicted d ++ [ev].
Proof.
  unfold distributed, predicted, EventDispatcher.logEvent. cbn [timingLogger_]. rewrite !at_stage_app. cbn. by rewrite app_nil_r.
Qed.

Lemma got_app (l l' : list (operation E)) : got (l ++ l') = got l ++ got l'.
Proof. apply omap_app. Qed.
Lemma foretold_app (l l' : list (operation E)) : foretold (l ++ l') = foretold l ++ foretold l'.
Proof. apply omap_app. Qed.

Lemma acts_log l ph : acts l ph -> log_agrees l ph.
Proof.
  induction 1 as [|clock|l d w ev w' _ [Hd Hp] _|l d w clock ev _ [Hd Hp]|l d w ev d' w' _ [Hd Hp] Hpr _];
    cbn [log_agrees] in *; [done| | | |].
  - cbn. by rewrite !app_nil_r.
  - destruct (predicted_log ev d) as [-> ->]. rewrite got_app, foretold_app, Hd, Hp. cbn. by rewrite app_nil_r, (assoc_L (++)).
  - rewrite got_app, foretold_app, Hd, Hp. cbn. by rewrite app_nil_r, (assoc_L (++)).
  - split; [|by rewrite (processEvent_predicted _ _ _ _ _ Hpr)]. by destruct (processEvent_inv _ _ _ _ _ Hpr) as (-> & _).
Qed.

(** Only the dispatcher gets events and adds predictions. *)
Lemma external_nothing (l : list (operation E)) : Forall external l -> got l = [] /\ foretold l = [].
Proof.
  induction 1 as [|op l Hop _ [IHg IHf]]; [done|]. unfold got, foretold in *. cbn. destruct op as [| |ev []|]; done.
Qed.

Lemma dispatcher_alone (f : list (operation E) -> list E) s t :
  (forall l, Forall external l -> f l = []) -> main_ok s -> threads (monitor s) !! 0%nat = Some t ->
  of_threads f (monitor s) = f (effects t).
Proof.
  intros Hext Hok Ht. pose proof (ro_others s Hok) as Hoth. unfold of_threads.
  destruct (threads (monitor s)) as [|u l]; [done|]. injection Ht as ->. cbn [map concat].
  assert (Hnil : concat (map (fun u => f (effects u)) l) = []); [|by rewrite Hnil, app_nil_r].
  assert (Hall : Forall (fun u => Forall external (deeds u)) l).
  { apply Forall_lookup. intros i u Hu. by apply (Hoth (S i)). }
  clear -Hext Hall. induction Hall as [|u l Hu _ IH]; [done|]. cbn. rewrite IH, app_nil_r.
  apply Hext. by apply Forall_app in Hu as [Hu _].
Qed.

(** With the mutex free no operation is pending. *)
Lemma free_deeds i t (m : Monitor E) :
  monitor_ok m -> queueMut_ m = None -> threads m !! i = Some t -> deeds t = effects t.
Proof.
  intros Hok Hm Ht. destruct (ok_threads _ Hok _ _ Ht) as (Hh & _). rewrite Hm in Hh. cbn in Hh.
  unfold deeds. destruct (pc t); cbn in *; try done; by rewrite app_nil_r.
Qed.

(** Between two events, the log of the dispatcher lists what its thread has done. *)
Lemma run_log s t :
  main_ok s -> queueMut_ (monitor s) = None -> threads (monitor s) !! 0%nat = Some t ->
  next_ s = NextPrediction \/ next_ s = Returned ->
  distributed (dispatcher s) = distributed d0 ++ got (effects t) /\
  predicted (dispatcher s) = predicted d0 ++ foretold (effects t).
Proof.
  intros [Hmo _ (u & Hu & Hp) _] Hm Ht Hn. replace u with t in * by congruence.
  rewrite (free_deeds _ _ _ Hmo Hm Ht) in Hp. destruct Hn as [Hn|Hn]; rewrite Hn in Hp.
  - destruct Hp as [(_ & -> & -> & _)|[_ Ha]]; [cbn; by rewrite !app_nil_r|]. apply (acts_log _ _ Ha).
  - destruct Hp as (_ & ev & d1 & w1 & Ha & Hpr & _). apply acts_log in Ha as [Hd Hq].
    rewrite (processEvent_predicted _ _ _ _ _ Hpr). by destruct (processEvent_inv _ _ _ _ _ Hpr) as (-> & _).
Qed.

(** ** The dispatcher sleeps *)

(** [get] waits without a deadline only when it has found the queue empty. *)
Lemma sleeps_empty inp (m m' : Monitor E) t t' :
  threads m !! 0%nat = Some t -> pc t <> GetSleep None -> monitor_step 0 inp m = Some (Ret m') ->
  threads m' !! 0%nat = Some t' -> pc t' = GetSleep None -> pc t = GetTest /\ queue_ (timed m) = [].
Proof.
  intros Ht Hne Hs Ht' Hpc'. unfold monitor_step in Hs. rewrite Ht in Hs.
  assert (Hlt : (0 < length (threads m))%nat) by (by eapply lookup_lt_Some).
  unfold init_step, barrier_step, add_step, get_step_of, stamp_step, lock_access, lock_queue, done, called in Hs.
  destruct (pc t) eqn:Hpc; repeat case_match; simplify_eq; inv_ret; cbn in Ht';
    try destruct r; simplify_eq/=;
    rewrite list_lookup_insert_eq in Ht' by (by rewrite ?length_alter, ?length_map); simplify_eq/=; try done.
  - by destruct k.
  - split; [done|]. match goal with Hg : get_step _ _ = Ret _ |- _ => rename Hg into Hget end.
    unfold get_step in Hget. destruct (queue_ (timed m)); [done|].
    apply obind_Ret_inv in Hget as ([] & _ & Hget); [|done]. by apply obind_Ret_inv in Hget as (? & _ & Hget).
Qed.

(** While it asks for an event there is one. *)
Lemma asking_nonempty s t :
  main_ok s -> threads (monitor s) !! 0%nat = Some t -> pc t = GetTest -> queue_ (timed (monitor s)) <> [].
Proof.
  intros Hok Ht Hpc. destruct (run_explained s Hok) as (u & q & Hu & Hst & Hp & He). replace u with t in * by congruence.
  pose proof (point_errand _ _ _ _ _ Hp) as Hn. rewrite Hpc in Hn, Hp. cbn in Hn. rewrite Hn in Hp.
  destruct Hp as [[_ Ha]|[Hx _]]; [|done]. destruct (He _ Ha) as [Hne _].
  pose proof (standing_view _ _ _ _ _ (ro_monitor s Hok) Ht ltac:(by rewrite Hpc) Hst) as Hv. rewrite Hpc in Hv. cbn in Hv.
  by rewrite (logged_queue _ _ _ Hv).
Qed.

Definition deadline_set s : Prop := forall t, threads (monitor s) !! 0%nat = Some t -> pc t <> GetSleep None.

Lemma deadline_kept l s s' : main_ok s -> deadline_set s -> run_step l s = Some (Ret s') -> deadline_set s'.
Proof.
  intros Hok Hd Hs t' Ht' Hpc'. destruct l as [|i inp].
  - cbn [run_step] in Hs. destruct (threads (monitor s) !! 0%nat) as [t|] eqn:Ht; [|done].
    destruct (pc t) eqn:Hpc; try discriminate Hs. unfold run_code in Hs.
    assert (Hcall : forall inp p, called 0 inp = Some p -> threads (call_queue inp t (monitor s)) !! 0%nat = Some t' -> p = GetSleep None).
    { intros inp p Hc Hl. destruct (call_queue_step _ _ _ _ Ht Hpc Hc) as (_ & Hl' & _). rewrite Hl' in Hl. by injection Hl as <-. }
    destruct (next_ s).
    + injection Hs as Hs. apply obind_Ret_inv in Hs as (p & _ & [= <-]). by pose proof (Hcall (CallPredict p.1) _ eq_refl Ht').
    + injection Hs as <-. by pose proof (Hcall CallGet _ eq_refl Ht').
    + destruct (last (effects t)) as [[]|]; try discriminate Hs. injection Hs as Hs.
      apply obind_Ret_inv in Hs as (r & _ & [= <-]). cbn in Ht'. congruence.
    + done.
  - apply queue_step_inv in Hs as (_ & _ & m' & Hs & ->). cbn in Ht'.
    pose proof (monitor_step_others _ _ _ _ Hs) as [Hdom Hoth]. destruct (proj2 (Hdom 0%nat) ltac:(by eexists)) as [t Ht].
    destruct (decide (i = 0%nat)) as [->|Hi].
    + destruct (sleeps_empty _ _ _ _ _ Ht (Hd t Ht) Hs Ht' Hpc') as [Hpc Hq]. by eapply asking_nonempty.
    + destruct (Hoth 0%nat t' ltac:(done) Ht') as (u & Hu & _ & _ & Hw). rewrite Hpc' in Hw.
      apply (Hd u Hu). by inversion Hw.
Qed.

Lemma deadline_steps ls s s' : main_ok s -> deadline_set s -> run_steps ls s = Ret s' -> deadline_set s'.
Proof.
  revert s. induction ls as [|l ls IH]; intros s Hok Hd Hr; cbn in Hr; [by injection Hr as <-|].
  destruct (run_step l s) as [r|] eqn:Hs; [|by eapply IH]. apply obind_Ret_inv in Hr as (s1 & -> & Hr).
  eapply IH; [..|exact Hr]; [|by eapply deadline_kept]. destruct l; [by eapply main_ok_code|by eapply main_ok_queue].
Qed.

(** The monitor of a run is reached by a schedule of its own. *)
Lemma run_step_monitor l s s' :
  main_ok s -> run_step l s = Some (Ret s') ->
  exists ls, run_schedule ls (monitor s) = Ret (monitor s').
Proof.
  intros Hok Hs. destruct l as [|i inp].
  - cbn [run_step] in Hs. destruct (threads (monitor s) !! 0%nat) as [t|] eqn:Ht; [|done].
    destruct (pc t) eqn:Hpc; try discriminate Hs. unfold run_code in Hs.
    assert (Hcall : forall inp p, called 0 inp = Some p -> run_schedule [(0%nat, inp)] (monitor s) = Ret (call_queue inp t (monitor s))).
    { intros inp p Hc. destruct (call_queue_step _ _ _ _ Ht Hpc Hc) as (Hm & _). cbn. by rewrite Hm. }
    destruct (next_ s).
    + injection Hs as Hs. apply obind_Ret_inv in Hs as (p & _ & [= <-]). exists [(0%nat, CallPredict p.1)]. by eapply Hcall.
    + injection Hs as <-. exists [(0%nat, CallGet)]. by eapply Hcall.
    + destruct (last (effects t)) as [[]|]; try discriminate Hs. injection Hs as Hs.
      apply obind_Ret_inv in Hs as (r & _ & [= <-]). by exists [].
    + done.
  - apply queue_step_inv in Hs as (_ & _ & m' & Hs & ->). exists [(i, inp)]. cbn. by rewrite Hs.
Qed.

Lemma run_steps_schedule ls s s' :
  main_ok s -> run_steps ls s = Ret s' -> exists ls', run_schedule ls' (monitor s) = Ret (monitor s').
Proof.
  revert s. induction ls as [|l ls IH]; intros s Hok Hr; cbn in Hr; [injection Hr as <-; by exists []|].
  destruct (run_step l s) as [r|] eqn:Hs; [|by eapply IH]. apply obind_Ret_inv in Hr as (s1 & -> & Hr).
  destruct (run_step_monitor _ _ _ Hok Hs) as [l1 Hl1].
  destruct (IH s1) as [l2 Hl2]; [destruct l; [by eapply main_ok_code|by eapply main_ok_queue]|done|].
  exists (l1 ++ l2). by rewrite (run_schedule_app _ _ _ _ Hl1).
Qed.

End Threads.

(** ** The theorems *)

Section Properties.
Context {W E : Type} `{PropertyTree} `{TimedEvent E} `{PosixTime} `{!AbstractEventPredictor W E}.

(** C1: every interleaving of the dispatcher with the subscribers is explained by a
    sequential run of [EventDispatcher::run] in which the events of the subscribers arrive
    between the operations of the dispatcher.  At the head of the loop the dispatcher and
    the world are in the state that some turns of the sequential run lead to; when the
    dispatcher has finished, the sequential run has returned with the same dispatcher and
    the same world, and the queue holds what it left and what has been pushed since; when
    the code of the dispatcher throws or faults, so does the sequential run. *)
Theorem threads_refine_run (context : ApplicationContext) (start : fmiTime) (now : ptime) n ls
    (d : EventDispatcher W unit E) (w : W) s :
  getProperty tr_double context PROP_START_TIME = Ret start ->
  run_steps ls (new_RunState n start now d w) = Ret s ->
  let sequential clock turns := run context clock turns (at_queue (new_TimedEventQueue now) d) w in
  (next_ s = NextPrediction -> (exists t, threads (monitor s) !! 0%nat = Some t /\ pc t = Idle) ->
   exists clock turns q, forall more,
     sequential clock (turns ++ more) = run_loop more [] (at_queue q (dispatcher s)) (world s)) /\
  (next_ s = Returned ->
   exists clock turns q arrived q',
     sequential clock turns = Ret (Some (at_queue q (dispatcher s), world s, [])) /\
     push_all arrived q = Ret (Some q') /\
     (queueMut_ (monitor s) = None -> queue_ (timed (monitor s)) = queue_ q')) /\
  (forall x, run_step Code s = Some (Throw x) -> exists clock turns, sequential clock turns = Throw x) /\
  (forall f, run_step Code s = Some (Fault f) \/ (exists inp, run_step (InQueue 0 inp) s = Some (Fault f)) ->
   exists clock turns, sequential clock turns = Fault f).
Proof.
  intros Hstart Hr sequential. assert (Hok : main_ok start now d w s) by (eapply main_ok_steps; [apply main_ok_initial|done]).
  split_and!.
  - intros Hn (t' & Ht' & Hpc). destruct (run_explained context start now Hstart d w s Hok) as (t & q & Ht & _ & Hp & He).
    replace t' with t in * by congruence. rewrite Hn, Hpc in Hp. destruct Hp as [[Hx _]|[_ Hp]]; [done|].
    destruct (He _ Hp) as (clock & turns & qb & evs & q' & Hrun & _). by exists clock, turns, qb.
  - by apply (finished_run context start now Hstart d w).
  - intros x Hs. exact (code_ends context start now Hstart d w s _ Hok Hs ltac:(done)).
  - intros f [Hs|[inp Hs]].
    + exact (code_ends context start now Hstart d w s _ Hok Hs ltac:(done)).
    + by eapply queue_ends.
Qed.

(** C19: no event is invented and none is lost on the way from the threads to the
    listeners.  In every interleaving, when the dispatcher is between two events or has
    finished and the mutex of the queue is free, the events it has distributed are, event
    for event, external events that subscribers have pushed and predictions of the
    predictor; the external events pushed are those distributed and those still in the
    queue. *)
Theorem threads_account_for_events (start : fmiTime) (now : ptime) n ls
    (d : EventDispatcher W unit E) (w : W) s :
  run_steps ls (new_RunState n start now d w) = Ret s -> timingLogger_ d = [] ->
  next_ s = NextPrediction \/ next_ s = Returned -> queueMut_ (monitor s) = None ->
  exists given fulfilled,
    of_threads added (monitor s) ≡ₚ given ++ externals (timed (monitor s)) /\
    distributed (dispatcher s) ≡ₚ given ++ fulfilled /\
    fulfilled ⊆+ predicted (dispatcher s).
Proof.
  intros Hr Hlog Hn Hm.
  assert (Hok : main_ok start now d w s) by (eapply main_ok_steps; [apply main_ok_initial|done]).
  pose proof Hok as [Hmo [ops Hh] (t & Ht & _) _].
  destruct (threads_events _ _ _ Hmo Hh Hm) as (given & fulfilled & Ha & Hg & Hf). exists given, fulfilled.
  destruct (run_log start now d w s t Hok Hm Ht Hn) as [-> ->].
  rewrite (dispatcher_alone start now d w got s t) in Hg by (done || by intros l [? ?]%external_nothing).
  rewrite (dispatcher_alone start now d w foretold s t) in Hf by (done || by intros l [? ?]%external_nothing).
  split_and!; [done|..]; unfold distributed, predicted; by rewrite Hlog.
Qed.

(** C9: the dispatcher is never left waiting.  Whenever it sleeps in [get] it waits until a
    deadline, at which it can wake up whatever the other threads do; and when no thread is
    between changing the queue and notifying, the deadline is the time of the first event
    of the queue. *)
Theorem dispatcher_always_wakes (context : ApplicationContext) (start : fmiTime) (now : ptime) n ls
    (d : EventDispatcher W unit E) (w : W) s t sleep :
  getProperty tr_double context PROP_START_TIME = Ret start ->
  run_steps ls (new_RunState n start now d w) = Ret s ->
  threads (monitor s) !! 0%nat = Some t -> pc t = GetSleep sleep ->
  exists deadline, sleep = Some deadline /\
    (forall clock, pt_gtb deadline clock = false ->
       exists s', run_step (InQueue 0 (Clock clock)) s = Some (Ret s')) /\
    ((forall j u, threads (monitor s) !! j = Some u -> adding (pc u) = false) ->
     exists x l, queue_ (timed (monitor s)) = x :: l /\ getSystemTime (timed (monitor s)) x.1 = Ret deadline).
Proof.
  intros Hstart Hr Ht Hpc. pose proof (main_ok_initial (E:=E) start now d w n) as Hini.
  assert (Hok : main_ok start now d w s) by (by eapply main_ok_steps).
  assert (Hd : deadline_set s).
  { eapply (deadline_steps context start now Hstart d w); [exact Hini| |exact Hr]. intros u [= <-]. done. }
  destruct sleep as [deadline|]; [|by destruct (Hd t Ht)]. exists deadline. split_and!; [done| |].
  - intros clock Hc. cbn. unfold monitor_step. rewrite Ht, Hpc. unfold get_step_of. rewrite Hpc, Hc. cbn. by eexists.
  - intros Hadd. destruct (run_steps_schedule start now d w _ _ _ Hini Hr) as [ls' Hls'].
    assert (Hsl : sleeping_ok (monitor (new_RunState n start now d w))) by (intros u d' [= <-]; done).
    exact (sleeping_run _ _ _ (initial_ok n start now) Hsl Hls' t _ Ht Hpc Hadd).
Qed.
End Properties.

(** ** A run with a subscriber *)

Definition threads_context : ApplicationContext :=
  match new_ApplicationContext_list ["app.startTime=0"; "app.stopTime=0.25"] with
  | Ret c => c
  | _ => new_ApplicationContext
  end.
Definition threads_dispatcher : EventDispatcher nat unit (nat * fmiTime) :=
  match new_EventDispatcher threads_context (at_us 0) with
  | Ret d => at_queue tt d
  | _ => {| theEnd_ := f64_zero; queue := tt; listener_ := []; timingLogger_ := [] |}
  end.
Definition threads_start : RunState nat (nat * fmiTime) :=
  new_RunState 1 f64_zero (at_us 0) threads_dispatcher 0%nat.

(** A thread runs by itself, the clock at [clock], until it waits. *)
Definition burst (i : nat) (clock : Z) : list (run_label (nat * fmiTime)) :=
  concat (replicate 20 [InQueue i Go; InQueue i (Clock (at_us clock))]).
(** A turn of the loop of the dispatcher up to [get], and the event's distribution. *)
Definition asks (clock : Z) : list (run_label (nat * fmiTime)) := Code :: burst 0 clock ++ [Code] ++ burst 0 clock.
Definition gets (clock : Z) : list (run_label (nat * fmiTime)) := burst 0 clock ++ [Code].

(** The subscriber pushes an event at 50 ms while the dispatcher sleeps until 100 ms. *)
Definition until_sleep : list (run_label (nat * fmiTime)) :=
  burst 0 0 ++ asks 0 ++ gets 0 ++ asks 10.
Definition until_woken : list (run_label (nat * fmiTime)) :=
  until_sleep ++ [InQueue 1 (CallPush (sample 101 50))] ++ burst 1 20000.
Definition until_finished : list (run_label (nat * fmiTime)) :=
  until_woken ++ gets 60000 ++ asks 60000 ++ gets 100000 ++ asks 100000 ++ gets 200000 ++ asks 200000 ++ gets 300000.

Definition threads_at (ls : list (run_label (nat * fmiTime))) : RunState nat (nat * fmiTime) :=
  match run_steps ls threads_start with Ret s => s | _ => threads_start end.

Example threads_events_distributed :
  map fst (distributed (dispatcher (threads_at until_finished))) = [0; 101; 1; 2; 3]%nat.
Proof. vm_compute. reflexivity. Qed.

Lemma threads_at_run ls :
  is_Ret (run_steps ls threads_start) = true -> run_steps ls threads_start = Ret (threads_at ls).
Proof. apply (is_Ret_value _ threads_start). Qed.

Lemma threads_refine_run_witness :
  next_ (threads_at until_finished) = Returned /\
  exists clock turns q arrived q',
    run threads_context clock turns (at_queue (new_TimedEventQueue (at_us 0)) threads_dispatcher) 0%nat =
      Ret (Some (at_queue q (dispatcher (threads_at until_finished)), world (threads_at until_finished), [])) /\
    push_all arrived q = Ret (Some q') /\
    (queueMut_ (monitor (threads_at until_finished)) = None ->
     queue_ (timed (monitor (threads_at until_finished))) = queue_ q').
Proof.
  assert (Hn : next_ (threads_at until_finished) = Returned) by (vm_compute; reflexivity).
  split; [exact Hn|].
  refine (proj1 (proj2 (threads_refine_run threads_context f64_zero (at_us 0) 1 until_finished threads_dispatcher 0%nat
                          (threads_at until_finished) _ _)) Hn); [vm_compute; reflexivity|].
  apply threads_at_run. vm_compute. reflexivity.
Defined.

Lemma threads_account_for_events_witness :
  let s := threads_at until_finished in
  exists given fulfilled,
    of_threads added (monitor s) ≡ₚ given ++ externals (timed (monitor s)) /\
    distributed (dispatcher s) ≡ₚ given ++ fulfilled /\ fulfilled ⊆+ predicted (dispatcher s).
Proof.
  apply (threads_account_for_events f64_zero (at_us 0) 1 until_finished threads_dispatcher 0%nat).
  - apply threads_at_run. vm_compute. reflexivity.
  - reflexivity.
  - right. vm_compute. reflexivity.
  - vm_compute. reflexivity.
Defined.

(** The dispatcher before and after the subscriber's event has woken it. *)
Definition sleeper : thread (nat * fmiTime) :=
  match threads (monitor (threads_at until_sleep)) !! 0%nat with Some t => t | None => new_thread Idle end.
Definition sleeps_until : option (@ptime micro_clock) := match pc sleeper with GetSleep d => d | _ => None end.

Lemma dispatcher_always_wakes_witness :
  exists deadline, sleeps_until = Some deadline /\
    (forall clock, pt_gtb deadline clock = false ->
       exists s', run_step (InQueue 0 (Clock clock)) (threads_at until_sleep) = Some (Ret s')) /\
    ((forall j u, threads (monitor (threads_at until_sleep)) !! j = Some u -> adding (pc u) = false) ->
     exists x l, queue_ (timed (monitor (threads_at until_sleep))) = x :: l /\
       getSystemTime (timed (monitor (threads_at until_sleep))) x.1 = Ret deadline).
Proof.
  apply (dispatcher_always_wakes threads_context f64_zero (at_us 0) 1 until_sleep threads_dispatcher 0%nat
           (threads_at until_sleep) sleeper sleeps_until).
  - vm_compute. reflexivity.
  - apply threads_at_run. vm_compute. reflexivity.
  - vm_compute. reflexivity.
  - vm_compute. reflexivity.
Defined.
