(* ===== verification/DispatcherSafety.v ===== *)
(** * No thread of the program faults

    When the predictor and the listeners keep the protocol of [AbstractEventPredictor], the
    subscribers push what may be pushed, and the times of the events stay in a range that the
    queue can handle, then no interleaving of the dispatcher and the subscribers fails an
    assertion or is undefined. *)

From S2P Require Import Prelude Float64 BaseExceptions PropertyTree ApplicationContext.
From S2P Require Import Event TimedEventQueue TimedEventQueueSpec.
From S2P Require Import QueueMonitor QueueMonitorSpec QueueLinearizable.
From S2P Require Import EventDispatcher DispatcherThreads DispatcherRefinement DispatcherThreadsSpec.

Local Open Scope Z_scope.

(** ** What the dispatcher relies on *)

(** Times that the queue can handle: numbers that are not negative and that the clock can
    represent, and for which the two comparisons with the tolerance agree. *)
Record manageable `{PosixTime} (T : fmiTime -> Prop) : Prop := {
  mg_time t : T t -> time_ok t = true;
  mg_range t : T t -> exists d, getRelativeTime t = Ret d;
  mg_tolerance t u : T t -> T u -> (u <? t - eps_)%f64 = false -> (t <=? u + eps_)%f64 = true;
}.

#[export] Instance fmiTime_eq_dec : EqDecision fmiTime.
Proof. solve_decision. Defined.

(** The times of a list, by computation. *)
Definition manageable_times `{PosixTime} (l : list fmiTime) : bool :=
  forallb (fun t => time_ok t && is_Ret (getRelativeTime t) &&
                    forallb (fun u => (u <? t - eps_)%f64 || (t <=? u + eps_)%f64) l) l.

Lemma manageable_list `{PosixTime} l : manageable_times l = true -> manageable (fun t => t ∈ l).
Proof.
  intros Hl. assert (Ht : forall t, t ∈ l -> time_ok t = true /\ is_Ret (getRelativeTime t) = true /\
    forall u, u ∈ l -> (u <? t - eps_)%f64 = true \/ (t <=? u + eps_)%f64 = true).
  { intros t Hin. unfold manageable_times in Hl. rewrite forallb_forall in Hl. apply list_elem_of_In, Hl in Hin.
    apply andb_prop in Hin as [[H1 H2]%andb_prop H3]. split_and!; [done..|]. intros u Hu. rewrite forallb_forall in H3.
    by apply orb_prop, H3, list_elem_of_In. }
  split.
  - intros t Hin. by apply Ht.
  - intros t Hin. destruct (Ht t Hin) as (_ & Hr & _). destruct (getRelativeTime t) as [d| |]; [by exists d|done..].
  - intros t u Hin Hu Hlt. destruct (Ht t Hin) as (_ & _ & Hto). destruct (Hto u Hu); congruence.
Qed.

(** The protocol of the predictor and the listeners.  In an [idle] world a prediction may be
    asked for; in one that is [awaiting] an event, this event or one that a subscriber has
    [pushed] may be distributed, and the world is idle again unless the run ends there. *)
Record protocol {W E} `{TimedEvent E} `{!AbstractEventPredictor W E} (listeners : list (EventListener W E))
    (end_ : fmiTime) (idle : W -> Prop) (awaiting : E -> W -> Prop) (pushed : E -> Prop) : Prop := {
  pr_predict w : idle w -> wp (predictNext w) (fun r => awaiting r.1 r.2) (fun _ => True);
  pr_distribute ev p w : awaiting p w -> ev = p \/ pushed ev ->
    wp (foldlM (fun w l => l ev w) w listeners) (fun w' => (getTime ev <? end_)%f64 = true -> idle w') (fun _ => True);
}.

(** The state in which a schedule ends or fails. *)
Fixpoint last_state {W E} `{TimedEvent E} `{PosixTime} `{!AbstractEventPredictor W E} (ls : list (run_label E)) (s : RunState W E)
    : RunState W E :=
  match ls with
  | [] => s
  | l :: ls' =>
      match run_step l s with
      | Some (Ret s') => last_state ls' s'
      | Some _ => s
      | None => last_state ls' s
      end
  end.

Section Safety.
Context {W E : Type} `{PropertyTree} `{TimedEvent E} `{PosixTime} `{!AbstractEventPredictor W E}.
Context (start : fmiTime) (now : ptime) (d0 : EventDispatcher W unit E) (w0 : W).
Context (T : fmiTime -> Prop) (HT : manageable T) (Hstart : T start).
Context (idle : W -> Prop) (awaiting : E -> W -> Prop) (pushed : E -> Prop).
Context (Hprotocol : protocol (listener_ d0) (theEnd_ d0) idle awaiting pushed).
Context (Hpushed : forall ev, pushed ev -> T (getTime ev)) (Hidle : idle w0).

Notation acts := (acts start d0 w0).
Notation main_ok := (main_ok start now d0 w0).
Notation phase := (phase (W := W) (E := E)).
Implicit Types (s : RunState W E) (t : thread E) (d : EventDispatcher W unit E) (w : W) (q : TimedEventQueue E).

(** The operations of the subscribers. *)
Definition pushes (op : operation E) : Prop :=
  match op with OLog _ => True | OAdd ev false => pushed ev | _ => False end.

(** ** The invariant of the queue and the world *)

(** The queue represents [sq], whose external events have been pushed. *)
Record queue_safe (sq : spec_queue (E := E)) q : Prop := {
  qs_initialized : initialized_ q = true;
  qs_represents : represents q sq;
  qs_ok : spec_ok sq;
  qs_pushed : Forall pushed (sp_external sq);
}.

Record same_dispatcher d : Prop := {
  sd_listener : listener_ d = listener_ d0;
  sd_end : theEnd_ d = theEnd_ d0;
}.

(** The dispatcher of a phase, and what is known there when all predictions so far have
    manageable times.  A prediction is in the queue while the dispatcher waits only. *)
Definition phase_predicted (ph : phase) : list E :=
  match ph with Fresh => [] | Next d _ | Outstanding d _ | Taken _ d _ => predicted d end.

Definition safe (ph : phase) q : Prop :=
  match ph with
  | Fresh => q = new_TimedEventQueue now
  | Next d w => same_dispatcher d /\ idle w /\ exists sq, queue_safe sq q /\ sp_prediction sq = None
  | Outstanding d w =>
      same_dispatcher d /\ exists p sq, awaiting p w /\ p ∈ predicted d /\ queue_safe sq q /\
        (forall p', sp_prediction sq = Some p' -> p' = p)
  | Taken ev d w =>
      same_dispatcher d /\ exists p sq, awaiting p w /\ (ev = p \/ pushed ev) /\ queue_safe sq q /\ sp_prediction sq = None
  end.

Definition manageable_so_far (ph : phase) : Prop := Forall (fun ev => T (getTime ev)) (phase_predicted ph).

Lemma queue_safe_external ev q sq q' :
  queue_safe sq q -> pushed ev -> add ev false q = Ret (Some q') -> queue_safe (spec_add_external ev sq) q'.
Proof.
  intros [Hi Hr Hok Hp] Hev Ha. pose proof (mg_time T HT _ (Hpushed _ Hev)) as Ht.
  destruct (add_external_spec ev q sq Hi Hr Hok Ht) as (q1 & Ha1 & Hr1 & [_ Hi1] & _).
  rewrite Ha in Ha1. injection Ha1 as <-. split; [congruence|done|by apply spec_add_external_ok|].
  apply Forall_forall. intros x [->|Hx]%elem_of_insert_external; [done|]. by eapply Forall_forall in Hp.
Qed.

Lemma pushed_tolerance ev sq :
  T (getTime ev) -> Forall pushed (sp_external sq) -> forall f, head (sp_external sq) = Some f -> tolerance_agrees ev f.
Proof.
  intros Hev Hp f Hf. destruct (sp_external sq) as [|x l]; [done|]. injection Hf as ->. apply Forall_cons in Hp as [Hp _].
  unfold tolerance_agrees. apply (mg_tolerance T HT); auto.
Qed.

Lemma queue_safe_prediction ev q sq :
  queue_safe sq q -> sp_prediction sq = None -> T (getTime ev) ->
  exists q', add ev true q = Ret (Some q') /\ queue_safe (spec_add_prediction ev sq) q'.
Proof.
  intros [Hi Hr Hok Hp] Hn Hev. destruct (add_prediction_spec ev q sq Hi Hr Hn) as (q' & Ha & Hr' & [_ Hi'] & _).
  exists q'. split; [done|]. split; [congruence|done| |].
  - apply spec_add_prediction_ok; [done|by apply (mg_time T HT)|by apply pushed_tolerance].
  - unfold spec_add_prediction. by destruct (spec_refuses ev sq).
Qed.

Lemma spec_add_prediction_pending ev sq p :
  sp_prediction sq = None -> sp_prediction (spec_add_prediction ev sq) = Some p -> p = ev.
Proof. intros Hn. unfold spec_add_prediction. destruct (spec_refuses ev sq); cbn; congruence. Qed.

Lemma queue_safe_get q sq clock ev q' :
  queue_safe sq q -> get_step clock q = Ret (Deliver ev q') ->
  exists sq', queue_safe sq' q' /\ sp_prediction sq' = None /\ (sp_prediction sq = Some ev \/ pushed ev).
Proof.
  intros [Hi Hr Hok Hp] (sq' & Hg & Hr' & [_ Hi'] & _)%(get_step_inv _ _ sq); [|done]. exists sq'.
  pose proof (spec_get_ok _ _ _ Hok Hg) as Hok'.
  destruct sq as [[p|] [|f l]]; cbn in Hg; try discriminate Hg; injection Hg as <- <-; cbn in *;
    (split_and!; [split; [congruence|done..|]| |]); cbn; auto.
  all: apply Forall_cons in Hp as [? ?]; auto.
Qed.

(** ** Every operation keeps it *)

Lemma safe_init clock q q2 : safe Fresh q -> initStartTimeNow start clock q = Ret q2 -> safe (Next d0 w0) q2.
Proof.
  intros -> Hi. unfold initStartTimeNow in Hi. cbn in Hi. apply obind_Ret_inv in Hi as (d & _ & Hi). inv_ret.
  split; [done|]. split; [done|]. exists {| sp_prediction := None; sp_external := [] |}.
  split; [|done]. split; [done..| |constructor]. split; cbn; [constructor|done|constructor|done].
Qed.

Lemma safe_add d w q ev w' q2 :
  T (getTime ev) -> safe (Next d w) q -> predictNext w = Ret (ev, w') -> add ev true q = Ret (Some q2) ->
  safe (Outstanding (EventDispatcher.logEvent ev prediction d) w') q2.
Proof.
  intros Hev (Hd & Hw & sq & Hq & Hn) Hp Ha. split; [by destruct Hd|].
  destruct (queue_safe_prediction _ _ _ Hq Hn Hev) as (q' & Ha' & Hq'). replace q' with q2 in * by congruence.
  pose proof (pr_predict _ _ _ _ _ Hprotocol w Hw) as Hpr. rewrite Hp in Hpr. cbn in Hpr.
  exists ev, (spec_add_prediction ev sq). split_and!; [done| |done|intros p' Hp'; by eapply spec_add_prediction_pending].
  rewrite predicted_logged. set_solver.
Qed.

Lemma safe_get d w q clock ev q2 :
  safe (Outstanding d w) q -> get_step clock q = Ret (Deliver ev q2) -> safe (Taken ev d w) q2.
Proof.
  intros (Hd & p & sq & Hw & _ & Hq & Hp) Hg. split; [done|].
  destruct (queue_safe_get _ _ _ _ _ Hq Hg) as (sq' & Hq' & Hn & Hev). exists p, sq'. split_and!; [done| |done..].
  destruct Hev as [Hev|Hev]; auto.
Qed.

Lemma safe_process ev d w q d' w' :
  safe (Taken ev d w) q -> processEvent ev d w = Ret (d', w') -> (getTime ev <? theEnd_ d')%f64 = true -> safe (Next d' w') q.
Proof.
  intros ([Hl He] & p & sq & Hw & Hev & Hq & Hn) (_ & He' & _ & Hl' & Hf)%processEvent_inv Hend.
  split; [split; congruence|]. split; [|by exists sq].
  pose proof (pr_distribute _ _ _ _ _ Hprotocol ev p w Hw Hev) as Hpr. rewrite <- Hl, Hf in Hpr. apply Hpr. congruence.
Qed.

Lemma safe_pushed ph q op q2 : pushes op -> safe ph q -> executes q op q2 -> safe ph q2.
Proof.
  intros Hop Hs Hx. assert (Hfresh : ph <> Fresh).
  { intros ->. cbn in Hs. subst q. inversion Hx; subst; done. }
  assert (Hkeep : forall sq, queue_safe sq q -> exists sq', queue_safe sq' q2 /\
            (forall p, sp_prediction sq' = Some p -> sp_prediction sq = Some p)).
  { intros sq Hq. inversion Hx as [|ev|ev b ? Ha|]; subst; try done.
    - exists sq. split; [by destruct Hq|done].
    - destruct b; [done|]. exists (spec_add_external ev sq). split; [by eapply queue_safe_external|].
      intros p. cbn. destruct (sp_prediction sq); [by destruct (_ >? _)%f64|done]. }
  assert (Hnone : forall sq sq' : spec_queue (E := E), sp_prediction sq = None ->
            (forall p, sp_prediction sq' = Some p -> sp_prediction sq = Some p) -> sp_prediction sq' = None).
  { intros sq sq' Hn Hk. destruct (sp_prediction sq') as [p|]; [|done]. specialize (Hk p eq_refl). congruence. }
  destruct ph as [|d w|d w|ev d w]; [done|..]; cbn in *.
  - destruct Hs as (Hd & Hw & sq & Hq & Hn). destruct (Hkeep sq Hq) as (sq' & Hq' & Hk). eauto 6.
  - destruct Hs as (Hd & p & sq & Hw & Hp & Hq & Hn). destruct (Hkeep sq Hq) as (sq' & Hq' & Hk).
    split; [done|]. exists p, sq'. split_and!; auto.
  - destruct Hs as (Hd & p & sq & Hw & Hev & Hq & Hn). destruct (Hkeep sq Hq) as (sq' & Hq' & Hk).
    split; [done|]. exists p, sq'. split_and!; eauto.
Qed.

Lemma safe_invariant : phase_invariant start now d0 w0 (fun ph q => manageable_so_far ph -> safe ph q) pushes.
Proof.
  unfold manageable_so_far. split.
  - done.
  - intros clock q q2 Hs Hi _. eapply safe_init; [|done]. by apply Hs, Forall_nil.
  - intros d w q ev w' q2 Hs Hp Ha Hall. cbn [phase_predicted] in Hall. rewrite predicted_logged in Hall.
    apply Forall_app in Hall as [Hall [Hev _]%Forall_cons]. eapply safe_add; eauto.
  - intros d w q clock ev q2 Hs _ Hg Hall. eapply safe_get; eauto.
  - intros ev d w q d' w' Hs Hp Hend Hall. eapply safe_process; [|done..]. apply Hs.
    cbn [phase_predicted] in *. by rewrite <- (processEvent_predicted _ _ _ _ _ Hp).
  - intros ph q op q2 Hop Hs Hx Hall. eapply safe_pushed; eauto.
Qed.

(** ** No operation faults *)

Lemma add_safe ev (b : bool) q sq :
  queue_safe sq q -> (if b then T (getTime ev) /\ sp_prediction sq = None else pushed ev) -> forall f, add ev b q <> Fault f.
Proof.
  intros Hq Hev f Hf. destruct b.
  - destruct Hev as [Hev Hn]. destruct (queue_safe_prediction _ _ _ Hq Hn Hev) as (q' & Ha & _). congruence.
  - destruct (add_external_spec ev q sq) as (q' & Ha & _); [apply Hq..| |congruence]. by apply (mg_time T HT), Hpushed.
Qed.

Lemma get_safe clock q sq :
  queue_safe sq q -> (forall p, sp_prediction sq = Some p -> T (getTime p)) -> forall f, get_step clock q <> Fault f.
Proof.
  intros [_ Hr _ Hp] Hpred f. unfold get_step. rewrite Hr.
  assert (Hok : forall ev (l : list (E * bool)), T (getTime ev) ->
     (let* future := isFutureEvent clock q ev in
      if future then let* time := getSystemTime q ev in Ret (WaitUntil time) else Ret (Deliver ev (set_queue l q))) <> Fault f).
  { intros ev l Hev. unfold isFutureEvent, getSystemTime. destruct (mg_range T HT _ Hev) as [d ->]. cbn. by destruct (pt_gtb _ _). }
  destruct sq as [[p|] [|x l]]; cbn in *; [by apply Hok, Hpred..|done|].
  apply Forall_cons in Hp as [Hx _]. by apply Hok, Hpushed.
Qed.

(** ** The threads *)

(** A label of the schedule: the subscribers push what may be pushed. *)
Definition label_ok (l : run_label E) : Prop :=
  match l with InQueue _ (CallPush ev) => pushed ev | _ => True end.

(** The event a subscriber is about to add. *)
Definition errand_pushed (e : errand E) : Prop :=
  match e with Log ev | Add ev _ => pushed ev | _ => True end.

Definition subscribers_ok s : Prop :=
  forall i t, i <> 0%nat -> threads (monitor s) !! i = Some t -> Forall pushes (deeds t) /\ errand_pushed (errand_of (pc t)).

Lemma pushes_goes_on i t t' :
  i <> 0%nat -> role_ok i (pc t) = true -> goes_on t t' ->
  Forall pushes (deeds t) /\ errand_pushed (errand_of (pc t)) -> Forall pushes (deeds t') /\ errand_pushed (errand_of (pc t')).
Proof.
  intros Hi Hr [[-> ->]|[(op & Hop & -> & ->)|(_ & -> & ->)]] [Hall Hp]; [done| |done]. split.
  - apply Forall_app. split; [done|]. constructor; [|constructor].
    pose proof (role_errand _ _ _ Hi Hr Hop) as Hext. destruct op as [|ev|ev [] |]; try done.
    destruct (errand_of (pc t)); cbn in *; try done. by destruct Hop as [-> _].
  - by destruct (errand_of (pc t)).
Qed.

Lemma subscribers_queue i inp s s' :
  main_ok s -> subscribers_ok s -> label_ok (InQueue i inp) -> run_step (InQueue i inp) s = Some (Ret s') -> subscribers_ok s'.
Proof.
  intros [Hm _ _ _] Hs Hl (_ & _ & m' & Hst & ->)%queue_step_inv j t' Hj Ht'. cbn [monitor set_monitor] in Ht'.
  destruct (decide (j = i)) as [->|Hne].
  - pose proof (monitor_step_others _ _ _ _ Hst) as [Hdom _]. destruct (proj2 (Hdom i) ltac:(by eexists)) as [u Hu].
    destruct (ok_threads _ Hm _ _ Hu) as (_ & _ & Hr & _). pose proof (Hs i u Hj Hu) as [Hd Hp].
    destruct (decide (pc u = Idle)) as [Hpc|Hpc].
    + destruct (idle_call _ _ _ _ Hu Hpc _ Hst) as (p & Hc & ->).
      assert (t' = goto p u) as -> by (cbn in Ht'; rewrite list_lookup_insert_eq in Ht' by (by eapply lookup_lt_Some); congruence).
      unfold deeds in *. cbn. rewrite Hpc in Hd. rewrite (called_pending _ _ _ Hc). split; [done|].
      destruct inp, i; cbn in Hc; try done; by injection Hc as <-.
    + destruct (monitor_goes_on _ _ _ _ _ Hu Hpc Hst) as (t1 & Ht1 & Hg). replace t1 with t' in * by congruence.
      by eapply pushes_goes_on.
  - destruct (others_kept j _ _ _ _ _ Hst Hne Ht') as (u & Hu & -> & ->). eauto.
Qed.

Lemma call_queue_others inp t (m : Monitor E) j : j <> 0%nat -> threads (call_queue inp t m) !! j = threads m !! j.
Proof.
  intros Hj. unfold call_queue. destruct (called 0 inp); [|done]. cbn. by rewrite list_lookup_insert_ne.
Qed.

Lemma code_others s s' j : run_step Code s = Some (Ret s') -> j <> 0%nat -> threads (monitor s') !! j = threads (monitor s) !! j.
Proof.
  cbn [run_step]. destruct (threads (monitor s) !! 0%nat) as [t|]; [|done]. destruct (pc t); try done. unfold run_code.
  destruct (next_ s); intros Hs Hj; [| | |done].
  - injection Hs as Hs. apply obind_Ret_inv in Hs as (p & _ & [= <-]). by apply call_queue_others.
  - injection Hs as <-. by apply call_queue_others.
  - destruct (last (effects t)) as [[]|]; try done. injection Hs as Hs. by apply obind_Ret_inv in Hs as (r & _ & [= <-]).
Qed.

Lemma subscribers_code s s' : subscribers_ok s -> run_step Code s = Some (Ret s') -> subscribers_ok s'.
Proof. intros Hs Hst j t' Hj. rewrite (code_others _ _ _ Hst Hj). by apply Hs. Qed.

Lemma subscribers_ops ops s :
  subscribers_ok s -> history now ops (monitor s) -> Forall (fun x => x.1 <> 0%nat -> pushes x.2) ops.
Proof.
  intros Hs Hh. eapply history_others; [done|]. intros i t Hi Ht. by destruct (Hs i t Hi Ht).
Qed.

(** What the threads have done is safe. *)
Lemma safe_state s :
  main_ok s -> subscribers_ok s -> Forall (fun ev => T (getTime ev)) (predicted (dispatcher s)) ->
  exists t q, threads (monitor s) !! 0%nat = Some t /\ standing now (monitor s) q /\
    point_ok start d0 w0 (next_ s) (errand_of (pc t)) (deeds t) (dispatcher s) (world s) /\
    forall ph, acts (deeds t) ph -> manageable_so_far ph -> safe ph q.
Proof.
  intros Hok Hs Hall. pose proof Hok as [_ [ops Hh] (t & Ht & Hp) _]. pose proof Hh as [_ Hth (q & Hq & Hst)].
  exists t, q. split_and!; [done..|]. intros ph Ha Hph. revert Hph.
  apply (acts_invariant start now d0 w0 _ _ ops q ph safe_invariant Hq); [by eapply subscribers_ops|].
  unfold deeds in Ha. by rewrite (Hth 0%nat t Ht).
Qed.

(** The phase behind a point of the code. *)
Lemma point_phase p e l d w :
  point_ok start d0 w0 p e l d w -> exists ph, acts l ph /\ (forall x, x ∈ phase_predicted ph -> x ∈ predicted d).
Proof.
  destruct p; cbn.
  - intros [(_ & -> & _)|[_ Ha]]; [exists Fresh; split; [constructor|by intros x ?%elem_of_nil]|by exists (Next d w)].
  - intros [(ev & d1 & w1 & _ & Ha & _ & ->)|[_ Ha]]; [exists (Next d1 w1)|by exists (Outstanding d w)].
    split; [done|]. rewrite predicted_logged. set_solver.
  - intros [[_ Ha]|(_ & clock & ev & _ & Ha)]; [by exists (Outstanding d w)|by exists (Taken ev d w)].
  - intros (_ & ev & d1 & w1 & Ha & Hp & _). exists (Taken ev d1 w1). split; [done|].
    cbn [phase_predicted]. by rewrite <- (processEvent_predicted _ _ _ _ _ Hp).
Qed.

Lemma manageable_incl ph d :
  Forall (fun ev => T (getTime ev)) (predicted d) -> (forall x, x ∈ phase_predicted ph -> x ∈ predicted d) -> manageable_so_far ph.
Proof. intros Hall Hi. apply Forall_forall. intros x Hx. by apply (proj1 (Forall_forall _ _) Hall), Hi. Qed.

Lemma safe_queue ph q : safe ph q -> q = new_TimedEventQueue now \/ exists sq, queue_safe sq q.
Proof.
  destruct ph; cbn; [by left|intros (_ & _ & sq & Hq & _)|intros (_ & p & sq & _ & _ & Hq & _)|intros (_ & p & sq & _ & _ & Hq & _)];
    right; by exists sq.
Qed.

Lemma dispatcher_step_safe s t q inp f :
  point_ok start d0 w0 (next_ s) (errand_of (pc t)) (deeds t) (dispatcher s) (world s) ->
  (forall ph, acts (deeds t) ph -> manageable_so_far ph -> safe ph q) ->
  role_ok 0 (pc t) = true -> Forall (fun ev => T (getTime ev)) (predicted (dispatcher s)) -> ~ faults (pc t) inp q f.
Proof.
  intros Hp Hsafe Hr Hall Hf.
  assert (Hadd : forall ev b, errand_of (pc t) = Add ev b -> add ev b q <> Fault f).
  { intros ev b He. pose proof (point_errand _ _ _ _ _ _ _ _ Hp) as Hn. rewrite He in Hn, Hp. destruct Hn as [Hn ->]. rewrite Hn in Hp.
    destruct Hp as [(ev' & d1 & w1 & [= ->] & Ha & _ & Hd)|[Hx _]]; [|done]. rewrite Hd, predicted_logged in Hall.
    apply Forall_app in Hall as [Hall [Hev _]%Forall_cons]. destruct (Hsafe _ Ha Hall) as (_ & _ & sq & Hq & Hnone). by eapply add_safe. }
  destruct (pc t) eqn:Hpc; try done; [|by eapply Hadd..|].
  - pose proof (point_errand _ _ _ _ _ _ _ _ Hp) as Hn. cbn in Hn. rewrite Hn in Hp.
    destruct Hp as [([= ->] & Hl & _)|[Hx _]]; [|done]. rewrite Hl in Hsafe. specialize (Hsafe Fresh ltac:(constructor) ltac:(constructor)).
    cbn in Hf, Hsafe. subst q. unfold initStartTimeNow in Hf. destruct (mg_range T HT _ Hstart) as [d Hd]. by rewrite Hd in Hf.
  - pose proof (point_errand _ _ _ _ _ _ _ _ Hp) as Hn. cbn in Hn. rewrite Hn in Hp. destruct inp; try done.
    destruct Hp as [[_ Ha]|[Hx _]]; [|done]. destruct (Hsafe _ Ha Hall) as (_ & p & sq & _ & Hin & Hq & Hpred).
    eapply (get_safe _ _ _ Hq); [|exact Hf]. intros p' ->%Hpred. by apply (proj1 (Forall_forall _ _) Hall).
Qed.

Lemma subscriber_step_safe i s u q inp f :
  i <> 0%nat -> subscribers_ok s -> threads (monitor s) !! i = Some u -> role_ok i (pc u) = true ->
  (exists ph, safe ph q) -> ~ faults (pc u) inp q f.
Proof.
  intros Hi Hs Hu Hr [ph Hph] Hf. destruct (Hs i u Hi Hu) as [_ Hp]. apply safe_queue in Hph.
  assert (Hadd : forall ev b, pushed ev -> Bool.eqb b (i =? 0)%nat = true -> add ev b q <> Fault f).
  { intros ev b Hev Hb. destruct i as [|i]; [done|]. destruct b; [done|].
    destruct Hph as [-> |[sq Hq]]; [done|]. by eapply add_safe. }
  destruct (pc u) eqn:Hpc; try done; cbn in Hr, Hp, Hf; try (by eapply Hadd); by destruct i.
Qed.

Lemma queue_step_safe i inp s f :
  main_ok s -> subscribers_ok s -> Forall (fun ev => T (getTime ev)) (predicted (dispatcher s)) ->
  run_step (InQueue i inp) s <> Some (Fault f).
Proof.
  intros Hok Hs Hall Hst. destruct (safe_state s Hok Hs Hall) as (t & q & Ht & Hq & Hp & Hsafe).
  assert (Hst' : monitor_step i inp (monitor s) = Some (Fault f)).
  { cbn [run_step] in Hst. destruct inp; try discriminate Hst; destruct (monitor_step i _ (monitor s)) as [[]|]; by simplify_eq/=. }
  destruct (step_faults _ _ _ _ q _ (ro_monitor _ _ _ _ s Hok) Hq Hst') as (u & Hu & Hf).
  destruct (ok_threads _ (ro_monitor _ _ _ _ s Hok) _ _ Hu) as (_ & _ & Hr & _).
  destruct (decide (i = 0%nat)) as [->|Hi].
  - replace u with t in * by congruence. by eapply dispatcher_step_safe.
  - eapply (subscriber_step_safe i s u); [done..| |exact Hf].
    destruct (point_phase _ _ _ _ _ Hp) as (ph & Ha & Hincl). exists ph. apply Hsafe; [done|]. by eapply manageable_incl.
Qed.

Lemma code_step_safe s f :
  main_ok s -> subscribers_ok s -> Forall (fun ev => T (getTime ev)) (predicted (dispatcher s)) ->
  run_step Code s <> Some (Fault f).
Proof.
  intros Hok Hs Hall Hst. destruct (safe_state s Hok Hs Hall) as (t & q & Ht & Hq & Hp & Hsafe).
  cbn [run_step] in Hst. rewrite Ht in Hst. destruct (pc t) eqn:Hpc; try discriminate Hst. unfold run_code in Hst.
  destruct (next_ s) eqn:Hn; cbn [point_ok errand_of] in Hp; try done.
  - destruct Hp as [(Hx & _)|[_ Ha]]; [done|]. destruct (Hsafe _ Ha Hall) as (_ & Hw & _).
    pose proof (pr_predict _ _ _ _ _ Hprotocol _ Hw) as Hpr. by destruct (predictNext (world s)).
  - destruct Hp as [(Hx & _)|(_ & clock & ev & Hl & Ha)]; [done|]. destruct (Hsafe _ Ha Hall) as ([Hls _] & p & sq & Hw & Hev & _).
    assert (Heff : effects t = deeds t) by (unfold deeds; rewrite Hpc; cbn; by rewrite app_nil_r).
    rewrite Heff, Hl in Hst. pose proof (pr_distribute _ _ _ _ _ Hprotocol ev p _ Hw Hev) as Hpr. rewrite <- Hls in Hpr.
    unfold processEvent in Hst. cbn [listener_ EventDispatcher.logEvent] in Hst. by destruct (foldlM _ _ _).
Qed.

(** ** Schedules *)

Lemma step_predicted l s s' : run_step l s = Some (Ret s') -> forall x, x ∈ predicted (dispatcher s) -> x ∈ predicted (dispatcher s').
Proof.
  destruct l as [|i inp]; [|by intros (_ & _ & m' & _ & ->)%queue_step_inv].
  cbn [run_step]. destruct (threads (monitor s) !! 0%nat) as [t|]; [|done]. destruct (pc t); try done. unfold run_code.
  destruct (next_ s); intros Hs x Hx; [| | |done].
  - injection Hs as Hs. apply obind_Ret_inv in Hs as (p & _ & [= <-]). cbn [dispatcher]. rewrite predicted_logged. set_solver.
  - by injection Hs as <-.
  - destruct (last (effects t)) as [[]|]; try done. injection Hs as Hs. apply obind_Ret_inv in Hs as ([d' w'] & Hp & [= <-]).
    cbn [dispatcher fst]. by rewrite (processEvent_predicted _ _ _ _ _ Hp).
Qed.

Lemma last_state_predicted ls s x : x ∈ predicted (dispatcher s) -> x ∈ predicted (dispatcher (last_state ls s)).
Proof.
  revert s. induction ls as [|l ls IH]; intros s Hx; [done|]. cbn. destruct (run_step l s) as [[s'| |]|] eqn:Hs; auto.
  eapply IH, step_predicted; eauto.
Qed.

Lemma schedule_safe ls s f :
  main_ok s -> subscribers_ok s -> Forall label_ok ls ->
  Forall (fun ev => T (getTime ev)) (predicted (dispatcher (last_state ls s))) -> run_steps ls s <> Fault f.
Proof.
  revert s. induction ls as [|l ls IH]; intros s Hok Hs Hls Hall; [done|]. apply Forall_cons in Hls as [Hl Hls]. cbn in *.
  assert (Hnow : Forall (fun ev => T (getTime ev)) (predicted (dispatcher s))).
  { destruct (run_step l s) as [[s'| |]|] eqn:Hst; [|done..|]; apply Forall_forall; intros x Hx;
      apply (proj1 (Forall_forall _ _) Hall), last_state_predicted; [by eapply step_predicted|done]. }
  destruct (run_step l s) as [[s'|x|g]|] eqn:Hst; cbn; [|done| |by apply IH].
  - apply IH; [| |done..]; destruct l; [by eapply main_ok_code|by eapply main_ok_queue|by eapply subscribers_code|by eapply subscribers_queue].
  - intros _. destruct l; [by eapply code_step_safe|by eapply queue_step_safe].
Qed.
End Safety.
