(* ===== verification/ConcurrentSubscriber.v ===== *)
(** * Subscribers with a thread of their own (src/network/ConcurrentSubscriber.cpp)

    A [ConcurrentSubscriber] is shared by the thread that owns it and by its
    subscription thread.  Both run in steps: a step goes from one access to a
    mutex to the next.  A step that waits is not enabled ([None]).  The derived
    class is the interface [Subscription]: its [run] works in turns, and a turn may
    ask for the termination flag.  The error callback is an interface, too. *)

From S2P Require Import Prelude Float64 BaseExceptions PropertyTree ChannelMapping.

(** The threads of the program: the main thread and the thread of the [i]-th
    subscriber. *)
Inductive agent :=
  | MainThread
  | SubscriberThread (i : nat).

#[export] Instance agent_eq_dec : EqDecision agent.
Proof. solve_decision. Defined.

(** How a turn of [run] ends: [run] goes on, it is about to call
    [isTerminationRequestPending], it returns or it throws. *)
Inductive activity (D : Type) :=
  | Continue (d : D)
  | AskTermination (d : D)
  | Finished (d : D)
  | Raised (x : exn) (d : D)
  | Broken (f : fault).
Arguments Continue {D} d.
Arguments AskTermination {D} d.
Arguments Finished {D} d.
Arguments Raised {D} x d.
Arguments Broken {D} f.

(** The virtual functions of the derived class.  [I] is what a turn finds ready;
    [sub_answer] is the part of the turn behind [isTerminationRequestPending]. *)
Class Subscription (PT : PropertyTree) (D I : Type) := {
  sub_init : TransmissionChannel -> D -> result D;
  sub_terminationRequest : D -> D;
  sub_run : I -> D -> activity D;
  sub_answer : bool -> I -> D -> activity D;
  (** does the turn call the event sink, which makes its callers wait until the
      simulation time has been initialised? *)
  sub_waits : I -> D -> bool;
}.

(** What a turn leaves behind, in a state that satisfies [P]. *)
Definition activity_in {D} (P : D -> Prop) (a : activity D) : Prop :=
  match a with
  | Continue d | AskTermination d | Finished d | Raised _ d => P d
  | Broken _ => False
  end.

Definition asks {D} (a : activity D) : bool :=
  match a with AskTermination _ => true | _ => false end.

Definition ends {D} (a : activity D) : bool :=
  match a with Finished _ | Raised _ _ => true | _ => false end.

(** What a derived class owes to its base: its turns do not fail, and once it has
    been requested to terminate, a turn is ready that ends [run]. *)
Class SubscriptionLaws (PT : PropertyTree) (D I : Type) `{!Subscription PT D I} := {
  sub_channel : TransmissionChannel -> Prop;
  sub_new : D -> Prop;
  sub_ok : D -> Prop;
  sub_requested : D -> Prop;
  init_total ch d : sub_channel ch -> sub_new d -> wp (sub_init ch d) sub_ok (fun _ => True);
  run_ok inp d : sub_ok d -> activity_in sub_ok (sub_run inp d);
  answer_ok b inp d : sub_ok d -> activity_in sub_ok (sub_answer b inp d);
  answer_once b inp d : asks (sub_answer b inp d) = false;
  request_ok d : sub_ok d -> sub_ok (sub_terminationRequest d);
  request_requested d : sub_requested (sub_terminationRequest d);
  requested_run inp d : sub_ok d -> sub_requested d -> activity_in sub_requested (sub_run inp d);
  requested_answer b inp d : sub_ok d -> sub_requested d -> activity_in sub_requested (sub_answer b inp d);
  requested_ends d : sub_ok d -> sub_requested d -> exists inp, sub_waits inp d = false /\ ends (sub_run inp d) = true;
}.

(** The error callback, called by thread [i] in two steps: it waits until it may
    enter, and does its work. *)
Class ErrorCallback (M : Type) := {
  callback_enter : nat -> M -> option M;
  callback_leave : exn -> M -> M;
}.

(** The control state of the subscription thread. *)
Inductive thread_pc (I : Type) :=
  | NotStarted            (** no thread: not joinable *)
  | Running               (** in [run] *)
  | Waiting (inp : I)     (** in a call of the event sink, [waitIfUninitialized] *)
  | Asking (inp : I)      (** about to lock in [isTerminationRequestPending] *)
  | AskLocked (inp : I)   (** has locked *)
  | CatchLock (x : exn)   (** a handler of [executeRun], about to lock *)
  | CatchLocked (x : exn) (** has locked, about to enter the callback *)
  | Handling (x : exn)    (** in the callback *)
  | Reported              (** behind the callback, still locked *)
  | ResetLock             (** behind the handlers, about to lock *)
  | ResetLocked           (** has locked *)
  | Exited                (** [executeRun] has returned *)
  | Joined.               (** joined: not joinable *)
Arguments NotStarted {I}.
Arguments Running {I}.
Arguments Waiting {I} inp.
Arguments Asking {I} inp.
Arguments AskLocked {I} inp.
Arguments CatchLock {I} x.
Arguments CatchLocked {I} x.
Arguments Handling {I} x.
Arguments Reported {I}.
Arguments ResetLock {I}.
Arguments ResetLocked {I}.
Arguments Exited {I}.
Arguments Joined {I}.

Section Subscriber.
Context `{PT : PropertyTree} {D I : Type} `{SUB : !Subscription PT D I}.

Record ConcurrentSubscriber := {
  subscriptionThread_ : thread_pc I;
  terminationRequest_ : bool;
  objectMut_ : option agent;
  derived_ : D;
}.

Definition new_ConcurrentSubscriber (d : D) : ConcurrentSubscriber :=
  {| subscriptionThread_ := NotStarted; terminationRequest_ := false; objectMut_ := None; derived_ := d |}.

(** [subscriptionThread_.joinable()]. *)
Definition joinable (s : ConcurrentSubscriber) : bool :=
  match subscriptionThread_ s with NotStarted | Joined => false | _ => true end.

Definition goto (t : thread_pc I) (s : ConcurrentSubscriber) : ConcurrentSubscriber :=
  {| subscriptionThread_ := t; terminationRequest_ := terminationRequest_ s;
     objectMut_ := objectMut_ s; derived_ := derived_ s |}.
Definition set_flag (b : bool) (s : ConcurrentSubscriber) : ConcurrentSubscriber :=
  {| subscriptionThread_ := subscriptionThread_ s; terminationRequest_ := b;
     objectMut_ := objectMut_ s; derived_ := derived_ s |}.
Definition set_mutex (o : option agent) (s : ConcurrentSubscriber) : ConcurrentSubscriber :=
  {| subscriptionThread_ := subscriptionThread_ s; terminationRequest_ := terminationRequest_ s;
     objectMut_ := o; derived_ := derived_ s |}.
Definition set_derived (d : D) (s : ConcurrentSubscriber) : ConcurrentSubscriber :=
  {| subscriptionThread_ := subscriptionThread_ s; terminationRequest_ := terminationRequest_ s;
     objectMut_ := objectMut_ s; derived_ := d |}.

(** [std::lock_guard<std::mutex> guard(objectMut_)]: the constructor waits. *)
Definition lock (a : agent) (s : ConcurrentSubscriber) : option ConcurrentSubscriber :=
  match objectMut_ s with None => Some (set_mutex (Some a) s) | Some _ => None end.
Definition unlock (s : ConcurrentSubscriber) : ConcurrentSubscriber := set_mutex None s.

(** ** The owner's operations *)

(** [initAndStart] behind the lock: an exception of [init] leaves the function. *)
Definition initAndStart (settings : TransmissionChannel) (s : ConcurrentSubscriber)
    : result ConcurrentSubscriber :=
  let s1 := set_flag false s in
  let* d := sub_init settings (derived_ s1) in
  Ret (goto Running (set_derived d s1)).

(** [terminate], part by part. *)
Definition terminate_begin (s : ConcurrentSubscriber) : result unit := assert_ (joinable s).
Definition terminate_flag (s : ConcurrentSubscriber) : ConcurrentSubscriber := unlock (set_flag true s).
Definition terminate_request (s : ConcurrentSubscriber) : ConcurrentSubscriber :=
  set_derived (sub_terminationRequest (derived_ s)) s.
Definition terminate_join (s : ConcurrentSubscriber) : option ConcurrentSubscriber :=
  match subscriptionThread_ s with Exited => Some (goto Joined s) | _ => None end.

(** Is the thread in code of the derived class? *)
Definition in_run (t : thread_pc I) : bool :=
  match t with Running | Waiting _ | Asking _ | AskLocked _ => true | _ => false end.

(** The destructor.  It runs when the derived part is gone: the call of
    [terminationRequest] is the empty one of the base class, and a thread that is
    still in [run] uses destroyed members. *)
Definition destructor_begin (s : ConcurrentSubscriber) : option (result ConcurrentSubscriber) :=
  if negb (joinable s) then Some (Ret s) else
  if in_run (subscriptionThread_ s) then Some (Fault UndefinedBehaviour) else
  match lock MainThread s with Some s1 => Some (Ret (terminate_flag s1)) | None => None end.

(** ** The thread *)

(** The point reached behind a turn of [run]; [inp] is the input of the turn. *)
Definition run_turn (inp : I) (a : activity D) (s : ConcurrentSubscriber) : result ConcurrentSubscriber :=
  match a with
  | Continue d => Ret (goto Running (set_derived d s))
  | AskTermination d => Ret (goto (Asking inp) (set_derived d s))
  | Finished d => Ret (goto ResetLock (set_derived d s))
  | Raised x d => Ret (goto (CatchLock x) (set_derived d s))
  | Broken f => Fault f
  end.

Definition isTerminationRequestPending (s : ConcurrentSubscriber) : bool := terminationRequest_ s.

Context {M : Type} `{CB : !ErrorCallback M}.

(** One step of [executeRun] in the thread of subscriber [i]; [m] is what the error
    callback works on, [started] says that the simulation time is initialised. *)
Definition executeRun_step (started : bool) (i : nat) (inp : I) (s : ConcurrentSubscriber) (m : M)
    : option (result (ConcurrentSubscriber * M)) :=
  let locked t := match lock (SubscriberThread i) s with
                  | Some s' => Some (Ret (goto t s', m)) | None => None end in
  let next r := Some (let* s' := r in Ret (s', m)) in
  match subscriptionThread_ s with
  | Running =>
      if sub_waits inp (derived_ s) && negb started then Some (Ret (goto (Waiting inp) s, m))
      else next (run_turn inp (sub_run inp (derived_ s)) s)
  | Waiting inp' => if started then next (run_turn inp' (sub_run inp' (derived_ s)) s) else None
  | Asking inp' => locked (AskLocked inp')
  | AskLocked inp' =>
      let flag := isTerminationRequestPending s in
      let s1 := unlock s in
      next (run_turn inp' (sub_answer flag inp' (derived_ s1)) s1)
  | CatchLock x => locked (CatchLocked x)
  | CatchLocked x =>
      match callback_enter i m with Some m' => Some (Ret (goto (Handling x) s, m')) | None => None end
  | Handling x => Some (Ret (goto Reported s, callback_leave x m))
  | Reported => Some (Ret (goto ResetLock (unlock s), m))
  | ResetLock => locked ResetLocked
  | ResetLocked => Some (Ret (goto Exited (unlock (set_flag false s)), m))
  | NotStarted | Exited | Joined => None
  end.

End Subscriber.

Arguments ConcurrentSubscriber D I : clear implicits.
