(* ===== verification/CompactASN1Clients.v ===== *)
(** * The compact ASN.1 clients (src/network/CompactASN1UDPPublisher.cpp,
    CompactASN1TCPClientPublisher.cpp, CompactASN1TCPClientSubscriber.cpp)

    The encoder and the decoder on sockets.  Boost.Asio is an interface over the
    state [W] of the network; its throwing functions throw a [system_error], which is
    a [runtime_error]. *)

From Stdlib Require Import Ascii.
From S2P Require Import Prelude Float64 BaseExceptions PortID Format Variables PropertyTree.
From S2P Require Import ChannelMapping ASN1Commons ASN1Publisher ASN1Subscriber ConcurrentSubscriber.

Local Open Scope Z_scope.

Inductive ip_protocol := tcp | udp.

(** Boost.Asio.  [None] and [false] stand for an error code. *)
Class Asio (W : Type) := {
  endpoint : Type;
  tcp_socket : Type;
  udp_socket : Type;
  resolve : ip_protocol -> string -> string -> W -> option (list endpoint) * W;
  udp_open : endpoint -> W -> option udp_socket * W;
  udp_send_to : udp_socket -> list Z -> endpoint -> W -> option nat * W;
  tcp_new : tcp_socket;
  tcp_is_open : tcp_socket -> bool;
  (** [boost::asio::connect(socket, candidates, err)] *)
  tcp_connect : tcp_socket -> list endpoint -> W -> bool * tcp_socket * W;
  tcp_close : tcp_socket -> W -> tcp_socket * W;
  tcp_send : tcp_socket -> list Z -> W -> option nat * W;
  sleep_for : Z -> W -> W;
  (** the clock of the timers, in milliseconds *)
  clock_ms : W -> Z;
  system_error_what : string;
}.

(** A query that is answered has an answer; a connected socket is open. *)
Class AsioLaws (W : Type) `{Asio W} := {
  resolve_nonempty p host port w eps w' : resolve p host port w = (Some eps, w') -> eps <> [];
  tcp_connected_open sock eps w sock' w' : tcp_connect sock eps w = (true, sock', w') -> tcp_is_open sock' = true;
}.

Definition PUBLISHER_ID_UDP : string := "CompactASN.1-UDP".
Definition PUBLISHER_ID_TCP : string := "CompactASN.1-TCP".
Definition SUBSCRIBER_ID : string := "CompactASN.1-TCP".
Definition PROP_ADDR : string := "addr".
Definition PROP_RECON_INTERVALL : string := "reconnectionInterval".
Definition PROP_RETRY_COUNT : string := "reconnectionRetryCount".

Section Publishers.
Context `{PropertyTree} {W : Type} `{Asio W}.

(** Host and port of a publisher: the separator is neither missing nor at an end. *)
Definition publisher_address (channel : TransmissionChannel) : result (string * string) :=
  match get_child_optional (getChannelConfig channel) PROP_ADDR with
  | None => throw_config "Address property of ASN.1 publisher not found"
  | Some addrProp =>
      let addr := pt_data addrProp in
      let bad := throw_config_kv "Invalid address format. Expected <addr>:<port>" PROP_ADDR addr in
      match String.index 0 ":" addr with
      | None => bad
      | Some sepPos =>
          if (sepPos =? String.length addr - 1)%nat || (sepPos =? 0)%nat then bad
          else Ret (String.substring 0 sepPos addr, String.substring (sepPos + 1) (String.length addr - (sepPos + 1)) addr)
      end
  end.

(** A throwing function of the library. *)
Definition or_system_error {A} (o : option A) : result A :=
  of_option o (Throw (ExnRuntimeError system_error_what)).

(** ** CompactASN1UDPPublisher *)

Record CompactASN1UDPPublisher := {
  udp_base : CompactASN1Publisher;
  destination_ : option endpoint;
  udp_socket_ : option udp_socket;
}.

Definition new_CompactASN1UDPPublisher : CompactASN1UDPPublisher :=
  {| udp_base := new_CompactASN1Publisher; destination_ := None; udp_socket_ := None |}.

Definition udp_init (channel : TransmissionChannel) (p : CompactASN1UDPPublisher) (w : W)
    : result (CompactASN1UDPPublisher * W) :=
  let* base := init channel (udp_base p) in
  let* addr := publisher_address channel in
  let '(found, w1) := resolve udp addr.1 addr.2 w in
  let* candidates := or_system_error found in
  match candidates with
  | [] => Fault UndefinedBehaviour
  | destination :: _ =>
      let '(opened, w2) := udp_open destination w1 in
      let* socket := or_system_error opened in
      Ret ({| udp_base := base; destination_ := Some destination; udp_socket_ := Some socket |}, w2)
  end.

(** [sendData]: was the message transferred as a whole? *)
Definition udp_sendData (buffer : list Z) (p : CompactASN1UDPPublisher) (w : W) : result (bool * W) :=
  match udp_socket_ p, destination_ p with
  | Some socket, Some destination =>
      let '(sent, w1) := udp_send_to socket buffer destination w in
      let* trSize := or_system_error sent in
      Ret ((trSize =? length buffer)%nat, w1)
  | _, _ => Fault UndefinedBehaviour
  end.

(** ** CompactASN1TCPClientPublisher *)

Record CompactASN1TCPClientPublisher := {
  tcp_base : CompactASN1Publisher;
  tcp_socket_ : option tcp_socket;
}.

Definition new_CompactASN1TCPClientPublisher : CompactASN1TCPClientPublisher :=
  {| tcp_base := new_CompactASN1Publisher; tcp_socket_ := None |}.

Definition tcp_init (channel : TransmissionChannel) (p : CompactASN1TCPClientPublisher) (w : W)
    : result (CompactASN1TCPClientPublisher * W) :=
  let* base := init channel (tcp_base p) in
  let* addr := publisher_address channel in
  let '(found, w1) := resolve tcp addr.1 addr.2 w in
  let* remoteCandidates := or_system_error found in
  let '(connected, socket, w2) := tcp_connect tcp_new remoteCandidates w1 in
  let* _ := or_system_error (if connected : bool then Some tt else None) in
  Ret ({| tcp_base := base; tcp_socket_ := Some socket |}, w2).

Definition tcp_sendData (buffer : list Z) (p : CompactASN1TCPClientPublisher) (w : W) : result (bool * W) :=
  match tcp_socket_ p with
  | Some socket =>
      let '(sent, w1) := tcp_send socket buffer w in
      let* trSize := or_system_error sent in
      Ret ((trSize =? length buffer)%nat, w1)
  | None => Fault UndefinedBehaviour
  end.

(** ** Publisher: the virtual functions [init] and [eventTriggered] *)

Inductive Publisher :=
  | UDPPublisher (p : CompactASN1UDPPublisher)
  | TCPPublisher (p : CompactASN1TCPClientPublisher).

Definition publisher_init (channel : TransmissionChannel) (p : Publisher) (w : W) : result (Publisher * W) :=
  match p with
  | UDPPublisher p => let* r := udp_init channel p w in Ret (UDPPublisher r.1, r.2)
  | TCPPublisher p => let* r := tcp_init channel p w in Ret (TCPPublisher r.1, r.2)
  end.

(** [CompactASN1Publisher::eventTriggered] with the [sendData] of the subclass. *)
Definition publisher_eventTriggered (vars : list Variable_t) (p : Publisher) (w : W)
    : result (Publisher * W) :=
  match p with
  | UDPPublisher p =>
      let* r := eventTriggered vars (udp_base p) in
      let p' := {| udp_base := r.1; destination_ := destination_ p; udp_socket_ := udp_socket_ p |} in
      match r.2 with
      | None => Ret (UDPPublisher p', w)
      | Some buffer => let* sent := udp_sendData buffer p' w in Ret (UDPPublisher p', sent.2)
      end
  | TCPPublisher p =>
      let* r := eventTriggered vars (tcp_base p) in
      let p' := {| tcp_base := r.1; tcp_socket_ := tcp_socket_ p |} in
      match r.2 with
      | None => Ret (TCPPublisher p', w)
      | Some buffer => let* sent := tcp_sendData buffer p' w in Ret (TCPPublisher p', sent.2)
      end
  end.

End Publishers.

Arguments Publisher W {_}.

(** ** CompactASN1TCPClientSubscriber *)

Section Subscriber.
Context `{PropertyTree} `{LexicalConvert} {Sk : Type} `{EventSink Sk} {W : Type} `{Asio W}.

(** The object with its connection: [env_] is the network, [receiving_] says that an
    asynchronous receive is pending, [terminationPosted_] that [handleTermination]
    waits in the queue of the service. *)
Record CompactASN1TCPClientSubscriber := {
  base_ : CompactASN1Subscriber Sk;
  channel_ : option TransmissionChannel;
  socket_ : option tcp_socket;
  reconnectionTimeout_ : Z;
  reconnectionRetries_ : Z;
  receiving_ : bool;
  terminationPosted_ : bool;
  env_ : W;
}.

(** The constructors, of the base class and of this one. *)
Definition new_CompactASN1Subscriber (sink : Sk) : CompactASN1Subscriber Sk :=
  {| channelPorts_ := []; eventSink_ := sink; partialData_ := None; remainingRawData_ := [];
     busyKeeper_ := false; timerExpiry_ := 0; timerWaiting_ := false; serviceStopped_ := false |}.
Definition new_CompactASN1TCPClientSubscriber (sink : Sk) (w : W) : CompactASN1TCPClientSubscriber :=
  {| base_ := new_CompactASN1Subscriber sink; channel_ := None; socket_ := None;
     reconnectionTimeout_ := 0; reconnectionRetries_ := 0; receiving_ := false;
     terminationPosted_ := false; env_ := w |}.

Definition set_socket (sock : option tcp_socket) (w : W) (s : CompactASN1TCPClientSubscriber)
    : CompactASN1TCPClientSubscriber :=
  {| base_ := base_ s; channel_ := channel_ s; socket_ := sock;
     reconnectionTimeout_ := reconnectionTimeout_ s; reconnectionRetries_ := reconnectionRetries_ s;
     receiving_ := receiving_ s; terminationPosted_ := terminationPosted_ s; env_ := w |}.
Definition set_base (b : CompactASN1Subscriber Sk) (s : CompactASN1TCPClientSubscriber)
    : CompactASN1TCPClientSubscriber :=
  {| base_ := b; channel_ := channel_ s; socket_ := socket_ s;
     reconnectionTimeout_ := reconnectionTimeout_ s; reconnectionRetries_ := reconnectionRetries_ s;
     receiving_ := receiving_ s; terminationPosted_ := terminationPosted_ s; env_ := env_ s |}.
Definition set_receiving (b : bool) (s : CompactASN1TCPClientSubscriber) : CompactASN1TCPClientSubscriber :=
  {| base_ := base_ s; channel_ := channel_ s; socket_ := socket_ s;
     reconnectionTimeout_ := reconnectionTimeout_ s; reconnectionRetries_ := reconnectionRetries_ s;
     receiving_ := b; terminationPosted_ := terminationPosted_ s; env_ := env_ s |}.

Definition socket_open (s : CompactASN1TCPClientSubscriber) : bool :=
  match socket_ s with Some sock => tcp_is_open sock | None => false end.

Definition initConfigVariables (s : CompactASN1TCPClientSubscriber)
    : result CompactASN1TCPClientSubscriber :=
  match channel_ s with
  | None => Fault AssertionFailed
  | Some chn =>
      let config := getChannelConfig chn in
      Ret {| base_ := base_ s; channel_ := channel_ s; socket_ := socket_ s;
             reconnectionTimeout_ := to_signed 64 (get_default tr_uint64 config PROP_RECON_INTERVALL 500);
             reconnectionRetries_ := get_default tr_uint32 config PROP_RETRY_COUNT 4;
             receiving_ := receiving_ s; terminationPosted_ := terminationPosted_ s; env_ := env_ s |}
  end.

Definition getHostAndPortName (s : CompactASN1TCPClientSubscriber) : result (string * string) :=
  match channel_ s with
  | None => Fault AssertionFailed
  | Some chn =>
      match get_optional tr_string (getChannelConfig chn) PROP_ADDR with
      | None => throw_config "No addr property set."
      | Some addr =>
          match String.index 0 ":" addr with
          | None => throw_config_kv "Invalid address, no port separator ':' found." PROP_ADDR addr
          | Some colonPos =>
              Ret (String.substring 0 colonPos addr, String.substring (colonPos + 1) (String.length addr - colonPos - 1) addr)
          end
      end
  end.

(** [syncConnect]: its result and the object behind it, an exception included. *)
Definition syncConnect (s : CompactASN1TCPClientSubscriber) : result unit * CompactASN1TCPClientSubscriber :=
  match socket_ s with
  | None => (Fault AssertionFailed, s)
  | Some sock =>
      match getHostAndPortName s with
      | Throw x => (Throw x, s)
      | Fault f => (Fault f, s)
      | Ret addr =>
          let shown := addr.1 +:+ ":" +:+ addr.2 in
          match resolve tcp addr.1 addr.2 (env_ s) with
          | (None, w) => (throw_config_kv "Couldn't resolve address" PROP_ADDR shown, set_socket (Some sock) w s)
          | (Some addrItr, w) =>
              let '(connected, sock', w') := tcp_connect sock addrItr w in
              (if connected : bool then Ret tt else throw_config_kv "Couldn't connect to server" PROP_ADDR shown,
               set_socket (Some sock') w' s)
          end
      end
  end.

(** Is the exception caught by [catch (std::exception &)]? *)
Definition is_std_exception (x : exn) : bool := match x with ExnOther => false | _ => true end.

(** The wait between two attempts. *)
Definition reconnect_pause (retry : Z) (s : CompactASN1TCPClientSubscriber) : CompactASN1TCPClientSubscriber :=
  if retry <? wrap 32 (reconnectionRetries_ s - 1)
  then set_socket (socket_ s) (sleep_for (reconnectionTimeout_ s) (env_ s)) s else s.

(** The loop of [syncReconnect]. *)
Fixpoint reconnect_loop (fuel : nat) (retry : Z) (s : CompactASN1TCPClientSubscriber)
    : result unit * CompactASN1TCPClientSubscriber :=
  match fuel with
  | O => (Fault OutOfFuel, s)
  | S fuel' =>
      if retry <? reconnectionRetries_ s then
        let next (s1 : CompactASN1TCPClientSubscriber) :=
          if socket_open s1 then (Ret tt, s1)
          else reconnect_loop fuel' (wrap 32 (retry + 1)) (reconnect_pause retry s1) in
        match syncConnect s with
        | (Ret _, s1) => next s1
        | (Throw x, s1) => if is_std_exception x then next s1 else (Throw x, s1)
        | (Fault f, s1) => (Fault f, s1)
        end
      else (Ret tt, s)
  end.

Definition syncReconnect (s : CompactASN1TCPClientSubscriber)
    : result unit * CompactASN1TCPClientSubscriber :=
  match reconnect_loop (S (Z.to_nat (reconnectionRetries_ s))) 0 s with
  | (Ret _, s1) =>
      if negb (socket_open s1)
      then (Throw (ExnRuntimeError "Couldn't successfully re-connect to the TCP server"), s1)
      else (Ret tt, s1)
  | r => r
  end.

(** [initiateAsyncReceiving]: the buffer is prepared and a receive is pending. *)
Definition initiateAsyncReceiving (s : CompactASN1TCPClientSubscriber)
    : result CompactASN1TCPClientSubscriber :=
  match socket_ s with None => Fault AssertionFailed | Some _ => Ret (set_receiving true s) end.

Definition initNetwork (s : CompactASN1TCPClientSubscriber) : result CompactASN1TCPClientSubscriber :=
  let* s1 := initConfigVariables (set_socket (Some tcp_new) (env_ s) s) in
  let '(r, s2) := syncConnect s1 in
  let* _ := r in
  initiateAsyncReceiving s2.

(** [CompactASN1Subscriber::init] with the [initNetwork] of the subclass. *)
Definition client_init (settings : TransmissionChannel) (s : CompactASN1TCPClientSubscriber)
    : result CompactASN1TCPClientSubscriber :=
  let* b := subscriber_init settings (eventSink_ (base_ s)) (clock_ms (env_ s)) (base_ s) in
  initNetwork {| base_ := b; channel_ := Some settings; socket_ := socket_ s;
                 reconnectionTimeout_ := reconnectionTimeout_ s; reconnectionRetries_ := reconnectionRetries_ s;
                 receiving_ := receiving_ s; terminationPosted_ := terminationPosted_ s; env_ := env_ s |}.

Definition terminateNetworkConnection (s : CompactASN1TCPClientSubscriber)
    : result CompactASN1TCPClientSubscriber :=
  match socket_ s with
  | None => Fault AssertionFailed
  | Some sock => let '(sock', w) := tcp_close sock (env_ s) in Ret (set_socket (Some sock') w s)
  end.

(** [terminationRequest]: the handler is posted to the service. *)
Definition terminationRequest (s : CompactASN1TCPClientSubscriber) : CompactASN1TCPClientSubscriber :=
  {| base_ := base_ s; channel_ := channel_ s; socket_ := socket_ s;
     reconnectionTimeout_ := reconnectionTimeout_ s; reconnectionRetries_ := reconnectionRetries_ s;
     receiving_ := receiving_ s; terminationPosted_ := true; env_ := env_ s |}.

Inductive receive_error := NoError | Eof | OtherError.

(** What the service finds ready: a posted termination, a completed receive, the
    time-out of the packet timer at a time. *)
Inductive ready :=
  | ReadyTermination
  | ReadyReceive (error : receive_error) (bytes : string)
  | ReadyTimeout (now : Z).

Definition activity_of {A} (r : result A) (s : CompactASN1TCPClientSubscriber)
    (k : A -> activity CompactASN1TCPClientSubscriber) : activity CompactASN1TCPClientSubscriber :=
  match r with Ret a => k a | Throw x => Raised x s | Fault f => Broken f end.

(** [handleReceive] up to the question whether the termination is requested. *)
Definition handleReceive_commit (bytes : string) (s : CompactASN1TCPClientSubscriber)
    : activity CompactASN1TCPClientSubscriber :=
  activity_of (commitData (string_bytes bytes) (base_ s)) s (fun b => AskTermination (set_base b (set_receiving false s))).

(** [handleReceive] behind the question. *)
Definition handleReceive_answer (terminating : bool) (error : receive_error) (s : CompactASN1TCPClientSubscriber)
    : activity CompactASN1TCPClientSubscriber :=
  if terminating then Continue s else
  let '(r, s1) :=
    if negb (socket_open s) || match error with Eof => true | _ => false end
    then syncReconnect s else (Ret tt, s) in
  activity_of r s1 (fun _ => activity_of (initiateAsyncReceiving s1) s1 Continue).

(** [handleTermination] with the connection of the subclass; the service stops and
    [run] returns. *)
Definition client_handleTermination (s : CompactASN1TCPClientSubscriber)
    : activity CompactASN1TCPClientSubscriber :=
  activity_of (terminateNetworkConnection s) s
    (fun s1 => Finished (set_base (handleTermination (base_ s1)) s1)).

(** [service_.run()]: the handler of what is ready. *)
Definition client_run (inp : ready) (s : CompactASN1TCPClientSubscriber)
    : activity CompactASN1TCPClientSubscriber :=
  match inp with
  | ReadyTermination => if terminationPosted_ s then client_handleTermination s else Continue s
  | ReadyReceive _ bytes => if receiving_ s then handleReceive_commit bytes s else Continue s
  | ReadyTimeout now => activity_of (runTimer now (base_ s)) s (fun b => Continue (set_base b s))
  end.

Definition client_answer (terminating : bool) (inp : ready) (s : CompactASN1TCPClientSubscriber)
    : activity CompactASN1TCPClientSubscriber :=
  match inp with
  | ReadyReceive error _ => handleReceive_answer terminating error s
  | _ => Continue s
  end.

(** Does the turn call the event sink?  A receive asks for the time of a new event or
    adds to one that has already been given a time; a time-out hands an event over. *)
Definition client_waits (inp : ready) (s : CompactASN1TCPClientSubscriber) : bool :=
  match inp with
  | ReadyTermination => false
  | ReadyReceive _ bytes => receiving_ s && (0 <? blen (remainingRawData_ (base_ s) ++ string_bytes bytes))
  | ReadyTimeout _ => match partialData_ (base_ s) with Some _ => true | None => false end
  end.

#[export] Instance client_subscription : Subscription _ CompactASN1TCPClientSubscriber ready := {
  sub_init := client_init;
  sub_terminationRequest := terminationRequest;
  sub_run := client_run;
  sub_answer := client_answer;
  sub_waits := client_waits;
}.

End Subscriber.

#[export] Instance ready_inhabited : Inhabited ready := populate ReadyTermination.

Arguments CompactASN1TCPClientSubscriber {_} Sk W {_}.
