(* ===== verification/CompactASN1ClientsSpec.v ===== *)
(** * What the clients promise

    The addresses they accept, the reconnection of the TCP subscriber, and that the
    subscriber is a well-behaved subscription. *)

From Stdlib Require Import Ascii.
From S2P Require Import Prelude Float64 BaseExceptions PortID Format Variables PropertyTree.
From S2P Require Import ChannelMapping ASN1Commons ASN1Publisher ASN1Subscriber ASN1SubscriberSpec ASN1Spec.
From S2P Require Import ConcurrentSubscriber CompactASN1Clients.

Local Open Scope Z_scope.

(** ** Addresses *)

(** A text without the separator. *)
Fixpoint no_colon (s : string) : bool :=
  match s with
  | EmptyString => true
  | String c s' => negb (Ascii.eqb c ":") && no_colon s'
  end.

Lemma prefix_colon c s : String.prefix ":" (String c s) = Ascii.eqb c ":".
Proof.
  change (String.prefix ":" (String c s)) with (if ascii_dec ":" c then String.prefix "" s else false).
  destruct (ascii_dec ":" c) as [<-|Hne]; [by destruct s|]. symmetry. apply Ascii.eqb_neq. congruence.
Qed.

Lemma index_colon_None s : String.index 0 ":" s = None <-> no_colon s = true.
Proof.
  induction s as [|c s IH]; [done|]. cbn [String.index no_colon]. rewrite prefix_colon.
  destruct (Ascii.eqb c ":"); cbn; [done|]. rewrite <- IH. by destruct (String.index 0 ":" s).
Qed.

Lemma index_colon_app host port :
  no_colon host = true -> String.index 0 ":" (host +:+ ":" +:+ port) = Some (String.length host).
Proof.
  induction host as [|c host IH]; [by destruct port|].
  cbn [no_colon]. intros [Hc Hh]%andb_prop.
  change (String c host +:+ ":" +:+ port) with (String c (host +:+ ":" +:+ port)).
  cbn [String.index String.length]. rewrite prefix_colon. destruct (Ascii.eqb c ":"); [done|].
  by rewrite IH.
Qed.

Lemma index_colon_Some s n :
  String.index 0 ":" s = Some n ->
  exists host port, s = host +:+ ":" +:+ port /\ no_colon host = true /\ String.length host = n.
Proof.
  revert n; induction s as [|c s IH]; intros n; [done|]. cbn [String.index]. rewrite prefix_colon.
  destruct (Ascii.eqb_spec c ":") as [->|Hne]; [intros [= <-]; by exists "", s|].
  destruct (String.index 0 ":" s) as [m|]; [|done]. intros [= <-].
  destruct (IH m eq_refl) as (host & port & -> & Hh & <-). exists (String c host), port.
  split_and!; [done| |done]. cbn. rewrite Hh. by apply Ascii.eqb_neq in Hne as ->.
Qed.

Lemma append_cons c a b : String c a +:+ b = String c (a +:+ b).
Proof. done. Qed.

Lemma substring_all s : String.substring 0 (String.length s) s = s.
Proof. induction s as [|c s IH]; [done|]. cbn [String.substring String.length]. by rewrite IH. Qed.

Lemma substring_head a b : String.substring 0 (String.length a) (a +:+ b) = a.
Proof.
  induction a as [|c a IH]; [by destruct b|]. rewrite append_cons. cbn [String.substring String.length].
  by rewrite IH.
Qed.

Lemma length_append a b : String.length (a +:+ b) = (String.length a + String.length b)%nat.
Proof. induction a as [|c a IH]; [done|]. rewrite append_cons. cbn [String.length]. by rewrite IH. Qed.

Lemma length_address host port :
  String.length (host +:+ ":" +:+ port) = (String.length host + 1 + String.length port)%nat.
Proof. rewrite !length_append. cbn [String.length]. lia. Qed.

Lemma substring_port host port :
  String.substring (String.length host + 1) (String.length port) (host +:+ ":" +:+ port) = port.
Proof. induction host as [|c host IH]; [exact (substring_all port)|exact IH]. Qed.

(** What the search for the separator and the two [substr] calls yield. *)
Lemma split_address host port :
  no_colon host = true ->
  String.index 0 ":" (host +:+ ":" +:+ port) = Some (String.length host) /\
  String.substring 0 (String.length host) (host +:+ ":" +:+ port) = host /\
  String.substring (String.length host + 1)
    (String.length (host +:+ ":" +:+ port) - (String.length host + 1)) (host +:+ ":" +:+ port) = port.
Proof.
  intros Hh. split; [by apply index_colon_app|]. split; [apply substring_head|].
  rewrite length_address. replace (_ - _)%nat with (String.length port) by lia. apply substring_port.
Qed.

Section Addresses.
Context `{PropertyTree}.

(** The address of a publisher.  [init] accepts exactly the addresses
    [host:port] with a host that is not empty and has no colon and a port that is not
    empty, and it resolves this host and this port. *)
Theorem publisher_address_correct (channel : TransmissionChannel) host port :
  publisher_address channel = Ret (host, port) <->
  exists t, get_child_optional (getChannelConfig channel) PROP_ADDR = Some t /\
    pt_data t = host +:+ ":" +:+ port /\ no_colon host = true /\ host <> "" /\ port <> "".
Proof.
  unfold publisher_address. split.
  - destruct (get_child_optional _ _) as [t|]; [|done]. intros Hr. exists t. split; [done|].
    destruct (String.index 0 ":" (pt_data t)) as [n|] eqn:Hn; [|done].
    destruct (index_colon_Some _ _ Hn) as (h & p & Haddr & Hh & <-). rewrite Haddr in Hr |- *.
    destruct (split_address h p Hh) as (_ & E1 & E2). rewrite E1, E2 in Hr.
    destruct (_ || _) eqn:Hb; [done|]. injection Hr as -> ->.
    apply orb_false_iff in Hb as [Hl%Nat.eqb_neq Hz%Nat.eqb_neq].
    rewrite length_address in Hl. split_and!; [done|done|by intros ->|].
    intros ->. cbn [String.length] in Hl. lia.
  - intros (t & -> & -> & Hh & Hne & Hp). destruct (split_address host port Hh) as (-> & -> & ->).
    rewrite length_address. destruct host as [|c host]; [done|]. destruct port as [|c' port]; [done|].
    rewrite (proj2 (orb_false_iff _ _)); [done|]. split; apply Nat.eqb_neq; cbn [String.length]; lia.
Qed.

End Addresses.

(** ** Reconnection *)

Section Reconnect.
Context `{PropertyTree} `{LexicalConvert} {Sk : Type} `{EventSink Sk} {W : Type} `{Asio W}.

Notation client := (CompactASN1TCPClientSubscriber Sk W).

(** A client with its connection set up. *)
Definition connected_client (s : client) : Prop :=
  socket_ s <> None /\ channel_ s <> None /\ 0 <= reconnectionRetries_ s < 2 ^ 32.

(** What an attempt to connect leaves as it is. *)
Definition same_client (s s' : client) : Prop :=
  base_ s' = base_ s /\ channel_ s' = channel_ s /\ reconnectionRetries_ s' = reconnectionRetries_ s /\
  reconnectionTimeout_ s' = reconnectionTimeout_ s /\ receiving_ s' = receiving_ s /\
  terminationPosted_ s' = terminationPosted_ s /\ (socket_ s <> None -> socket_ s' <> None).

Lemma same_client_refl s : same_client s s.
Proof. done. Qed.

Lemma same_client_trans s1 s2 s3 : same_client s1 s2 -> same_client s2 s3 -> same_client s1 s3.
Proof. intros (? & ? & ? & ? & ? & ? & ?) (? & ? & ? & ? & ? & ? & ?). split_and!; try congruence. auto. Qed.

Lemma same_client_connected s s' : same_client s s' -> connected_client s -> connected_client s'.
Proof. intros (_ & Hc & Hr & _ & _ & _ & Hs) (? & ? & ?). split_and!; [auto|congruence|lia..]. Qed.

(** One attempt: the object behind [syncConnect], whether it threw or not. *)
Definition attempt (s : client) : client := (syncConnect s).2.

Lemma attempt_same s : same_client s (attempt s).
Proof.
  unfold attempt, syncConnect. destruct (socket_ s) as [sock|] eqn:Hs; [|apply same_client_refl].
  destruct (getHostAndPortName s) as [addr|x|f]; [|apply same_client_refl..].
  destruct (resolve tcp addr.1 addr.2 (env_ s)) as [[eps|] w]; [|done].
  by destruct (tcp_connect sock eps w) as [[b sock'] w'].
Qed.

(** [syncConnect] throws, if at all, a [SystemConfigurationException]. *)
Lemma syncConnect_config s :
  connected_client s -> wp (syncConnect s).1 (fun _ => True) (fun x => is_std_exception x = true).
Proof.
  intros (Hs & Hc & _). unfold syncConnect. destruct (socket_ s) as [sock|]; [|done].
  unfold getHostAndPortName. destruct (channel_ s) as [chn|]; [|done].
  destruct (get_optional _ _ _) as [addr|]; [|done]. destruct (String.index 0 ":" addr); [|done].
  cbn [fst snd]. destruct (resolve _ _ _ _) as [[eps|] w]; [|done].
  by destruct (tcp_connect sock eps w) as [[[] sock'] w'].
Qed.

Lemma pause_same retry (s : client) : same_client s (reconnect_pause retry s).
Proof. unfold reconnect_pause. by case_match. Qed.

Lemma pause_open retry (s : client) : socket_open (reconnect_pause retry s) = socket_open s.
Proof. unfold reconnect_pause. by case_match. Qed.

(** [k] failed attempts, each with the wait behind it; [retry] is the number of the
    first. *)
Fixpoint failed_attempts (k : nat) (retry : Z) (s : client) : client :=
  match k with
  | O => s
  | S k' => failed_attempts k' (retry + 1) (reconnect_pause retry (attempt s))
  end.

Lemma failed_attempts_S k retry (s : client) :
  failed_attempts (S k) retry s =
  reconnect_pause (retry + Z.of_nat k) (attempt (failed_attempts k retry s)).
Proof.
  revert retry s; induction k as [|k IH]; intros retry s; [cbn; by rewrite Z.add_0_r|].
  cbn [failed_attempts] in *. rewrite IH. f_equal. lia.
Qed.

(** A turn of the loop: an attempt, and the rest of the loop unless the socket is
    open behind it. *)
Lemma reconnect_loop_turn fuel retry s :
  connected_client s -> 0 <= retry < reconnectionRetries_ s ->
  reconnect_loop (S fuel) retry s =
  if socket_open (attempt s) then (Ret tt, attempt s)
  else reconnect_loop fuel (retry + 1) (reconnect_pause retry (attempt s)).
Proof.
  intros Hs Hr. cbn [reconnect_loop]. rewrite (proj2 (Z.ltb_lt _ _)) by lia.
  rewrite wrap_small by (destruct Hs as (_ & _ & ?); lia).
  pose proof (syncConnect_config s Hs) as Hx. unfold attempt.
  destruct (syncConnect s) as [[u|x|f] s1]; cbn in *; [done|by rewrite Hx|done].
Qed.

(** The loop: attempts until the socket is open, as many as there are retries. *)
Lemma reconnect_loop_ok fuel retry s :
  connected_client s -> 0 <= retry <= reconnectionRetries_ s ->
  (Z.to_nat (reconnectionRetries_ s - retry) < fuel)%nat ->
  exists k, (k <= Z.to_nat (reconnectionRetries_ s - retry))%nat /\
    (forall j, (j < k)%nat -> socket_open (attempt (failed_attempts j retry s)) = false) /\
    let s1 := failed_attempts k retry s in
    (k = Z.to_nat (reconnectionRetries_ s - retry) /\ reconnect_loop fuel retry s = (Ret tt, s1) \/
     (k < Z.to_nat (reconnectionRetries_ s - retry))%nat /\ socket_open (attempt s1) = true /\
       reconnect_loop fuel retry s = (Ret tt, attempt s1)).
Proof.
  revert retry s; induction fuel as [|fuel IH]; intros retry s Hs Hr Hf; [lia|].
  destruct (Z.ltb_spec retry (reconnectionRetries_ s)) as [Hlt|Hge].
  2:{ exists 0%nat. split; [lia|]. split; [lia|]. left. split; [lia|]. cbn [reconnect_loop].
      by rewrite (proj2 (Z.ltb_ge _ _)) by lia. }
  rewrite reconnect_loop_turn by (done || lia). destruct (socket_open (attempt s)) eqn:Ho.
  { exists 0%nat. split; [lia|]. split; [lia|]. right. split; [lia|done]. }
  assert (Hp : same_client s (reconnect_pause retry (attempt s)))
    by (eapply same_client_trans; [apply attempt_same|apply pause_same]).
  pose proof Hp as (_ & _ & Hrr & _).
  destruct (IH (retry + 1) (reconnect_pause retry (attempt s))) as (k & Hk & Hall & Hend);
    [by eapply same_client_connected|lia|lia|]. rewrite Hrr in Hk, Hend.
  exists (S k). split; [lia|]. split.
  { intros [|j] Hj; [done|]. cbn. apply Hall. lia. }
  cbn [failed_attempts]. destruct Hend as [[-> Hend]|(Hk' & Hopen & Hend)]; [left|right].
  - split; [lia|done].
  - split_and!; [lia|done|done].
Qed.

(** C26: the reconnection is bounded, and it reports what it reaches.  With a positive
    number of retries [syncReconnect] makes one attempt after the other, with the
    configured wait in between, until the socket is open; it returns exactly if it is
    open after one of them, and otherwise, when all retries are used up, it throws. *)
Theorem reconnect_correct (s : client) :
  connected_client s -> 0 < reconnectionRetries_ s ->
  let n := Z.to_nat (reconnectionRetries_ s) in
  exists k, (k < n)%nat /\ (forall j, (j < k)%nat -> socket_open (attempt (failed_attempts j 0 s)) = false) /\
    let last := attempt (failed_attempts k 0 s) in
    (socket_open last = true /\ syncReconnect s = (Ret tt, last) \/
     S k = n /\ socket_open last = false /\
       syncReconnect s = (Throw (ExnRuntimeError "Couldn't successfully re-connect to the TCP server"),
                          failed_attempts n 0 s)).
Proof.
  intros Hs Hpos n. destruct (reconnect_loop_ok (S n) 0 s Hs) as (k & Hk & Hall & Hend); [lia|lia|].
  rewrite Z.sub_0_r in *. fold n in Hk, Hend. unfold syncReconnect. fold n.
  destruct Hend as [[-> ->]|(Hk' & Hopen & ->)].
  - destruct n as [|m] eqn:Hn; [lia|]. exists m. split; [lia|]. split; [intros j Hj; apply Hall; lia|].
    assert (Hc : socket_open (attempt (failed_attempts m 0 s)) = false) by (apply Hall; lia).
    right. split_and!; [done|done|]. rewrite failed_attempts_S, pause_open, Hc. done.
  - exists k. split; [done|]. split; [done|]. left. by rewrite Hopen.
Qed.

(** A stale socket is taken for a connection.  When the peer has closed the
    connection the socket itself is still open; if now the address cannot be resolved,
    [syncReconnect] returns normally after a single attempt: there is no retry, no
    wait, no exception, and the socket is the old one. *)
Theorem reconnect_stale_socket (s : client) sock addr w :
  socket_ s = Some sock -> tcp_is_open sock = true -> getHostAndPortName s = Ret addr ->
  resolve tcp addr.1 addr.2 (env_ s) = (None, w) -> 0 < reconnectionRetries_ s ->
  syncReconnect s = (Ret tt, set_socket (Some sock) w s).
Proof.
  intros Hs Ho Ha Hr Hpos.
  assert (Hopen : socket_open (set_socket (Some sock) w s) = true) by exact Ho.
  unfold syncReconnect. cbn [reconnect_loop]. rewrite (proj2 (Z.ltb_lt _ _)) by done.
  unfold syncConnect. rewrite Hs, Ha, Hr. cbn [throw_config_kv is_std_exception]. by rewrite !Hopen.
Qed.

End Reconnect.

(** ** The subscriber as a subscription *)

Section Laws.
Context `{PT : PropertyTree} `{PTR : !PropertyTreeRanges PT} `{LC : LexicalConvert} `{LCL : !LexicalConvertLaws LC}.
Context {Sk : Type} `{ES : EventSink Sk} `{ESL : !EventSinkLaws Sk} {W : Type} `{AS : Asio W}.

Notation client := (CompactASN1TCPClientSubscriber Sk W).

Definition client_channel (ch : TransmissionChannel) : Prop :=
  same_length (portConfig_ ch) (portIDs_ ch) = true /\ Forall (fun p : PortID => p.1 <> fmiTypeUnknown) (portIDs_ ch).

(** A fresh object. *)
Definition fresh (b : CompactASN1Subscriber Sk) : Prop :=
  remainingRawData_ b = [] /\ partialData_ b = None /\ pushed (eventSink_ b) = [].

(** The decoder's invariant, and that all events it has emitted hold valid values for
    ports of the channel, in the channel's order. *)
Definition subscriber_typed (b : CompactASN1Subscriber Sk) : Prop :=
  subscriber_ok b /\ Forall (message_ok (channelPorts_ b)) (emitted b).

Definition client_ok (s : client) : Prop := subscriber_typed (base_ s) /\ connected_client s.

Lemma client_ok_same s s' : same_client s s' -> client_ok s -> client_ok s'.
Proof.
  intros Hs [Hb Hc]. split; [|by eapply same_client_connected]. destruct Hs as (-> & _). done.
Qed.

Lemma client_ok_base s b : client_ok s -> subscriber_typed b -> client_ok (set_base b s).
Proof. by intros [_ Hc]. Qed.

Lemma runTimer_ok now (b : CompactASN1Subscriber Sk) :
  subscriber_typed b -> exists b', runTimer now b = Ret b' /\ subscriber_typed b'.
Proof.
  intros [[Hn Hk Hby Hp] He]. unfold runTimer, handlePacketTimeout.
  destruct (_ && _); [|eexists; split; [reflexivity|]; split; [by split|done]]. cbn [partialData_].
  destruct (partialData_ b) as [pe|] eqn:Hpe; [|eexists; split; [reflexivity|]; split; [by split|done]].
  unfold pushPartialEvent. cbn [partialData_ obind].
  eexists. split; [reflexivity|]. split; [by split|]. unfold emitted. cbn.
  rewrite pushed_push, map_app. apply Forall_app. split; [done|]. repeat constructor;
    apply (open_message_closed _ _ (partial_ok_open _ _ (proj1 (Hp pe eq_refl)))).
Qed.

Lemma handleTermination_ok (b : CompactASN1Subscriber Sk) :
  subscriber_typed b -> subscriber_typed (handleTermination b).
Proof. intros [[Hn Hk _ _] He]. split; [by split|done]. Qed.

Lemma subscriber_init_ok ch now (b : CompactASN1Subscriber Sk) :
  client_channel ch -> fresh b ->
  wp (subscriber_init ch (eventSink_ b) now b) (fun b' => subscriber_typed b')
     (fun x => x = ExnSystemConfiguration {| sce_what := "Compact ASN.1 channel has no associated ports";
                                             sce_config := None |}).
Proof.
  intros [Hl Hk] (Hr & Hp & Hs). unfold subscriber_init, getPortIDs. rewrite Hl. cbn.
  destruct (portIDs_ ch) as [|port ports] eqn:Hports; [done|]. cbn.
  split; [split; try done; cbn; by rewrite Hp|]. unfold emitted. cbn. by rewrite Hs.
Qed.

Definition not_reconnected : exn := ExnRuntimeError "Couldn't successfully re-connect to the TCP server".

(** A reconnection leaves a client: with an open socket, or with an exception. *)
Lemma syncReconnect_ok (s : client) :
  client_ok s ->
  wp (syncReconnect s).1 (fun _ => socket_open (syncReconnect s).2 = true)
     (fun x => x = not_reconnected /\ socket_open (syncReconnect s).2 = false) /\
  same_client s (syncReconnect s).2.
Proof.
  intros [_ Hs]. destruct (reconnect_loop_ok (S (Z.to_nat (reconnectionRetries_ s))) 0 s Hs)
    as (k & _ & _ & Hend); [destruct Hs as (_ & _ & ?); lia|lia|].
  assert (Hsame : forall j retry (t : client), same_client t (failed_attempts j retry t)).
  { induction j as [|j IH]; intros retry t; [apply same_client_refl|].
    rewrite failed_attempts_S. eapply same_client_trans; [apply IH|].
    eapply same_client_trans; [apply attempt_same|apply pause_same]. }
  unfold syncReconnect. destruct Hend as [[_ ->]|(_ & Ho & ->)].
  - destruct (socket_open (failed_attempts k 0 s)) eqn:Ho; cbn; split; try done; apply Hsame.
  - rewrite Ho. split; [done|]. eapply same_client_trans; [apply Hsame|apply attempt_same].
Qed.

(** The object before [syncConnect] in [initNetwork]. *)
Lemma initConfigVariables_ok ch (s : client) :
  channel_ s = Some ch -> socket_ s <> None ->
  exists s1, initConfigVariables s = Ret s1 /\ base_ s1 = base_ s /\ connected_client s1.
Proof.
  intros Hc Hs. unfold initConfigVariables. rewrite Hc. eexists. split; [reflexivity|]. split; [done|].
  split; [done|]. split; [done|]. cbn. unfold get_default, get_optional.
  destruct (get_child_optional _ _) as [c|]; cbn; [|lia].
  destruct (tr_uint32 (pt_data c)) as [z|] eqn:Hz; cbn; [by apply tr_uint32_range in Hz|lia].
Qed.

Lemma client_init_ok ch (s : client) :
  client_channel ch -> fresh (base_ s) -> wp (client_init ch s) client_ok (fun _ => True).
Proof.
  intros Hch Hf. unfold client_init. apply wp_bind.
  eapply wp_mono; [by apply subscriber_init_ok| |done]. intros b Hb. unfold initNetwork.
  match goal with |- context [initConfigVariables ?t] => destruct (initConfigVariables_ok ch t) as (s1 & -> & Hb1 & Hc1) end;
    [done|done|]. cbn [obind].
  pose proof (syncConnect_config s1 Hc1) as Hx. pose proof (attempt_same s1) as Ha. unfold attempt in Ha.
  assert (Hok2 : client_ok (syncConnect s1).2).
  { eapply client_ok_same; [exact Ha|]. split; [by rewrite Hb1|done]. }
  destruct (syncConnect s1) as [[u|x|f] s2]; cbn in *; [|done|done].
  unfold initiateAsyncReceiving. destruct (socket_ s2) eqn:Hs2; [|by destruct Hok2 as [_ [? _]]]. exact Hok2.
Qed.

Lemma client_run_ok (P : client -> Prop) inp s :
  client_ok s -> P s -> (forall b, P (set_base b s)) -> (forall b, P (set_base b (set_receiving false s))) ->
  (forall sock w b, P (set_base b (set_socket sock w s))) ->
  activity_in (fun s' => client_ok s' /\ P s') (client_run inp s).
Proof.
  intros Hok HP Hb Hr Hs. destruct inp as [|err bytes|now]; cbn [client_run].
  - destruct (terminationPosted_ s); [|done]. unfold client_handleTermination, terminateNetworkConnection.
    destruct (socket_ s) as [sock|] eqn:Hsock; [|by destruct Hok as [_ [? _]]].
    destruct (tcp_close sock (env_ s)) as [sock' w]. cbn. split; [|apply Hs].
    apply client_ok_base.
    + eapply client_ok_same; [|exact Hok]. split_and!; done.
    + by apply handleTermination_ok, Hok.
  - destruct (receiving_ s); [|done]. unfold handleReceive_commit.
    destruct (commitData_total (string_bytes bytes) (base_ s)) as (b & -> & Hb' & Hports & _ & He);
      [apply Hok|apply string_bytes_ok|apply Hok|].
    cbn. split; [|apply Hr]. split; [|apply Hok]. split; [done|]. cbn; by rewrite Hports.
  - destruct (runTimer_ok now (base_ s)) as (b & -> & Hb'); [apply Hok|]. cbn.
    split; [by apply client_ok_base|apply Hb].
Qed.

Lemma client_answer_ok (P : client -> Prop) (b : bool) inp s :
  client_ok s -> P s -> (forall s', same_client s s' -> P s' /\ P (set_receiving true s')) ->
  activity_in (fun s' => client_ok s' /\ P s') (client_answer b inp s).
Proof.
  intros Hok HP Hs. destruct inp as [|err bytes|now]; [done| |done]. unfold client_answer, handleReceive_answer.
  destruct b; [done|]. destruct (negb (socket_open s) || _).
  - destruct (syncReconnect_ok s Hok) as [Hwp Hsame]. destruct (syncReconnect s) as [[u|x|f] s1]; cbn in *; [|split|done].
    + assert (Hok1 : client_ok s1) by (by eapply client_ok_same).
      unfold initiateAsyncReceiving. destruct (socket_ s1) eqn:Hs1; [|by destruct Hok1 as [_ [? _]]].
      cbn. split; [exact Hok1|by apply Hs].
    + by eapply client_ok_same.
    + by apply Hs.
  - unfold initiateAsyncReceiving. cbn. destruct (socket_ s) eqn:Hs1; [|by destruct Hok as [_ [? _]]].
    cbn. split; [exact Hok|by apply Hs, same_client_refl].
Qed.

Lemma activity_and {D} (P Q : D -> Prop) a :
  activity_in (fun d => P d /\ Q d) a -> activity_in P a /\ activity_in Q a.
Proof. destruct a; cbn; tauto. Qed.

Lemma activity_of_asks {A} (r : result A) (s : client) k :
  (forall a, asks (k a) = false) -> asks (activity_of r s k) = false.
Proof. by destruct r; cbn. Qed.

(** A receive operation of the TCP subscriber.  Whatever arrives, its handler
    decodes it without a failure.  When the termination is not requested, the handler
    ends with a new receive operation on an open socket, or, when the connection could
    not be restored, with the exception that ends [run]; when it is requested, no
    further receive operation is started. *)
Theorem client_receive_turn err bytes (s : client) :
  client_ok s -> receiving_ s = true ->
  exists b s1, commitData (string_bytes bytes) (base_ s) = Ret b /\
    client_run (ReadyReceive err bytes) s = AskTermination s1 /\ base_ s1 = b /\ receiving_ s1 = false /\
    client_answer true (ReadyReceive err bytes) s1 = Continue s1 /\
    match client_answer false (ReadyReceive err bytes) s1 with
    | Continue s2 => base_ s2 = b /\ receiving_ s2 = true /\ socket_open s2 = true
    | Raised x s2 => x = not_reconnected /\ receiving_ s2 = false /\ socket_open s2 = false
    | _ => False
    end.
Proof.
  intros Hok Hrec. destruct (commitData_total (string_bytes bytes) (base_ s)) as (b & Hb & Hb' & Hports & _ & He);
    [apply Hok|apply string_bytes_ok|apply Hok|].
  exists b, (set_base b (set_receiving false s)). split; [done|].
  cbn [client_run client_answer]. rewrite Hrec. unfold handleReceive_commit. rewrite Hb.
  split_and!; try done. unfold handleReceive_answer.
  assert (Hok1 : client_ok (set_base b (set_receiving false s))).
  { split; [|apply Hok]. split; [done|]. cbn. by rewrite Hports. }
  set (s1 := set_base b (set_receiving false s)) in *.
  assert (Hinit : forall s2, same_client s1 s2 -> initiateAsyncReceiving s2 = Ret (set_receiving true s2)).
  { intros s2 (_ & _ & _ & _ & _ & _ & Hs). unfold initiateAsyncReceiving.
    destruct (socket_ s2) eqn:E; [done|]. destruct Hs; [apply Hok1|done]. }
  destruct (negb (socket_open s1) || _) eqn:Hre.
  - destruct (syncReconnect_ok s1 Hok1) as [Hwp Hsame]. destruct (syncReconnect s1) as [[u|x|f] s2]; cbn in *; [| |done].
    + rewrite (Hinit s2 Hsame). destruct Hsame as (Hbase & _). by split_and!.
    + destruct Hsame as (_ & _ & _ & _ & Hr & _). destruct Hwp as [-> Ho]. by split_and!.
  - apply orb_false_iff in Hre as [Ho%negb_false_iff _]. cbn [activity_of].
    rewrite (Hinit s1 (same_client_refl s1)). cbn. by split_and!.
Qed.

#[export] Instance client_subscription_laws : SubscriptionLaws PT client ready.
Proof.
  refine {| sub_channel := client_channel; sub_new s := fresh (base_ s); sub_ok := client_ok;
            sub_requested s := terminationPosted_ s = true |}.
  - apply client_init_ok.
  - intros inp s Hok. apply (activity_and client_ok (fun _ => True)), client_run_ok; done.
  - intros b inp s Hok. apply (activity_and client_ok (fun _ => True)), client_answer_ok; done.
  - intros b inp s. destruct inp as [|err bytes|now]; [done| |done]. cbn. unfold handleReceive_answer.
    destruct b; [done|].
    case_match. apply activity_of_asks. intros _. by apply activity_of_asks.
  - intros s Hok. exact Hok.
  - done.
  - intros inp s Hok Hr. apply (activity_and client_ok (fun s => terminationPosted_ s = true)), client_run_ok; done.
  - intros b inp s Hok Hr. apply (activity_and client_ok (fun s => terminationPosted_ s = true)), client_answer_ok; try done.
    intros s' (_ & _ & _ & _ & _ & Ht & _). cbn. by rewrite Ht.
  - intros s Hok Hr. exists ReadyTermination. split; [done|]. cbn. rewrite Hr.
    unfold client_handleTermination, terminateNetworkConnection.
    destruct (socket_ s) as [sock|] eqn:Hsock; [|by destruct Hok as [_ [? _]]].
    by destruct (tcp_close sock (env_ s)).
Defined.

End Laws.

(** ** Initialisation *)

Section Initialisation.
Context `{PT : PropertyTree} `{PTR : !PropertyTreeRanges PT} `{LC : LexicalConvert} `{LCL : !LexicalConvertLaws LC}.
Context {Sk : Type} `{ES : EventSink Sk} `{ESL : !EventSinkLaws Sk} {W : Type} `{AS : Asio W} `{ASL : !AsioLaws W}.

(** A [SystemConfigurationException]. *)
Definition is_config_error (x : exn) : bool :=
  match x with ExnSystemConfiguration _ => true | _ => false end.

Lemma syncConnect_result (s : CompactASN1TCPClientSubscriber Sk W) :
  connected_client s ->
  wp (syncConnect s).1 (fun _ => socket_open (syncConnect s).2 = true) (fun x => is_config_error x = true).
Proof.
  intros (Hs & Hc & _). unfold syncConnect. destruct (socket_ s) as [sock|]; [|done].
  unfold getHostAndPortName. destruct (channel_ s) as [chn|]; [|done].
  destruct (get_optional _ _ _) as [addr|]; [|done]. destruct (String.index 0 ":" addr); [|done].
  cbn [fst snd]. destruct (resolve _ _ _ _) as [[eps|] w]; [|done].
  destruct (tcp_connect sock eps w) as [[[] sock'] w'] eqn:Ht; [|done].
  exact (tcp_connected_open _ _ _ _ _ Ht).
Qed.

(** A TCP subscriber starts connected or not at all.  On a well-formed channel,
    [init] of a new object returns only with an open socket, a pending receive
    operation and an empty decoder, and otherwise it throws a
    [SystemConfigurationException]. *)
Theorem client_init_correct ch (s : CompactASN1TCPClientSubscriber Sk W) :
  client_channel ch -> fresh (base_ s) ->
  wp (client_init ch s)
     (fun s' => client_ok s' /\ socket_open s' = true /\ receiving_ s' = true /\
                channelPorts_ (base_ s') = portIDs_ ch /\ remainingRawData_ (base_ s') = [])
     (fun x => is_config_error x = true).
Proof.
  intros Hch Hf. unfold client_init.
  assert (Hb : wp (subscriber_init ch (eventSink_ (base_ s)) (clock_ms (env_ s)) (base_ s))
                  (fun b => subscriber_typed b /\ channelPorts_ b = portIDs_ ch /\ remainingRawData_ b = [])
                  (fun x => is_config_error x = true)).
  { pose proof (subscriber_init_ok ch (clock_ms (env_ s)) (base_ s) Hch Hf) as Hwp. unfold subscriber_init, getPortIDs in *.
    destruct Hch as [Hl _]. rewrite Hl in *. cbn in *. destruct (portIDs_ ch) as [|port ports]; cbn in *; [done|].
    split_and!; done. }
  apply wp_bind. eapply wp_mono; [exact Hb| |done]. intros b (Htyped & Hports & Hdata). unfold initNetwork.
  match goal with |- context [initConfigVariables ?t] => destruct (initConfigVariables_ok ch t) as (s1 & -> & Hb1 & Hc1) end;
    [done|done|]. cbn [obind].
  pose proof (syncConnect_result s1 Hc1) as Hx. pose proof (attempt_same s1) as Ha. unfold attempt in Ha.
  assert (Hok2 : client_ok (syncConnect s1).2).
  { eapply client_ok_same; [exact Ha|]. split; [by rewrite Hb1|done]. }
  destruct (syncConnect s1) as [[u|x|f] s2]; cbn in *; [|done|done].
  unfold initiateAsyncReceiving. destruct (socket_ s2) eqn:Hs2; [|by destruct Hok2 as [_ [? _]]].
  destruct Ha as (Hb2 & _). cbn. split_and!; [exact Hok2|exact Hx|done|by rewrite Hb2, Hb1|by rewrite Hb2, Hb1].
Qed.

End Initialisation.

(** ** A concrete network *)

(** The answers of the resolver and of the servers, in order (then they are all
    positive), what has been sent, the waits, and the clock. *)
Record script := {
  sc_resolve : list bool;
  sc_connect : list bool;
  sc_sent : list (list Z);
  sc_slept : list Z;
  sc_now : Z;
}.

#[export] Instance script_network : Asio script := {
  endpoint := string * string;
  tcp_socket := bool;
  udp_socket := unit;
  resolve p host port w :=
    let w' := {| sc_resolve := tail (sc_resolve w); sc_connect := sc_connect w; sc_sent := sc_sent w;
                 sc_slept := sc_slept w; sc_now := sc_now w |} in
    (if default true (head (sc_resolve w)) then Some [(host, port)] else None, w');
  udp_open e w := (Some tt, w);
  udp_send_to _ buffer _ w :=
    (Some (length buffer), {| sc_resolve := sc_resolve w; sc_connect := sc_connect w;
       sc_sent := sc_sent w ++ [buffer]; sc_slept := sc_slept w; sc_now := sc_now w |});
  tcp_new := false;
  tcp_is_open sock := sock;
  tcp_connect sock eps w :=
    let ok := default true (head (sc_connect w)) in
    (ok, ok, {| sc_resolve := sc_resolve w; sc_connect := tail (sc_connect w); sc_sent := sc_sent w;
                sc_slept := sc_slept w; sc_now := sc_now w |});
  tcp_close _ w := (false, w);
  tcp_send _ buffer w :=
    (Some (length buffer), {| sc_resolve := sc_resolve w; sc_connect := sc_connect w;
       sc_sent := sc_sent w ++ [buffer]; sc_slept := sc_slept w; sc_now := sc_now w |});
  sleep_for ms w :=
    {| sc_resolve := sc_resolve w; sc_connect := sc_connect w; sc_sent := sc_sent w;
       sc_slept := sc_slept w ++ [ms]; sc_now := sc_now w + ms |};
  clock_ms := sc_now;
  system_error_what := "system error";
}.

#[export] Instance script_network_laws : AsioLaws script.
Proof.
  split.
  - intros p host port w eps w' [= Hr _]. destruct (default true _); [|done]. by injection Hr as <-.
  - intros sock eps w sock' w' [= Hc Hs _]. cbn. congruence.
Qed.

(** ** A concrete connection *)

(** A TCP channel with one real port. *)
Definition net_config (protocol : string) : @ptree tree_ptree :=
  config_of [("protocol", protocol); ("addr", "host:2000")].

Definition net_channel (protocol : string) : TransmissionChannel := {|
  channelConfig_ := net_config protocol; portIDs_ := [(fmiTypeReal, 7%Z)]; portConfig_ := [pt_empty];
|}.

(** The first connection succeeds, and no other. *)
Definition net_script : script :=
  {| sc_resolve := []; sc_connect := [true; false; false; false; false]; sc_sent := []; sc_slept := []; sc_now := 0%Z |}.

Notation net_client := (CompactASN1TCPClientSubscriber (Z * list PartialEvent) script).

Definition net_fresh : net_client := new_CompactASN1TCPClientSubscriber (0%Z, []) net_script.
Definition net_started : net_client :=
  match client_init (net_channel SUBSCRIBER_ID) net_fresh with Ret d => d | _ => net_fresh end.

Lemma net_started_init : client_init (net_channel SUBSCRIBER_ID) net_fresh = Ret net_started.
Proof. apply is_Ret_value. vm_compute. reflexivity. Qed.

Lemma net_channel_ok protocol : client_channel (net_channel protocol).
Proof. repeat constructor; done. Qed.

Lemma net_fresh_ok : fresh (base_ net_fresh).
Proof. split; [reflexivity|split; reflexivity]. Qed.

Lemma client_init_correct_witness :
  client_ok net_started /\ socket_open net_started = true /\ receiving_ net_started = true /\
  channelPorts_ (base_ net_started) = portIDs_ (net_channel SUBSCRIBER_ID) /\ remainingRawData_ (base_ net_started) = [].
Proof.
  assert (Hwp := client_init_correct (net_channel SUBSCRIBER_ID) net_fresh (net_channel_ok _) net_fresh_ok).
  rewrite net_started_init in Hwp. exact Hwp.
Defined.

Lemma net_started_ok : client_ok net_started.
Proof.
  assert (Hwp := client_init_ok (net_channel SUBSCRIBER_ID) net_fresh (net_channel_ok _) net_fresh_ok).
  rewrite net_started_init in Hwp. exact Hwp.
Qed.

Lemma reconnect_correct_witness :
  0 < reconnectionRetries_ net_started /\
  exists k, (k < Z.to_nat (reconnectionRetries_ net_started))%nat /\
    forall j, (j < k)%nat -> socket_open (attempt (failed_attempts j 0 net_started)) = false.
Proof.
  assert (Hpos : 0 < reconnectionRetries_ net_started) by (vm_compute; reflexivity).
  split; [exact Hpos|].
  destruct (reconnect_correct net_started (proj2 net_started_ok) Hpos) as (k & Hk & Hall & _).
  exists k. split; [exact Hk|exact Hall].
Defined.

Lemma client_receive_turn_witness :
  exists s1, client_run (ReadyReceive Eof "") net_started = AskTermination s1 /\ receiving_ s1 = false.
Proof.
  destruct (client_receive_turn Eof "" net_started net_started_ok ltac:(vm_compute; reflexivity))
    as (b & s1 & _ & Hrun & _ & Hrec & _).
  exists s1. split; [exact Hrun|exact Hrec].
Defined.

Definition net_script_end : script :=
  {| sc_resolve := []; sc_connect := []; sc_sent := []; sc_slept := []; sc_now := 0 |}.

(** The name of the server is not found any more. *)
Definition net_stale : net_client :=
  set_socket (socket_ net_started)
    {| sc_resolve := [false]; sc_connect := []; sc_sent := []; sc_slept := []; sc_now := 0 |} net_started.

Lemma reconnect_stale_socket_witness :
  syncReconnect net_stale = (Ret tt, set_socket (Some true) net_script_end net_stale).
Proof.
  apply (reconnect_stale_socket net_stale true ("host", "2000") net_script_end); vm_compute; reflexivity.
Defined.
