(* ===== verification/NetworkManager.v ===== *)
(** * The network manager (src/network/NetworkManager.cpp.in)

    [NetworkManager] creates a publisher for every output channel and a subscriber
    for every input channel, registers the publishers at the dispatcher, and carries
    the exceptions of the subscribers' threads to the main thread.

    The first part is the sequential code.  The second part is the program's
    concurrent behaviour: the main thread, which builds the manager, distributes
    events and destroys the manager, runs in steps that interleave with the steps of
    the subscribers' threads.  A label names the thread that makes a step and what it
    finds. *)

From S2P Require Import Prelude Float64 BaseExceptions PortID Format Variables PropertyTree.
From S2P Require Import ChannelMapping ApplicationContext EventDispatcher.
From S2P Require Import ASN1Publisher ConcurrentSubscriber CompactASN1Clients.

Definition PROP_PROTOCOL : string := "protocol".

Section Channels.
Context `{PropertyTree}.

(** The head of a turn of [addChannels]: the entity of a channel. *)
Definition instantiate {P} (instFct : string -> option P) (channel : TransmissionChannel) : result P :=
  match get_optional tr_string (getChannelConfig channel) PROP_PROTOCOL with
  | None => throw_config "A channel's protocol identifier is not set"
  | Some protocol =>
      match instFct protocol with
      | None => throw_config_kv "Unknown Protocol" PROP_PROTOCOL protocol
      | Some pub => Ret pub
      end
  end.

(** [addChannels] over a state that [initFct] works on. *)
Definition addChannels {P S} (channels : ChannelMapping) (instFct : string -> option P)
    (initFct : P -> TransmissionChannel -> S -> result (P * S)) (destinationList : list P) (s : S)
    : result (list P * S) :=
  foldlM (fun (st : list P * S) i =>
            let* channel := getTransmissionChannel channels (Z.of_nat i) in
            let* pub := instantiate instFct channel in
            let* r := initFct pub channel st.2 in
            Ret (st.1 ++ [r.1], r.2))
         (destinationList, s) (seq 0 (getNumberOfChannels channels)).

End Channels.

(** ** Publishers *)

Section Publishers.
Context `{PropertyTree} {W : Type} `{Asio W}.

(** The list of the build: CompactASN1UDPPublisher, CompactASN1TCPClientPublisher. *)
Definition instantiatePublisher (id : string) : option (Publisher W) :=
  if String.eqb id PUBLISHER_ID_UDP then Some (UDPPublisher new_CompactASN1UDPPublisher) else
  if String.eqb id PUBLISHER_ID_TCP then Some (TCPPublisher new_CompactASN1TCPClientPublisher) else
  None.

Definition init_publishers (channels : ChannelMapping) (w : W) : result (list (Publisher W) * W) :=
  addChannels channels instantiatePublisher (fun pub chn w => publisher_init chn pub w) [] w.

(** The publishers and the network, as the part of the program that the listeners
    work on, and the pending exception. *)
Record Publishers := {
  publisher_ : list (Publisher W);
  network_ : W;
  pending_ : option exn;
}.

(** The listener of the publisher at a position. *)
Definition publisher_listener {E} (vars_of : E -> list Variable_t) (i : nat) : EventListener Publishers E :=
  fun ev nm =>
    match publisher_ nm !! i with
    | None => Fault UndefinedBehaviour
    | Some pub =>
        let* r := publisher_eventTriggered (vars_of ev) pub (network_ nm) in
        Ret {| publisher_ := <[i := r.1]> (publisher_ nm); network_ := r.2; pending_ := pending_ nm |}
    end.

(** [throwPendingException] without interference, as the [ExceptionBomb] calls it. *)
Definition throwPendingException (nm : Publishers) : result Publishers :=
  match pending_ nm with
  | Some pending => Throw pending
  | None => Ret nm
  end.

Definition exceptionTester_ {E} : EventListener Publishers E := fun _ nm => throwPendingException nm.

(** The listeners that the constructor registers: [addListeningPublisher] and the
    exception tester behind them. *)
Definition manager_listeners {E} (vars_of : E -> list Variable_t) (n : nat) : list (EventListener Publishers E) :=
  map (publisher_listener vars_of) (seq 0 n) ++ [exceptionTester_].

End Publishers.

Arguments Publishers W {_}.

(** ** Threads *)

Section Threads.
Context `{PT : PropertyTree} {D I : Type} `{SUB : !Subscription PT D I}.
(** [instantiateSubscriber]; the class of the list of the build is
    CompactASN1TCPClientSubscriber. *)
Context (instantiateSubscriber : string -> option D) (channels : list TransmissionChannel).

(** The exception that travels between the threads, and its mutex. *)
Record mailbox := { pendingException_ : option exn; pendingExceptionMutex_ : option agent }.

(** [handleException]. *)
#[export] Instance handleException : ErrorCallback mailbox := {
  callback_enter i m :=
    match pendingExceptionMutex_ m with
    | None => Some {| pendingException_ := pendingException_ m;
                      pendingExceptionMutex_ := Some (SubscriberThread i) |}
    | Some _ => None
    end;
  callback_leave x m := {| pendingException_ := Some x; pendingExceptionMutex_ := None |};
}.

(** The control state of the main thread. *)
Inductive main_pc :=
  | MStart (i : nat)            (** constructor: channel [i] *)
  | MInit (i : nat)             (** [initAndStart], about to lock *)
  | MInitLocked (i : nat)       (** has locked *)
  | MStarted (i : nat)          (** thread created, still locked *)
  | MBuilt                      (** behind the constructor, before the dispatcher's run *)
  | MServe                      (** in the dispatcher, between two events *)
  | MHas                        (** [hasPendingException], about to lock *)
  | MHasLocked                  (** has locked *)
  | MTake                       (** [throwPendingException], about to lock *)
  | MTakeLocked                 (** has locked *)
  | MTerminate (i : nat)        (** [terminateSubscribers]: subscriber [i] *)
  | MTermLock (i : nat)         (** [terminate], about to lock *)
  | MTermLocked (i : nat)       (** has locked *)
  | MTermRequest (i : nat)      (** about to call [terminationRequest] *)
  | MJoin (i : nat)             (** about to join *)
  | MDone                       (** the manager is destroyed *)
  | MUnwind (x : exn) (i : nat) (** the constructor has thrown: destructor of [i] *)
  | MUnwindJoin (x : exn) (i : nat)
  | MFailed (x : exn).          (** the exception has left the constructor *)

Record System := {
  subscriber_ : list (ConcurrentSubscriber D I);
  mail : mailbox;
  main : main_pc;
  (** the simulation time of the event queue has been initialised *)
  runStarted : bool;
  (** the exception that has ended the dispatcher's run *)
  caught : option exn;
}.

Definition initial : System :=
  {| subscriber_ := []; mail := {| pendingException_ := None; pendingExceptionMutex_ := None |};
     main := MStart 0; runStarted := false; caught := None |}.

(** What the main thread does next: it goes on (the dispatcher's run begins, an event is
    distributed), or it leaves, by itself or by an exception. *)
Inductive choice := Distribute | Leave (o : option exn).

Inductive label :=
  | LMain (c : choice)
  | LThread (i : nat) (inp : I).

Definition goto_main (pc : main_pc) (s : System) : System :=
  {| subscriber_ := subscriber_ s; mail := mail s; main := pc; runStarted := runStarted s; caught := caught s |}.
Definition set_sub (i : nat) (c : ConcurrentSubscriber D I) (s : System) : System :=
  {| subscriber_ := <[i := c]> (subscriber_ s); mail := mail s; main := main s; runStarted := runStarted s; caught := caught s |}.
Definition set_subs (l : list (ConcurrentSubscriber D I)) (s : System) : System :=
  {| subscriber_ := l; mail := mail s; main := main s; runStarted := runStarted s; caught := caught s |}.
Definition set_mail (m : mailbox) (s : System) : System :=
  {| subscriber_ := subscriber_ s; mail := m; main := main s; runStarted := runStarted s; caught := caught s |}.
Definition set_caught (o : option exn) (s : System) : System :=
  {| subscriber_ := subscriber_ s; mail := mail s; main := main s; runStarted := runStarted s; caught := o |}.
Definition set_runStarted (s : System) : System :=
  {| subscriber_ := subscriber_ s; mail := mail s; main := main s; runStarted := true; caught := caught s |}.

Definition done (s : System) : option (result System) := Some (Ret s).

(** The main thread locks or unlocks the exception's mutex. *)
Definition lock_mail (pc : main_pc) (s : System) : option (result System) :=
  match pendingExceptionMutex_ (mail s) with
  | None => done (goto_main pc (set_mail {| pendingException_ := pendingException_ (mail s);
                                             pendingExceptionMutex_ := Some MainThread |} s))
  | Some _ => None
  end.
Definition unlock_mail (o : option exn) (s : System) : System :=
  set_mail {| pendingException_ := o; pendingExceptionMutex_ := None |} s.

(** The main thread does something to subscriber [i]. *)
Definition with_sub (i : nat) (s : System)
    (f : ConcurrentSubscriber D I -> option (result System)) : option (result System) :=
  match subscriber_ s !! i with Some c => f c | None => Some (Fault UndefinedBehaviour) end.

(** The main thread locks the mutex of subscriber [i]. *)
Definition lock_sub (i : nat) (pc : main_pc) (s : System) : option (result System) :=
  with_sub i s (fun c => match lock MainThread c with
                         | Some c' => done (goto_main pc (set_sub i c' s))
                         | None => None
                         end).

(** The constructor, for the subscribers: a turn of [addChannels] and
    [initAndStart]. *)
Definition constructor_step (s : System) : option (result System) :=
  match main s with
  | MStart i =>
      match channels !! i with
      | None => done (goto_main MBuilt s)
      | Some channel =>
          match instantiate instantiateSubscriber channel with
          | Ret d => done (goto_main (MInit i) (set_subs (subscriber_ s ++ [new_ConcurrentSubscriber d]) s))
          | Throw x => done (goto_main (MUnwind x 0) s)
          | Fault f => Some (Fault f)
          end
      end
  | MInit i => lock_sub i (MInitLocked i) s
  | MInitLocked i =>
      with_sub i s (fun c =>
        match channels !! i with
        | None => Some (Fault UndefinedBehaviour)
        | Some channel =>
            match initAndStart channel c with
            | Ret c' => done (goto_main (MStarted i) (set_sub i c' s))
            | Throw x => done (goto_main (MUnwind x 0) (set_subs (take i (subscriber_ s)) s))
            | Fault f => Some (Fault f)
            end
        end)
  | MStarted i => with_sub i s (fun c => done (goto_main (MStart (S i)) (set_sub i (unlock c) s)))
  | _ => None
  end.

(** The dispatcher, and the [ExceptionBomb] on every event.  Its run begins with the
    initialisation of the time; before, [main] builds the data logger, which may
    throw. *)
Definition serve_step (c : choice) (s : System) : option (result System) :=
  match main s with
  | MBuilt =>
      match c with
      | Distribute => done (goto_main MServe (set_runStarted s))
      | Leave o => done (goto_main (MTerminate 0) (set_caught o s))
      end
  | MServe =>
      match c with
      | Distribute => done (goto_main MHas s)
      | Leave o => done (goto_main (MTerminate 0) (set_caught o s))
      end
  | MHas => lock_mail MHasLocked s
  | MHasLocked =>
      let s' := unlock_mail (pendingException_ (mail s)) s in
      match pendingException_ (mail s) with
      | Some _ => done (goto_main MTake s')
      | None => done (goto_main MServe s')
      end
  | MTake => lock_mail MTakeLocked s
  | MTakeLocked =>
      match pendingException_ (mail s) with
      | Some pending => done (goto_main (MTerminate 0) (set_caught (Some pending) (unlock_mail None s)))
      | None => Some (Fault UndefinedBehaviour)
      end
  | _ => None
  end.

(** [terminateSubscribers], called by the destructor. *)
Definition terminate_step (s : System) : option (result System) :=
  match main s with
  | MTerminate i =>
      match subscriber_ s !! i with
      | Some c => match terminate_begin c with
                  | Ret _ => done (goto_main (MTermLock i) s)
                  | Throw x => Some (Throw x)
                  | Fault f => Some (Fault f)
                  end
      | None => if existsb joinable (subscriber_ s) then Some (Fault UndefinedBehaviour)
                else done (goto_main MDone (set_subs [] s))
      end
  | MTermLock i => lock_sub i (MTermLocked i) s
  | MTermLocked i => with_sub i s (fun c => done (goto_main (MTermRequest i) (set_sub i (terminate_flag c) s)))
  | MTermRequest i => with_sub i s (fun c => done (goto_main (MJoin i) (set_sub i (terminate_request c) s)))
  | MJoin i =>
      with_sub i s (fun c => match terminate_join c with
                             | Some c' => done (goto_main (MTerminate (S i)) (set_sub i c' s))
                             | None => None
                             end)
  | _ => None
  end.

(** The members of a manager whose constructor has thrown are destroyed: the
    subscribers that had been started. *)
Definition unwind_step (s : System) : option (result System) :=
  match main s with
  | MUnwind x i =>
      match subscriber_ s !! i with
      | None => done (goto_main (MFailed x) (set_subs [] s))
      | Some c =>
          match destructor_begin c with
          | None => None
          | Some (Ret c') =>
              done (goto_main (if joinable c then MUnwindJoin x i else MUnwind x (S i)) (set_sub i c' s))
          | Some (Throw y) => Some (Throw y)
          | Some (Fault f) => Some (Fault f)
          end
      end
  | MUnwindJoin x i =>
      with_sub i s (fun c => match terminate_join c with
                             | Some c' => done (goto_main (MUnwind x (S i)) (set_sub i c' s))
                             | None => None
                             end)
  | _ => None
  end.

Definition main_step (c : choice) (s : System) : option (result System) :=
  match main s with
  | MStart _ | MInit _ | MInitLocked _ | MStarted _ => constructor_step s
  | MBuilt | MServe | MHas | MHasLocked | MTake | MTakeLocked => serve_step c s
  | MTerminate _ | MTermLock _ | MTermLocked _ | MTermRequest _ | MJoin _ => terminate_step s
  | MUnwind _ _ | MUnwindJoin _ _ => unwind_step s
  | MDone | MFailed _ => None
  end.

Definition thread_step (i : nat) (inp : I) (s : System) : option (result System) :=
  match subscriber_ s !! i with
  | None => None
  | Some c =>
      match executeRun_step (runStarted s) i inp c (mail s) with
      | None => None
      | Some r => Some (let* cm := r in Ret (set_mail cm.2 (set_sub i cm.1 s)))
      end
  end.

(** One step; [None]: the thread waits or has nothing to do. *)
Definition step (l : label) (s : System) : option (result System) :=
  match l with
  | LMain c => main_step c s
  | LThread i inp => thread_step i inp s
  end.

(** A schedule; steps that are not enabled are skipped. *)
Fixpoint exec (ls : list label) (s : System) : result System :=
  match ls with
  | [] => Ret s
  | l :: ls' => match step l s with
                | None => exec ls' s
                | Some r => let* s' := r in exec ls' s'
                end
  end.

Definition reachable (s : System) : Prop := exists ls, exec ls initial = Ret s.

End Threads.

Arguments System D I : clear implicits.
Arguments label I : clear implicits.

(** ** Subscribers of the program *)

Section Subscribers.
Context `{PropertyTree} `{LexicalConvert} {Sk : Type} `{EventSink Sk} {W : Type} `{Asio W}.

(** The list of the build: CompactASN1TCPClientSubscriber.  [sink] and [w] are the
    event sink and the network that a new object finds. *)
Definition instantiateSubscriber (sink : Sk) (w : W) (id : string)
    : option (CompactASN1TCPClientSubscriber Sk W) :=
  if String.eqb id SUBSCRIBER_ID then Some (new_CompactASN1TCPClientSubscriber sink w) else None.

End Subscribers.
