(* ===== verification/NetworkManagerSpec.v ===== *)
(** * The threads of the network manager

    The invariant of the concurrent system, its safety, its shutdown, and the way of an
    exception from a subscription thread to the main thread. *)

From S2P Require Import Prelude Float64 BaseExceptions PortID Format Variables PropertyTree.
From S2P Require Import ChannelMapping ApplicationContext Event EventDispatcher.
From S2P Require Import ASN1Commons ASN1Publisher ASN1Subscriber ASN1SubscriberSpec ASN1Spec.
From S2P Require Import ConcurrentSubscriber CompactASN1Clients CompactASN1ClientsSpec NetworkManager.

#[local] Arguments Nat.ltb : simpl never.
#[local] Arguments Nat.eqb : simpl never.

(** ** Who holds which mutex *)

Definition main_holds (pc : main_pc) (i : nat) : bool :=
  match pc with MInitLocked k | MStarted k | MTermLocked k => (k =? i)%nat | _ => false end.

Definition main_holds_mail (pc : main_pc) : bool :=
  match pc with MHasLocked | MTakeLocked => true | _ => false end.

Section Holds.
Context {I : Type}.

Definition thread_holds (t : thread_pc I) : bool :=
  match t with AskLocked _ | CatchLocked _ | Handling _ | Reported | ResetLocked => true | _ => false end.

Definition thread_handles (t : thread_pc I) : bool :=
  match t with Handling _ => true | _ => false end.

End Holds.

(** The stage of a subscriber, as the main thread sees it. *)
Inductive stage := NotYet | Live | Gone.

Definition stage_of (pc : main_pc) (i : nat) : stage :=
  match pc with
  | MInit k | MInitLocked k => if (k =? i)%nat then NotYet else Live
  | MTerminate j | MTermLock j | MTermLocked j | MTermRequest j | MJoin j
  | MUnwind _ j | MUnwindJoin _ j => if (i <? j)%nat then Gone else Live
  | _ => Live
  end.

(** The constructor has thrown. *)
Definition unwinding (pc : main_pc) : bool :=
  match pc with MUnwind _ _ | MUnwindJoin _ _ | MFailed _ => true | _ => false end.

(** The request to terminate has been sent to subscriber [i]. *)
Definition flagged (pc : main_pc) (i : nat) : bool :=
  match pc with MTermRequest k | MJoin k => (k =? i)%nat | _ => false end.
Definition notified (pc : main_pc) (i : nat) : bool :=
  match pc with MJoin k => (k =? i)%nat | _ => false end.

Section Spec.
Context `{PT : PropertyTree} {D I : Type} `{SUB : !Subscription PT D I} `{LAWS : !SubscriptionLaws PT D I}.
Context (instantiateSubscriber : string -> option D) (channels : list TransmissionChannel).

Notation exec := (exec instantiateSubscriber channels).
Notation step := (step instantiateSubscriber channels).
Notation reachable := (reachable instantiateSubscriber channels).

(** The configuration: channels that a subscriber accepts or rejects, and fresh
    objects. *)
Context (Hchannels : Forall sub_channel channels).
Context (Hnew : forall id d, instantiateSubscriber id = Some d -> sub_new d).

(** ** The invariant *)

(** Subscriber [i] between two steps. *)
Record sub_inv (pc : main_pc) (owner : option agent) (i : nat) (c : ConcurrentSubscriber D I) : Prop := {
  si_lock : objectMut_ c = if main_holds pc i then Some MainThread
                           else if thread_holds (subscriptionThread_ c) then Some (SubscriberThread i) else None;
  si_excl : main_holds pc i && thread_holds (subscriptionThread_ c) = false;
  si_stage : match stage_of pc i with
             | NotYet => subscriptionThread_ c = NotStarted /\ sub_new (derived_ c)
             | Live => joinable c = true /\ sub_ok (derived_ c)
             | Gone => subscriptionThread_ c = Joined /\ sub_ok (derived_ c)
             end;
  si_handles : thread_handles (subscriptionThread_ c) = true <-> owner = Some (SubscriberThread i);
  si_flag : flagged pc i = true -> in_run (subscriptionThread_ c) = true -> terminationRequest_ c = true;
  si_requested : notified pc i = true -> in_run (subscriptionThread_ c) = true -> sub_requested (derived_ c);
}.

(** The number of subscribers, as the main thread has it. *)
Definition size_ok (pc : main_pc) (n : nat) : Prop :=
  match pc with
  | MStart i => n = i /\ (i <= length channels)%nat
  | MInit i | MInitLocked i | MStarted i => n = S i /\ (i < length channels)%nat
  | MBuilt | MServe | MHas | MHasLocked | MTake | MTakeLocked => (n <= length channels)%nat
  | MTermLock i | MTermLocked i | MTermRequest i | MJoin i | MUnwindJoin _ i => (i < n <= length channels)%nat
  | MTerminate i | MUnwind _ i => (i <= n <= length channels)%nat
  | MDone | MFailed _ => n = 0%nat
  end.

Definition owner_ok (pc : main_pc) (owner : option agent) (n : nat) : Prop :=
  match owner with
  | None => main_holds_mail pc = false
  | Some MainThread => main_holds_mail pc = true
  | Some (SubscriberThread i) => main_holds_mail pc = false /\ (i < n)%nat
  end.

Record sys_inv (s : System D I) : Prop := {
  sy_subs : forall i c, subscriber_ s !! i = Some c ->
              sub_inv (main s) (pendingExceptionMutex_ (mail s)) i c;
  sy_owner : owner_ok (main s) (pendingExceptionMutex_ (mail s)) (length (subscriber_ s));
  sy_size : size_ok (main s) (length (subscriber_ s));
  sy_take : main s = MTake \/ main s = MTakeLocked -> pendingException_ (mail s) <> None;
}.

Lemma owner_mono pc pc' o n n' :
  owner_ok pc o n -> main_holds_mail pc' = main_holds_mail pc -> (n <= n')%nat -> owner_ok pc' o n'.
Proof. intros Ho Hp Hn. destruct o as [[|j]|]; cbn in *; rewrite ?Hp; [done| |done]. split; [apply Ho|lia]. Qed.

Lemma mail_held pc o n : owner_ok pc o n -> main_holds_mail pc = true -> o = Some MainThread.
Proof. destruct o as [[|j]|]; cbn; intros Ho Hm; [done|by destruct Ho; congruence|congruence]. Qed.

Lemma initial_inv : sys_inv initial.
Proof. split; cbn; try done; [|by intros [|]]. split; [done|lia]. Qed.

(** A subscriber that a step of the main thread leaves alone. *)
Lemma sub_inv_other pc owner pc' owner' i c :
  sub_inv pc owner i c -> main_holds pc' i = main_holds pc i -> stage_of pc' i = stage_of pc i ->
  flagged pc' i = false -> notified pc' i = false ->
  (owner' = Some (SubscriberThread i) <-> owner = Some (SubscriberThread i)) -> sub_inv pc' owner' i c.
Proof.
  intros Hi Hh Hs Hf Hn Ho. destruct Hi. split; rewrite ?Hh, ?Hs, ?Hf, ?Hn; try done.
  by rewrite Ho.
Qed.

(** ** Steps of a subscription thread *)

(** The thread is in code of the derived class. *)
Lemma in_run_live pc owner i c :
  sub_inv pc owner i c -> in_run (subscriptionThread_ c) = true ->
  stage_of pc i = Live /\ sub_ok (derived_ c) /\ owner <> Some (SubscriberThread i).
Proof.
  intros Hi Hrun. destruct Hi as [_ _ Hs Hh _ _].
  destruct (stage_of pc i); destruct Hs as [Hs ?]; rewrite ?Hs in Hrun; try done.
  split_and!; [done|done|]. rewrite <- Hh. by destruct (subscriptionThread_ c).
Qed.

(** The mutex without the thread's own hold. *)
Definition main_mutex (pc : main_pc) (i : nat) : option agent :=
  if main_holds pc i then Some MainThread else None.

Lemma run_turn_inv pc owner i inp a c c' :
  sub_inv pc owner i c -> in_run (subscriptionThread_ c) = true ->
  activity_in sub_ok a -> (notified pc i = true -> activity_in sub_requested a) ->
  run_turn inp a (set_mutex (main_mutex pc i) c) = Ret c' -> sub_inv pc owner i c'.
Proof.
  intros Hi Hrun Hok Hreq Ht. destruct (in_run_live _ _ _ _ Hi Hrun) as (Hst & _ & Ho).
  destruct Hi as [_ _ _ _ Hf _].
  destruct a; cbn in Ht; inversion Ht; subst; split; cbn; rewrite ?Hst; unfold main_mutex;
    try done; rewrite ?andb_false_r; cbn in *; auto.
Qed.

Lemma run_turn_total pc i inp a (c : ConcurrentSubscriber D I) f :
  activity_in sub_ok a -> run_turn inp a (set_mutex (main_mutex pc i) c) <> Fault f.
Proof. by destruct a. Qed.

(** Steps of the thread that stay outside of [run]. *)
Lemma sub_inv_goto pc owner owner' i c t mut flag :
  sub_inv pc owner i c -> stage_of pc i = Live -> joinable (goto t c) = true -> in_run t = false ->
  mut = (if main_holds pc i then Some MainThread else if thread_holds t then Some (SubscriberThread i) else None) ->
  main_holds pc i && thread_holds t = false -> sub_ok (derived_ c) ->
  (thread_handles t = true <-> owner' = Some (SubscriberThread i)) ->
  sub_inv pc owner' i (goto t (set_mutex mut (set_flag flag c))).
Proof.
  intros Hi Hst Hj Hrun -> Hex Hok Hh. split; cbn; rewrite ?Hst, ?Hrun; try done.
Qed.

(** What a step of thread [i] does to the mailbox, seen by the others. *)
Definition mail_frame (pc : main_pc) (n i : nat) (m m' : mailbox) : Prop :=
  owner_ok pc (pendingExceptionMutex_ m') n /\
  (forall k, k <> i -> (pendingExceptionMutex_ m' = Some (SubscriberThread k) <->
                        pendingExceptionMutex_ m = Some (SubscriberThread k))) /\
  (pendingException_ m <> None -> pendingException_ m' <> None).

Lemma mail_frame_refl pc n i m : owner_ok pc (pendingExceptionMutex_ m) n -> mail_frame pc n i m m.
Proof. done. Qed.

Lemma live_thread pc owner i c :
  sub_inv pc owner i c -> joinable c = true -> stage_of pc i = Live /\ sub_ok (derived_ c).
Proof.
  intros [_ _ Hs _ _ _] Hj. destruct (stage_of pc i); [destruct Hs as [Hs _]|by destruct Hs|destruct Hs as [Hs _]];
    unfold joinable in Hj; by rewrite Hs in Hj.
Qed.

Ltac sync_step :=
  match goal with
  | Hl : ?mut = (if main_holds ?pc ?i then _ else _), Hstep : _ = Some (Ret (_, _)) |- _ =>
      destruct (main_holds pc i) eqn:Hm; subst mut; cbn in Hstep; try done;
      injection Hstep as <- <-
  end.

(** The parts of the invariant behind a step that stays outside of [run]. *)
Ltac sync_inv :=
  match goal with
  | Hm : main_holds ?pc ?i = _, Hst : stage_of ?pc ?i = Live |- sub_inv ?pc _ ?i _ =>
      split; cbn; rewrite ?Hm, ?Hst; cbn; try done; naive_solver
  end.

Lemma executeRun_step_inv st pc n i inp c m c' m' :
  sub_inv pc (pendingExceptionMutex_ m) i c -> owner_ok pc (pendingExceptionMutex_ m) n -> (i < n)%nat ->
  executeRun_step st i inp c m = Some (Ret (c', m')) ->
  sub_inv pc (pendingExceptionMutex_ m') i c' /\ mail_frame pc n i m m'.
Proof.
  intros Hi Ho Hn Hstep. destruct (joinable c) eqn:Hj.
  2:{ unfold joinable in Hj. unfold executeRun_step in Hstep. cbv zeta in Hstep. by destruct (subscriptionThread_ c). }
  destruct (live_thread _ _ _ _ Hi Hj) as [Hst Hok].
  pose proof Hi as [Hl He _ Hh Hf Hr]. unfold executeRun_step in Hstep. cbv zeta in Hstep.
  destruct c as [t flag mut d]. cbn [subscriptionThread_ objectMut_ derived_ terminationRequest_] in *.
  destruct t; try done; cbn [thread_holds thread_handles in_run] in *.
  - destruct (_ && _); [sync_step; by split; [sync_inv|]..|].
    injection Hstep as (c1 & Ht & [= <- <-])%obind_Ret_inv. split; [|done].
    eapply (run_turn_inv pc _ i inp); [exact Hi|done|by apply run_ok| |].
    + intros Hno. apply requested_run; auto.
    + rewrite <- Ht. unfold main_mutex. by rewrite Hl.
  - destruct st; [|done].
    injection Hstep as (c1 & Ht & [= <- <-])%obind_Ret_inv. split; [|done].
    eapply (run_turn_inv pc _ i inp0); [exact Hi|done|by apply run_ok| |].
    + intros Hno. apply requested_run; auto.
    + rewrite <- Ht. unfold main_mutex. by rewrite Hl.
  - sync_step. split; [sync_inv|done].
  - injection Hstep as (c1 & Ht & [= <- <-])%obind_Ret_inv. split; [|done].
    eapply (run_turn_inv pc _ i inp0); [exact Hi|done|by apply answer_ok| |].
    + intros Hno. apply requested_answer; auto.
    + rewrite <- Ht. unfold main_mutex. by rewrite andb_true_r in He; rewrite He.
  - sync_step. split; [sync_inv|done].
  - cbn [callback_enter handleException] in Hstep. destruct (pendingExceptionMutex_ m) eqn:Hmm; [done|]. cbn in Ho.
    sync_step. split; [sync_inv|]. split_and!; cbn; [done|rewrite Hmm; naive_solver|done].
  - assert (Hmm : pendingExceptionMutex_ m = Some (SubscriberThread i)) by tauto. rewrite Hmm in Ho. cbn in Ho.
    sync_step. split; [sync_inv|]. split_and!; cbn; [apply Ho|rewrite Hmm; naive_solver|done].
  - sync_step. split; [sync_inv|done].
  - sync_step. split; [sync_inv|done].
  - sync_step. split; [sync_inv|done].
Qed.

(** A thread of the invariant does not fail. *)
Lemma run_turn_returns inp a (c : ConcurrentSubscriber D I) (m : mailbox) :
  activity_in sub_ok a -> exists c' m', (let* s' := run_turn inp a c in Ret (s', m)) = (Ret (c', m') : result _).
Proof. destruct a; try done; intros _; eexists _, _; reflexivity. Qed.

Lemma executeRun_step_total st pc owner i inp c m r :
  sub_inv pc owner i c -> executeRun_step st i inp c m = Some r -> exists c' m', r = Ret (c', m').
Proof.
  intros Hi Hstep. unfold executeRun_step in Hstep. cbv zeta in Hstep.
  assert (Hok : in_run (subscriptionThread_ c) = true -> sub_ok (derived_ c)) by (intros Hr; by eapply in_run_live).
  destruct (subscriptionThread_ c) eqn:Ht; try done; try (destruct (lock _ c); [|done]);
    try (case_match; try done); injection Hstep as <-; eauto;
    apply run_turn_returns; first [apply run_ok|apply answer_ok]; auto.
Qed.

(** ** Steps of the system *)

(** Subscriber [i] changes, and the others stay. *)
Lemma sys_inv_update s i c c' m' pc' sd o :
  subscriber_ s !! i = Some c -> sub_inv pc' (pendingExceptionMutex_ m') i c' ->
  (forall k ck, k <> i -> subscriber_ s !! k = Some ck -> sub_inv pc' (pendingExceptionMutex_ m') k ck) ->
  owner_ok pc' (pendingExceptionMutex_ m') (length (subscriber_ s)) ->
  size_ok pc' (length (subscriber_ s)) ->
  (pc' = MTake \/ pc' = MTakeLocked -> pendingException_ m' <> None) ->
  sys_inv {| subscriber_ := <[i := c']> (subscriber_ s); mail := m'; main := pc'; runStarted := sd; caught := o |}.
Proof.
  intros Hc Hi Hothers Ho Hsz Ht. split; cbn; rewrite ?length_insert; [|done..].
  intros k ck Hk. apply list_lookup_insert_Some in Hk as [(<- & <- & _)|[Hne Hk]]; eauto.
Qed.

(** The result of a step from the invariant: the invariant, or, when a constructor
    that has thrown destroys a subscriber whose thread is at work, undefined
    behaviour. *)
Definition step_result (s : System D I) (r : result (System D I)) : Prop :=
  (exists s', r = Ret s' /\ sys_inv s') \/
  (r = Fault UndefinedBehaviour /\
   exists x i c, main s = MUnwind x i /\ subscriber_ s !! i = Some c /\ in_run (subscriptionThread_ c) = true).

Lemma step_good s s' : sys_inv s' -> step_result s (Ret s').
Proof. left. eauto. Qed.

Lemma thread_step_inv i inp s r : sys_inv s -> thread_step i inp s = Some r -> step_result s r.
Proof.
  intros [Hsub Ho Hsz Ht] Hstep. unfold thread_step in Hstep.
  destruct (subscriber_ s !! i) as [c|] eqn:Hc; [|done]. pose proof (Hsub i c Hc) as Hi.
  destruct (executeRun_step (runStarted s) i inp c (mail s)) as [r0|] eqn:He; [|done].
  destruct (executeRun_step_total _ _ _ _ _ _ _ _ Hi He) as (c' & m' & ->).
  injection Hstep as <-. apply step_good. cbn.
  assert (Hlt : (i < length (subscriber_ s))%nat) by (by eapply lookup_lt_Some).
  destruct (executeRun_step_inv _ _ _ _ _ _ _ _ _ Hi Ho Hlt He) as [Hi' (Ho' & Hframe & Hp)].
  eapply sys_inv_update; try done; [|naive_solver].
  intros k ck Hne Hk. specialize (Hsub k ck Hk). destruct Hsub. split; try done.
  by rewrite Hframe.
Qed.

(** Comparisons of positions, and what is left of them. *)
Ltac positions :=
  cbn in *; rewrite ?Nat.eqb_refl, ?Nat.ltb_irrefl in *;
  repeat match goal with
  | |- context [(?a =? ?b)%nat] => destruct (Nat.eqb_spec a b)
  | |- context [(?a <? ?b)%nat] => destruct (Nat.ltb_spec a b)
  end; subst; try done; try lia.

(** A subscriber that the step does not touch. *)
Ltac untouched :=
  eapply sub_inv_other; [eauto| positions ..].

(** The main thread alone moves. *)
Lemma sys_inv_main s pc' m' sd o :
  (forall k ck, subscriber_ s !! k = Some ck -> sub_inv pc' (pendingExceptionMutex_ m') k ck) ->
  owner_ok pc' (pendingExceptionMutex_ m') (length (subscriber_ s)) ->
  size_ok pc' (length (subscriber_ s)) ->
  (pc' = MTake \/ pc' = MTakeLocked -> pendingException_ m' <> None) ->
  sys_inv {| subscriber_ := subscriber_ s; mail := m'; main := pc'; runStarted := sd; caught := o |}.
Proof. by split. Qed.

(** The step is on subscriber [i], which exists. *)
Lemma with_sub_inv i (s : System D I) f r :
  (i < length (subscriber_ s))%nat -> with_sub i s f = Some r ->
  exists c, subscriber_ s !! i = Some c /\ f c = Some r.
Proof.
  intros Hi. unfold with_sub. destruct (lookup_lt_is_Some_2 _ _ Hi) as [c Hc]. rewrite Hc. eauto.
Qed.

Lemma lock_inv a (c c' : ConcurrentSubscriber D I) :
  lock a c = Some c' -> objectMut_ c = None /\ c' = set_mutex (Some a) c.
Proof. unfold lock. destruct (objectMut_ c); [done|]. by intros [= <-]. Qed.

(** The main thread takes the mutex of subscriber [i]. *)
Lemma lock_sub_inv i pc pc' s r :
  sys_inv s -> main s = pc -> (i < length (subscriber_ s))%nat -> size_ok pc' (length (subscriber_ s)) ->
  owner_ok pc' (pendingExceptionMutex_ (mail s)) (length (subscriber_ s)) ->
  main_holds pc' i = true -> (forall k, k <> i -> main_holds pc k = false /\ main_holds pc' k = false) ->
  (forall k, stage_of pc' k = stage_of pc k /\ flagged pc' k = false /\ notified pc' k = false) ->
  pc' <> MTake -> pc' <> MTakeLocked ->
  lock_sub i pc' s = Some r -> step_result s r.
Proof.
  intros Hs Hpc Hi Hsz Ho Hh Hk Hst Hn1 Hn2 Hstep.
  destruct (with_sub_inv _ _ _ _ Hi Hstep) as (c & Hc & Hf).
  destruct (lock MainThread c) as [c'|] eqn:Hl; [|done]. apply lock_inv in Hl as [Hmut ->].
  injection Hf as <-. apply step_good. destruct Hs as [Hsub _ _ _]. rewrite Hpc in *.
  eapply sys_inv_update; cbn; try done; [|intros k ck Hne Hck|intros [E|E]; congruence].
  - destruct (Hst i) as (Hsi & Hfi & Hni). destruct (Hsub i c Hc) as [Hlk He Hstg Hha _ _].
    split; cbn; rewrite ?Hh, ?Hfi, ?Hni, ?Hsi; try done.
    rewrite Hmut in Hlk. destruct (main_holds pc i); [done|]. by destruct (thread_holds _).
  - destruct (Hst k) as (Hsi & Hfi & Hni). destruct (Hk k Hne). eapply sub_inv_other; eauto.
Qed.

(** The object of a channel is fresh. *)
Lemma instantiate_new ch :
  match instantiate instantiateSubscriber ch with Ret d => sub_new d | Throw _ => True | Fault _ => False end.
Proof. unfold instantiate. repeat case_match; simplify_eq; try done. by eapply Hnew. Qed.

(** A new subscriber at the end of the list. *)
Lemma sys_inv_append s i d :
  sys_inv s -> main s = MStart i -> i = length (subscriber_ s) -> (i < length channels)%nat -> sub_new d ->
  sys_inv (goto_main (MInit i) (set_subs (subscriber_ s ++ [new_ConcurrentSubscriber d]) s)).
Proof.
  intros [Hsub Ho Hsz _] Hpc -> Hlt Hd. rewrite Hpc in *. cbn in Ho, Hsz.
  assert (Hlen : length (subscriber_ s ++ [new_ConcurrentSubscriber d]) = S (length (subscriber_ s)))
    by (rewrite length_app; cbn; lia).
  split; cbn; rewrite ?Hlen; [| |done|by intros [|]].
  - intros k ck Hk. apply lookup_app_Some in Hk as [Hk|[Hge Hk]].
    { assert (k < length (subscriber_ s))%nat by (by eapply lookup_lt_Some). untouched. }
    apply list_lookup_singleton_Some in Hk as [Hk <-].
    assert (k = length (subscriber_ s)) as -> by lia.
    split; positions. split; [done|]. intros E. rewrite E in Ho. cbn in Ho. lia.
  - by eapply owner_mono; [exact Ho|done|lia].
Qed.

(** The last subscriber, which has no thread, is dropped. *)
Lemma sys_inv_take i c x s :
  sys_inv s -> main s = MInitLocked i -> subscriber_ s !! i = Some c -> subscriptionThread_ c = NotStarted ->
  sys_inv (goto_main (MUnwind x 0) (set_subs (take i (subscriber_ s)) s)).
Proof.
  intros [Hsub Ho Hsz _] Hpc Hc Ht. rewrite Hpc in *. cbn in Ho, Hsz. destruct Hsz as [Hn Hlt].
  destruct (Hsub i c Hc) as [_ _ _ Hha _ _]. rewrite Ht in Hha.
  assert (Hlen : length (take i (subscriber_ s)) = i) by (rewrite length_take; lia).
  split; cbn; rewrite ?Hlen; [| |lia|by intros [|]].
  - intros k ck Hk. apply lookup_take_Some in Hk as [Hk Hki]. untouched.
  - destruct (pendingExceptionMutex_ (mail s)) as [[|j]|] eqn:Hmm; cbn in *; [done| |done].
    split; [done|]. destruct (decide (j = i)) as [->|]; [|lia]. destruct Hha as [_ Hha]. by discriminate (Hha eq_refl).
Qed.

Lemma constructor_step_inv s r : sys_inv s -> constructor_step instantiateSubscriber channels s = Some r -> step_result s r.
Proof.
  intros Hs Hstep. pose proof Hs as [Hsub Ho Hsz _]. unfold constructor_step in Hstep.
  destruct (main s) as [i|i|i|i| | | | | | | | | | | | | | | ] eqn:Hpc; try done; cbn in Ho, Hsz.
  - destruct Hsz as [Hn Hle]. destruct (channels !! i) as [ch|] eqn:Hch.
    2:{ injection Hstep as <-. apply step_good, sys_inv_main; [|done|cbn; lia|by intros [|]].
        intros k ck Hk. untouched. }
    pose proof (instantiate_new ch) as Hin.
    destruct (instantiate _ ch) as [d|x|f]; [| |done]; injection Hstep as <-; apply step_good.
    + apply (sys_inv_append s i d Hs Hpc); [lia|by eapply lookup_lt_Some|done].
    + apply sys_inv_main; [|done|cbn; lia|by intros [|]]. intros k ck Hk. untouched.
  - apply (lock_sub_inv i (MInit i) (MInitLocked i) s r Hs Hpc); try done; intros; positions.
  - destruct Hsz as [Hn Hlt]. destruct (with_sub_inv i s _ _ ltac:(lia) Hstep) as (c & Hc & Hf).
    destruct (channels !! i) as [ch|] eqn:Hch; [|by apply lookup_ge_None in Hch; lia].
    destruct (Hsub i c Hc) as [Hlk He Hst Hha _ _]. cbn in Hst, Hlk, He. rewrite Nat.eqb_refl in *.
    destruct Hst as [Ht Hnewd].
    assert (Hchi : sub_channel ch) by (rewrite Forall_lookup in Hchannels; eauto).
    pose proof (init_total ch (derived_ c) Hchi Hnewd) as Hwp. unfold initAndStart in Hf. cbn [derived_ set_flag] in Hf.
    destruct (sub_init ch (derived_ c)) as [d|x|f] eqn:Hinit; cbn in Hf, Hwp; [| |done].
    + injection Hf as <-. apply step_good. eapply sys_inv_update; [done| | |done|done|by intros [|]].
      * rewrite Ht in Hha. split; positions.
      * intros k ck Hne Hk. untouched.
    + injection Hf as <-. apply step_good.
      exact (sys_inv_take i c x s Hs Hpc Hc Ht).
  - destruct Hsz as [Hn Hlt]. destruct (with_sub_inv i s _ _ ltac:(lia) Hstep) as (c & Hc & Hf).
    injection Hf as <-. apply step_good. destruct (Hsub i c Hc) as [Hlk He Hst Hha _ _].
    cbn in *. rewrite Nat.eqb_refl in *. cbn in He.
    eapply sys_inv_update; [done| | |done|cbn; lia|by intros [|]].
    + split; positions. by rewrite He.
    + intros k ck Hne Hk. untouched.
Qed.

(** The main thread takes or gives back the mutex of the exception. *)
Lemma mail_sub_inv pc pc' owner owner' k (c : ConcurrentSubscriber D I) :
  sub_inv pc owner k c -> (forall j, owner <> Some (SubscriberThread j)) ->
  (forall j, owner' <> Some (SubscriberThread j)) ->
  main_holds pc' k = main_holds pc k -> stage_of pc' k = stage_of pc k ->
  flagged pc' k = false -> notified pc' k = false -> sub_inv pc' owner' k c.
Proof.
  intros Hi Ho Ho' Hh Hs Hf Hn. eapply sub_inv_other; [done..|].
  split; intros E; [by destruct (Ho' k)|by destruct (Ho k)].
Qed.

(** Between the dispatcher's calls the main thread holds no subscriber. *)
Definition serving (pc : main_pc) : bool :=
  match pc with MBuilt | MServe | MHas | MHasLocked | MTake | MTakeLocked => true | _ => false end.

Lemma serving_plain pc k :
  serving pc = true -> main_holds pc k = false /\ stage_of pc k = Live /\ flagged pc k = false /\ notified pc k = false.
Proof. by destruct pc. Qed.

Lemma serve_step_inv c s r : sys_inv s -> serve_step c s = Some r -> step_result s r.
Proof.
  intros Hs Hstep. pose proof Hs as [Hsub Ho Hsz Ht]. unfold serve_step in Hstep.
  destruct (main s) as [i|i|i|i| | | | | | | | | | | | | | | ] eqn:Hpc; try done; cbn in Hsz.
  1-2: destruct c as [|o]; injection Hstep as <-; apply step_good, sys_inv_main; try done; try (by intros [|]);
    first [by intros k ck Hk; untouched|cbn; lia].
  - unfold lock_mail in Hstep. destruct (pendingExceptionMutex_ (mail s)) eqn:Hm; [done|].
    injection Hstep as <-. apply step_good, sys_inv_main; cbn; try done; [|by intros [|]].
    intros k ck Hk. eapply mail_sub_inv; [by apply (Hsub k)|done..].
  - assert (Hm := mail_held _ _ _ Ho eq_refl). rewrite Hm in *.
    destruct (pendingException_ (mail s)) as [x|] eqn:Hx; injection Hstep as <-; apply step_good, sys_inv_main;
      cbn; try done; try (by intros [|]); intros k ck Hk; (eapply mail_sub_inv; [by apply (Hsub k)|done..]).
  - unfold lock_mail in Hstep. destruct (pendingExceptionMutex_ (mail s)) eqn:Hm; [done|].
    injection Hstep as <-. apply step_good, sys_inv_main; cbn; try done; [|by auto].
    intros k ck Hk. eapply mail_sub_inv; [by apply (Hsub k)|done..].
  - assert (Hm := mail_held _ _ _ Ho eq_refl). rewrite Hm in *.
    destruct (pendingException_ (mail s)) as [x|] eqn:Hx; [|by destruct (Ht ltac:(by right))].
    injection Hstep as <-. apply step_good, sys_inv_main; cbn; try done; [|lia|by intros [|]].
    intros k ck Hk. eapply mail_sub_inv; [by apply (Hsub k)|done..].
Qed.

(** At the end of the loop over the subscribers, none is left to join. *)
Lemma all_joined pc owner (l : list (ConcurrentSubscriber D I)) :
  (forall k c, l !! k = Some c -> sub_inv pc owner k c) ->
  (forall k, (k < length l)%nat -> stage_of pc k = Gone) ->
  existsb joinable l = false /\ forall j, owner = Some (SubscriberThread j) -> (length l <= j)%nat.
Proof.
  intros Hsub Hgone. assert (Hj : forall k c, l !! k = Some c -> subscriptionThread_ c = Joined).
  { intros k c Hk. pose proof (si_stage _ _ _ _ (Hsub k c Hk)) as Hs.
    rewrite Hgone in Hs by (by eapply lookup_lt_Some). apply Hs. }
  split.
  - apply not_true_iff_false. intros (c & Hin & Hc)%existsb_exists.
    apply list_elem_of_In, list_elem_of_lookup in Hin as [k Hk]. unfold joinable in Hc. by rewrite (Hj k c Hk) in Hc.
  - intros j Hown. destruct (decide (j < length l)%nat) as [Hlt|]; [|lia].
    destruct (lookup_lt_is_Some_2 _ _ Hlt) as [c Hc].
    pose proof (si_handles _ _ _ _ (Hsub j c Hc)) as [_ Hh]. specialize (Hh Hown). by rewrite (Hj j c Hc) in Hh.
Qed.

Lemma sys_inv_empty s pc sd o :
  sys_inv s -> main_holds_mail (main s) = false ->
  (forall j, pendingExceptionMutex_ (mail s) = Some (SubscriberThread j) -> (length (subscriber_ s) <= j)%nat) ->
  pc = MDone \/ (exists x, pc = MFailed x) ->
  sys_inv {| subscriber_ := []; mail := mail s; main := pc; runStarted := sd; caught := o |}.
Proof.
  intros [_ Ho _ _] Hh Hj Hpc.
  assert (Hm : pendingExceptionMutex_ (mail s) = None).
  { destruct (pendingExceptionMutex_ (mail s)) as [[|j]|]; cbn in Ho; [congruence| |done].
    specialize (Hj j eq_refl). lia. }
  split; cbn; rewrite ?Hm; [done|..]; destruct Hpc as [->|[x ->]]; try done; by intros [|].
Qed.

Lemma terminate_step_inv s r : sys_inv s -> terminate_step s = Some r -> step_result s r.
Proof.
  intros Hs Hstep. pose proof Hs as [Hsub Ho Hsz Ht]. unfold terminate_step in Hstep.
  destruct (main s) as [i|i|i|i| | | | | | |i|i|i|i|i| | | | ] eqn:Hpc; try done; cbn in Hsz.
  - destruct (subscriber_ s !! i) as [c|] eqn:Hc.
    + assert (Hlt : (i < length (subscriber_ s))%nat) by (by eapply lookup_lt_Some).
      destruct (Hsub i c Hc) as [_ _ Hst _ _ _]. cbn in Hst. rewrite Nat.ltb_irrefl in Hst.
      unfold terminate_begin in Hstep. rewrite (proj1 Hst) in Hstep. cbn in Hstep. injection Hstep as <-.
      apply step_good, sys_inv_main; [|done|cbn; lia|by intros [|]]. intros k ck Hk. untouched.
    + apply lookup_ge_None in Hc.
      destruct (all_joined _ _ _ Hsub) as [Hex Hj].
      { intros k Hk. cbn. by rewrite (proj2 (Nat.ltb_lt _ _)) by lia. }
      rewrite Hex in Hstep. injection Hstep as <-. apply step_good.
      apply (sys_inv_empty s); [done|by rewrite Hpc|done|by left].
  - apply (lock_sub_inv i (MTermLock i) (MTermLocked i) s r Hs Hpc); try done; intros; positions.
  - destruct (with_sub_inv i s _ _ ltac:(lia) Hstep) as (c & Hc & Hf).
    injection Hf as <-. apply step_good. destruct (Hsub i c Hc) as [Hlk He Hst Hha _ _].
    cbn in He, Hst. rewrite Nat.eqb_refl in He. rewrite Nat.ltb_irrefl in Hst. cbn in He.
    eapply sys_inv_update; [done| | |done|cbn; lia|by intros [|]].
    + split; positions. by rewrite He.
    + intros k ck Hne Hk. untouched.
  - destruct (with_sub_inv i s _ _ ltac:(lia) Hstep) as (c & Hc & Hf).
    injection Hf as <-. apply step_good. destruct (Hsub i c Hc) as [Hlk He Hst Hha Hfl _].
    cbn in Hst, Hfl. rewrite Nat.ltb_irrefl in Hst. rewrite Nat.eqb_refl in Hfl.
    eapply sys_inv_update; [done| | |done|cbn; lia|by intros [|]].
    + split; positions.
      * split; [apply Hst|]. apply request_ok, Hst.
      * intros _ _. apply request_requested.
    + intros k ck Hne Hk. untouched.
  - destruct (with_sub_inv i s _ _ ltac:(lia) Hstep) as (c & Hc & Hf).
    unfold terminate_join in Hf. destruct (subscriptionThread_ c) eqn:Hth; try done.
    injection Hf as <-. apply step_good. destruct (Hsub i c Hc) as [Hlk He Hst Hha _ _].
    rewrite Hth in Hha, Hlk. eapply sys_inv_update; [done| | |done|cbn; lia|by intros [|]].
    + split; positions. split; [done|apply Hst].
    + intros k ck Hne Hk. untouched.
Qed.

Lemma unwind_step_inv s r : sys_inv s -> unwind_step s = Some r -> step_result s r.
Proof.
  intros Hs Hstep. pose proof Hs as [Hsub Ho Hsz Ht]. unfold unwind_step in Hstep.
  destruct (main s) as [i|i|i|i| | | | | | |i|i|i|i|i| |x i|x i| ] eqn:Hpc; try done; cbn in Hsz.
  - destruct (subscriber_ s !! i) as [c|] eqn:Hc.
    + assert (Hlt : (i < length (subscriber_ s))%nat) by (by eapply lookup_lt_Some).
      destruct (Hsub i c Hc) as [Hlk He Hst Hha _ _]. cbn in Hlk, He, Hst. rewrite Nat.ltb_irrefl in Hst.
      unfold destructor_begin in Hstep. rewrite (proj1 Hst) in Hstep. cbn [negb] in Hstep.
      destruct (in_run (subscriptionThread_ c)) eqn:Hrun.
      { injection Hstep as <-. right. split; [done|]. by exists x, i, c. }
      destruct (lock MainThread c) as [c'|] eqn:Hl; [|done]. apply lock_inv in Hl as [Hmut ->].
      injection Hstep as <-. apply step_good.
      rewrite Hmut in Hlk. destruct (thread_holds (subscriptionThread_ c)) eqn:Hth; [done|].
      eapply sys_inv_update; [done| | |done|cbn; lia|by intros [|]].
      * split; positions. by rewrite Hth.
      * intros k ck Hne Hk. untouched.
    + apply lookup_ge_None in Hc. injection Hstep as <-. apply step_good.
      apply (sys_inv_empty s); [done|by rewrite Hpc| |by right; eauto].
      eapply all_joined; [exact Hsub|]. intros k Hk. cbn. by rewrite (proj2 (Nat.ltb_lt _ _)) by lia.
  - destruct (with_sub_inv i s _ _ ltac:(lia) Hstep) as (c & Hc & Hf).
    unfold terminate_join in Hf. destruct (subscriptionThread_ c) eqn:Hth; try done.
    injection Hf as <-. apply step_good. destruct (Hsub i c Hc) as [Hlk He Hst Hha _ _].
    rewrite Hth in Hha, Hlk. eapply sys_inv_update; [done| | |done|cbn; lia|by intros [|]].
    + split; positions. split; [done|apply Hst].
    + intros k ck Hne Hk. untouched.
Qed.

Lemma step_inv l s r : sys_inv s -> step l s = Some r -> step_result s r.
Proof.
  intros Hs. destruct l as [c|i inp]; cbn; [|by apply thread_step_inv]. unfold main_step.
  destruct (main s) eqn:Hpc; try done; intros Hstep;
    eauto using constructor_step_inv, serve_step_inv, terminate_step_inv, unwind_step_inv.
Qed.

Lemma exec_inv ls s s' : sys_inv s -> exec ls s = Ret s' -> sys_inv s'.
Proof.
  revert s; induction ls as [|l ls IH]; intros s Hs; cbn; [by intros [= <-]|].
  destruct (step l s) as [r|] eqn:Hstep; [|by apply IH].
  destruct (step_inv _ _ _ Hs Hstep) as [(s1 & -> & Hs1)|[-> _]]; [cbn; by apply IH|done].
Qed.

Lemma reachable_inv s : reachable s -> sys_inv s.
Proof. intros [ls Hls]. eapply exec_inv; [exact initial_inv|done]. Qed.
(** ** Shutdown

    [rank] falls with every step of a strategy that ends with the manager destroyed:
    the thread that holds a mutex goes on, and otherwise the main thread, or the
    thread it waits for. *)

Definition thread_rank (t : thread_pc I) : nat :=
  match t with
  | Waiting _ => 11 | Asking _ => 10 | AskLocked _ => 9 | Running => 8 | CatchLock _ => 7 | CatchLocked _ => 6 | Handling _ => 5
  | Reported => 4 | ResetLock => 3 | ResetLocked => 2 | Exited => 1 | NotStarted | Joined => 0
  end.

Definition main_rank (n : nat) (pc : main_pc) : nat :=
  match pc with
  | MBuilt | MHas => 5 * n + 5
  | MHasLocked => 5 * n + 4
  | MTake => 5 * n + 3
  | MServe | MTakeLocked => 5 * n + 2
  | MTerminate j => 5 * (n - j) + 1
  | MTermLock j => 5 * (n - j)
  | MTermLocked j => 5 * (n - j) - 1
  | MTermRequest j => 5 * (n - j) - 2
  | MJoin j => 5 * (n - j) - 3
  | _ => 0
  end%nat.

Definition rank (s : System D I) : nat :=
  (main_rank (length (subscriber_ s)) (main s) +
   sum_list_with (fun c => thread_rank (subscriptionThread_ c)) (subscriber_ s))%nat.

(** The constructor has returned. *)
Definition constructed (pc : main_pc) : bool :=
  match pc with
  | MStart _ | MInit _ | MInitLocked _ | MStarted _ | MUnwind _ _ | MUnwindJoin _ _ | MFailed _ => false
  | _ => true
  end.

Lemma sum_list_with_insert {A} (f : A -> nat) l i a b :
  l !! i = Some a -> (sum_list_with f (<[i := b]> l) + f a = sum_list_with f l + f b)%nat.
Proof.
  revert i; induction l as [|x l IH]; intros [|i]; try done.
  - intros [= ->]. cbn. lia.
  - intros Hi. specialize (IH i Hi). change (<[S i := b]> (x :: l)) with (x :: <[i := b]> l). cbn. lia.
Qed.

(** The next step of the strategy. *)
Definition progress (s : System D I) : Prop :=
  exists l s', step l s = Some (Ret s') /\ constructed (main s') = true /\ runStarted s' = true /\
    (rank s' < rank s)%nat.

Lemma thread_progress i inp s c c' m' :
  constructed (main s) = true -> runStarted s = true -> subscriber_ s !! i = Some c ->
  executeRun_step (runStarted s) i inp c (mail s) = Some (Ret (c', m')) ->
  (thread_rank (subscriptionThread_ c') < thread_rank (subscriptionThread_ c))%nat -> progress s.
Proof.
  intros Hcon Hsd Hc Hex Hr. exists (LThread i inp), (set_mail m' (set_sub i c' s)). split_and!; [|done|done|].
  - cbn. unfold thread_step. by rewrite Hc, Hex.
  - unfold rank. cbn. rewrite length_insert.
    pose proof (sum_list_with_insert (fun c => thread_rank (subscriptionThread_ c)) _ _ _ c' Hc). cbn in *. lia.
Qed.

Lemma main_progress c s s' :
  step (LMain c) s = Some (Ret s') -> constructed (main s') = true -> runStarted s' = true ->
  (rank s' < rank s)%nat -> progress s.
Proof. intros Hs Hc Hsd Hr. exists (LMain c), s'. done. Qed.

Context `{!Inhabited I}.

(** A thread that holds the mutex of its object goes on, unless it waits for the
    mutex of the exception. *)
Lemma holder_progress i s c :
  sys_inv s -> constructed (main s) = true -> runStarted s = true -> subscriber_ s !! i = Some c ->
  thread_holds (subscriptionThread_ c) = true ->
  pendingExceptionMutex_ (mail s) = None \/ thread_handles (subscriptionThread_ c) = true -> progress s.
Proof.
  intros [Hsub _ _ _] Hcon Hsd Hc Hth Hm. pose proof (Hsub i c Hc) as Hi.
  destruct (executeRun_step (runStarted s) i inhabitant c (mail s)) as [r|] eqn:He.
  - destruct (executeRun_step_total _ _ _ _ _ _ _ _ Hi He) as (c' & m' & ->).
    eapply thread_progress; try done. unfold executeRun_step in He. cbv zeta in He.
    destruct (subscriptionThread_ c) eqn:Ht; try done; cbn in He.
    + pose proof (answer_once (isTerminationRequestPending c) inp (derived_ c)) as Hask.
      destruct (sub_answer _ _ _); try done; injection He as <- <-; cbn; lia.
    + case_match; [|done]. injection He as <- <-. cbn. lia.
    + injection He as <- <-. cbn. lia.
    + injection He as <- <-. cbn. lia.
    + injection He as <- <-. cbn. lia.
  - unfold executeRun_step in He. cbv zeta in He. destruct (subscriptionThread_ c); try done; cbn in *.
    destruct Hm as [Hm|Hm]; [by rewrite Hm in He|done].
Qed.

(** Subscriber [i], to which the request to terminate has been sent, goes on when
    nobody holds its mutex. *)
Lemma joining_progress i s c :
  sys_inv s -> main s = MJoin i -> runStarted s = true -> subscriber_ s !! i = Some c -> thread_holds (subscriptionThread_ c) = false ->
  subscriptionThread_ c <> Exited -> progress s.
Proof.
  intros [Hsub _ _ _] Hpc Hsd Hc Hth Hne. pose proof (Hsub i c Hc) as Hi.
  assert (Hcon : constructed (main s) = true) by (by rewrite Hpc).
  pose proof (si_lock _ _ _ _ Hi) as Hl. rewrite Hpc, Hth in Hl. cbn in Hl.
  pose proof (si_stage _ _ _ _ Hi) as Hst. rewrite Hpc in Hst. cbn in Hst. rewrite Nat.ltb_irrefl in Hst.
  destruct Hst as [Hj Hok]. unfold joinable in Hj.
  destruct (subscriptionThread_ c) eqn:Ht; try done.
  1: { pose proof (si_requested _ _ _ _ Hi) as Hr. rewrite Hpc, Ht in Hr. cbn in Hr. rewrite Nat.eqb_refl in Hr.
    destruct (requested_ends (derived_ c) Hok (Hr eq_refl eq_refl)) as (inp & Hw & Hends).
    destruct (sub_run inp (derived_ c)) as [| |d|x d|] eqn:Hrun; try done.
    + apply (thread_progress i inp s c (goto ResetLock (set_derived d c)) (mail s)); try done.
      * unfold executeRun_step. by rewrite Ht, Hw, Hrun.
      * rewrite Ht. cbn. lia.
    + apply (thread_progress i inp s c (goto (CatchLock x) (set_derived d c)) (mail s)); try done.
      * unfold executeRun_step. by rewrite Ht, Hw, Hrun.
      * rewrite Ht. cbn. lia. }
  1: { destruct (executeRun_step (runStarted s) i inhabitant c (mail s)) as [r|] eqn:He;
         [|unfold executeRun_step in He; by rewrite Ht, Hsd in He].
       destruct (executeRun_step_total _ _ _ _ _ _ _ _ Hi He) as (c' & m' & ->).
       eapply thread_progress; try done. rewrite Ht. unfold executeRun_step in He. rewrite Ht, Hsd in He.
       destruct (sub_run inp (derived_ c)); try done; injection He as <- _; cbn; lia. }
  all: eapply (thread_progress i inhabitant);
    [done..|unfold executeRun_step, lock; by rewrite Ht, Hl|rewrite Ht; cbn; lia].
Qed.

(** The main thread moves, with what it finds in the hypotheses. *)
Ltac main_moves c :=
  eapply (main_progress c);
    [ unfold NetworkManager.step, main_step, serve_step, terminate_step, lock_mail, lock_sub, with_sub;
      repeat (match goal with H : ?x = _ |- context [match ?x with _ => _ end] => rewrite H end; cbv beta iota);
      reflexivity
    | done
    | done
    | unfold rank; match goal with H : main _ = _ |- _ => rewrite H end ].

(** The main thread on subscriber [i]; its own rank falls. *)
Lemma main_sub_progress c s i sub sub' pc' :
  step (LMain c) s = Some (Ret (goto_main pc' (set_sub i sub' s))) -> constructed pc' = true -> runStarted s = true ->
  subscriber_ s !! i = Some sub ->
  (thread_rank (subscriptionThread_ sub') <= thread_rank (subscriptionThread_ sub))%nat ->
  (main_rank (length (subscriber_ s)) pc' < main_rank (length (subscriber_ s)) (main s))%nat -> progress s.
Proof.
  intros Hs Hc Hsd Hi Hr Hm. eapply main_progress; [done|done|done|].
  unfold rank. cbn. rewrite length_insert.
  pose proof (sum_list_with_insert (fun c => thread_rank (subscriptionThread_ c)) _ _ _ sub' Hi). cbn in *. lia.
Qed.

(** No mutex is held by a thread. *)
Lemma main_or_joined s :
  sys_inv s -> constructed (main s) = true -> runStarted s = true -> main s <> MDone -> pendingExceptionMutex_ (mail s) = None ->
  (forall i c, subscriber_ s !! i = Some c -> thread_holds (subscriptionThread_ c) = false) -> progress s.
Proof.
  intros Hs Hcon Hsd Hne Hm Hfree. pose proof Hs as [Hsub Ho Hsz Ht]. rewrite Hm in Ho.
  assert (Hlook : forall i, (i < length (subscriber_ s))%nat -> exists c, subscriber_ s !! i = Some c /\
            sub_inv (main s) (pendingExceptionMutex_ (mail s)) i c).
  { intros i [c Hc]%lookup_lt_is_Some_2. eauto. }
  destruct (main s) as [i|i|i|i| | | | | | |i|i|i|i|i| |x i|x i| ] eqn:Hpc; try done; cbn in Hsz.
  - main_moves (Leave None). cbn. lia.
  - main_moves (Leave None). cbn. lia.
  - main_moves Distribute. cbn. lia.
  - main_moves Distribute. cbn. lia.
  - destruct (subscriber_ s !! i) as [c|] eqn:Hc.
    + pose proof (si_stage _ _ _ _ (Hsub i c Hc)) as Hst. cbn in Hst. rewrite Nat.ltb_irrefl in Hst.
      destruct Hst as [Hj _]. eapply (main_progress Distribute).
      * unfold NetworkManager.step, main_step, terminate_step, terminate_begin. by rewrite Hpc, Hc, Hj.
      * done.
      * done.
      * unfold rank. rewrite Hpc. cbn. apply lookup_lt_Some in Hc. lia.
    + pose proof (proj1 (lookup_ge_None _ _) Hc) as Hge. destruct (all_joined _ _ _ Hsub) as [Hex _].
      { intros k Hk. cbn. by rewrite (proj2 (Nat.ltb_lt _ _)) by lia. }
      main_moves Distribute. cbn. lia.
  - destruct (Hlook i ltac:(lia)) as (c & Hc & Hi). pose proof (si_lock _ _ _ _ Hi) as Hl.
    rewrite (Hfree i c Hc) in Hl. cbn in Hl.
    eapply (main_sub_progress Distribute s i c);
      [unfold NetworkManager.step, main_step, terminate_step, lock_sub, with_sub, lock; by rewrite Hpc, Hc, Hl|done|done|done|reflexivity|rewrite Hpc; cbn; lia].
  - destruct (Hlook i ltac:(lia)) as (c & Hc & _).
    eapply (main_sub_progress Distribute s i c);
      [unfold NetworkManager.step, main_step, terminate_step, with_sub; by rewrite Hpc, Hc|done|done|done|reflexivity|rewrite Hpc; cbn; lia].
  - destruct (Hlook i ltac:(lia)) as (c & Hc & _).
    eapply (main_sub_progress Distribute s i c);
      [unfold NetworkManager.step, main_step, terminate_step, with_sub; by rewrite Hpc, Hc|done|done|done|reflexivity|rewrite Hpc; cbn; lia].
  - destruct (Hlook i ltac:(lia)) as (c & Hc & _).
    destruct (subscriptionThread_ c) eqn:Hth;
      try (eapply joining_progress; [done|done|done|done|by eapply Hfree|by rewrite Hth]).
    eapply (main_sub_progress Distribute s i c (goto Joined c));
      [unfold NetworkManager.step, main_step, terminate_step, with_sub, terminate_join; by rewrite Hpc, Hc, Hth
      |done|done|done|cbn; lia|rewrite Hpc; cbn; lia].
Qed.

Lemma constructed_progress s :
  sys_inv s -> constructed (main s) = true -> runStarted s = true -> main s <> MDone -> progress s.
Proof.
  intros Hs Hcon Hsd Hne. pose proof Hs as [Hsub Ho Hsz Ht].
  destruct (pendingExceptionMutex_ (mail s)) as [[|i]|] eqn:Hm.
  - (* the main thread is at the mailbox *)
    unfold owner_ok in Ho. destruct (main s) eqn:Hpc; try done.
    + destruct (pendingException_ (mail s)) as [x|] eqn:Hx; main_moves Distribute; cbn; lia.
    + destruct (pendingException_ (mail s)) as [x|] eqn:Hx; [|by destruct (Ht ltac:(by right))].
      main_moves Distribute. cbn. lia.
  - (* a thread is at the mailbox *)
    destruct Ho as [_ Hi]. destruct (lookup_lt_is_Some_2 _ _ Hi) as [c Hc].
    pose proof (proj2 (si_handles _ _ _ _ (Hsub i c Hc)) eq_refl) as Hh.
    eapply holder_progress; try done; [|by right]. by destruct (subscriptionThread_ c).
  - destruct (decide (Exists (fun c => thread_holds (subscriptionThread_ c) = true) (subscriber_ s))) as [Hex|Hno].
    { apply Exists_exists in Hex as (c & Hin & Hc). apply list_elem_of_lookup in Hin as [i Hi].
      eapply holder_progress; try done. by left. }
    assert (Hfree : forall i c, subscriber_ s !! i = Some c -> thread_holds (subscriptionThread_ c) = false).
    { intros i c Hc. apply not_true_is_false. intros Hh. apply Hno, Exists_exists. exists c.
      split; [by eapply list_elem_of_lookup_2|done]. }
    by apply (main_or_joined s).
Qed.

(** C15: no assertion of the network manager fails, whatever the threads do.  In every
    reachable state, every step of every thread returns: [terminate] finds a joinable
    thread, [rethrow_exception] an exception, and the mutexes are held as the code
    expects.  The one exception is a manager whose constructor has thrown: it destroys
    subscribers whose threads still run, which is undefined behaviour. *)
Theorem network_threads_safe s l r :
  reachable s -> step l s = Some r ->
  (exists s', r = Ret s' /\ reachable s') \/
  (r = Fault UndefinedBehaviour /\
   exists x i c, main s = MUnwind x i /\ subscriber_ s !! i = Some c /\ in_run (subscriptionThread_ c) = true).
Proof.
  intros [ls Hls] Hstep. destruct (step_inv l s r) as [(s' & -> & _)|H]; [|done| |by right].
  - apply reachable_inv. by exists ls.
  - left. exists s'. split; [done|]. exists (ls ++ [l]). revert Hls. generalize (@initial D I).
    induction ls as [|l0 ls IH]; intros s0; cbn; [intros [= ->]; by rewrite Hstep|].
    destruct (step l0 s0) as [[s1| |]|]; cbn; auto; done.
Qed.

Lemma shutdown s :
  sys_inv s -> constructed (main s) = true -> runStarted s = true ->
  exists ls s', exec ls s = Ret s' /\ main s' = MDone /\ subscriber_ s' = [].
Proof.
  remember (rank s) as n eqn:Hn. revert s Hn. induction (lt_wf n) as [n _ IH]; intros s -> Hs Hcon Hsd.
  assert (Hd : main s = MDone \/ main s <> MDone) by (destruct (main s); auto).
  destruct Hd as [Hd|Hd].
  { exists [], s. split_and!; [done|done|]. pose proof (sy_size s Hs) as Hsz. rewrite Hd in Hsz.
    by apply nil_length_inv. }
  destruct (constructed_progress s Hs Hcon Hsd Hd) as (l & s1 & Hstep & Hcon1 & Hsd1 & Hlt).
  assert (Hs1 : sys_inv s1).
  { destruct (step_inv _ _ _ Hs Hstep) as [(s2 & [= <-] & Hs2)|[[=] _]]. done. }
  destruct (IH (rank s1) Hlt s1 eq_refl Hs1 Hcon1 Hsd1) as (ls & s2 & Hex & Hd2 & Hl2).
  exists (l :: ls), s2. split; [cbn; by rewrite Hstep|done].
Qed.

(** C16: the shutdown completes.  From every reachable state behind the constructor of
    the manager, once the dispatcher's run has begun or as long as it can begin, there
    is a schedule after which the manager is destroyed and every subscription thread
    has been joined: no mutex is held for ever, and no thread waits for ever. *)
Theorem shutdown_completes s :
  reachable s -> constructed (main s) = true -> runStarted s = true \/ main s = MBuilt ->
  exists ls s', exec ls s = Ret s' /\ main s' = MDone /\ subscriber_ s' = [].
Proof.
  intros Hr Hcon Hsd. assert (Hs := reachable_inv s Hr). destruct Hsd as [Hsd|Hb]; [by apply shutdown|].
  assert (Hstep : step (LMain Distribute) s = Some (Ret (goto_main MServe (set_runStarted s)))).
  { unfold NetworkManager.step, main_step, serve_step. by rewrite Hb. }
  destruct (shutdown (goto_main MServe (set_runStarted s))) as (ls & s' & Hex & Hd); [|done|done|].
  { destruct (step_inv _ _ _ Hs Hstep) as [(s2 & [= <-] & Hs2)|[[=] _]]. done. }
  exists (LMain Distribute :: ls), s'. split; [cbn [NetworkManager.exec]; by rewrite Hstep|done].
Qed.

(** A subscription thread that is at work when [terminationRequest] is called
    reads the request: the flag is set and nobody has reset it. *)
Theorem termination_request_seen s i c :
  reachable s -> main s = MTermRequest i -> subscriber_ s !! i = Some c ->
  in_run (subscriptionThread_ c) = true -> isTerminationRequestPending c = true.
Proof.
  intros Hr Hpc Hc Hrun. pose proof (sy_subs s (reachable_inv s Hr) i c Hc) as Hi.
  apply (si_flag _ _ _ _ Hi); [|done]. rewrite Hpc. cbn. by rewrite Nat.eqb_refl.
Qed.

End Spec.

(** ** The subscribers of the program *)

Section Clients.
Context `{PT : PropertyTree} `{PTR : !PropertyTreeRanges PT} `{LC : LexicalConvert} `{LCL : !LexicalConvertLaws LC}.
Context {Sk : Type} `{ES : EventSink Sk} `{ESL : !EventSinkLaws Sk} {W : Type} `{AS : Asio W}.

Lemma instantiateSubscriber_fresh sink w id (s : CompactASN1TCPClientSubscriber Sk W) :
  pushed sink = [] -> instantiateSubscriber sink w id = Some s -> sub_new s.
Proof. unfold instantiateSubscriber. case_match; [|done]. by intros ? [= <-]. Qed.

(** C25: external events are well typed.  Whatever the network delivers and however the
    threads interleave, every event that a subscriber has handed to the event sink
    holds valid values of the types of ports of its channel, in the channel's order. *)
Theorem external_events_typed sink w channels s i (c : ConcurrentSubscriber (CompactASN1TCPClientSubscriber Sk W) ready) :
  pushed sink = [] -> Forall client_channel channels ->
  reachable (instantiateSubscriber sink w) channels s -> subscriber_ s !! i = Some c ->
  let b := base_ (derived_ c) in Forall (message_ok (channelPorts_ b)) (emitted b).
Proof.
  intros Hsink Hch Hr Hc b.
  pose proof (reachable_inv (instantiateSubscriber sink w) channels Hch
                (fun id s => instantiateSubscriber_fresh sink w id s Hsink) s Hr) as Hs.
  pose proof (si_stage _ _ _ _ (sy_subs _ _ Hs i c Hc)) as Hst. subst b.
  destruct (stage_of (main s) i).
  - destruct Hst as [_ (_ & _ & He)]. unfold emitted. by rewrite He.
  - destruct Hst as [_ [[_ Ht] _]]. exact Ht.
  - destruct Hst as [_ [[_ Ht] _]]. exact Ht.
Qed.

End Clients.

(** ** The way of an exception *)

Section Exceptions.
Context `{PT : PropertyTree} {D I : Type} `{SUB : !Subscription PT D I}.
Context (instantiateSubscriber : string -> option D) (channels : list TransmissionChannel).

(** The run of the dispatcher is over. *)
Definition leaving (pc : main_pc) : bool :=
  match pc with
  | MTerminate _ | MTermLock _ | MTermLocked _ | MTermRequest _ | MJoin _ | MDone => true
  | _ => false
  end.

Definition on_its_way (s : System D I) : Prop :=
  pendingException_ (mail s) <> None \/ (leaving (main s) = true /\ caught s <> None).

Lemma executeRun_pending st i inp (c c' : ConcurrentSubscriber D I) m m' :
  executeRun_step st i inp c m = Some (Ret (c', m')) -> pendingException_ m <> None -> pendingException_ m' <> None.
Proof.
  unfold executeRun_step. cbv zeta.
  destruct (subscriptionThread_ c); intros Hs; try done;
    repeat (case_match; try done);
    first [injection Hs as (c1 & _ & [= _ <-])%obind_Ret_inv; done|injection Hs as _ <-; try done].
  unfold callback_enter in *. cbn in *. case_match; by simplify_eq.
Qed.

Lemma step_on_its_way l s s' :
  step instantiateSubscriber channels l s = Some (Ret s') -> on_its_way s -> on_its_way s'.
Proof.
  unfold on_its_way. destruct l as [c|i inp]; cbn.
  - unfold main_step, constructor_step, serve_step, terminate_step, unwind_step, lock_mail, lock_sub, with_sub, done.
    intros Hstep. repeat (case_match; try done); simplify_eq; cbn; try tauto; intros [?|[? ?]]; try done; tauto.
  - unfold thread_step. destruct (subscriber_ s !! i) as [c|]; [|done].
    destruct (executeRun_step (runStarted s) i inp c (mail s)) as [r|] eqn:He; [|done].
    intros Hstep Hw. injection Hstep as ([c' m'] & -> & [= <-])%obind_Ret_inv.
    destruct Hw as [Hp|Hw]; [left; cbn; by eapply executeRun_pending|by right].
Qed.

(** C23: an exception of a subscription thread is not lost.  Once it has been reported,
    then under every schedule an exception stays pending until the run of the
    dispatcher has ended with one. *)
Theorem exception_not_lost ls s s' :
  pendingException_ (mail s) <> None -> exec instantiateSubscriber channels ls s = Ret s' ->
  pendingException_ (mail s') <> None \/ exists x, caught s' = Some x.
Proof.
  intros Hp Hex. cut (on_its_way s').
  { intros [?|[_ ?]]; [by left|right]. destruct (caught s'); eauto. done. }
  assert (Hw : on_its_way s) by (by left). clear Hp. revert s Hw Hex.
  induction ls as [|l ls IH]; intros s Hw; cbn; [by intros [= <-]|].
  destruct (step instantiateSubscriber channels l s) as [[s1| |]|] eqn:Hstep; cbn; try done; [|by apply IH].
  apply IH. by eapply step_on_its_way.
Qed.

(** A configuration error behind a running subscriber is undefined behaviour.  When
    the first channel's subscriber has been started and the protocol of the second
    channel is missing or unknown, the constructor does not report the configuration
    error: it destroys the first subscriber while its thread is in [run]. *)
Theorem failed_constructor_undefined ch0 ch1 rest d d' x c :
  channels = ch0 :: ch1 :: rest ->
  instantiate instantiateSubscriber ch0 = Ret d -> sub_init ch0 d = Ret d' ->
  instantiate instantiateSubscriber ch1 = Throw x ->
  exec instantiateSubscriber channels (replicate 6 (LMain c)) initial = Fault UndefinedBehaviour.
Proof.
  intros -> H0 H1 H2. cbn. rewrite H0. cbn. unfold lock_sub. cbn.
  unfold initAndStart. cbn. rewrite H1. cbn. rewrite H2. reflexivity.
Qed.

(** The main thread waits for a thread that waits for the start of the run. *)
Definition stuck (i : nat) (s : System D I) : Prop :=
  main s = MJoin i /\ runStarted s = false /\
  exists c inp, subscriber_ s !! i = Some c /\ subscriptionThread_ c = Waiting inp.

Lemma stuck_step i l s s' :
  stuck i s -> step instantiateSubscriber channels l s = Some (Ret s') -> stuck i s'.
Proof.
  intros (Hpc & Hsd & c & inp & Hc & Ht) Hstep. destruct l as [ch|k inp'].
  - cbn in Hstep. unfold main_step, terminate_step, with_sub, terminate_join in Hstep. by rewrite Hpc, Hc, Ht in Hstep.
  - cbn in Hstep. unfold thread_step in Hstep. destruct (subscriber_ s !! k) as [ck|] eqn:Hk; [|done].
    destruct (decide (k = i)) as [->|Hne].
    { simplify_eq. unfold executeRun_step in Hstep. by rewrite Ht, Hsd in Hstep. }
    destruct (executeRun_step _ _ _ _ _) as [r|]; [|done].
    injection Hstep as ([c' m'] & _ & [= <-])%obind_Ret_inv.
    split_and!; [done|done|]. exists c, inp. cbn. by rewrite list_lookup_insert_ne.
Qed.

(** C40: a shutdown before the run can hang.  When [main] leaves before the dispatcher's
    run has begun, say because the data file cannot be opened, and a subscriber has
    already received data, then its thread waits for the initialisation of the time and
    the main thread waits for the thread: under every schedule the program stays where
    it is and never reports the error. *)
Theorem shutdown_deadlock i s ls s' :
  stuck i s -> exec instantiateSubscriber channels ls s = Ret s' -> stuck i s' /\ main s' <> MDone.
Proof.
  intros Hs Hex. cut (stuck i s'); [intros Hs'; split; [done|]; destruct Hs' as [-> _]; done|].
  revert s Hs Hex. induction ls as [|l ls IH]; intros s Hs; cbn; [by intros [= <-]|].
  destruct (step instantiateSubscriber channels l s) as [[s1| |]|] eqn:Hstep; cbn; try done; [|by apply IH].
  apply IH. by eapply stuck_step.
Qed.

End Exceptions.

(** ** Concrete runs *)

Definition net_channels : list TransmissionChannel := [net_channel SUBSCRIBER_ID].

Notation net_inst := (instantiateSubscriber (0%Z, []) net_script).

Definition net_run (ls : list (label ready)) : System net_client ready :=
  match exec net_inst net_channels ls initial with Ret s => s | _ => initial end.

Definition go : label ready := LMain Distribute.
Definition turn_of (inp : ready) : label ready := LThread 0 inp.
Definition building : list (label ready) := replicate 5 go.
Definition data : ready := ReadyReceive NoError (bytes_string [75; 63; 80; 98; 77; 210; 241; 169; 252]%Z).
Definition closed : ready := ReadyReceive Eof "".

(** The manager is built and the run has begun; a packet has arrived; the peer has
    closed the connection, and the reconnection has failed. *)
Definition net_serving : list (label ready) := building ++ [go].
Definition net_received : list (label ready) := net_serving ++ replicate 3 (turn_of data).
Definition net_failed : list (label ready) := net_serving ++ replicate 7 (turn_of closed).

Lemma net_reachable ls : is_Ret (exec net_inst net_channels ls initial) = true ->
  reachable net_inst net_channels (net_run ls).
Proof. intros Hr. exists ls. unfold net_run. by destruct (exec net_inst net_channels ls initial). Qed.

Lemma net_channels_ok : Forall sub_channel net_channels.
Proof. repeat constructor; done. Qed.

Lemma net_new id (d : net_client) : net_inst id = Some d -> sub_new d.
Proof. by apply instantiateSubscriber_fresh. Qed.

Example net_failed_reports :
  pendingException_ (mail (net_run net_failed)) = Some not_reconnected /\
  map (fun c => sc_slept (env_ (derived_ c))) (subscriber_ (net_run net_failed)) = [[500; 500; 500]%Z].
Proof. vm_compute. done. Qed.

(** A step that returns, and the first subscriber, by evaluation of a test. *)
Definition net_next (l : label ready) (s : System net_client ready) : System net_client ready :=
  match step net_inst net_channels l s with Some (Ret s') => s' | _ => s end.

Lemma net_next_step l s :
  match step net_inst net_channels l s with Some r => is_Ret r | None => false end = true ->
  step net_inst net_channels l s = Some (Ret (net_next l s)).
Proof. unfold net_next. by destruct (step net_inst net_channels l s) as [[]|]. Qed.

Lemma first_subscriber (P : ConcurrentSubscriber net_client ready -> bool) s :
  match subscriber_ s with c :: _ => P c | [] => false end = true ->
  exists c, subscriber_ s !! 0%nat = Some c /\ P c = true.
Proof. destruct (subscriber_ s) as [|c l]; [done|]. by exists c. Qed.

Lemma network_threads_safe_witness :
  exists s', step net_inst net_channels (turn_of closed) (net_run net_received) = Some (Ret s') /\
             reachable net_inst net_channels s'.
Proof.
  assert (Hs := net_next_step (turn_of closed) (net_run net_received) ltac:(vm_compute; reflexivity)).
  destruct (network_threads_safe net_inst net_channels net_channels_ok net_new (net_run net_received) (turn_of closed) _
              (net_reachable net_received ltac:(vm_compute; reflexivity)) Hs) as [(s' & E & Hr)|(E & _)].
  - exists s'. split; [by rewrite Hs, E|exact Hr].
  - discriminate E.
Defined.

Lemma shutdown_completes_witness :
  exists ls s', exec net_inst net_channels ls (net_run net_received) = Ret s' /\ main s' = MDone /\ subscriber_ s' = [].
Proof.
  apply (shutdown_completes net_inst net_channels net_channels_ok net_new (net_run net_received)).
  - apply net_reachable. vm_compute. reflexivity.
  - vm_compute. reflexivity.
  - left. vm_compute. reflexivity.
Defined.

(** The main thread about to call [terminationRequest]. *)
Definition requesting : list (label ready) := net_received ++ [LMain (Leave None); go; go; go].

Lemma termination_request_seen_witness :
  exists c, subscriber_ (net_run requesting) !! 0%nat = Some c /\ isTerminationRequestPending c = true.
Proof.
  destruct (first_subscriber (fun c => in_run (subscriptionThread_ c)) (net_run requesting)
              ltac:(vm_compute; reflexivity)) as (c & Hc & Hrun).
  exists c. split; [exact Hc|].
  apply (termination_request_seen net_inst net_channels net_channels_ok net_new (net_run requesting) 0 c).
  - apply net_reachable. vm_compute. reflexivity.
  - vm_compute. reflexivity.
  - exact Hc.
  - exact Hrun.
Defined.

(** The state behind a schedule. *)
Definition net_after (ls : list (label ready)) (s : System net_client ready) : System net_client ready :=
  match exec net_inst net_channels ls s with Ret s' => s' | _ => s end.

Lemma net_after_exec ls s :
  is_Ret (exec net_inst net_channels ls s) = true -> exec net_inst net_channels ls s = Ret (net_after ls s).
Proof. unfold net_after. by destruct (exec net_inst net_channels ls s). Qed.

Lemma exception_not_lost_witness :
  pendingException_ (mail (net_after (replicate 5 go) (net_run net_failed))) <> None \/
  exists x, caught (net_after (replicate 5 go) (net_run net_failed)) = Some x.
Proof.
  apply (exception_not_lost net_inst net_channels (replicate 5 go) (net_run net_failed)).
  - replace (pendingException_ (mail (net_run net_failed))) with (Some not_reconnected)
      by (symmetry; apply net_failed_reports). discriminate.
  - apply net_after_exec. vm_compute. reflexivity.
Defined.

Lemma net_protocol p : get_optional tr_string (getChannelConfig (net_channel p)) PROP_PROTOCOL = Some p.
Proof. reflexivity. Qed.

Lemma failed_constructor_undefined_witness :
  exec net_inst [net_channel SUBSCRIBER_ID; net_channel "udp"] (replicate 6 go) initial = Fault UndefinedBehaviour.
Proof.
  apply (failed_constructor_undefined net_inst [net_channel SUBSCRIBER_ID; net_channel "udp"]
           (net_channel SUBSCRIBER_ID) (net_channel "udp") [] net_fresh net_started
           (ExnSystemConfiguration {| sce_what := "Unknown Protocol"; sce_config := Some (PROP_PROTOCOL, "udp") |})).
  - reflexivity.
  - unfold instantiate. by rewrite net_protocol.
  - exact net_started_init.
  - unfold instantiate. by rewrite net_protocol.
Defined.

(** The data file cannot be opened although a packet has arrived. *)
Definition hanging : list (label ready) :=
  building ++ [turn_of data; LMain (Leave (Some ExnOther)); go; go; go; go].

Definition is_waiting (t : thread_pc ready) : bool := match t with Waiting _ => true | _ => false end.

Lemma shutdown_deadlock_witness :
  reachable net_inst net_channels (net_run hanging) /\ stuck 0 (net_run hanging) /\
  forall ls s', exec net_inst net_channels ls (net_run hanging) = Ret s' -> main s' <> MDone.
Proof.
  assert (Hs : stuck 0 (net_run hanging)).
  { split; [vm_compute; reflexivity|]. split; [vm_compute; reflexivity|].
    destruct (first_subscriber (fun c => is_waiting (subscriptionThread_ c)) (net_run hanging)
                ltac:(vm_compute; reflexivity)) as (c & Hc & Hw).
    destruct (subscriptionThread_ c) as [| |inp| | | | | | | | | |] eqn:Ht; try discriminate Hw. exists c, inp. done. }
  split; [apply net_reachable; vm_compute; reflexivity|]. split; [exact Hs|].
  intros ls s' Hex. apply (shutdown_deadlock net_inst net_channels 0 (net_run hanging) ls s' Hs Hex).
Defined.

Lemma external_events_typed_witness :
  exists c, subscriber_ (net_run net_received) !! 0%nat = Some c /\ length (eventSink_ (base_ (derived_ c))).2 = 1%nat /\
    Forall (message_ok (channelPorts_ (base_ (derived_ c)))) (emitted (base_ (derived_ c))).
Proof.
  destruct (first_subscriber (fun c => (length (eventSink_ (base_ (derived_ c))).2 =? 1)%nat) (net_run net_received)
              ltac:(vm_compute; reflexivity)) as (c & Hc & Hlen).
  exists c. split; [exact Hc|]. split; [exact (proj1 (Nat.eqb_eq _ _) Hlen)|].
  apply (external_events_typed (0%Z, []) net_script net_channels (net_run net_received) 0 c).
  - reflexivity.
  - exact net_channels_ok.
  - apply net_reachable. vm_compute. reflexivity.
  - exact Hc.
Defined.
