(* ===== verification/SubscriberContract.v ===== *)
(** * What a subscriber promises (include/network/Subscriber.h)

    "On returning the termination function, the Subscriber must not deliver any Event":
    once [terminate] of a subscriber has returned, its thread has ended and nothing that
    the other threads do changes it. *)

From S2P Require Import Prelude Float64 BaseExceptions PropertyTree ChannelMapping.
From S2P Require Import ASN1Subscriber ASN1Spec ConcurrentSubscriber CompactASN1Clients.
From S2P Require Import NetworkManager NetworkManagerSpec.

Section Contract.
Context `{PT : PropertyTree} {D I : Type} `{SUB : !Subscription PT D I} `{LAWS : !SubscriptionLaws PT D I}.
Context (instantiateSubscriber : string -> option D) (channels : list TransmissionChannel).
Context (Hchannels : Forall sub_channel channels).
Context (Hnew : forall id d, instantiateSubscriber id = Some d -> sub_new d).

(** [terminate] of subscriber [i], or its destructor, has returned. *)
Definition terminated (pc : main_pc) (i : nat) : bool :=
  match pc with
  | MTerminate j | MTermLock j | MTermLocked j | MTermRequest j | MJoin j | MUnwind _ j | MUnwindJoin _ j => (i <? j)%nat
  | MDone | MFailed _ => true
  | _ => false
  end.

(** The subscriber, unless it is destroyed, has no thread and is in the state [d]. *)
Definition silent (i : nat) (d : D) (s : System D I) : Prop :=
  terminated (main s) i = true /\
  forall c, subscriber_ s !! i = Some c -> subscriptionThread_ c = Joined /\ derived_ c = d.

Lemma silent_thread i d k inp s s' : silent i d s -> thread_step k inp s = Some (Ret s') -> silent i d s'.
Proof.
  intros [Ht Hc] Hs. unfold thread_step in Hs. destruct (subscriber_ s !! k) as [ck|] eqn:Hk; [|discriminate].
  destruct (executeRun_step (runStarted s) k inp ck (mail s)) as [r|] eqn:He; [|discriminate].
  injection Hs as ([c' m'] & -> & Hs)%obind_Ret_inv. injection Hs as <-. split; [exact Ht|]. cbn. intros c.
  destruct (decide (k = i)) as [->|Hne]; [|rewrite list_lookup_insert_ne by done; apply Hc].
  destruct (Hc ck Hk) as [Hj _]. unfold executeRun_step in He. cbv zeta in He. by rewrite Hj in He.
Qed.

(** The main thread goes on with a later subscriber. *)
Lemma silent_update i d k c pc (s : System D I) :
  silent i d s -> (i < k)%nat -> terminated pc i = true -> silent i d (goto_main pc (set_sub k c s)).
Proof.
  intros [_ Hc] Hk Hpc. split; [exact Hpc|]. cbn. intros ci. rewrite list_lookup_insert_ne by lia. apply Hc.
Qed.
Lemma silent_goto i d pc (s : System D I) : silent i d s -> terminated pc i = true -> silent i d (goto_main pc s).
Proof. intros [_ Hc] Hpc. by split. Qed.
Lemma silent_empty i d pc (s : System D I) : terminated pc i = true -> silent i d (goto_main pc (set_subs [] s)).
Proof. intros Hpc. split; [exact Hpc|]. cbn. intros c. by rewrite lookup_nil. Qed.

Lemma silent_terminate i d s s' : silent i d s -> terminate_step s = Some (Ret s') -> silent i d s'.
Proof.
  intros Hs Hstep. pose proof (proj1 Hs) as Ht. unfold terminate_step, with_sub, lock_sub, done in Hstep.
  destruct (main s) as [| | | | | | | | | |j|j|j|j|j| | | |] eqn:Hpc; try discriminate Hstep; cbn in Ht;
    apply Nat.ltb_lt in Ht as Hlt.
  - destruct (subscriber_ s !! j).
    + destruct (terminate_begin _); [|discriminate..]. injection Hstep as <-. by apply silent_goto.
    + destruct (existsb _ _); [discriminate|]. injection Hstep as <-. by apply silent_empty.
  - unfold with_sub in Hstep. destruct (subscriber_ s !! j); [|discriminate].
    destruct (lock _ _); [|discriminate]. injection Hstep as <-. by apply silent_update.
  - destruct (subscriber_ s !! j); [|discriminate]. injection Hstep as <-. by apply silent_update.
  - destruct (subscriber_ s !! j); [|discriminate]. injection Hstep as <-. by apply silent_update.
  - destruct (subscriber_ s !! j); [|discriminate]. destruct (terminate_join _); [|discriminate].
    injection Hstep as <-. apply silent_update; [done|done|]. apply Nat.ltb_lt. lia.
Qed.

Lemma silent_unwind i d s s' : silent i d s -> unwind_step s = Some (Ret s') -> silent i d s'.
Proof.
  intros Hs Hstep. pose proof (proj1 Hs) as Ht. unfold unwind_step, with_sub, done in Hstep.
  destruct (main s) as [| | | | | | | | | | | | | | | |x j|x j|] eqn:Hpc; try discriminate Hstep; cbn in Ht;
    apply Nat.ltb_lt in Ht as Hlt.
  - destruct (subscriber_ s !! j) as [c|].
    + destruct (destructor_begin c) as [[| |]|]; try discriminate. injection Hstep as <-.
      apply silent_update; [done|done|]. destruct (joinable c); apply Nat.ltb_lt; lia.
    + injection Hstep as <-. by apply silent_empty.
  - destruct (subscriber_ s !! j); [|discriminate]. destruct (terminate_join _); [|discriminate].
    injection Hstep as <-. apply silent_update; [done|done|]. apply Nat.ltb_lt. lia.
Qed.

Lemma silent_exec i d ls s s' :
  silent i d s -> exec instantiateSubscriber channels ls s = Ret s' -> silent i d s'.
Proof.
  revert s. induction ls as [|l ls IH]; intros s Hs; cbn [exec]; [by intros [= <-]|].
  destruct (step instantiateSubscriber channels l s) as [r|] eqn:Hstep; [|by apply IH].
  intros (s1 & -> & Hr)%obind_Ret_inv. eapply IH; [|exact Hr]. destruct l as [c|k inp]; cbn in Hstep.
  - pose proof (proj1 Hs) as Ht. unfold main_step in Hstep.
    destruct (main s) eqn:Hpc; cbn in Ht; try discriminate; eauto using silent_terminate, silent_unwind.
  - by eapply silent_thread.
Qed.

(** C24: the contract of the interface.  When [terminate] of a subscriber has returned, the
    thread of the subscriber has ended, and whatever the main thread and the other
    subscribers do then, as long as the object exists its state stays as it is: it
    delivers no more events. *)
Theorem terminated_subscriber_silent s ls s' i c :
  reachable instantiateSubscriber channels s -> terminated (main s) i = true -> subscriber_ s !! i = Some c ->
  exec instantiateSubscriber channels ls s = Ret s' ->
  subscriptionThread_ c = Joined /\
  forall c', subscriber_ s' !! i = Some c' -> subscriptionThread_ c' = Joined /\ derived_ c' = derived_ c.
Proof.
  intros Hr Ht Hc Hex. pose proof (reachable_inv _ _ Hchannels Hnew s Hr) as Hinv.
  assert (Hj : subscriptionThread_ c = Joined).
  { pose proof (si_stage _ _ _ _ (sy_subs _ s Hinv i c Hc)) as Hst. pose proof (sy_size _ s Hinv) as Hsz.
    apply lookup_lt_Some in Hc as Hlen.
    destruct (main s); cbn in Ht, Hst, Hsz; try discriminate; rewrite ?Ht in Hst; try apply Hst; lia. }
  split; [exact Hj|]. apply (silent_exec i (derived_ c) ls s s'); [|exact Hex].
  split; [exact Ht|]. intros c0 Hc0. replace c0 with c by congruence. done.
Qed.

End Contract.

(** ** A run *)

(** The only subscriber has been terminated; the manager is about to be destroyed. *)
Definition after_terminate : list (label ready) :=
  requesting ++ [go] ++ replicate 3 (turn_of ReadyTermination) ++ [go].
Definition late_data : list (label ready) := replicate 3 (turn_of data).

Lemma terminated_subscriber_silent_witness :
  exists c, subscriber_ (net_run after_terminate) !! 0%nat = Some c /\ subscriptionThread_ c = Joined /\
    forall c', subscriber_ (net_after late_data (net_run after_terminate)) !! 0%nat = Some c' ->
      subscriptionThread_ c' = Joined /\ derived_ c' = derived_ c.
Proof.
  destruct (first_subscriber (fun _ => true) (net_run after_terminate) ltac:(vm_compute; reflexivity)) as (c & Hc & _).
  exists c. split; [exact Hc|].
  apply (terminated_subscriber_silent net_inst net_channels net_channels_ok net_new (net_run after_terminate) late_data
           (net_after late_data (net_run after_terminate)) 0 c).
  - apply net_reachable. vm_compute. reflexivity.
  - vm_compute. reflexivity.
  - exact Hc.
  - apply net_after_exec. vm_compute. reflexivity.
Defined.
