(* ===== verification/NetworkPublishers.v ===== *)
(** * The publishers at the dispatcher

    The publishers that the network manager creates, and its listeners: an event goes to
    every publisher, and a pending exception of a subscriber ends the run. *)

From S2P Require Import Prelude Float64 BaseExceptions PortID Format Variables PropertyTree.
From S2P Require Import ChannelMapping ApplicationContext Event TimedEventQueue TimedEventQueueSpec EventDispatcher.
From S2P Require Import ASN1Publisher ConcurrentSubscriber CompactASN1Clients CompactASN1ClientsSpec NetworkManager.

(** ** Channels and publishers *)

Section Sequential.
Context `{PropertyTree} {W : Type} `{Asio W}.

(** What [addChannels] has done to the channels it has visited. *)
Definition created {P S} (instFct : string -> option P)
    (initFct : P -> TransmissionChannel -> S -> result (P * S)) (ch : TransmissionChannel) (pub : P) : Prop :=
  exists protocol fresh_pub s s',
    get_optional tr_string (getChannelConfig ch) PROP_PROTOCOL = Some protocol /\
    instFct protocol = Some fresh_pub /\ initFct fresh_pub ch s = Ret (pub, s').

Lemma instantiate_Ret {P} (instFct : string -> option P) ch pub :
  instantiate instFct ch = Ret pub ->
  exists protocol, get_optional tr_string (getChannelConfig ch) PROP_PROTOCOL = Some protocol /\
    instFct protocol = Some pub.
Proof. unfold instantiate. repeat case_match; try done. intros [= ->]. eauto. Qed.

Lemma getTransmissionChannel_nth m (i : nat) ch :
  getTransmissionChannel m (Z.of_nat i) = Ret ch -> channels_ m !! i = Some ch.
Proof.
  unfold getTransmissionChannel. intros Hr. inv_ret. rewrite Nat2Z.id in *. by case_match; simplify_eq.
Qed.

Lemma addChannels_created {P S} m (instFct : string -> option P) initFct (dest : list P) (s : S) r :
  addChannels m instFct initFct dest s = Ret r ->
  exists pubs, r.1 = dest ++ pubs /\ Forall2 (created instFct initFct) (channels_ m) pubs.
Proof.
  unfold addChannels, getNumberOfChannels. set (f := fun st i => _).
  cut (forall n st, (n <= length (channels_ m))%nat ->
        foldlM f (dest, s) (seq 0 n) = Ret st ->
        exists pubs, st.1 = dest ++ pubs /\ Forall2 (created instFct initFct) (take n (channels_ m)) pubs).
  { intros Hcut Hr. destruct (Hcut _ _ (le_n _) Hr) as (pubs & ? & Hall). rewrite take_ge in Hall by lia. eauto. }
  induction n as [|n IH]; intros st Hn.
  - intros [= <-]. exists []. by rewrite app_nil_r.
  - rewrite seq_S, foldlM_app. cbn [Nat.add foldlM]. intros (st1 & H1 & Hr)%obind_Ret_inv.
    destruct (IH st1 ltac:(lia) H1) as (pubs & E & Hall). unfold f in Hr at 1.
    apply obind_Ret_inv in Hr as (st2 & Hr & [= <-]). inv_ret.
    apply getTransmissionChannel_nth in Hr0. apply instantiate_Ret in Hr1 as (protocol & Hp & Hi).
    exists (pubs ++ [r2.1]). cbn [fst]. split; [by rewrite E, <- (assoc_L (++))|].
    rewrite (take_S_r _ _ _ Hr0). apply Forall2_app; [done|]. constructor; [|constructor].
    exists protocol, r1, st1.2, r2.2. split_and!; [done|done|by destruct r2].
Qed.

(** The publishers are those of the configuration.  When the manager has been
    built there is exactly one publisher per output channel, in the order of the
    channels; it is of the class that the channel's protocol names, and it has been
    initialised with its channel. *)
Theorem publishers_created m w pubs w' :
  init_publishers m w = Ret (pubs, w') ->
  Forall2 (created instantiatePublisher (fun pub chn w => publisher_init chn pub w)) (channels_ m) pubs.
Proof.
  intros Hr. destruct (addChannels_created _ _ _ _ _ _ Hr) as (pubs' & E & Hall). cbn in E. by subst.
Qed.

(** The publishers one after the other, as a reference. *)
Fixpoint publish_all (vars : list Variable_t) (pubs : list (Publisher W)) (w : W)
    : result (list (Publisher W) * W) :=
  match pubs with
  | [] => Ret ([], w)
  | p :: pubs' =>
      let* r := publisher_eventTriggered vars p w in
      let* rs := publish_all vars pubs' r.2 in
      Ret (r.1 :: rs.1, rs.2)
  end.

Context {E : Type} (vars_of : E -> list Variable_t).

Lemma publisher_listeners_all ev todo done w pending :
  foldlM (fun nm l => l ev nm) {| publisher_ := done ++ todo; network_ := w; pending_ := pending |}
         (map (publisher_listener vars_of) (seq (length done) (length todo))) =
  let* r := publish_all (vars_of ev) todo w in
  Ret {| publisher_ := done ++ r.1; network_ := r.2; pending_ := pending |}.
Proof.
  revert done w; induction todo as [|p todo IH]; intros done w; [done|].
  cbn [length seq map foldlM publish_all]. unfold publisher_listener at 1. cbn [publisher_ network_ pending_].
  rewrite lookup_app_r, Nat.sub_diag by lia. cbn [lookup list_lookup].
  destruct (publisher_eventTriggered (vars_of ev) p w) as [r| |]; cbn [obind]; [|done..].
  assert (Hins : <[length done := r.1]> (done ++ p :: todo) = (done ++ [r.1]) ++ todo).
  { rewrite insert_app_r_alt, Nat.sub_diag by lia. cbn. by rewrite <- (assoc_L (++)). }
  rewrite Hins. specialize (IH (done ++ [r.1]) r.2). rewrite length_app, Nat.add_comm in IH. cbn in IH.
  rewrite IH. destruct (publish_all _ todo r.2) as [rs| |]; cbn; [|done..]. by rewrite <- (assoc_L (++)).
Qed.

(** An event reaches every publisher exactly once, in the order of the channels,
    and then a pending exception of a subscriber is thrown: the listeners of the
    manager do what the loop over the publishers does. *)
Theorem listeners_publish_all ev (nm : Publishers W) :
  foldlM (fun nm l => l ev nm) nm (manager_listeners vars_of (length (publisher_ nm))) =
  let* r := publish_all (vars_of ev) (publisher_ nm) (network_ nm) in
  match pending_ nm with
  | Some x => Throw x
  | None => Ret {| publisher_ := r.1; network_ := r.2; pending_ := None |}
  end.
Proof.
  unfold manager_listeners. rewrite foldlM_app. destruct nm as [pubs w pending]. cbn [publisher_ network_ pending_].
  pose proof (publisher_listeners_all ev pubs [] w pending) as Hl. cbn [app length] in Hl. rewrite Hl.
  destruct (publish_all (vars_of ev) pubs w) as [r| |]; cbn; [|done..]. by destruct pending.
Qed.

(** Listeners that leave the pending exception alone. *)
Definition keeps_pending (l : EventListener (Publishers W) E) : Prop :=
  forall ev nm nm', l ev nm = Ret nm' -> pending_ nm' = pending_ nm.

Lemma publisher_listener_keeps i : keeps_pending (publisher_listener vars_of i).
Proof. intros ev nm nm' Hr. unfold publisher_listener in Hr. case_match; [|done]. by inv_ret. Qed.

Lemma exception_tester_keeps : keeps_pending exceptionTester_.
Proof.
  intros ev nm nm'. unfold exceptionTester_, throwPendingException. destruct (pending_ nm) eqn:Hp; [done|].
  intros [= <-]. done.
Qed.

Lemma manager_listeners_keep n : Forall keeps_pending (manager_listeners vars_of n).
Proof.
  apply Forall_app. split; [|constructor; [exact exception_tester_keeps|constructor]].
  apply Forall_map, Forall_forall. intros i _. apply publisher_listener_keeps.
Qed.

Lemma manager_listeners_test n : exceptionTester_ ∈ manager_listeners vars_of n.
Proof. apply elem_of_app. right. constructor. Qed.

Context {Q C S : Type} `{TimedEvent E} `{EventQueue Q E C S} `{!AbstractEventPredictor (Publishers W) E}.

(** An exception of a subscriber stops the dispatcher.  While it is pending, no
    further event is distributed to its end: the run of the dispatcher does not come
    back normally, whatever the events and the other listeners are. *)
Theorem exception_stops_dispatcher turns carry (d : EventDispatcher (Publishers W) Q E) nm x r :
  pending_ nm = Some x ->
  (forall nm ev nm', predictNext nm = Ret (ev, nm') -> pending_ nm' = pending_ nm) ->
  exceptionTester_ ∈ listener_ d -> Forall keeps_pending (listener_ d) ->
  run_loop turns carry d nm <> Ret (Some r).
Proof.
  intros Hx Hp Hin Hall Hr. destruct turns as [|t turns]; [done|].
  destruct (run_loop_turn _ _ _ _ _ _ Hr) as (q0 & ev0 & w1 & q1 & ev & q2 & rest & d' & w' & _ & Hpred & _ & _ & Hl & _).
  apply Hp in Hpred. rewrite Hx in Hpred. clear -Hpred Hin Hall Hl.
  revert w1 Hpred Hl. induction Hall as [|l ls Hk Hall IH]; intros w1 Hpred Hl; [by apply not_elem_of_nil in Hin|].
  cbn in Hl. apply obind_Ret_inv in Hl as (w2 & H2 & Hl).
  apply elem_of_cons in Hin as [<-|Hin].
  - unfold exceptionTester_, throwPendingException in H2. by rewrite Hpred in H2.
  - apply (IH Hin w2); [|done]. by rewrite (Hk _ _ _ H2).
Qed.

End Sequential.

(** ** Concrete publishers *)

Definition sample_mapping : ChannelMapping :=
  {| variableNames_ := []; variableIDs_ := []; channels_ := [net_channel PUBLISHER_ID_TCP; net_channel PUBLISHER_ID_UDP] |}.

Definition sample_publishers : list (Publisher script) * script :=
  match init_publishers sample_mapping net_script with Ret r => r | _ => ([], net_script) end.

Lemma sample_publishers_built :
  init_publishers sample_mapping net_script = Ret (sample_publishers.1, sample_publishers.2).
Proof.
  rewrite <- surjective_pairing. unfold sample_publishers. apply is_Ret_value. vm_compute. reflexivity.
Qed.

Lemma publishers_created_witness :
  Forall2 (created instantiatePublisher (fun pub chn w => publisher_init chn pub w))
    (channels_ sample_mapping) sample_publishers.1.
Proof.
  apply (publishers_created sample_mapping net_script sample_publishers.1 sample_publishers.2).
  exact sample_publishers_built.
Defined.

(** A predictor beside the publishers: every 100 ms an event, and none of its own. *)
#[export] Instance idle_predictor : AbstractEventPredictor (Publishers script) (nat * fmiTime) := {
  predictNext nm := Ret ((0%nat, ms 100), nm);
  predictor_eventTriggered ev nm := Ret nm;
}.

Definition network_failed : Publishers script :=
  {| publisher_ := sample_publishers.1; network_ := sample_publishers.2; pending_ := Some not_reconnected |}.

Definition network_dispatcher : EventDispatcher (Publishers script) (TimedEventQueue (nat * fmiTime)) (nat * fmiTime) :=
  {| theEnd_ := ms 250; queue := started; listener_ := manager_listeners (fun _ => []) 2; timingLogger_ := [] |}.

Lemma exception_stops_dispatcher_witness :
  pending_ network_failed = Some not_reconnected /\
  forall r, run_loop sample_turns [] network_dispatcher network_failed <> Ret (Some r).
Proof.
  split; [reflexivity|]. intros r.
  apply (exception_stops_dispatcher sample_turns [] network_dispatcher network_failed not_reconnected r).
  - reflexivity.
  - intros nm ev nm' [= _ <-]. reflexivity.
  - apply manager_listeners_test.
  - apply manager_listeners_keep.
Defined.
