(* ===== verification/CSVDataLogger.v ===== *)
(** * The CSV data logger (src/timing/CSVDataLogger.cpp)

    A listener that writes two header lines and one line per event.  The output
    stream is the text written so far; [None] is the null pointer of an inactive
    logger.  Opening the file is a parameter. *)

From Stdlib Require Import Ascii.
From S2P Require Import Prelude Float64 BaseExceptions PortID Format Variables PropertyTree.
From S2P Require Import ChannelMapping ApplicationContext.

Local Open Scope Z_scope.

Definition PROP_CSV_FILE_NAME : string := "app.dataFile".
Definition SEPARATOR : string := ";".
Definition quote_char : ascii := Ascii false true false false false true false false.
Definition newline : string := String "010" EmptyString.

Definition FMI_TYPE_NAMES (t : FMIVariableType) : string :=
  match t with
  | fmiTypeReal => "fmiReal"
  | fmiTypeInteger => "fmiInteger"
  | fmiTypeBoolean => "fmiBoolean"
  | fmiTypeString => "fmiString"
  | fmiTypeUnknown => "fmiUnknown"
  end.

(** [append(const std::string &)]: quotes are doubled. *)
Fixpoint escape (value : string) : string :=
  match value with
  | EmptyString => EmptyString
  | String c value' =>
      if Ascii.eqb c quote_char then String quote_char (String quote_char (escape value')) else String c (escape value')
  end.
Definition append_string (value : string) : string := dquote +:+ escape value +:+ dquote.

(** Fields with a separator between two of them. *)
Fixpoint append_fields (fields : list string) : string :=
  match fields with
  | [] => ""
  | [f] => f
  | f :: fields' => f +:+ SEPARATOR +:+ append_fields fields'
  end.

(** [append(const std::vector<std::string> &)]. *)
Definition append_strings (fields : list string) : string := append_fields (map append_string fields).

Definition appendTypes (ports : list PortID) : string :=
  append_fields (map (fun p : PortID => append_string (FMI_TYPE_NAMES p.1)) ports).

(** [append(boost::optional<Variable>)]. *)
Definition append_variable (var : option Variable_t) : result string :=
  match var with
  | None => Ret ""
  | Some v =>
      match (id_ v).1 with
      | fmiTypeReal => let* b := getRealValue v in Ret (stream_double (real_value b))
      | fmiTypeInteger => let* i := getIntegerValue v in Ret (pretty i)
      | fmiTypeBoolean => let* c := getBooleanValue v in Ret (pretty (wrap 32 c))
      | fmiTypeString => let* s := getStringValue v in Ret (append_string s)
      | fmiTypeUnknown => Ret (append_string "unknown-type")
      end
  end.

Definition findVariable (id : PortID) (variables : list Variable_t) : option Variable_t :=
  find (fun v => portid_eqb (Variables.getID v) id) variables.

Definition appendHeader (allNames : list string) (allIDs : list PortID) : string :=
  append_string "time" +:+ SEPARATOR +:+ append_strings allNames +:+ newline +:+
  append_string (FMI_TYPE_NAMES fmiTypeReal) +:+ SEPARATOR +:+ appendTypes allIDs +:+ newline.

Record CSVDataLogger := { header_ : list PortID; outputStream_ : option string }.

Definition write (s : string) (l : CSVDataLogger) : CSVDataLogger :=
  {| header_ := header_ l; outputStream_ := option_map (fun out => out +:+ s) (outputStream_ l) |}.

Section Logger.
Context `{PropertyTree}.

(** [initHeader]; [fails] says that the stream fails. *)
Definition initHeader (fails : bool) (inChannelMapping outChannelMapping : ChannelMapping) (l : CSVDataLogger)
    : result CSVDataLogger :=
  assert_ (match header_ l with [] => true | _ => false end) ;;;
  assert_ (match outputStream_ l with Some _ => true | None => false end) ;;;
  let header := getAllVariableIDs inChannelMapping ++ getAllVariableIDs outChannelMapping in
  let nameHeader := getAllVariableNames inChannelMapping ++ getAllVariableNames outChannelMapping in
  let l1 := write (appendHeader nameHeader header) {| header_ := header; outputStream_ := outputStream_ l |} in
  if fails then throw_config "Cannot write to CSV data file" else Ret l1.

(** The mappings are built by the context when the logger asks for them, the output
    mapping first or second as the compiler evaluates the arguments; here the
    input mapping is built first. *)
Definition init_from (fails : bool) (context : ApplicationContext) (l : CSVDataLogger)
    : result (CSVDataLogger * ApplicationContext) :=
  let* r1 := getInputChannelMapping context in
  let* r2 := getOutputChannelMapping r1.2 in
  let* l1 := initHeader fails r1.1 r2.1 l in
  Ret (l1, r2.2).

(** [openFileStream]; [openable] says which files can be opened. *)
Definition openFileStream (openable : string -> bool) (filename : string) (l : CSVDataLogger) : result CSVDataLogger :=
  assert_ (match outputStream_ l with None => true | Some _ => false end) ;;;
  if negb (openable filename) then
    throw_config_kv "Couldn't open CSV file for writing." PROP_CSV_FILE_NAME filename
  else Ret {| header_ := header_ l; outputStream_ := Some "" |}.

(** The constructor that reads the file name. *)
Definition new_CSVDataLogger (openable : string -> bool) (fails : bool) (context : ApplicationContext)
    : result (CSVDataLogger * ApplicationContext) :=
  if hasProperty context PROP_CSV_FILE_NAME then
    let* filename := getProperty tr_string context PROP_CSV_FILE_NAME in
    let* l := openFileStream openable filename {| header_ := []; outputStream_ := None |} in
    init_from fails context l
  else Ret ({| header_ := []; outputStream_ := None |}, context).

(** The constructor with an external destination. *)
Definition new_CSVDataLogger_stream (fails : bool) (context : ApplicationContext)
    : result (CSVDataLogger * ApplicationContext) :=
  if hasProperty context PROP_CSV_FILE_NAME then
    throw_config "The CSV file name must not be specified while externally setting the data destination."
  else init_from fails context {| header_ := []; outputStream_ := Some "" |}.

End Logger.

(** The fields of the ports in [header], in their order. *)
Fixpoint row_fields (header : list PortID) (variables : list Variable_t) : result (list string) :=
  match header with
  | [] => Ret []
  | id :: header' =>
      let* f := append_variable (findVariable id variables) in
      let* fs := row_fields header' variables in Ret (f :: fs)
  end.

(** [eventTriggered] for an event with this time and these variables. *)
Definition csv_eventTriggered (time : fmiTime) (variables : list Variable_t) (l : CSVDataLogger)
    : result CSVDataLogger :=
  match outputStream_ l with
  | None => Ret l
  | Some _ =>
      let* fields := row_fields (header_ l) variables in
      Ret (write (stream_double time +:+ SEPARATOR +:+ append_fields fields +:+ newline) l)
  end.

Fixpoint log_events (events : list (fmiTime * list Variable_t)) (l : CSVDataLogger) : result CSVDataLogger :=
  match events with
  | [] => Ret l
  | (t, vars) :: events' => let* l' := csv_eventTriggered t vars l in log_events events' l'
  end.

(** ** A reader of such files *)

Inductive csv_mode := FieldStart | Plain | Quoted | QuoteSeen.

(** [field]: the characters of the current field, [row]: the fields of the current
    line, [rows]: the lines read. *)
Fixpoint read_csv (text : list ascii) (mode : csv_mode) (field : list ascii) (row : list string)
    (rows : list (list string)) : list (list string) :=
  match text with
  | [] => rows
  | c :: text' =>
      let close := row ++ [String.string_of_list_ascii field] in
      let plain :=
        if Ascii.eqb c ";" then read_csv text' FieldStart [] close rows
        else if Ascii.eqb c "010" then read_csv text' FieldStart [] [] (rows ++ [close])
        else read_csv text' Plain (field ++ [c]) row rows in
      match mode with
      | FieldStart => if Ascii.eqb c quote_char then read_csv text' Quoted [] row rows else plain
      | Plain => plain
      | Quoted => if Ascii.eqb c quote_char then read_csv text' QuoteSeen field row rows
                  else read_csv text' Quoted (field ++ [c]) row rows
      | QuoteSeen => if Ascii.eqb c quote_char then read_csv text' Quoted (field ++ [c]) row rows else plain
      end
  end.

Definition parse_csv (text : string) : list (list string) :=
  read_csv (String.list_ascii_of_string text) FieldStart [] [] [].

(** ** Characters of numbers *)

Definition is_numeric (c : ascii) : bool :=
  existsb (Ascii.eqb c) (String.list_ascii_of_string "0123456789-+.einfa").

Definition numeric (s : string) : Prop := Forall (fun c => is_numeric c = true) (String.list_ascii_of_string s).

Lemma list_ascii_app s t :
  String.list_ascii_of_string (s +:+ t) = String.list_ascii_of_string s ++ String.list_ascii_of_string t.
Proof. induction s as [|c s IH]; [done|]. cbn. rewrite <- IH. done. Qed.

Lemma string_app_assoc s t u : (s +:+ t) +:+ u = s +:+ (t +:+ u).
Proof. induction s as [|c s IH]; [done|]. change (String c ((s +:+ t) +:+ u) = String c (s +:+ (t +:+ u))). by rewrite IH. Qed.

Lemma numeric_app s t : numeric s -> numeric t -> numeric (s +:+ t).
Proof. unfold numeric. rewrite list_ascii_app. apply Forall_app_2. Qed.

Lemma numeric_pretty_N_go x s : numeric s -> numeric (pretty_N_go x s).
Proof.
  revert s. induction (N.lt_wf_0 x) as [x _ IH]; intros s Hs.
  destruct (decide (x = 0%N)) as [->|Hx]; [by rewrite pretty_N_go_0|].
  rewrite pretty_N_go_step by lia. apply IH; [apply N.div_lt; lia|].
  constructor; [|done]. unfold pretty_N_char.
  repeat match goal with |- context [match ?x with _ => _ end] => destruct x end; done.
Qed.

Lemma numeric_pretty_N (n : N) : numeric (pretty n).
Proof.
  unfold pretty, pretty_N. destruct (decide (n = 0%N)); [by repeat constructor|].
  apply numeric_pretty_N_go. constructor.
Qed.

Lemma numeric_pretty_Z (z : Z) : numeric (pretty z).
Proof.
  destruct z as [|p|p].
  - apply (numeric_pretty_N 0).
  - apply (numeric_pretty_N (N.pos p)).
  - apply (numeric_app "-" (pretty (N.pos p))); [by repeat constructor|apply numeric_pretty_N].
Qed.

Lemma numeric_sign b : numeric (sign_string b).
Proof. destruct b; repeat constructor. Qed.

Lemma list_ascii_of_list l : String.list_ascii_of_string (String.string_of_list_ascii l) = l.
Proof. apply String.list_ascii_of_string_of_list_ascii. Qed.

Lemma numeric_pad n s : numeric s -> numeric (pad n s).
Proof.
  intros Hs. apply numeric_app; [|done]. unfold numeric. rewrite list_ascii_of_list.
  by apply Forall_replicate.
Qed.

Lemma strip_zeros_rev_sub l P : Forall P l -> Forall P (strip_zeros_rev l).
Proof.
  induction 1 as [|c l Hc Hl IH]; cbn; [constructor|].
  destruct (Ascii.eqb c "0"); [done|]. destruct (Ascii.eqb c "."); [done|by constructor].
Qed.

Lemma numeric_strip_zeros s : numeric s -> numeric (strip_zeros s).
Proof.
  intros Hs. unfold numeric, strip_zeros. rewrite list_ascii_of_list.
  apply Forall_rev, strip_zeros_rev_sub, Forall_rev, Hs.
Qed.

Lemma numeric_stream_double x : numeric (stream_double x).
Proof.
  destruct x as [s|s| |s m e]; cbn [stream_double special_string].
  - apply numeric_app; [apply numeric_sign|by repeat constructor].
  - apply numeric_app; [apply numeric_sign|by repeat constructor].
  - by repeat constructor.
  - destruct (fraction m e) as [num den].
    match goal with |- context [let '(n, x1) := ?r in _] => destruct r as [n x1] end.
    apply numeric_app; [apply numeric_sign|].
    destruct (_ && _); repeat first
      [ apply numeric_strip_zeros | apply numeric_pad | apply numeric_app | apply numeric_pretty_Z
      | progress unfold exponent_string | case_match; by repeat constructor | by repeat constructor ].
Qed.

(** ** Reading back *)

Definition plain_char (c : ascii) : bool :=
  negb (Ascii.eqb c ";" || Ascii.eqb c "010" || Ascii.eqb c quote_char).

Lemma numeric_plain s : numeric s -> Forall (fun c => plain_char c = true) (String.list_ascii_of_string s).
Proof.
  unfold numeric. intros Hs. eapply Forall_impl; [exact Hs|]. intros c Hc.
  unfold is_numeric in Hc. apply existsb_exists in Hc as (d & Hd & E%Ascii.eqb_eq). subst d.
  cbn in Hd. by repeat destruct Hd as [<-|Hd].
Qed.

(** A field as it is written: quoted, or plain text. *)
Inductive writes (field : string) : string -> Prop :=
  | writes_quoted : writes field (append_string field)
  | writes_plain : Forall (fun c => plain_char c = true) (String.list_ascii_of_string field) -> writes field field.

Lemma read_plain s acc text row rows mode :
  Forall (fun c => plain_char c = true) s -> (mode = Plain \/ mode = FieldStart /\ acc = []) ->
  exists mode', (mode' = Plain \/ mode' = FieldStart /\ acc ++ s = []) /\
    read_csv (s ++ text) mode acc row rows = read_csv text mode' (acc ++ s) row rows.
Proof.
  intros Hs. revert acc mode; induction Hs as [|c s Hc Hs IH]; intros acc mode Hmode.
  - exists mode. rewrite app_nil_r. by split.
  - destruct (IH (acc ++ [c]) Plain ltac:(by left)) as (mode' & Hm & Hr).
    rewrite <- (assoc_L (++)) in Hm, Hr. cbn [app] in Hm, Hr.
    exists mode'. split; [done|]. rewrite <- Hr. cbn [app read_csv].
    unfold plain_char in Hc. apply negb_true_iff, orb_false_iff in Hc as [[H1 H2]%orb_false_iff H3].
    rewrite H1, H2, H3. by destruct Hmode as [-> | [-> ->]].
Qed.

Lemma read_quoted s acc text row rows :
  read_csv (String.list_ascii_of_string (escape s) ++ quote_char :: text) Quoted acc row rows =
  read_csv text QuoteSeen (acc ++ String.list_ascii_of_string s) row rows.
Proof.
  revert acc; induction s as [|c s IH]; intros acc.
  - cbn. by rewrite app_nil_r.
  - cbn [escape]. destruct (Ascii.eqb_spec c quote_char) as [->|Hc]; cbn [String.list_ascii_of_string app read_csv].
    + rewrite Ascii.eqb_refl. rewrite IH, <- (assoc_L (++)). done.
    + rewrite (proj2 (Ascii.eqb_neq c quote_char) Hc). rewrite IH, <- (assoc_L (++)). done.
Qed.

(** A field and the separator or the end of the line behind it. *)
Lemma read_field field text rest row rows (c : ascii) :
  writes field text -> c = ";"%char \/ c = "010"%char ->
  read_csv (String.list_ascii_of_string text ++ c :: rest) FieldStart [] row rows =
  if Ascii.eqb c ";" then read_csv rest FieldStart [] (row ++ [field]) rows
  else read_csv rest FieldStart [] [] (rows ++ [row ++ [field]]).
Proof.
  intros Hw Hc. assert (Hq : Ascii.eqb c quote_char = false) by by destruct Hc as [-> | ->].
  assert (Hn : Ascii.eqb c ";" = false -> Ascii.eqb c "010" = true) by by destruct Hc as [-> | ->].
  destruct Hw as [|Hplain].
  - unfold append_string. change dquote with (String quote_char EmptyString).
    rewrite !list_ascii_app. cbn [String.list_ascii_of_string app read_csv].
    rewrite Ascii.eqb_refl, <- (assoc_L (++)). cbn [app]. rewrite read_quoted. cbn [app read_csv].
    rewrite Hq, String.string_of_list_ascii_of_string. destruct (Ascii.eqb c ";"); [done|]. by rewrite Hn.
  - destruct (read_plain _ [] (c :: rest) row rows FieldStart Hplain ltac:(by right)) as (mode' & Hm & ->).
    cbn [app]. set (acc := String.list_ascii_of_string field) in *.
    assert (Hs : String.string_of_list_ascii acc = field) by apply String.string_of_list_ascii_of_string.
    destruct Hm as [-> | [-> _]]; cbn [read_csv]; rewrite ?Hq, Hs; (destruct (Ascii.eqb c ";"); [done|]; by rewrite Hn).
Qed.


(** The fields of the part of a line behind the time: without ports, one empty
    field. *)
Definition filled (fields : list string) : list string :=
  match fields with [] => [""] | _ => fields end.

(** Fields and the separators between them, up to the end of the line. *)
Lemma read_fields fields texts rest row rows :
  Forall2 writes fields texts ->
  read_csv (String.list_ascii_of_string (append_fields texts) ++ ("010"%char :: rest)) FieldStart [] row rows =
  read_csv rest FieldStart [] [] (rows ++ [row ++ filled fields]).
Proof.
  intros H. revert row; induction H as [|f t fs ts Hf Hfs IH]; intros row.
  - apply (read_field "" "" rest row rows "010"); [by constructor|by right].
  - destruct Hfs as [|f2 t2 fs ts Hf2 Hfs].
    + by apply (read_field f t rest row rows "010"); [|right].
    + change (append_fields (t :: t2 :: ts)) with (t +:+ SEPARATOR +:+ append_fields (t2 :: ts)).
      rewrite !list_ascii_app, <- !(assoc_L (++)). cbn [SEPARATOR String.list_ascii_of_string app].
      rewrite (read_field f t _ row rows ";" Hf ltac:(by left)). cbn [Ascii.eqb Bool.eqb].
      rewrite (IH (row ++ [f])). by rewrite <- (assoc_L (++)).
Qed.

(** One whole line. *)
Lemma read_line field text fields texts rest rows :
  writes field text -> Forall2 writes fields texts ->
  read_csv (String.list_ascii_of_string (text +:+ SEPARATOR +:+ append_fields texts +:+ newline) ++ rest) FieldStart
    [] [] rows = read_csv rest FieldStart [] [] (rows ++ [field :: filled fields]).
Proof.
  intros Hf Hfs. rewrite !list_ascii_app. cbn [SEPARATOR newline String.list_ascii_of_string].
  rewrite <- !(assoc_L (++)). cbn [app].
  rewrite (read_field field text _ [] rows ";" Hf ltac:(by left)). cbn.
  by rewrite (read_fields fields texts rest [field] rows Hfs).
Qed.

(** ** The whole file *)

(** The variables the logger can write: those of an unknown type get a fixed text,
    the others hold a value of their type. *)
Definition writable (v : Variable_t) : bool := isTypeUnknown v || isValid v.

(** The field of a variable. *)
Definition cell (var : option Variable_t) : string :=
  match var with
  | None => ""
  | Some v =>
      if isTypeUnknown v then "unknown-type"
      else match data_ v with
           | AnyEmpty => ""
           | AnyReal b => stream_double (real_value b)
           | AnyInteger i => pretty i
           | AnyBoolean c => pretty (wrap 32 c)
           | AnyString s => s
           end
  end.

Definition event_row (header : list PortID) (e : fmiTime * list Variable_t) : list string :=
  stream_double e.1 :: filled (map (fun id => cell (findVariable id e.2)) header).

Lemma append_variable_writes var :
  (forall v, var = Some v -> writable v = true) ->
  exists t, append_variable var = Ret t /\ writes (cell var) t.
Proof.
  intros Hw. destruct var as [v|]; [|exists ""; split; [done|by constructor]].
  specialize (Hw v eq_refl). unfold writable, isTypeUnknown in Hw.
  unfold append_variable, cell, isTypeUnknown.
  destruct (bool_decide_reflect ((id_ v).1 = fmiTypeUnknown)) as [Hu|Hu].
  - rewrite Hu. eexists. split; [done|constructor].
  - cbn [orb] in Hw. pose proof (typed_accessors v Hw) as A.
    destruct (id_ v).1; [..|done]; destruct A as (x & -> & ->); (eexists; split; [done|]);
      first [ constructor; by apply numeric_plain, numeric_stream_double
            | constructor; by apply numeric_plain, numeric_pretty_Z | constructor ].
Qed.

Lemma findVariable_in id vars v : findVariable id vars = Some v -> v ∈ vars.
Proof. unfold findVariable. intros [Hin _]%find_some. by apply list_elem_of_In. Qed.

Lemma row_fields_writes header vars :
  Forall (fun v => writable v = true) vars ->
  exists ts, row_fields header vars = Ret ts /\
    Forall2 writes (map (fun id => cell (findVariable id vars)) header) ts.
Proof.
  intros Hv. induction header as [|id header (ts & Hr & Hts)]; cbn [row_fields map]; [by exists []|].
  destruct (append_variable_writes (findVariable id vars)) as (t & -> & Ht).
  { intros v Hf%findVariable_in. rewrite Forall_forall in Hv. by apply Hv. }
  exists (t :: ts). cbn [obind]. rewrite Hr. by split; [|constructor].
Qed.

Lemma append_variable_writable v t : append_variable (Some v) = Ret t -> writable v = true.
Proof.
  unfold append_variable, writable, isTypeUnknown. intros Hr.
  destruct (id_ v).1 eqn:Ht; [..|by rewrite bool_decide_true];
    apply obind_Ret_inv in Hr as (x & Hx & _);
    unfold getRealValue, getIntegerValue, getBooleanValue, getStringValue in Hx; inv_ret;
    apply andb_prop in Hassert as [_ ->]; by rewrite orb_true_r.
Qed.

Lemma row_fields_reads header vars ts :
  row_fields header vars = Ret ts -> Forall2 writes (map (fun id => cell (findVariable id vars)) header) ts.
Proof.
  revert ts; induction header as [|id header IH]; intros ts Hr; cbn [row_fields map] in *; inv_ret; [constructor|].
  constructor; [|by apply IH].
  destruct (append_variable_writes (findVariable id vars)) as (t & Ht & Hw).
  - intros v Hv. rewrite Hv in *. by eapply append_variable_writable.
  - congruence.
Qed.

(** The line of an event reads back behind whatever has been read. *)
Lemma csv_event_reads t vars l l' out :
  outputStream_ l = Some out -> csv_eventTriggered t vars l = Ret l' ->
  exists line, outputStream_ l' = Some (out +:+ line) /\ header_ l' = header_ l /\
    forall rest rows, read_csv (String.list_ascii_of_string line ++ rest) FieldStart [] [] rows =
                      read_csv rest FieldStart [] [] (rows ++ [event_row (header_ l) (t, vars)]).
Proof.
  unfold csv_eventTriggered. intros Hout Hr. rewrite Hout in Hr. inv_ret.
  eexists. cbn. rewrite Hout. split_and!; [done|done|]. intros rest rows.
  apply read_line; [|by apply row_fields_reads]. by apply writes_plain, numeric_plain, numeric_stream_double.
Qed.

(** The header lines read back. *)
Lemma read_header names ids rest rows :
  read_csv (String.list_ascii_of_string (appendHeader names ids) ++ rest) FieldStart [] [] rows =
  read_csv rest FieldStart [] []
    (rows ++ [ "time" :: filled names; "fmiReal" :: filled (map (fun p : PortID => FMI_TYPE_NAMES p.1) ids) ]).
Proof.
  set (line2 := append_string (FMI_TYPE_NAMES fmiTypeReal) +:+ SEPARATOR +:+ appendTypes ids +:+ newline).
  replace (appendHeader names ids)
    with ((append_string "time" +:+ SEPARATOR +:+ append_strings names +:+ newline) +:+ line2).
  2: { unfold appendHeader, line2. by rewrite !string_app_assoc. }
  rewrite list_ascii_app, <- (assoc_L (++)). unfold append_strings.
  rewrite (read_line "time" (append_string "time") names) by
    (constructor || (apply Forall2_fmap_r, Forall_Forall2_diag, Forall_true; constructor)).
  unfold line2, appendTypes.
  rewrite (read_line "fmiReal" (append_string "fmiReal") (map (fun p : PortID => FMI_TYPE_NAMES p.1) ids)).
  - by rewrite <- (assoc_L (++)).
  - constructor.
  - apply Forall2_fmap, Forall_Forall2_diag, Forall_true. constructor.
Qed.

(** The rows of the events read back behind what the stream holds already. *)
Lemma log_events_reads events l out rows :
  Forall (fun e => Forall (fun v => writable v = true) e.2) events -> outputStream_ l = Some out ->
  (forall rest, read_csv (String.list_ascii_of_string out ++ rest) FieldStart [] [] [] =
                read_csv rest FieldStart [] [] rows) ->
  exists l' out', log_events events l = Ret l' /\ outputStream_ l' = Some out' /\ header_ l' = header_ l /\
    parse_csv out' = rows ++ map (event_row (header_ l)) events.
Proof.
  intros He. revert l out rows; induction He as [|[t vars] events Hv He IH]; intros l out rows Hout Hread; cbn.
  - exists l, out. split_and!; try done. unfold parse_csv.
    rewrite <- (app_nil_r (String.list_ascii_of_string out)), Hread. cbn. by rewrite app_nil_r.
  - destruct (row_fields_writes (header_ l) vars Hv) as (ts & Hts & _).
    assert (Hcsv : exists l1, csv_eventTriggered t vars l = Ret l1)
      by (unfold csv_eventTriggered; rewrite Hout, Hts; cbn; eauto).
    destruct Hcsv as (l1 & Hl1). rewrite Hl1. cbn [obind].
    destruct (csv_event_reads _ _ _ _ _ Hout Hl1) as (line & Hout1 & Hh1 & Hline).
    destruct (IH l1 (out +:+ line) (rows ++ [event_row (header_ l) (t, vars)]) Hout1) as (l' & out' & H1 & H2 & H3 & H4).
    + intros rest. by rewrite list_ascii_app, <- (assoc_L (++)), Hread, Hline.
    + exists l', out'. rewrite Hh1 in *. split_and!; try done. by rewrite H4, <- (assoc_L (++)).
Qed.

(** C33: the CSV file reads back.  A logger that is initialised with an input and an
    output mapping and then receives events whose variables are writable never
    fails, and a reader of quoted, semicolon-separated text gets the table: the
    names of the variables behind [time], their types, and for each event a line
    with its time and, below each variable, the text of its value, or nothing where
    the event does not carry the variable.  The texts of string values and names
    come back unchanged, separators, quotes and line breaks included. *)
Theorem csv_log_reads_back (cin cout : ChannelMapping) (events : list (fmiTime * list Variable_t)) :
  Forall (fun e => Forall (fun v => writable v = true) e.2) events ->
  exists l0 l text,
    initHeader false cin cout {| header_ := []; outputStream_ := Some "" |} = Ret l0 /\
    log_events events l0 = Ret l /\ outputStream_ l = Some text /\
    parse_csv text =
      [ "time" :: filled (getAllVariableNames cin ++ getAllVariableNames cout);
        "fmiReal" :: filled (map (fun p : PortID => FMI_TYPE_NAMES p.1)
                               (getAllVariableIDs cin ++ getAllVariableIDs cout)) ] ++
      map (event_row (getAllVariableIDs cin ++ getAllVariableIDs cout)) events.
Proof.
  intros He. unfold initHeader. cbn [header_ outputStream_ assert_ obind].
  set (names := getAllVariableNames cin ++ getAllVariableNames cout).
  set (ids := getAllVariableIDs cin ++ getAllVariableIDs cout).
  set (l0 := write _ _). exists l0.
  destruct (log_events_reads events l0 (appendHeader names ids) _ He eq_refl
    (fun rest => read_header names ids rest [])) as (l & out & H1 & H2 & _ & H4).
  by exists l, out.
Qed.

(** Two ports and three events: a quoted string with a separator and a quote, an
    event that carries one of the ports, one that carries neither. *)
Definition csv_in : ChannelMapping :=
  {| variableNames_ := [["speed"]; []; []; []; []]; variableIDs_ := [[(fmiTypeReal, 0)]; []; []; []; []];
     channels_ := [] |}.
Definition csv_out : ChannelMapping :=
  {| variableNames_ := [[]; []; []; ["label"]; []]; variableIDs_ := [[]; []; []; [(fmiTypeString, 1)]; []];
     channels_ := [] |}.
Definition csv_events : list (fmiTime * list Variable_t) :=
  [ (S754_zero false, [mk_variable (fmiTypeString, 1) (AnyString ("a;" +:+ dquote +:+ "b"))]);
    (S754_finite false 3 (-1), [mk_variable (fmiTypeReal, 0) (AnyReal (Z.shiftl 1 62))]);
    (S754_finite false 2 0, []) ].

Lemma csv_log_reads_back_witness :
  Forall (fun e => Forall (fun v => writable v = true) e.2) csv_events /\
  (exists l0 l text,
    initHeader false csv_in csv_out {| header_ := []; outputStream_ := Some "" |} = Ret l0 /\
    log_events csv_events l0 = Ret l /\ outputStream_ l = Some text /\
    parse_csv text =
      [ "time" :: filled (getAllVariableNames csv_in ++ getAllVariableNames csv_out);
        "fmiReal" :: filled (map (fun p : PortID => FMI_TYPE_NAMES p.1)
                               (getAllVariableIDs csv_in ++ getAllVariableIDs csv_out)) ] ++
      map (event_row (getAllVariableIDs csv_in ++ getAllVariableIDs csv_out)) csv_events) /\
  map (event_row [(fmiTypeReal, 0); (fmiTypeString, 1)]) csv_events =
    [["0"; ""; "a;" +:+ dquote +:+ "b"]; ["1.5"; "2"; ""]; ["2"; ""; ""]].
Proof.
  assert (He : Forall (fun e => Forall (fun v => writable v = true) e.2) csv_events) by (repeat constructor).
  split; [exact He|]. split; [exact (csv_log_reads_back csv_in csv_out csv_events He)|vm_compute; reflexivity].
Defined.
