(* ===== verification/EventLogger.v ===== *)
(** * The event logger (src/timing/EventLogger.cpp)

    The timing file: a line for every processing stage of every event.  The global
    state of the logging library and of the class is the record [LogCore]; the
    wall-clock stamp of a record is that of the library's attribute [TimeStamp].  The
    console logger (src/base/CLILoggingConfigurator.cpp) is at the end. *)

From Stdlib Require Import Ascii.
From S2P Require Import Prelude Float64 BaseExceptions Format PortID Variables PropertyTree ApplicationContext Event CSVDataLogger.

Local Open Scope Z_scope.

Definition PROP_FILE_NAME : string := "app.timingFile".

(** The broken-down time of Boost.Date_Time, as [%w], [%H], [%M], [%S] and [%f] print
    it. *)
Class CalendarTime (PT : PosixTime) := {
  tm_wday : ptime -> Z;
  tm_hour : ptime -> Z;
  tm_min : ptime -> Z;
  tm_sec : ptime -> Z;
  tm_usec : ptime -> Z;
}.

Section Logger.
Context {PX : PosixTime} {CAL : CalendarTime PX} `{PropertyTree}.

(** A file of the logging library: its name, whether the stream is good, and what has
    been written. *)
Record TimingSink := { sink_file : string; sink_good : bool; sink_text : string }.

(** The static member of the class and the sinks registered at the core. *)
Record LogCore := { simulationEpoch_ : ptime; sinks_ : list TimingSink }.

(** The attributes of a logger. *)
Record EventLogger := { eventTimeAttribute_ : fmiTime; recordTimeAttribute_ : fmiTime }.

Definition new_EventLogger : EventLogger :=
  {| eventTimeAttribute_ := f64_of_Z (-1); recordTimeAttribute_ := f64_of_Z (-1) |}.

Definition setGlobalSimulationEpoch (simulationEpoch : ptime) (core : LogCore) : LogCore :=
  {| simulationEpoch_ := simulationEpoch; sinks_ := sinks_ core |}.

(** [openable] says which files can be opened for writing. *)
Definition addEventFileSink (openable : string -> bool) (context : ApplicationContext) (core : LogCore)
    : result LogCore :=
  let* filename := getProperty_def tr_string context PROP_FILE_NAME "" in
  if negb (String.eqb filename "") then
    Ret {| simulationEpoch_ := simulationEpoch_ core;
           sinks_ := sinks_ core ++ [{| sink_file := filename; sink_good := openable filename; sink_text := "" |}] |}
  else Ret core.

(** The time of a record in seconds since the epoch. *)
Definition getRelativeRecodTimeNow (now : ptime) (core : LogCore) : fmiTime :=
  let recordTime := pt_diff now (simulationEpoch_ core) in
  (f64_of_Z (ticks recordTime) / f64_of_Z ticks_per_second)%f64.

(** ["%w;%H;%M;%S.%f"], field by field. *)
Definition calendar_fields (t : ptime) : list string :=
  [pretty (tm_wday t); pad 2 (pretty (tm_hour t)); pad 2 (pretty (tm_min t));
   pad 2 (pretty (tm_sec t)) +:+ "." +:+ pad 6 (pretty (tm_usec t))].

(** The formatter of the sink: the message is put between quotes as it is. *)
Definition format_record (timeStamp : ptime) (lg : EventLogger) (stage : ProcessingStage) (smessage : string) : string :=
  append_fields (calendar_fields timeStamp) +:+ SEPARATOR +:+
  fixed_double 8 (eventTimeAttribute_ lg) +:+ SEPARATOR +:+
  pretty (stage_code stage) +:+ SEPARATOR +:+
  fixed_double 8 (recordTimeAttribute_ lg) +:+ SEPARATOR +:+ dquote +:+ smessage +:+ dquote.

(** A record goes to every sink; a stream that is not good takes nothing. *)
Definition consume (line : string) (sink : TimingSink) : TimingSink :=
  if sink_good sink
  then {| sink_file := sink_file sink; sink_good := true; sink_text := sink_text sink +:+ line +:+ newline |}
  else sink.

(** [logEvent] for an event with this time and this [toString]; [now] is the time read at
    the beginning.  Without a timing file no record is opened, and the event is not
    asked for its text: the filter of the console rejects the record. *)
Definition logEvent (now timeStamp : ptime) (time : fmiTime) (toString : result string) (stage : ProcessingStage)
    (lg : EventLogger) (core : LogCore) : result (EventLogger * LogCore) :=
  let lg' := {| eventTimeAttribute_ := time; recordTimeAttribute_ := getRelativeRecodTimeNow now core |} in
  match sinks_ core with
  | [] => Ret (lg', core)
  | _ :: _ =>
      let* smessage := toString in
      Ret (lg', {| simulationEpoch_ := simulationEpoch_ core;
                   sinks_ := map (consume (format_record timeStamp lg' stage smessage)) (sinks_ core) |})
  end.

(** A call of [logEvent]. *)
Record log_call := {
  lc_now : ptime;
  lc_timeStamp : ptime;
  lc_time : fmiTime;
  lc_text : string;
  lc_stage : ProcessingStage;
}.

(** Calls one after the other. *)
Fixpoint log_calls (calls : list log_call) (lg : EventLogger) (core : LogCore) : result (EventLogger * LogCore) :=
  match calls with
  | [] => Ret (lg, core)
  | c :: calls' =>
      let* r := logEvent (lc_now c) (lc_timeStamp c) (lc_time c) (Ret (lc_text c)) (lc_stage c) lg core in
      log_calls calls' r.1 r.2
  end.

(** ** The file reads back *)

(** A text without quotes. *)
Definition unquoted (s : string) : bool :=
  forallb (fun c => negb (Ascii.eqb c quote_char)) (String.list_ascii_of_string s).

Lemma escape_unquoted s : unquoted s = true -> escape s = s.
Proof.
  unfold unquoted. induction s as [|c s IH]; [done|]. cbn. intros [Hc Hs]%andb_true_iff.
  apply negb_true_iff in Hc. by rewrite Hc, IH.
Qed.

Lemma unquoted_app s t : unquoted (s +:+ t) = unquoted s && unquoted t.
Proof. unfold unquoted. by rewrite list_ascii_app, forallb_app. Qed.

Lemma numeric_unquoted s : numeric s -> unquoted s = true.
Proof.
  intros Hs. apply forallb_forall. intros c Hc%list_elem_of_In. unfold numeric in Hs. rewrite Forall_forall in Hs.
  specialize (Hs c Hc). destruct (Ascii.eqb_spec c quote_char) as [->|]; done.
Qed.

Lemma numeric_fixed_double d x : numeric (fixed_double d x).
Proof.
  destruct x as [s|s| |s m e]; cbn [fixed_double special_string].
  - apply numeric_app; [apply numeric_sign|]. apply numeric_app; [by repeat constructor|].
    apply numeric_pad. by repeat constructor.
  - apply numeric_app; [apply numeric_sign|by repeat constructor].
  - by repeat constructor.
  - destruct (fraction m e) as [num den]. apply numeric_app; [apply numeric_sign|].
    apply numeric_app; [apply numeric_pretty_Z|]. apply numeric_app; [by repeat constructor|].
    apply numeric_pad, numeric_pretty_Z.
Qed.

(** Equal results, with values that are better not computed. *)
#[local] Instance Ret_inj : Inj (=) (=) (@Ret exn string).
Proof. by intros a b [= ->]. Qed.

(** The text of an event has quotes around the values of strings, and no other ones. *)
Lemma variable_text_unquoted v s :
  (id_ v).1 <> fmiTypeString -> variable_toString v = Ret s -> unquoted s = true.
Proof.
  intros Ht. unfold variable_toString. intros (value & Hv & [= <-])%obind_Ret_inv.
  rewrite !unquoted_app, (numeric_unquoted (pretty _) (numeric_pretty_Z _)).
  replace (unquoted (typeName (id_ v).1)) with true by by destruct (id_ v).1. cut (unquoted value = true); [by intros ->|].
  destruct (isValid v); [|by injection Hv as <-].
  apply numeric_unquoted. destruct (id_ v).1.
  - apply obind_Ret_inv in Hv as (x & _ & <-%(inj Ret)). apply (numeric_fixed_double 6).
  - apply obind_Ret_inv in Hv as (x & _ & <-%(inj Ret)). apply numeric_pretty_Z.
  - apply obind_Ret_inv in Hv as (x & _ & <-%(inj Ret)). apply numeric_pretty_Z.
  - by destruct Ht.
  - discriminate Hv.
Qed.

Lemma static_text_unquoted ev s :
  Forall (fun v => (id_ v).1 <> fmiTypeString) (se_var ev) -> static_toString ev = Ret s -> unquoted s = true.
Proof.
  intros Hvars. unfold static_toString, variables_toString. intros (vs & (js & Hj & [= <-])%obind_Ret_inv & [= <-])%obind_Ret_inv.
  unfold event_toString. rewrite !unquoted_app, (numeric_unquoted _ (numeric_stream_double _)).
  cut (unquoted js = true); [by intros ->|].
  clear -Hvars Hj. revert js Hj; induction Hvars as [|v vars Hv Hvars IH]; intros js; cbn [join_variables]; [by intros [= <-]|].
  destruct vars as [|v' vars]; [by apply variable_text_unquoted|]. intros (s & Hs & Hr)%obind_Ret_inv.
  apply obind_Ret_inv in Hr as (r & Hr & [= <-]).
  by rewrite !unquoted_app, (variable_text_unquoted _ _ Hv Hs), (IH _ Hr).
Qed.

(** The fields of a record. *)
Definition record_row (epoch : ptime) (c : log_call) : list string :=
  calendar_fields (lc_timeStamp c) ++
  [fixed_double 8 (lc_time c); pretty (stage_code (lc_stage c));
   fixed_double 8 (f64_of_Z (ticks (pt_diff (lc_now c) epoch)) / f64_of_Z ticks_per_second)%f64; lc_text c].

Lemma numeric_writes s : numeric s -> writes s s.
Proof. intros Hs. by apply writes_plain, numeric_plain. Qed.

Definition record_texts (epoch : ptime) (c : log_call) : list string :=
  tail (calendar_fields (lc_timeStamp c)) ++
  [fixed_double 8 (lc_time c); pretty (stage_code (lc_stage c));
   fixed_double 8 (f64_of_Z (ticks (pt_diff (lc_now c) epoch)) / f64_of_Z ticks_per_second)%f64;
   dquote +:+ lc_text c +:+ dquote].

(** The attributes behind a call. *)
Definition stamped (epoch : ptime) (c : log_call) : EventLogger :=
  {| eventTimeAttribute_ := lc_time c;
     recordTimeAttribute_ := (f64_of_Z (ticks (pt_diff (lc_now c) epoch)) / f64_of_Z ticks_per_second)%f64 |}.

Lemma format_record_fields epoch c :
  format_record (lc_timeStamp c) (stamped epoch c) (lc_stage c) (lc_text c) +:+ newline =
  pretty (tm_wday (lc_timeStamp c)) +:+ SEPARATOR +:+ append_fields (record_texts epoch c) +:+ newline.
Proof.
  unfold format_record, record_texts, calendar_fields. cbn [tail app append_fields stamped eventTimeAttribute_ recordTimeAttribute_].
  by rewrite !string_app_assoc.
Qed.

Lemma record_writes epoch c :
  unquoted (lc_text c) = true -> Forall2 writes (tail (record_row epoch c)) (record_texts epoch c).
Proof.
  intros Hq. unfold record_row, record_texts, calendar_fields. cbn [tail app].
  repeat (apply Forall2_cons; split); try apply Forall2_nil; try done;
    try (apply numeric_writes; repeat first
      [apply numeric_fixed_double|apply numeric_pad|apply numeric_app|apply numeric_pretty_Z|by repeat constructor]).
  rewrite <- (escape_unquoted _ Hq) at 2. constructor.
Qed.

(** A record behind what the stream holds already. *)
Lemma read_record epoch c rest rows :
  unquoted (lc_text c) = true ->
  read_csv (String.list_ascii_of_string
      (format_record (lc_timeStamp c) (stamped epoch c) (lc_stage c) (lc_text c) +:+ newline) ++ rest) FieldStart [] [] rows =
  read_csv rest FieldStart [] [] (rows ++ [record_row epoch c]).
Proof.
  intros Hq. rewrite format_record_fields.
  rewrite (read_line (pretty (tm_wday (lc_timeStamp c))) _ (tail (record_row epoch c)) (record_texts epoch c)); [done| |].
  - apply numeric_writes, numeric_pretty_Z.
  - by apply record_writes.
Qed.

Lemma log_calls_reads calls lg epoch file text rows :
  Forall (fun c => unquoted (lc_text c) = true) calls ->
  (forall rest, read_csv (String.list_ascii_of_string text ++ rest) FieldStart [] [] [] =
                read_csv rest FieldStart [] [] rows) ->
  exists lg' text',
    log_calls calls lg {| simulationEpoch_ := epoch; sinks_ := [{| sink_file := file; sink_good := true; sink_text := text |}] |} =
    Ret (lg', {| simulationEpoch_ := epoch; sinks_ := [{| sink_file := file; sink_good := true; sink_text := text' |}] |}) /\
    parse_csv text' = rows ++ map (record_row epoch) calls.
Proof.
  intros Hc. revert lg text rows; induction Hc as [|c calls Hq Hc IH]; intros lg text rows Hread.
  - exists lg, text. split; [done|]. unfold parse_csv.
    rewrite <- (app_nil_r (String.list_ascii_of_string text)), Hread. cbn. by rewrite app_nil_r.
  - cbn [log_calls logEvent sinks_ obind map consume sink_good fst snd sink_file sink_text simulationEpoch_].
    change {| eventTimeAttribute_ := lc_time c; recordTimeAttribute_ := _ |} with (stamped epoch c).
    destruct (IH (stamped epoch c)
                (text +:+ format_record (lc_timeStamp c) (stamped epoch c) (lc_stage c) (lc_text c) +:+ newline)
                (rows ++ [record_row epoch c])) as (lg' & text' & E & Hp).
    + intros rest. rewrite list_ascii_app, <- (assoc_L (++)), Hread. by apply read_record.
    + exists lg', text'. split; [exact E|]. cbn [map]. by rewrite Hp, <- (assoc_L (++)).
Qed.

(** C34: the timing file reads back.  When a file is configured and can be opened, then
    after any number of calls of [logEvent] the reader of quoted, semicolon-separated
    text gets one row per call, in the order of the calls: the weekday, the hour, the
    minute and the second, the time of the event, the number of the stage, the time of
    the record relative to the epoch, and the text of the event.  This holds for texts
    without quotes; separators and line breaks in them do no harm.  The text of an event
    is put between quotes as it is, so that an event with the value of a string, around
    which there are quotes, does not read back; the text of one without has none. *)
Theorem timing_file_reads_back openable context filename epoch lg calls :
  getProperty_def tr_string context PROP_FILE_NAME "" = Ret filename -> filename <> "" -> openable filename = true ->
  Forall (fun c => unquoted (lc_text c) = true) calls ->
  exists core lg' core' text,
    addEventFileSink openable context {| simulationEpoch_ := epoch; sinks_ := [] |} = Ret core /\
    log_calls calls lg core = Ret (lg', core') /\
    map sink_text (sinks_ core') = [text] /\ parse_csv text = map (record_row epoch) calls.
Proof.
  intros Hf Hne Hopen Hc. unfold addEventFileSink. rewrite Hf. cbn [obind].
  destruct (String.eqb_spec filename "") as [->|_]; [done|]. cbn [negb]. rewrite Hopen. cbn [app sinks_ simulationEpoch_].
  eexists. destruct (log_calls_reads calls lg epoch filename "" [] Hc ltac:(done)) as (lg' & text & E & Hp).
  eexists lg', _, text. split_and!; [reflexivity|exact E|done|exact Hp].
Qed.

End Logger.

(** ** Concrete records *)

(** The calendar of the micro clock, whose time points count microseconds since
    1970-01-01, a Thursday. *)
#[export] Instance micro_calendar : CalendarTime micro_clock := {
  tm_wday t := (t / (86400 * 10 ^ 6) + 4) mod 7;
  tm_hour t := t / (3600 * 10 ^ 6) mod 24;
  tm_min t := t / (60 * 10 ^ 6) mod 60;
  tm_sec t := t / 10 ^ 6 mod 60;
  tm_usec t := t mod 10 ^ 6;
}.

Definition timing_context : @ApplicationContext tree_ptree :=
  match addCommandlineOption new_ApplicationContext "app.timingFile=timing.csv" 1 with
  | Ret ctx => ctx | _ => new_ApplicationContext
  end.

Definition sample_call (us : Z) (stage : ProcessingStage) (text : string) : log_call (PX := micro_clock) :=
  {| lc_now := 1500000 + us; lc_timeStamp := 1500000 + us + 7; lc_time := (f64_of_Z 1 / f64_of_Z 4)%f64;
     lc_text := text; lc_stage := stage |}.

(** An event with a number and a truth value. *)
Definition logged_event : StaticEvent :=
  {| se_time := (f64_of_Z 1 / f64_of_Z 4)%f64;
     se_var := [mk_variable (fmiTypeInteger, 0) (AnyInteger (-3)); mk_variable (fmiTypeBoolean, 2) (AnyBoolean 1)] |}.
Definition logged_text : string := match static_toString logged_event with Ret s => s | _ => "" end.

Definition sample_calls : list (log_call (PX := micro_clock)) :=
  [sample_call 250000 prediction logged_text; sample_call (-500000) outdated ""].

Example sample_rows : map (record_row (1500000 : @ptime micro_clock)) sample_calls =
  [ ["4"; "00"; "00"; "01.750007"; "0.25000000"; "1"; "0.25000000";
      "Event: time=0.25  variables={Variable: <fmiTypeInteger, id:0>=-3, Variable: <fmiTypeBoolean, id:2>=1}"];
    ["4"; "00"; "00"; "01.000007"; "0.25000000"; "4"; "-0.50000000"; ""] ].
Proof. vm_compute. reflexivity. Qed.

Lemma timing_file_reads_back_witness :
  exists core lg' core' text,
    addEventFileSink (fun _ => true) timing_context
      {| simulationEpoch_ := (1500000 : @ptime micro_clock); sinks_ := [] |} = Ret core /\
    log_calls sample_calls new_EventLogger core = Ret (lg', core') /\
    map sink_text (sinks_ core') = [text] /\
    parse_csv text = map (record_row (1500000 : @ptime micro_clock)) sample_calls.
Proof.
  apply (timing_file_reads_back (fun _ => true) timing_context "timing.csv" (1500000 : @ptime micro_clock)
           new_EventLogger sample_calls).
  - vm_compute. reflexivity.
  - discriminate.
  - reflexivity.
  - constructor; [|by repeat constructor]. apply (static_text_unquoted logged_event); [repeat constructor; discriminate|].
    vm_compute. reflexivity.
Defined.

(** A quote in the text ends the field early: the row does not read back. *)
Example quoted_text_lost :
  let c := sample_call 0 prediction ("a" +:+ dquote +:+ ";b") in
  parse_csv (format_record (PX := micro_clock) (lc_timeStamp c) (stamped (1500000 : @ptime micro_clock) c) (lc_stage c)
               (lc_text c) +:+ newline) <> [record_row (1500000 : @ptime micro_clock) c].
Proof. vm_compute. discriminate. Qed.

(** ** The console logger *)

Definition PROP_LOG_LEVEL : string := "app.logLevel".

(** [boost::log::trivial::severity_level]. *)
Inductive severity_level := trace | debug | info | warning | error | fatal.

Definition severity_code (l : severity_level) : Z :=
  match l with trace => 0 | debug => 1 | info => 2 | warning => 3 | error => 4 | fatal => 5 end.

(** The sink's filter, by its level. *)
Record CLILoggingConfigurator := { filter_level : severity_level }.

(** Does the console show a record? *)
Definition shows (c : CLILoggingConfigurator) (has_event_time : bool) (severity : severity_level) : bool :=
  negb has_event_time && (severity_code (filter_level c) <=? severity_code severity).

Definition new_CLILoggingConfigurator : CLILoggingConfigurator := {| filter_level := info |}.

Definition log_level (logLevel : string) : option severity_level :=
  if String.eqb logLevel "trace" then Some trace
  else if String.eqb logLevel "debug" then Some debug
  else if String.eqb logLevel "info" then Some info
  else if String.eqb logLevel "warning" then Some warning
  else if String.eqb logLevel "error" then Some error
  else None.

Definition configureLogger `{PropertyTree} (appContext : ApplicationContext) (c : CLILoggingConfigurator)
    : result CLILoggingConfigurator :=
  let* logLevel := getProperty_def tr_string appContext PROP_LOG_LEVEL "debug" in
  match log_level logLevel with
  | Some level => Ret {| filter_level := level |}
  | None =>
      let* value := getProperty_def tr_string appContext PROP_LOG_LEVEL "debug" in
      throw_config_kv "Unknown log level." PROP_LOG_LEVEL value
  end.

(** A fatal message is always shown, and no record of the timing file is. *)
Lemma fatal_shown c : shows c false fatal = true /\ forall l, shows c true l = false.
Proof. by destruct c as [[]]. Qed.
