(* ===== verification/Logging.v ===== *)
(** * Log records and the console (src/base/CLILoggingConfigurator.cpp,
    LoggingAttributes.cpp, and the messages of src/main.cpp)

    A record of the logging library goes to the sinks whose filter accepts it: the records
    of the event logger have the attribute [EventTime] and go to the timing file, the
    messages of the program have a severity and go to the console.  The level of the
    console is in [EventLogger]. *)

From S2P Require Import Prelude Float64 BaseExceptions Format Event EventLogger.

Local Open Scope Z_scope.

(** ** Attributes *)

Definition ATTR_EVENT_TIME : string := "EventTime".
Definition ATTR_TIMING_RECORD_TIME : string := "TimingRecordTime".

(** The date of Boost.Date_Time, as [%Y], [%m] and [%d] print it. *)
Class CalendarDate (PT : PosixTime) := {
  tm_year : ptime -> Z;
  tm_mon : ptime -> Z;
  tm_mday : ptime -> Z;
}.

Section Records.
Context {PX : PosixTime} {CAL : CalendarTime PX} {DAY : CalendarDate PX}.

(** A record: the attributes of the logger, the severity of a trivial logger, the common
    attributes [TimeStamp] and [ThreadID], and the message. *)
Record log_record := {
  rec_attributes : list (string * fmiTime);
  rec_severity : option severity_level;
  rec_timeStamp : ptime;
  rec_thread : string;
  rec_message : string;
}.

Definition has_attr (name : string) (r : log_record) : bool :=
  existsb (fun a => String.eqb a.1 name) (rec_attributes r).

(** [BOOST_LOG_TRIVIAL(severity) << message]. *)
Definition trivial_record (timeStamp : ptime) (thread : string) (m : severity_level * string) : log_record :=
  {| rec_attributes := []; rec_severity := Some m.1; rec_timeStamp := timeStamp; rec_thread := thread;
     rec_message := m.2 |}.

(** The attributes that the constructor of [EventLogger] adds to its logger. *)
Definition logger_attributes (lg : EventLogger) : list (string * fmiTime) :=
  [(ATTR_EVENT_TIME, eventTimeAttribute_ lg); (ATTR_TIMING_RECORD_TIME, recordTimeAttribute_ lg)].

(** The record that [EventLogger::logEvent] opens: its logger has a channel and no
    severity. *)
Definition event_record (timeStamp : ptime) (thread : string) (lg : EventLogger) (message : string) : log_record :=
  {| rec_attributes := logger_attributes lg; rec_severity := None; rec_timeStamp := timeStamp;
     rec_thread := thread; rec_message := message |}.

(** ** The filters *)

Definition timing_filter (r : log_record) : bool := has_attr ATTR_EVENT_TIME r.

(** A comparison with a severity that the record does not have is false. *)
Definition console_filter (c : CLILoggingConfigurator) (r : log_record) : bool :=
  match rec_severity r with
  | Some severity => shows c (has_attr ATTR_EVENT_TIME r) severity
  | None => false
  end.

(** ** The console *)

Definition severity_name (l : severity_level) : string :=
  match l with
  | trace => "trace" | debug => "debug" | info => "info" | warning => "warning" | error => "error" | fatal => "fatal"
  end.

(** ["[%1%] [%2%] %3%: %4% "], the time as ["%Y-%m-%d %H:%M:%S.%f"]. *)
Definition console_format (r : log_record) : string :=
  let t := rec_timeStamp r in
  "[" +:+ pad 4 (pretty (tm_year t)) +:+ "-" +:+ pad 2 (pretty (tm_mon t)) +:+ "-" +:+ pad 2 (pretty (tm_mday t)) +:+ " "
      +:+ pad 2 (pretty (tm_hour t)) +:+ ":" +:+ pad 2 (pretty (tm_min t)) +:+ ":" +:+ pad 2 (pretty (tm_sec t))
      +:+ "." +:+ pad 6 (pretty (tm_usec t)) +:+ "] [" +:+ rec_thread r +:+ "] "
      +:+ match rec_severity r with Some l => severity_name l | None => "" end +:+ ": " +:+ rec_message r +:+ " ".

(** The lines the console shows of some records. *)
Definition console_lines (c : CLILoggingConfigurator) (rs : list log_record) : list string :=
  map console_format (List.filter (console_filter c) rs).

(** ** The messages of [main] *)

Definition copyright : list (severity_level * string) :=
  [(info, "Copyright (c) 2017, AIT Austrian Institute of Technology GmbH.");
   (info, "All rights reserved.");
   (info, "--------------------------------------------------------------")].

(** The catch clauses; [program] is the property of the program's name. *)
Definition error_report (program : string) (x : exn) : list (severity_level * string) :=
  match x with
  | ExnSystemConfiguration e =>
      match sce_config e with
      | Some (key, value) =>
          [(fatal, "Invalid system configuration regarding property " +:+ key +:+ "=" +:+ dquote +:+ value +:+ dquote +:+
                   ": " +:+ sce_what e)]
      | None => [(fatal, "Invalid system configuration: " +:+ sce_what e)]
      end
  | ExnSolver e =>
      [(fatal, "An error during solving the model occurred: " +:+ se_what e +:+ " (At time " +:+
               stream_double (se_timestamp e) +:+ ")")]
  | ExnInvalidArgument what =>
      [(fatal, "Invalid command line argument detected: " +:+ what);
       (info, "Usage: " +:+ program +:+ " { <property>=<value> }");
       (info, "Please consult the user documentation for more details on the usage of the program.")]
  | ExnRuntimeError what => [(fatal, "A runtime error occurred: " +:+ what)]
  | ExnBadAnyCast | ExnOther =>
      [(fatal, "Oops: Unspecified error happened (Sorry, I know that this isn't very helpful)")]
  end.

(** ** Where records go *)

(** A record goes to the timing file or to the console, never to both. *)
Lemma sinks_disjoint c r : timing_filter r = true -> console_filter c r = false.
Proof. unfold timing_filter, console_filter. intros Ht. destruct (rec_severity r); [|done]. by rewrite Ht. Qed.

Lemma event_record_sinks c timeStamp thread lg message :
  timing_filter (event_record timeStamp thread lg message) = true /\
  console_filter c (event_record timeStamp thread lg message) = false.
Proof. done. Qed.

Lemma trivial_record_sinks c timeStamp thread m :
  timing_filter (trivial_record timeStamp thread m) = false /\
  console_filter c (trivial_record timeStamp thread m) = (severity_code (filter_level c) <=? severity_code m.1).
Proof. done. Qed.

(** The console of a lower level shows at least the same lines in the same order. *)
Lemma console_lines_monotone c c' rs :
  severity_code (filter_level c') <= severity_code (filter_level c) ->
  sublist (console_lines c rs) (console_lines c' rs).
Proof.
  intros Hl. induction rs as [|r rs IH]; [done|]. unfold console_lines in *. cbn [List.filter].
  assert (Hi : console_filter c r = true -> console_filter c' r = true).
  { unfold console_filter, shows. destruct (rec_severity r); [|done].
    rewrite !andb_true_iff, !Z.leb_le. intros [? ?]. split; [done|lia]. }
  destruct (console_filter c r).
  - rewrite Hi by done. cbn. by constructor.
  - destruct (console_filter c' r); [cbn; by constructor|done].
Qed.

(** An error that ends the program is on the console, whatever the level. *)
Lemma error_report_shown c program x timeStamp thread :
  main_exit_code x <> 0 /\
  exists message rest, console_lines c (map (trivial_record timeStamp thread) (error_report program x)) =
    console_format (trivial_record timeStamp thread (fatal, message)) :: rest /\
    head (error_report program x) = Some (fatal, message).
Proof.
  assert (Hf : forall m, console_filter c (trivial_record timeStamp thread (fatal, m)) = true)
    by (intros m; by destruct c as [[]]).
  split; [by destruct x|]. destruct x as [[w [[k v]|]]|e|w|w| |]; cbn [error_report sce_config map];
    unfold console_lines; cbn [List.filter]; rewrite Hf; eexists _, _; split; reflexivity.
Qed.

End Records.

(** ** A concrete line *)

#[export] Instance micro_date : CalendarDate micro_clock := {
  tm_year _ := 1970; tm_mon _ := 1; tm_mday t := t / (86400 * 10 ^ 6) + 1;
}.

Example sample_line :
  console_lines {| filter_level := warning |}
    (map (trivial_record (PX := micro_clock) (3723000045 : @ptime micro_clock) "0x1")
       (copyright ++ error_report "fmitb" (ExnInvalidArgument "no value"))) =
  ["[1970-01-01 01:02:03.000045] [0x1] fatal: Invalid command line argument detected: no value "].
Proof. vm_compute. reflexivity. Qed.
