(* ===== verification/FMUTypes.v ===== *)
(** * What the two predictors share

    The values of a set of variables by type, the conversion between a double and
    its bit pattern, and the casts of [boost::any_cast]. *)

From S2P Require Import Prelude Float64 PortID Variables PropertyTree.

Local Open Scope Z_scope.

(** The values of all inputs: [realInputImage_] and so on; the single-step predictor
    keeps its outputs in the same form.  Reals are 64-bit patterns. *)
Record input_image := {
  realInputImage_ : list Z;
  integerInputImage_ : list Z;
  booleanInputImage_ : list Z;
  stringInputImage_ : list string;
}.

Definition empty_image : input_image :=
  {| realInputImage_ := []; integerInputImage_ := []; booleanInputImage_ := []; stringInputImage_ := [] |}.

Definition set_real (l : list Z) (i : input_image) : input_image :=
  {| realInputImage_ := l; integerInputImage_ := integerInputImage_ i;
     booleanInputImage_ := booleanInputImage_ i; stringInputImage_ := stringInputImage_ i |}.
Definition set_integer (l : list Z) (i : input_image) : input_image :=
  {| realInputImage_ := realInputImage_ i; integerInputImage_ := l;
     booleanInputImage_ := booleanInputImage_ i; stringInputImage_ := stringInputImage_ i |}.
Definition set_boolean (l : list Z) (i : input_image) : input_image :=
  {| realInputImage_ := realInputImage_ i; integerInputImage_ := integerInputImage_ i;
     booleanInputImage_ := l; stringInputImage_ := stringInputImage_ i |}.
Definition set_string (l : list string) (i : input_image) : input_image :=
  {| realInputImage_ := realInputImage_ i; integerInputImage_ := integerInputImage_ i;
     booleanInputImage_ := booleanInputImage_ i; stringInputImage_ := l |}.

(** The bit pattern of a double. *)
Definition real_bits (x : fmiTime) : Z :=
  match x with
  | S754_zero s => if s then 2 ^ 63 else 0
  | S754_infinity s => (if s then 2 ^ 63 else 0) + 2047 * 2 ^ 52
  | S754_nan => 2047 * 2 ^ 52 + 2 ^ 51
  | S754_finite s m e =>
      (if s then 2 ^ 63 else 0) +
      (if Zpos m <? 2 ^ 52 then Zpos m else (e + 1075) * 2 ^ 52 + (Zpos m - 2 ^ 52))
  end.

Definition any_real (d : any) : option Z := match d with AnyReal b => Some b | _ => None end.
Definition any_integer (d : any) : option Z := match d with AnyInteger i => Some i | _ => None end.
Definition any_boolean (d : any) : option Z := match d with AnyBoolean c => Some c | _ => None end.
Definition any_string (d : any) : option string := match d with AnyString s => Some s | _ => None end.

Section Translators.
Context `{PropertyTree}.

(** [tr_double] as a bit pattern. *)
Definition tr_fmiReal (s : string) : option Z := option_map real_bits (tr_double s).

End Translators.
