(* ===== verification/ManagedLowLevelFMU.v ===== *)
(** * The model file (src/model/ManagedLowLevelFMU.cpp)

    Loads an FMU through FMI++'s [ModelManager], under a configured or a deduced
    name, and keeps a reference to it.  The manager is an interface. *)

From S2P Require Import Prelude Float64 BaseExceptions Format PropertyTree ApplicationContext.

Local Open Scope Z_scope.

Definition PROP_FMU_PATH : string := "fmu.path".
Definition PROP_FMU_NAME : string := "fmu.name".

(** The enumerations of FMI++ with the enumerators the sources name; any other
    value by its code. *)
Inductive FMUType :=
  | fmi_1_0_cs
  | fmi_1_0_me
  | fmi_2_0_cs
  | fmi_2_0_me
  | fmi_2_0_me_and_cs
  | fmu_type_other (code : Z).

Inductive LoadFMUStatus :=
  | success
  | duplicate
  | shared_lib_invalid_uri
  | shared_lib_load_failed
  | description_invalid_uri
  | description_invalid
  | failed
  | load_status_other (code : Z).

#[export] Instance FMUType_eq_dec : EqDecision FMUType.
Proof. solve_decision. Defined.
#[export] Instance LoadFMUStatus_eq_dec : EqDecision LoadFMUStatus.
Proof. solve_decision. Defined.

(** The [ModelManager] over its state [M]: loading under a name, loading with a
    deduced name, and the references to a loaded FMU. *)
Class ModelManager (M : Type) := {
  loadFMU_named : string -> string -> M -> LoadFMUStatus * FMUType * M;
  loadFMU : string -> M -> LoadFMUStatus * FMUType * string * M;
  bare_fmu : Type;
  getSlave : string -> M -> bare_fmu;
  getModel : string -> M -> bare_fmu;
  getInstance : string -> M -> bare_fmu;
}.

Definition getErrorDescription (err : LoadFMUStatus) : string :=
  match err with
  | success => "Successful operation"
  | duplicate => "The FMU was loaded before"
  | shared_lib_invalid_uri => "The FMU shared library URL is invalid"
  | shared_lib_load_failed => "The shared library of the FMU cannot be loaded correctly"
  | description_invalid_uri => "The URL of the description is invalid"
  | description_invalid => "The model description is invalid"
  | failed => "Unable to load and instantiate the FMU"
  | load_status_other code => "Unknown error (code " +:+ pretty code +:+ ")"
  end.

Definition getFMUTypeString (type : FMUType) : string :=
  match type with
  | fmi_1_0_cs => "FMI 1.0 CS"
  | fmi_1_0_me => "FMI 1.0 ME"
  | fmi_2_0_cs => "FMI 2.0 CS"
  | fmi_2_0_me => "FMI 2.0 ME"
  | fmi_2_0_me_and_cs => "FMI 2.0 CS and ME"
  | fmu_type_other code => "Unknown FMI type (code " +:+ pretty code +:+ ")"
  end.

Section Managed.
Context `{PropertyTree} {M : Type} `{ModelManager M}.

Record ManagedLowLevelFMU := {
  path_ : string;
  modelIdentifier_ : string;
  type_ : FMUType;
  fmuLock_ : option bare_fmu;
}.

Definition load_accepted (status : LoadFMUStatus) : bool :=
  bool_decide (status = success) || bool_decide (status = duplicate).

Definition initVarsAndLoadFMU (context : ApplicationContext) (mgr : M) : result (ManagedLowLevelFMU * M) :=
  let* path := getProperty tr_string context PROP_FMU_PATH in
  if hasProperty context PROP_FMU_NAME then
    let* name := getProperty tr_string context PROP_FMU_NAME in
    let '(status, type, mgr') := loadFMU_named name path mgr in
    if negb (load_accepted status) then
      Throw (ExnInvalidArgument ("Can't load the FMU at URL " +:+ quoted path +:+ " with the specified name " +:+
                                 quoted name +:+ ". " +:+ getErrorDescription status +:+ "."))
    else Ret ({| path_ := path; modelIdentifier_ := name; type_ := type; fmuLock_ := None |}, mgr')
  else
    let '(status, type, name, mgr') := loadFMU path mgr in
    if negb (load_accepted status) then
      Throw (ExnInvalidArgument ("Can't load the FMU at URL " +:+ quoted path +:+ " with the deduced name " +:+
                                 quoted name +:+ ". " +:+ getErrorDescription status +:+ "."))
    else Ret ({| path_ := path; modelIdentifier_ := name; type_ := type; fmuLock_ := None |}, mgr').

Definition lockFMU (mgr : M) (f : ManagedLowLevelFMU) : result ManagedLowLevelFMU :=
  let locked (l : bare_fmu) : result ManagedLowLevelFMU :=
    Ret {| path_ := path_ f; modelIdentifier_ := modelIdentifier_ f; type_ := type_ f; fmuLock_ := Some l |} in
  match type_ f with
  | fmi_1_0_cs => locked (getSlave (modelIdentifier_ f) mgr)
  | fmi_1_0_me => locked (getModel (modelIdentifier_ f) mgr)
  | fmi_2_0_cs | fmi_2_0_me | fmi_2_0_me_and_cs => locked (getInstance (modelIdentifier_ f) mgr)
  | fmu_type_other _ =>
      Throw (ExnInvalidArgument ("The FMU at '" +:+ path_ f +:+ "' has an unsupported FMI type (" +:+
                                 getFMUTypeString (type_ f) +:+ ")"))
  end.

Definition new_ManagedLowLevelFMU (context : ApplicationContext) (mgr : M) : result (ManagedLowLevelFMU * M) :=
  let* r := initVarsAndLoadFMU context mgr in
  let* f := lockFMU r.2 r.1 in
  Ret (f, r.2).

(** A model that was loaded has a supported type and holds a reference; the only
    exceptions are those of the configuration. *)
Lemma new_ManagedLowLevelFMU_ok context mgr :
  wp (new_ManagedLowLevelFMU context mgr)
     (fun r => getProperty tr_string context PROP_FMU_PATH = Ret (path_ r.1) /\ is_Some (fmuLock_ r.1) /\
               forall code, type_ r.1 <> fmu_type_other code)
     (fun x => is_invalid_argument x = true).
Proof.
  unfold new_ManagedLowLevelFMU, initVarsAndLoadFMU.
  unfold getProperty. destruct (get_optional tr_string (config_ context) PROP_FMU_PATH) as [path|] eqn:Hpath; [|done].
  cbn [obind]. apply wp_bind.
  assert (Hlock : forall name type mgr',
    wp (lockFMU mgr' {| path_ := path; modelIdentifier_ := name; type_ := type; fmuLock_ := None |})
       (fun f => path_ f = path /\ is_Some (fmuLock_ f) /\ forall code, type_ f <> fmu_type_other code)
       (fun x => is_invalid_argument x = true)).
  { intros name type mgr'. unfold lockFMU; destruct type; cbn; eauto. }
  assert (Hlast : forall name type mgr',
    wp (let* f := lockFMU mgr' {| path_ := path; modelIdentifier_ := name; type_ := type; fmuLock_ := None |} in
        Ret (f, mgr'))
       (fun r => Ret path = Ret (X:=exn) (path_ r.1) /\ is_Some (fmuLock_ r.1) /\ forall code, type_ r.1 <> fmu_type_other code)
       (fun x => is_invalid_argument x = true)).
  { intros name type mgr'. apply wp_bind. eapply wp_mono; [apply Hlock| |done].
    intros f (Hp & ? & ?). cbn. by rewrite Hp. }
  destruct (hasProperty context PROP_FMU_NAME).
  - destruct (get_optional tr_string (config_ context) PROP_FMU_NAME) as [name|]; [|done]. cbn [obind].
    destruct (loadFMU_named name path mgr) as [[status type] mgr']. destruct (load_accepted status); [|done].
    apply (Hlast name type mgr').
  - destruct (loadFMU path mgr) as [[[status type] name] mgr']. destruct (load_accepted status); [|done].
    apply (Hlast name type mgr').
Qed.

End Managed.

Arguments ManagedLowLevelFMU M {_}.
