(* ===== verification/SolverConfiguration.v ===== *)
(** * The solver's parameters (src/model/SolverConfiguration.cpp)

    The integration method with its default order and tolerances, read and checked,
    and the text that explains which of them FMI++ rejected. *)

From S2P Require Import Prelude Float64 BaseExceptions Format PropertyTree ApplicationContext ApplicationContextSpec.

Local Open Scope Z_scope.

Definition PROP_FMU_DEBUGGING : string := "fmu.logging".
Definition PROP_EVENT_SEARCH_PRECISION : string := "app.eventSearchPrecision".
Definition PROP_INTEGRATOR_TYPE : string := "app.integration.method".
Definition PROP_INTEGRATION_ORDER : string := "app.integration.order".
Definition PROP_ABSOLUTE_TOLERANCE : string := "app.integration.absoluteTolerance".
Definition PROP_RELATIVE_TOLERANCE : string := "app.integration.relativeTolerance".

(** FMI++'s enumeration of the methods. *)
Inductive IntegratorType := eu | rk | abm | ck | dp | fe | bs | ro | bdf | abm2.

#[export] Instance IntegratorType_eq_dec : EqDecision IntegratorType.
Proof. solve_decision. Defined.

(** FMI++'s [Integrator::Properties], the fields the sources use. *)
Record Properties := { prop_type : IntegratorType; prop_name : string; abstol : fmiTime; reltol : fmiTime; order : Z }.

(** Its [operator !=]. *)
Class IntegratorProperties := { properties_neqb : Properties -> Properties -> bool }.

Definition f64_1em6 : fmiTime := (f64_of_Z 1 / f64_of_Z (10 ^ 6))%f64.

(** [sundials]: the build has [USE_SUNDIALS]. *)
Definition toIntegratorType (sundials : bool) (id : string) : result IntegratorType :=
  if String.eqb "eu" id then Ret eu else
  if String.eqb "rk" id then Ret rk else
  if String.eqb "abm" id then Ret abm else
  if String.eqb "ck" id then Ret ck else
  if String.eqb "dp" id then Ret dp else
  if String.eqb "fe" id then Ret fe else
  if String.eqb "bs" id then Ret bs else
  if String.eqb "ro" id then Ret ro else
  if sundials && String.eqb "bdf" id then Ret bdf else
  if sundials && String.eqb "abm2" id then Ret abm2 else
  throw_config ("Unknown integrator type '" +:+ id +:+ "'").

Definition getDefaultName (type : IntegratorType) : string :=
  match type with
  | eu => "Euler" | rk => "Runge Kutta" | abm => "ABM" | ck => "Cash Karp" | dp => "Dormand Prince"
  | fe => "Fehlberg" | bs => "Bulirsch Stoer" | ro => "Rosenbrock" | bdf => "BDF" | abm2 => "ABM2"
  end.

Definition getDefaultOrder (type : IntegratorType) : Z :=
  match type with
  | eu => 1 | rk => 4 | abm => 5 | ck => 5 | dp => 5 | fe => 8 | bs => 0 | ro => 4 | bdf => 0 | abm2 => 0
  end.

Definition getDefaultAbsoluteTolerance (type : IntegratorType) : fmiTime :=
  match type with
  | eu | rk | abm => S754_infinity false
  | ck | dp | fe | bs | ro | bdf | abm2 => f64_1em6
  end.

Definition getDefaultRelativeTolerance (type : IntegratorType) : fmiTime :=
  match type with
  | eu | rk | abm => S754_infinity false
  | ck | dp | fe | bs | ro | bdf | abm2 => f64_1em6
  end.

Section Solver.
Context `{PropertyTree}.

Definition makeIntegratorProperties (sundials : bool) (configSource : ApplicationContext) : result Properties :=
  let* id := getProperty_def tr_string configSource PROP_INTEGRATOR_TYPE "dp" in
  let* type := toIntegratorType sundials id in
  let* atol :=
    (if hasProperty configSource PROP_ABSOLUTE_TOLERANCE
     then getRealPositiveDoubleProperty configSource PROP_ABSOLUTE_TOLERANCE
     else Ret (getDefaultAbsoluteTolerance type)) in
  let* rtol :=
    (if hasProperty configSource PROP_RELATIVE_TOLERANCE
     then getRealPositiveDoubleProperty configSource PROP_RELATIVE_TOLERANCE
     else Ret (getDefaultRelativeTolerance type)) in
  let* ord := getProperty_def tr_int configSource PROP_INTEGRATION_ORDER (getDefaultOrder type) in
  if ord <? 0 then
    let* s := getProperty tr_string configSource PROP_INTEGRATION_ORDER in
    throw_config_kv "The integration order must be positive" PROP_INTEGRATION_ORDER s
  else
    Ret {| prop_type := type; prop_name := getDefaultName type; abstol := atol; reltol := rtol; order := ord |}.

Record SolverConfiguration := { props_ : Properties; fmuDebugging_ : bool; eventSerachPrecision_ : fmiTime }.

Definition new_SolverConfiguration (sundials : bool) (configSource : ApplicationContext)
    : result SolverConfiguration :=
  let* debugging := getProperty_def tr_bool configSource PROP_FMU_DEBUGGING false in
  let* precision := getRealPositiveDoubleProperty_def configSource PROP_EVENT_SEARCH_PRECISION f64_1em4 in
  let* props := makeIntegratorProperties sundials configSource in
  Ret {| props_ := props; fmuDebugging_ := debugging; eventSerachPrecision_ := precision |}.

(** ** Differences *)

(** [getDiffString(double, double, name)]. *)
Definition getDiffString_double (setVal refVal : fmiTime) (name : string) : string :=
  if negb (Bool.eqb (f64_is_nan setVal) (f64_is_nan refVal)) ||
     (negb (f64_is_nan setVal) && negb (setVal =? refVal)%f64)
  then name +:+ "='" +:+ stream_double setVal +:+ "' is invalid. (E.g. use '" +:+ stream_double refVal +:+ "' instead.) "
  else "".

Definition getDiffString (props refProps : Properties) : string :=
  getDiffString_double (abstol props) (abstol refProps) PROP_ABSOLUTE_TOLERANCE +:+
  getDiffString_double (reltol props) (reltol refProps) PROP_RELATIVE_TOLERANCE +:+
  (if negb (order props =? order refProps)
   then PROP_INTEGRATION_ORDER +:+ "='" +:+ pretty (order props) +:+ "' is invalid. (E.g. use '" +:+
        pretty (order refProps) +:+ "' instead.) "
   else "") +:+
  (if negb (bool_decide (prop_type props = prop_type refProps))
   then PROP_INTEGRATOR_TYPE +:+ "='" +:+ prop_name props +:+ "' is not accepted."
   else "") +:+
  (if negb (String.eqb (prop_name props) (prop_name refProps))
   then "Name " +:+ quoted (prop_name props) +:+ " was changed to " +:+ quoted (prop_name refProps) +:+ "."
   else "").

(** ** Correctness *)

(** Equal settings: NaN equals NaN. *)
Definition same_double (x y : fmiTime) : bool := (f64_is_nan x && f64_is_nan y) || (x =? y)%f64.

Lemma string_app_empty s t : s +:+ t = "" <-> s = "" /\ t = "".
Proof. destruct s; cbn; [naive_solver|]. split; [discriminate|by intros [[=] _]]. Qed.

Lemma getDiffString_double_empty x y name :
  name <> "" -> (getDiffString_double x y name = "" <-> same_double x y = true).
Proof.
  intros Hname. unfold getDiffString_double, same_double.
  destruct (f64_is_nan x) eqn:Hx, (f64_is_nan y) eqn:Hy; cbn [negb Bool.eqb orb andb].
  - done.
  - split; [intros [? _]%string_app_empty; done|]. intros (Hn & _)%f64_eqb_spec. congruence.
  - split; [intros [? _]%string_app_empty; done|]. intros (_ & Hn & _)%f64_eqb_spec. congruence.
  - destruct (x =? y)%f64; cbn [negb]; [done|]. split; [intros [? _]%string_app_empty; done|done].
Qed.

(** The explanation of a rejected configuration.  The text is empty exactly when
    the solver accepted every setting: tolerances equal as numbers, or both NaN,
    and the same order, method and name. *)
Theorem diff_text_complete props refProps :
  getDiffString props refProps = "" <->
  same_double (abstol props) (abstol refProps) = true /\ same_double (reltol props) (reltol refProps) = true /\
  order props = order refProps /\ prop_type props = prop_type refProps /\ prop_name props = prop_name refProps.
Proof.
  unfold getDiffString. rewrite !string_app_empty, !getDiffString_double_empty by done.
  destruct (Z.eqb_spec (order props) (order refProps)), (bool_decide_reflect (prop_type props = prop_type refProps)),
    (String.eqb_spec (prop_name props) (prop_name refProps)); cbn [negb]; naive_solver.
Qed.

(** What the configuration of a solver guarantees. *)
Definition properties_ok (sundials : bool) (ctx : ApplicationContext) (p : Properties) : Prop :=
  (exists id, getProperty_def tr_string ctx PROP_INTEGRATOR_TYPE "dp" = Ret id /\
              toIntegratorType sundials id = Ret (prop_type p)) /\
  prop_name p = getDefaultName (prop_type p) /\
  (f64_zero <? abstol p)%f64 = true /\ (f64_zero <? reltol p)%f64 = true /\ 0 <= order p /\
  (hasProperty ctx PROP_INTEGRATION_ORDER = false -> order p = getDefaultOrder (prop_type p)).

Lemma getProperty_def_wp {T} (tr : string -> option T) (ctx : ApplicationContext) path def :
  wp (getProperty_def tr ctx path def) (fun v => getProperty_def tr ctx path def = Ret v)
     (fun x => is_invalid_argument x = true).
Proof. unfold getProperty_def, getProperty. destruct (negb _); [done|]. by destruct (get_optional _ _ _). Qed.

Lemma property_error_invalid (ctx : ApplicationContext) path x : property_error ctx path x -> is_invalid_argument x = true.
Proof. by intros (msg & s & -> & _). Qed.

Lemma toIntegratorType_wp sundials id :
  wp (toIntegratorType sundials id) (fun t => toIntegratorType sundials id = Ret t)
     (fun x => is_invalid_argument x = true).
Proof. unfold toIntegratorType. by repeat case_scrut. Qed.

Lemma tolerance_wp (ctx : ApplicationContext) path def :
  (f64_zero <? def)%f64 = true ->
  wp (if hasProperty ctx path then getRealPositiveDoubleProperty ctx path else Ret def)
     (fun v => (f64_zero <? v)%f64 = true) (fun x => is_invalid_argument x = true).
Proof.
  intros Hd. destruct (hasProperty ctx path) eqn:Hp; [|done].
  unfold getRealPositiveDoubleProperty. rewrite Hp. cbn [negb].
  eapply wp_mono; [by apply real_positive_def| |apply property_error_invalid]. by intros v [? _].
Qed.

Lemma makeIntegratorProperties_ok sundials ctx :
  wp (makeIntegratorProperties sundials ctx) (properties_ok sundials ctx) (fun x => is_invalid_argument x = true).
Proof.
  unfold makeIntegratorProperties. apply wp_bind. eapply wp_mono; [apply getProperty_def_wp| |done]. intros id Hid. cbn beta.
  apply wp_bind. eapply wp_mono; [apply toIntegratorType_wp| |done]. intros type Ht. cbn beta.
  apply wp_bind. eapply wp_mono; [apply tolerance_wp; by destruct type| |done]. intros atol Ha. cbn beta.
  apply wp_bind. eapply wp_mono; [apply tolerance_wp; by destruct type| |done]. intros rtol Hr. cbn beta.
  apply wp_bind. eapply wp_mono; [apply getProperty_def_wp| |done]. intros ord Ho. cbn beta.
  destruct (Z.ltb_spec ord 0) as [Hneg|Hpos].
  - apply wp_bind. unfold getProperty. by destruct (get_optional _ _ _).
  - cbn. split; [by exists id|]. split_and!; [done..|]. cbn. intros Hno.
    unfold getProperty_def in Ho. rewrite Hno in Ho. by injection Ho as <-.
Qed.

(** The solver's parameters are in range or the configuration is rejected.  The
    method is the configured one, or Dormand-Prince, the name is its name, the
    tolerances and the event search precision are positive, the order is not
    negative and, unless configured, the default of the method; any other
    configuration ends in an exception that [main] reports, and no assertion can
    fail. *)
Theorem solver_configuration_valid sundials ctx :
  wp (new_SolverConfiguration sundials ctx)
     (fun c => properties_ok sundials ctx (props_ c) /\ (f64_zero <? eventSerachPrecision_ c)%f64 = true)
     (fun x => is_invalid_argument x = true).
Proof.
  unfold new_SolverConfiguration. apply wp_bind. eapply wp_mono; [apply getProperty_def_wp| |done]. intros deb _. cbn beta.
  apply wp_bind. eapply wp_mono; [by apply real_positive_def| |apply property_error_invalid]. intros prec [Hp _]. cbn beta.
  apply wp_bind. eapply wp_mono; [apply makeIntegratorProperties_ok| |done]. intros props Hprops. done.
Qed.

End Solver.
