(* ===== verification/EventPredictor.v ===== *)
(** * The multi-step predictor (src/model/EventPredictor.cpp, LazyEvent.cpp)

    The adapter between the event queue and FMI++'s [IncrementalFMU].  It keeps an
    image of all inputs, tells the solver about received events, asks it for the
    next model event, and hands out [LazyEvent]s, which read the model's outputs
    only when someone asks for their variables. *)

From S2P Require Import Prelude Float64 BaseExceptions PortID Format Variables PropertyTree Event FMUTypes.
From S2P Require Import ChannelMapping ApplicationContext ManagedLowLevelFMU SolverConfiguration.

Local Open Scope Z_scope.

Definition PROP_FMU_INSTANCE_NAME : string := "fmu.instanceName".
Definition PROP_DIRECT_DEPENDENCY : string := "app.directOutputDependency".
(** [PROP_DEFAULT_INPUT], the format with the variable's name put in. *)
Definition default_input (name : string) : string := PROP_IN +:+ ".default." +:+ name.

(** The arguments of [IncrementalFMU::init] besides the names. *)
Record init_args := {
  ia_instance : string;
  ia_start : fmiTime;
  ia_lookAheadHorizon : fmiTime;
  ia_lookAheadStepSize : fmiTime;
  ia_integratorStepSize : fmiTime;
}.

(** FMI++'s [IncrementalFMU], a library class.  The methods that exist once per
    type are indexed by the type.  An output array is [None] for a null pointer. *)
Class IncrementalFMU (F : Type) := {
  INVALID_FMI_TIME : fmiTime;
  getTimeDiffResolution : F -> fmiTime;
  predictState : fmiTime -> F -> fmiTime * F;
  updateState : fmiTime -> F -> fmiTime * F;
  updateStateFromTheRight : fmiTime -> F -> fmiTime * F;
  syncState : fmiTime -> input_image -> F -> F;
  fmu_defineOutputs : FMIVariableType -> list string -> F -> F;
  fmu_defineInputs : FMIVariableType -> list string -> F -> F;
  fmu_init : init_args -> (FMIVariableType -> list string) -> input_image -> F -> Z * F;
  getRealOutputs : F -> option (list Z);
  getIntegerOutputs : F -> option (list Z);
  getBooleanOutputs : F -> option (list Z);
  getStringOutputs : F -> option (list string);
  (** the constructor, from the model identifier, the debugging flag and the event
      search precision *)
  new_IncrementalFMU : string -> bool -> fmiTime -> F;
  (** the status code; [fmiOK] is 0 *)
  getLastStatus : F -> Z;
  (** the properties it accepted *)
  setIntegratorProperties : Properties -> F -> Properties * F;
  model_description : Type;
  model_description_ops :: ModelDescription model_description;
  getModelDescription : F -> option model_description;
}.

(** Events the predictor creates or receives: a [LazyEvent] that refers to the
    predictor, or an event with its variables in it. *)
Inductive pevent :=
  | LazyEvent (time : fmiTime)
  | Static (ev : StaticEvent).

#[export] Instance pevent_timed : TimedEvent pevent :=
  { getTime ev := match ev with LazyEvent t => t | Static s => se_time s end }.

Section Predictor.
Context `{PT : PropertyTree} `{IP : IntegratorProperties} {M F : Type} `{MM : ModelManager M} `{!IncrementalFMU F}.

Record EventPredictor := {
  lowLevelFMU_ : ManagedLowLevelFMU M;
  solver_ : F;
  (** not initialised before [init] *)
  assumeDirectDependency_ : option bool;
  outputIDs_ : list (list PortID);
  outputEventVariables_ : list Variable_t;
  outputEventVariablesPopulated_ : bool;
  directOutputPending_ : bool;
  currentTime_ : fmiTime;
  lastPredictedEventTime_ : fmiTime;
  inputIDs_ : list (list PortID);
  image_ : input_image;
}.

Definition set_solver (s : F) (p : EventPredictor) : EventPredictor :=
  {| lowLevelFMU_ := lowLevelFMU_ p; solver_ := s; assumeDirectDependency_ := assumeDirectDependency_ p; outputIDs_ := outputIDs_ p;
     outputEventVariables_ := outputEventVariables_ p;
     outputEventVariablesPopulated_ := outputEventVariablesPopulated_ p;
     directOutputPending_ := directOutputPending_ p; currentTime_ := currentTime_ p;
     lastPredictedEventTime_ := lastPredictedEventTime_ p; inputIDs_ := inputIDs_ p; image_ := image_ p |}.

Definition set_outputs (vars : list Variable_t) (populated : bool) (p : EventPredictor) : EventPredictor :=
  {| lowLevelFMU_ := lowLevelFMU_ p; solver_ := solver_ p; assumeDirectDependency_ := assumeDirectDependency_ p; outputIDs_ := outputIDs_ p;
     outputEventVariables_ := vars; outputEventVariablesPopulated_ := populated;
     directOutputPending_ := directOutputPending_ p; currentTime_ := currentTime_ p;
     lastPredictedEventTime_ := lastPredictedEventTime_ p; inputIDs_ := inputIDs_ p; image_ := image_ p |}.

Definition set_times (current last : fmiTime) (p : EventPredictor) : EventPredictor :=
  {| lowLevelFMU_ := lowLevelFMU_ p; solver_ := solver_ p; assumeDirectDependency_ := assumeDirectDependency_ p; outputIDs_ := outputIDs_ p;
     outputEventVariables_ := outputEventVariables_ p;
     outputEventVariablesPopulated_ := outputEventVariablesPopulated_ p;
     directOutputPending_ := directOutputPending_ p; currentTime_ := current;
     lastPredictedEventTime_ := last; inputIDs_ := inputIDs_ p; image_ := image_ p |}.

Definition set_pending (b : bool) (p : EventPredictor) : EventPredictor :=
  {| lowLevelFMU_ := lowLevelFMU_ p; solver_ := solver_ p; assumeDirectDependency_ := assumeDirectDependency_ p; outputIDs_ := outputIDs_ p;
     outputEventVariables_ := outputEventVariables_ p;
     outputEventVariablesPopulated_ := outputEventVariablesPopulated_ p;
     directOutputPending_ := b; currentTime_ := currentTime_ p;
     lastPredictedEventTime_ := lastPredictedEventTime_ p; inputIDs_ := inputIDs_ p; image_ := image_ p |}.

Definition set_image (i : input_image) (p : EventPredictor) : EventPredictor :=
  {| lowLevelFMU_ := lowLevelFMU_ p; solver_ := solver_ p; assumeDirectDependency_ := assumeDirectDependency_ p; outputIDs_ := outputIDs_ p;
     outputEventVariables_ := outputEventVariables_ p;
     outputEventVariablesPopulated_ := outputEventVariablesPopulated_ p;
     directOutputPending_ := directOutputPending_ p; currentTime_ := currentTime_ p;
     lastPredictedEventTime_ := lastPredictedEventTime_ p; inputIDs_ := inputIDs_ p; image_ := i |}.

Definition output_ids (p : EventPredictor) (t : FMIVariableType) : list PortID :=
  default [] (outputIDs_ p !! type_index t).
Definition input_ids (p : EventPredictor) (t : FMIVariableType) : list PortID :=
  default [] (inputIDs_ p !! type_index t).

(** ** Outputs *)

(** One loop of [fetchOutputs]: an element past the end of the array is undefined
    behaviour. *)
Fixpoint fetch {A} (wrap_any : A -> any) (ids : list PortID) (outputs : list A) : result (list Variable_t) :=
  match ids with
  | [] => Ret []
  | id :: ids' =>
      match outputs with
      | [] => Fault UndefinedBehaviour
      | v :: outputs' =>
          let* r := fetch wrap_any ids' outputs' in Ret (mk_variable id (wrap_any v) :: r)
      end
  end.

Definition fetch_type {A} (wrap_any : A -> any) (ids : list PortID) (outputs : option (list A))
    : result (list Variable_t) :=
  assert_ (match ids, outputs with [], _ => true | _, Some _ => true | _, None => false end) ;;;
  fetch wrap_any ids (default [] outputs).

(** [fetchOutputs], the values appended. *)
Definition fetchOutputs (p : EventPredictor) : result (list Variable_t) :=
  assert_ (5 <=? length (outputIDs_ p))%nat ;;;
  let* r := fetch_type AnyReal (output_ids p fmiTypeReal) (getRealOutputs (solver_ p)) in
  let* i := fetch_type AnyInteger (output_ids p fmiTypeInteger) (getIntegerOutputs (solver_ p)) in
  let* b := fetch_type AnyBoolean (output_ids p fmiTypeBoolean) (getBooleanOutputs (solver_ p)) in
  let* s := fetch_type AnyString (output_ids p fmiTypeString) (getStringOutputs (solver_ p)) in
  Ret (r ++ i ++ b ++ s).

(** [getOutputVariables]; [abs] is the overload for doubles. *)
Definition getOutputVariables (time : fmiTime) (p : EventPredictor)
    : result (list Variable_t * EventPredictor) :=
  let res := getTimeDiffResolution (solver_ p) in
  assert_ (f64_zero <=? time)%f64 ;;;
  assert_ (f64_abs (lastPredictedEventTime_ p - time) <? res)%f64 ;;;
  assert_ (currentTime_ p <=? time + res)%f64 ;;;
  assert_ (negb (outputEventVariablesPopulated_ p) || (currentTime_ p =? lastPredictedEventTime_ p)%f64) ;;;
  let time := lastPredictedEventTime_ p in
  if negb (outputEventVariablesPopulated_ p) then
    assert_ (match outputEventVariables_ p with [] => true | _ => false end) ;;;
    let '(updTime, s) := updateStateFromTheRight time (solver_ p) in
    if (f64_abs (updTime - time) >? f64_of_Z 2 * getTimeDiffResolution s)%f64 then
      throw_solver "Can't update the model's state" time
    else
      let p1 := set_times time (lastPredictedEventTime_ p) (set_solver s p) in
      let* vars := fetchOutputs p1 in
      Ret (vars, set_outputs vars true p1)
  else Ret (outputEventVariables_ p, p).

(** [getVariables] of an event. *)
Definition event_getVariables (ev : pevent) (p : EventPredictor)
    : result (list Variable_t * EventPredictor) :=
  match ev with
  | Static s => Ret (se_var s, p)
  | LazyEvent t =>
      if (currentTime_ p >? t + getTimeDiffResolution (solver_ p))%f64 then
        throw_solver "The event is outdated" t
      else
        let* r := getOutputVariables t p in
        let* ok := event_isValid r.1 in
        assert_ ok ;;; Ret r
  end.

(** [toString] of an event. *)
Definition event_text (ev : pevent) (p : EventPredictor) : result string :=
  match ev with
  | Static s => static_toString s
  | LazyEvent t =>
      let ret := event_toString t +:+ ", " in
      if (currentTime_ p >? t + getTimeDiffResolution (solver_ p))%f64 then Ret (ret +:+ "Event is outdated")
      else if negb (outputEventVariablesPopulated_ p) then Ret (ret +:+ "Event variables were not queried before")
      else let* s := variables_toString (outputEventVariables_ p) in Ret (ret +:+ s)
  end.

(** ** Prediction *)

Definition predictNextFMIEvent (p : EventPredictor) : result (pevent * EventPredictor) :=
  let '(nextEventTime, s) := predictState (currentTime_ p) (solver_ p) in
  if (nextEventTime =? INVALID_FMI_TIME)%f64 then
    throw_solver "Can't predict the next event." (currentTime_ p)
  else
    Ret (LazyEvent nextEventTime, set_times (currentTime_ p) nextEventTime (set_outputs [] false (set_solver s p))).

Definition predictNextDirectDependency (p : EventPredictor) : result (pevent * EventPredictor) :=
  let* outVars := fetchOutputs p in
  let* ev := new_StaticEvent (currentTime_ p) outVars in
  Ret (Static ev, p).

Definition predictNext (p : EventPredictor) : result (pevent * EventPredictor) :=
  match assumeDirectDependency_ p with
  | None => Fault UndefinedBehaviour
  | Some assumeDirectDependency =>
      let* r := (if negb (assumeDirectDependency && directOutputPending_ p)
                 then predictNextFMIEvent p else predictNextDirectDependency p) in
      Ret (r.1, set_pending false r.2)
  end.

(** ** Inputs *)

(** The inner loop of [updateInputImage]: the ports from index [i] on. *)
Fixpoint update_ports {A} (cast : any -> option A) (v : Variable_t) (ports : list PortID) (i : nat)
    (image : list A) (found : bool) : result (list A * bool) :=
  match ports with
  | [] => Ret (image, found)
  | port :: ports' =>
      if portid_eqb (Variables.getID v) port then
        let* d := getValue v in
        match cast d with
        | None => Throw ExnBadAnyCast
        | Some a => if (i <? length image)%nat then update_ports cast v ports' (S i) (<[i:=a]> image) true
                    else Fault UndefinedBehaviour
        end
      else update_ports cast v ports' (S i) image found
  end.

(** The outer loop. *)
Fixpoint update_vars {A} (cast : any -> option A) (vars : list Variable_t) (ports : list PortID)
    (image : list A) (found : bool) : result (list A * bool) :=
  match vars with
  | [] => Ret (image, found)
  | v :: vars' =>
      let* r := update_ports cast v ports 0 image found in update_vars cast vars' ports r.1 r.2
  end.

(** [updateInputImage<InputType>]; the event is asked for its variables each time. *)
Definition updateInputImage_type {A} (cast : any -> option A) (get : input_image -> list A)
    (set : list A -> input_image -> input_image) (type : FMIVariableType) (ev : pevent)
    (p : EventPredictor) : result (bool * EventPredictor) :=
  assert_ (type_index type <? length (inputIDs_ p))%nat ;;;
  let* r := event_getVariables ev p in
  let p1 := r.2 in
  let* u := update_vars cast r.1 (input_ids p1 type) (get (image_ p1)) false in
  Ret (u.2, set_image (set u.1 (image_ p1)) p1).

Definition updateInputImage (ev : pevent) (p : EventPredictor) : result (bool * EventPredictor) :=
  let* r1 := updateInputImage_type any_real realInputImage_ set_real fmiTypeReal ev p in
  let* r2 := updateInputImage_type any_integer integerInputImage_ set_integer fmiTypeInteger ev r1.2 in
  let* r3 := updateInputImage_type any_boolean booleanInputImage_ set_boolean fmiTypeBoolean ev r2.2 in
  let* r4 := updateInputImage_type any_string stringInputImage_ set_string fmiTypeString ev r3.2 in
  Ret (r1.1 || r2.1 || r3.1 || r4.1, r4.2).

(** The time [eventTriggered] applies an event of this time at. *)
Definition align_time (eventTime : fmiTime) (p : EventPredictor) : fmiTime :=
  let res := getTimeDiffResolution (solver_ p) in
  let t1 := if (currentTime_ p - res >? eventTime)%f64 then currentTime_ p else eventTime in
  if ((currentTime_ p - res <=? t1) && (currentTime_ p + res >=? t1))%f64 then currentTime_ p else t1.

Definition predictor_eventTriggered (ev : pevent) (p : EventPredictor) : result EventPredictor :=
  let* r := updateInputImage ev p in
  let p1 := r.2 in
  if r.1 then
    let eventTime := align_time (getTime ev) p1 in
    let '(updTime, s1) := updateState eventTime (solver_ p1) in
    assert_ (updTime =? eventTime)%f64 ;;;
    let s2 := syncState eventTime (image_ p1) s1 in
    Ret (set_pending true (set_times eventTime eventTime (set_outputs [] false (set_solver s2 p1))))
  else Ret p1.

(** ** Construction and initialisation *)

(** The constructor. *)
Definition new_EventPredictor (sundials : bool) (context : ApplicationContext) (mgr : M)
    : result (EventPredictor * M) :=
  let* r := new_ManagedLowLevelFMU context mgr in
  let* solverConfig := new_SolverConfiguration sundials context in
  let solver := new_IncrementalFMU (modelIdentifier_ r.1) (fmuDebugging_ solverConfig)
                  (eventSerachPrecision_ solverConfig) in
  if negb (getLastStatus solver =? 0) then
    Throw (ExnInvalidArgument ("Can't load the incremental FMU " +:+ quoted (modelIdentifier_ r.1) +:+ " in URL " +:+
                               quoted (path_ r.1) +:+ " Got FMI status code " +:+ pretty (getLastStatus solver)))
  else
    let '(intProp, solver) := setIntegratorProperties (props_ solverConfig) solver in
    if properties_neqb intProp (props_ solverConfig) then
      Throw (ExnInvalidArgument ("The integration configuration was rejected: " +:+
                                 getDiffString (props_ solverConfig) intProp))
    else
      Ret ({| lowLevelFMU_ := r.1; solver_ := solver; assumeDirectDependency_ := None;
              outputIDs_ := replicate 5 []; outputEventVariables_ := [];
              outputEventVariablesPopulated_ := false; directOutputPending_ := false;
              currentTime_ := f64_zero; lastPredictedEventTime_ := f64_zero;
              inputIDs_ := replicate 5 []; image_ := empty_image |}, r.2).

Definition configureDefaultApplicationContext (appContext : ApplicationContext) (p : EventPredictor)
    : result ApplicationContext :=
  addSensitiveDefaultProperties appContext (getModelDescription (solver_ p)).

Definition set_ids (outputs inputs : list (list PortID)) (p : EventPredictor) : EventPredictor :=
  {| lowLevelFMU_ := lowLevelFMU_ p; solver_ := solver_ p; assumeDirectDependency_ := assumeDirectDependency_ p;
     outputIDs_ := outputs; outputEventVariables_ := outputEventVariables_ p;
     outputEventVariablesPopulated_ := outputEventVariablesPopulated_ p;
     directOutputPending_ := directOutputPending_ p; currentTime_ := currentTime_ p;
     lastPredictedEventTime_ := lastPredictedEventTime_ p; inputIDs_ := inputs; image_ := image_ p |}.

Definition set_direct (b : bool) (p : EventPredictor) : EventPredictor :=
  {| lowLevelFMU_ := lowLevelFMU_ p; solver_ := solver_ p; assumeDirectDependency_ := Some b;
     outputIDs_ := outputIDs_ p; outputEventVariables_ := outputEventVariables_ p;
     outputEventVariablesPopulated_ := outputEventVariablesPopulated_ p;
     directOutputPending_ := directOutputPending_ p; currentTime_ := currentTime_ p;
     lastPredictedEventTime_ := lastPredictedEventTime_ p; inputIDs_ := inputIDs_ p; image_ := image_ p |}.

Definition defineOutput (mapping : ChannelMapping) (type : FMIVariableType) (p : EventPredictor)
    : result EventPredictor :=
  assert_ (5 <=? length (outputIDs_ p))%nat ;;;
  let* names := getVariableNames mapping type in
  let* ids := getVariableIDs mapping type in
  let p1 := set_ids (<[type_index type := ids]> (outputIDs_ p)) (inputIDs_ p) p in
  Ret (match names with [] => p1 | _ => set_solver (fmu_defineOutputs type names (solver_ p1)) p1 end).

Definition defineOutputs (mapping : ChannelMapping) (p : EventPredictor) : result EventPredictor :=
  let* p1 := foldlM (fun p t => defineOutput mapping t p) p
               [fmiTypeReal; fmiTypeInteger; fmiTypeBoolean; fmiTypeString] in
  let* unknown := getVariableNames mapping fmiTypeUnknown in
  match unknown with
  | [] => Ret p1
  | _ => throw_config "Model variable of unknown type registered"
  end.

(** The loop of [defineInputs<InputType>]: the default of each input. *)
Fixpoint default_values {A} (tr : string -> option A) (context : ApplicationContext) (defaultValue : A)
    (names : list string) : result (list A) :=
  match names with
  | [] => Ret []
  | name :: names' =>
      let* v := getProperty_def tr context (default_input name) defaultValue in
      let* vs := default_values tr context defaultValue names' in Ret (v :: vs)
  end.

Definition defineInputs_type {A} (tr : string -> option A) (set : list A -> input_image -> input_image)
    (defaultValue : A) (context : ApplicationContext) (mapping : ChannelMapping) (type : FMIVariableType)
    (p : EventPredictor) : result EventPredictor :=
  let* names := getVariableNames mapping type in
  let* ids := getVariableIDs mapping type in
  let* image := default_values tr context defaultValue names in
  let p1 := set_image (set image (image_ p)) p in
  let p2 := set_ids (outputIDs_ p1) (<[type_index type := ids]> (inputIDs_ p1)) p1 in
  Ret (set_solver (fmu_defineInputs type names (solver_ p2)) p2).

Definition defineInputs (context : ApplicationContext) (p : EventPredictor)
    : result (EventPredictor * ApplicationContext) :=
  let* r := getInputChannelMapping context in
  let mapping := r.1 in let context := r.2 in
  let* p1 := defineInputs_type tr_fmiReal set_real 0 context mapping fmiTypeReal p in
  let* p2 := defineInputs_type tr_int set_integer 0 context mapping fmiTypeInteger p1 in
  let* p3 := defineInputs_type tr_char set_boolean 0 context mapping fmiTypeBoolean p2 in
  let* p4 := defineInputs_type tr_string set_string "" context mapping fmiTypeString p3 in
  let* unknown := getVariableNames mapping fmiTypeUnknown in
  match unknown with
  | [] => Ret (p4, context)
  | _ => throw_config "Model input variable of unknown type registered"
  end.

Definition initSolver (instanceName : string) (startTime lookAheadHorizon lookAheadStepSize integratorStepSize : fmiTime)
    (context : ApplicationContext) (p : EventPredictor) : result (EventPredictor * ApplicationContext) :=
  let* r := getInputChannelMapping context in
  let inputMapping := r.1 in
  let image := image_ p in
  let* reals := getVariableNames inputMapping fmiTypeReal in
  assert_ (same_length reals (realInputImage_ image)) ;;;
  let* integers := getVariableNames inputMapping fmiTypeInteger in
  assert_ (same_length integers (integerInputImage_ image)) ;;;
  let* booleans := getVariableNames inputMapping fmiTypeBoolean in
  assert_ (same_length booleans (booleanInputImage_ image)) ;;;
  let* strs := getVariableNames inputMapping fmiTypeString in
  assert_ (same_length strs (stringInputImage_ image)) ;;;
  assert_ (lookAheadHorizon >=? lookAheadStepSize)%f64 ;;;
  assert_ (lookAheadStepSize >=? integratorStepSize)%f64 ;;;
  let '(err, s) := fmu_init {| ia_instance := instanceName; ia_start := startTime; ia_lookAheadHorizon := lookAheadHorizon;
                               ia_lookAheadStepSize := lookAheadStepSize; ia_integratorStepSize := integratorStepSize |}
                     (names_of inputMapping) image (solver_ p) in
  if negb (err =? 1) then
    Throw (ExnRuntimeError ("Can't initialize the ModelExchange FMU (" +:+ pretty err +:+ ")"))
  else Ret (set_solver s p, r.2).

Definition init (context : ApplicationContext) (p : EventPredictor) : result (EventPredictor * ApplicationContext) :=
  let* instanceName := getProperty_def tr_string context PROP_FMU_INSTANCE_NAME (modelIdentifier_ (lowLevelFMU_ p)) in
  let* start := getPositiveDoubleProperty context PROP_START_TIME in
  let* lookAheadHorizon := getRealPositiveDoubleProperty context PROP_LOOK_AHEAD_TIME in
  let* lookAheadStepSize :=
    getRealPositiveDoubleProperty_def context PROP_LOOK_AHEAD_STEP_SIZE (lookAheadHorizon / f64_of_Z 10)%f64 in
  let* integratorStepSize :=
    getRealPositiveDoubleProperty_def context PROP_INTEGRATOR_STEP_SIZE (lookAheadStepSize / f64_of_Z 10)%f64 in
  let* direct := getProperty_def tr_bool context PROP_DIRECT_DEPENDENCY false in
  let p := set_direct direct p in
  if (lookAheadHorizon <? lookAheadStepSize)%f64 then
    let* s := getProperty tr_string context PROP_LOOK_AHEAD_STEP_SIZE in
    throw_config_kv "The look ahead step size exceeds the lookahead horizon" PROP_LOOK_AHEAD_STEP_SIZE s
  else if (lookAheadStepSize <? integratorStepSize)%f64 then
    let* s := getProperty tr_string context PROP_INTEGRATOR_STEP_SIZE in
    throw_config_kv "The integrator step size exceeds the look ahead step size" PROP_INTEGRATOR_STEP_SIZE s
  else
    let p := set_outputs [] false (set_times start start p) in
    let* r := getOutputChannelMapping context in
    let* p := defineOutputs r.1 p in
    let* i := defineInputs r.2 p in
    initSolver instanceName start lookAheadHorizon lookAheadStepSize integratorStepSize i.2 i.1.

End Predictor.

Arguments EventPredictor M F {_}.
