(* ===== verification/EventPredictorSpec.v ===== *)
(** * Correctness of the multi-step predictor

    The input image after an event, the invariant of the predictor, and the
    protocol between it and whoever distributes its events. *)

From Stdlib Require Import Sorting.Sorted.
From S2P Require Import Prelude Float64 BaseExceptions PortID Format Variables PropertyTree Event FMUTypes.
From S2P Require Import ChannelMapping ChannelMappingSpec ApplicationContext ApplicationContextSpec.
From S2P Require Import ManagedLowLevelFMU SolverConfiguration EventPredictor.

Local Open Scope Z_scope.

(** ** The image of one type *)

(** The value of the last variable with this identifier. *)
Fixpoint last_data (id : PortID) (vars : list Variable_t) : option any :=
  match vars with
  | [] => None
  | v :: vars' =>
      match last_data id vars' with
      | Some d => Some d
      | None => if portid_eqb (Variables.getID v) id then Some (data_ v) else None
      end
  end.

(** Each port takes the last value the variables have for it. *)
Definition updated {A} (cast : any -> option A) (vars : list Variable_t) (ports : list PortID) (image : list A)
    : list A :=
  zip_with (fun port old => default old (last_data port vars ≫= cast)) ports image.

Definition mentions (vars : list Variable_t) (ports : list PortID) : bool :=
  existsb (fun v => existsb (fun port => portid_eqb (Variables.getID v) port) ports) vars.

(** A valid variable with the identifier of a port has a value the cast accepts. *)
Definition casts {A} (cast : any -> option A) (t : FMIVariableType) : Prop :=
  forall v, isValid v = true -> (id_ v).1 = t -> exists a, cast (data_ v) = Some a.

Lemma casts_real : casts any_real fmiTypeReal.
Proof. intros v Hv Ht. pose proof (typed_accessors v Hv) as A. rewrite Ht in A. destruct A as (b & -> & _). by eexists. Qed.
Lemma casts_integer : casts any_integer fmiTypeInteger.
Proof. intros v Hv Ht. pose proof (typed_accessors v Hv) as A. rewrite Ht in A. destruct A as (b & -> & _). by eexists. Qed.
Lemma casts_boolean : casts any_boolean fmiTypeBoolean.
Proof. intros v Hv Ht. pose proof (typed_accessors v Hv) as A. rewrite Ht in A. destruct A as (b & -> & _). by eexists. Qed.
Lemma casts_string : casts any_string fmiTypeString.
Proof. intros v Hv Ht. pose proof (typed_accessors v Hv) as A. rewrite Ht in A. destruct A as (b & -> & _). by eexists. Qed.

Section Image.
Context {A : Type} (cast : any -> option A) (t : FMIVariableType) (Hcast : casts cast t).

Lemma update_ports_ok v ports pre image found :
  isValid v = true -> Forall (fun port : PortID => port.1 = t) ports -> length image = length ports ->
  update_ports cast v ports (length pre) (pre ++ image) found =
  Ret (pre ++ zip_with (fun port old => if portid_eqb (Variables.getID v) port then default old (cast (data_ v)) else old)
                ports image,
       found || existsb (fun port => portid_eqb (Variables.getID v) port) ports).
Proof.
  intros Hv Hports. revert pre image found; induction Hports as [|port ports Hport Hports IH]; intros pre image found Hlen.
  - destruct image; [|done]. cbn. by rewrite orb_false_r.
  - destruct image as [|old image]; [done|]. injection Hlen as Hlen. cbn [update_ports zip_with existsb].
    destruct (portid_eqb (Variables.getID v) port) eqn:Heq.
    + rewrite getValue_valid by done. cbn [obind].
      destruct (Hcast v Hv) as [a Ha]; [apply portid_eqb_eq in Heq; unfold Variables.getID in Heq; by rewrite Heq|].
      rewrite Ha. rewrite (proj2 (Nat.ltb_lt _ _)) by (rewrite length_app; cbn; lia).
      rewrite insert_app_r_alt, Nat.sub_diag by lia. cbn [list_insert insert].
      rewrite (cons_middle a), (assoc_L (++)).
      replace (S (length pre)) with (length (pre ++ [a])) by (rewrite length_app; cbn; lia).
      rewrite IH by done. rewrite Ha, <- (assoc_L (++)). cbn. by rewrite orb_true_r.
    + rewrite (cons_middle old), (assoc_L (++)).
      replace (S (length pre)) with (length (pre ++ [old])) by (rewrite length_app; cbn; lia).
      rewrite IH by done. rewrite <- (assoc_L (++)). done.
Qed.

Lemma length_updated vars ports image : length image = length ports -> length (updated cast vars ports image) = length ports.
Proof. intros H. unfold updated. rewrite length_zip_with. lia. Qed.

Lemma last_data_cast vars (port : PortID) d :
  Forall (fun v => isValid v = true) vars -> port.1 = t -> last_data port vars = Some d ->
  exists a, cast d = Some a.
Proof.
  intros Hvars Hport. induction Hvars as [|v vars Hv Hvars IH]; cbn [last_data]; [done|].
  destruct (last_data port vars) as [d'|]; [exact IH|].
  destruct (portid_eqb (Variables.getID v) port) eqn:Heq; [|done].
  apply portid_eqb_eq in Heq. intros [= <-]. apply Hcast; [done|]. unfold Variables.getID in Heq. by rewrite Heq.
Qed.

Lemma last_data_None vars ports port : mentions vars ports = false -> port ∈ ports -> last_data port vars = None.
Proof.
  intros Hm Hport. induction vars as [|v vars IH]; [done|]. unfold mentions in Hm. cbn [existsb last_data] in *.
  apply orb_false_iff in Hm as [Hv Hm]. rewrite IH by done.
  destruct (portid_eqb (Variables.getID v) port) eqn:E; [|done].
  apply not_true_iff_false in Hv. destruct Hv. apply existsb_exists. exists port.
  by rewrite <- list_elem_of_In.
Qed.

Lemma updated_unmentioned vars ports image :
  length image = length ports -> mentions vars ports = false -> updated cast vars ports image = image.
Proof.
  intros Hlen Hm. assert (Hnone : Forall (fun port => last_data port vars = None) ports)
    by (apply Forall_forall; intros; by eapply last_data_None).
  clear Hm. unfold updated. revert image Hlen; induction Hnone as [|port ports Hp Hnone IH]; intros [|old image] [=]; [done|].
  cbn [zip_with]. rewrite Hp. cbn. f_equal. by apply IH.
Qed.

(** The two loops compute the updated image. *)
Lemma update_vars_ok vars ports image found :
  Forall (fun v => isValid v = true) vars -> Forall (fun port : PortID => port.1 = t) ports ->
  length image = length ports ->
  update_vars cast vars ports image found = Ret (updated cast vars ports image, found || mentions vars ports).
Proof.
  intros Hvars Hports. revert image found; induction Hvars as [|v vars Hv Hvars IH]; intros image found Hlen; cbn [update_vars].
  - unfold updated, mentions. cbn. rewrite orb_false_r. repeat f_equal.
    clear -Hlen. revert image Hlen; induction ports as [|port ports IH]; intros [|old image] [=]; [done|].
    cbn. f_equal. by apply IH.
  - pose proof (update_ports_ok v ports [] image found Hv Hports Hlen) as Hu. cbn [length app] in Hu. rewrite Hu.
    cbn [obind fst snd]. rewrite IH by (rewrite length_zip_with; lia). unfold mentions. cbn [existsb].
    rewrite orb_assoc. do 2 f_equal. clear Hu IH. unfold updated.
    revert image Hlen; induction Hports as [|port ports Hport Hports IH]; intros [|old image] [=]; [done|].
    cbn [zip_with]. f_equal; [|by apply IH]. cbn [last_data].
    destruct (last_data port vars) as [d|] eqn:Hd; cbn.
    + destruct (last_data_cast vars port d) as [a ->]; done.
    + by destruct (portid_eqb (Variables.getID v) port).
Qed.
End Image.

(** ** The whole image *)

Section Inputs.
Context `{PT : PropertyTree} `{IP : IntegratorProperties} {M F : Type} `{MM : ModelManager M} `{!IncrementalFMU F}.
Implicit Types p : EventPredictor M F.

(** The inputs are registered: five lists of identifiers of their types, and an
    image value for each. *)
Record inputs_ok p : Prop := {
  in_five : length (inputIDs_ p) = 5%nat;
  in_typed t : Forall (fun port : PortID => port.1 = t) (input_ids p t);
  in_real : length (realInputImage_ (image_ p)) = length (input_ids p fmiTypeReal);
  in_integer : length (integerInputImage_ (image_ p)) = length (input_ids p fmiTypeInteger);
  in_boolean : length (booleanInputImage_ (image_ p)) = length (input_ids p fmiTypeBoolean);
  in_string : length (stringInputImage_ (image_ p)) = length (input_ids p fmiTypeString);
}.

Definition image_after (vars : list Variable_t) p : input_image :=
  {| realInputImage_ := updated any_real vars (input_ids p fmiTypeReal) (realInputImage_ (image_ p));
     integerInputImage_ := updated any_integer vars (input_ids p fmiTypeInteger) (integerInputImage_ (image_ p));
     booleanInputImage_ := updated any_boolean vars (input_ids p fmiTypeBoolean) (booleanInputImage_ (image_ p));
     stringInputImage_ := updated any_string vars (input_ids p fmiTypeString) (stringInputImage_ (image_ p)) |}.

(** Does the event carry the value of an input? *)
Definition carries_input (vars : list Variable_t) p : bool :=
  mentions vars (input_ids p fmiTypeReal) || mentions vars (input_ids p fmiTypeInteger) ||
  mentions vars (input_ids p fmiTypeBoolean) || mentions vars (input_ids p fmiTypeString).

(** An event that has told its variables tells them again, and nothing changes. *)
Definition settled (ev : pevent) (vars : list Variable_t) p : Prop :=
  forall i, event_getVariables ev (set_image i p) = Ret (vars, set_image i p).

Lemma settled_static s p : settled (Static s) (se_var s) p.
Proof. done. Qed.

Lemma set_image_id p : set_image (image_ p) p = p.
Proof. by destruct p. Qed.

Lemma image_after_unmentioned vars p :
  inputs_ok p -> carries_input vars p = false -> image_after vars p = image_ p.
Proof.
  intros [_ _ Hr Hi Hb Hs] [[[? ?]%orb_false_iff ?]%orb_false_iff ?]%orb_false_iff. unfold image_after.
  rewrite !updated_unmentioned by done. by destruct (image_ p).
Qed.

Lemma updateInputImage_type_ok {A} (cast : any -> option A) get set t ev vars p p1 :
  casts cast t -> event_getVariables ev p = Ret (vars, p1) -> inputIDs_ p1 = inputIDs_ p ->
  Forall (fun v => isValid v = true) vars -> length (inputIDs_ p) = 5%nat ->
  Forall (fun port : PortID => port.1 = t) (input_ids p1 t) ->
  length (get (image_ p1)) = length (input_ids p1 t) ->
  updateInputImage_type cast get set t ev p =
  Ret (mentions vars (input_ids p1 t),
       set_image (set (updated cast vars (input_ids p1 t) (get (image_ p1))) (image_ p1)) p1).
Proof.
  intros Hc Hev Hin Hvars H5 Htyped Hlen. unfold updateInputImage_type.
  rewrite obind_assert by (rewrite H5; apply Nat.ltb_lt, type_index_lt). rewrite Hev. cbn [obind fst snd].
  by rewrite (update_vars_ok cast t Hc) by done.
Qed.

Lemma updateInputImage_ok ev vars p p1 :
  event_getVariables ev p = Ret (vars, p1) -> inputIDs_ p1 = inputIDs_ p -> settled ev vars p1 -> inputs_ok p1 ->
  Forall (fun v => isValid v = true) vars ->
  updateInputImage ev p = Ret (carries_input vars p1, set_image (image_after vars p1) p1).
Proof.
  intros Hev Hin Hset [H5 Ht Hr Hi Hb Hs] Hvars. unfold updateInputImage.
  rewrite (updateInputImage_type_ok any_real realInputImage_ set_real fmiTypeReal ev vars p p1)
    by (apply casts_real || congruence || done || apply Ht).
  cbn [obind fst snd].
  erewrite (updateInputImage_type_ok any_integer integerInputImage_ set_integer fmiTypeInteger ev vars);
    [|apply casts_integer|apply Hset|done|done|done|apply Ht|exact Hi].
  cbn [obind fst snd].
  erewrite (updateInputImage_type_ok any_boolean booleanInputImage_ set_boolean fmiTypeBoolean ev vars);
    [|apply casts_boolean|apply Hset|done|done|done|apply Ht|exact Hb].
  cbn [obind fst snd].
  erewrite (updateInputImage_type_ok any_string stringInputImage_ set_string fmiTypeString ev vars);
    [|apply casts_string|apply Hset|done|done|done|apply Ht|exact Hs].
  done.
Qed.

(** An external event at the predictor. *)
Lemma external_event_image (s : StaticEvent) p :
  inputs_ok p -> Forall (fun v => isValid v = true) (se_var s) ->
  let t := align_time (se_time s) p in
  (carries_input (se_var s) p = true -> ((updateState t (solver_ p)).1 =? t)%f64 = true) ->
  exists p', predictor_eventTriggered (Static s) p = Ret p' /\
    (carries_input (se_var s) p = false -> p' = p) /\
    (carries_input (se_var s) p = true ->
       image_ p' = image_after (se_var s) p /\ inputIDs_ p' = inputIDs_ p /\ outputIDs_ p' = outputIDs_ p /\
       assumeDirectDependency_ p' = assumeDirectDependency_ p /\
       solver_ p' = syncState t (image_after (se_var s) p) (updateState t (solver_ p)).2 /\
       currentTime_ p' = t /\ lastPredictedEventTime_ p' = t /\ directOutputPending_ p' = true /\
       outputEventVariables_ p' = [] /\ outputEventVariablesPopulated_ p' = false).
Proof.
  intros Hin Hvars t Hupd. unfold predictor_eventTriggered.
  rewrite (updateInputImage_ok (Static s) (se_var s) p p) by (done || apply settled_static).
  cbn [obind fst snd].
  destruct (carries_input (se_var s) p) eqn:Hc.
  - specialize (Hupd eq_refl). cbn [getTime pevent_timed].
    change (align_time (se_time s) (set_image (image_after (se_var s) p) p)) with t.
    change (solver_ (set_image (image_after (se_var s) p) p)) with (solver_ p).
    destruct (updateState t (solver_ p)) as [u s1] eqn:Hu. cbn [fst] in Hupd. rewrite Hupd. cbn [assert_ obind].
    eexists. split; [done|]. by split.
  - exists p. split; [|by split].
    by rewrite image_after_unmentioned, set_image_id.
Qed.

(** C22: an external event reaches the model's inputs.  When the event carries no
    input, nothing changes.  Otherwise each input it mentions takes the last value
    the event has for it, all others keep theirs; the solver is moved to the aligned
    event time and synchronised with exactly that image; the outputs read before
    and the outstanding prediction are dropped. *)
Theorem external_event_applied (s : StaticEvent) p :
  inputs_ok p -> Forall (fun v => isValid v = true) (se_var s) ->
  let t := align_time (se_time s) p in
  (carries_input (se_var s) p = true -> ((updateState t (solver_ p)).1 =? t)%f64 = true) ->
  exists p', predictor_eventTriggered (Static s) p = Ret p' /\
    (carries_input (se_var s) p = false -> p' = p) /\
    (carries_input (se_var s) p = true ->
       image_ p' = image_after (se_var s) p /\ inputIDs_ p' = inputIDs_ p /\ outputIDs_ p' = outputIDs_ p /\
       assumeDirectDependency_ p' = assumeDirectDependency_ p /\
       solver_ p' = syncState t (image_after (se_var s) p) (updateState t (solver_ p)).2 /\
       currentTime_ p' = t /\ lastPredictedEventTime_ p' = t /\ directOutputPending_ p' = true /\
       outputEventVariables_ p' = [] /\ outputEventVariablesPopulated_ p' = false).
Proof. exact (external_event_image s p). Qed.

End Inputs.

(** ** What the library promises *)

(** FMI++'s [IncrementalFMU] as the code relies on it: predicted times are
    doubles that are not in the past, the state is updated to the time asked for,
    and the output arrays have as many elements as outputs were defined. *)
Class IncrementalFMULaws (F : Type) `{IncrementalFMU F} := {
  num_outputs : F -> FMIVariableType -> nat;
  resolution_finite s : f64_is_finite (getTimeDiffResolution s) = true;
  resolution_pos s : (f64_zero <? getTimeDiffResolution s)%f64 = true;
  predicted_time t s t' s' :
    predictState t s = (t', s') -> (t' =? INVALID_FMI_TIME)%f64 = false ->
    f64_is_finite t' = true /\ f64_valid t' = true /\ (t <=? t')%f64 = true;
  updated_time t s : f64_is_nan t = false -> ((updateState t s).1 =? t)%f64 = true;
  real_outputs s : length (default [] (getRealOutputs s)) = num_outputs s fmiTypeReal;
  integer_outputs s : length (default [] (getIntegerOutputs s)) = num_outputs s fmiTypeInteger;
  boolean_outputs s : length (default [] (getBooleanOutputs s)) = num_outputs s fmiTypeBoolean;
  string_outputs s : length (default [] (getStringOutputs s)) = num_outputs s fmiTypeString;
  num_predict t s : num_outputs (predictState t s).2 = num_outputs s;
  num_update t s : num_outputs (updateState t s).2 = num_outputs s;
  num_right t s : num_outputs (updateStateFromTheRight t s).2 = num_outputs s;
  num_sync t i s : num_outputs (syncState t i s) = num_outputs s;
  num_define t names s t' :
    num_outputs (fmu_defineOutputs t names s) t' = if decide (t' = t) then length names else num_outputs s t';
  num_define_inputs t names s : num_outputs (fmu_defineInputs t names s) = num_outputs s;
  num_init a names i s : num_outputs (fmu_init a names i s).2 = num_outputs s;
}.

(** A time in the range of doubles. *)
Definition plain_time (t : fmiTime) : Prop := f64_is_finite t = true /\ f64_valid t = true.

Lemma plain_time_ok t : plain_time t -> (f64_zero <=? t)%f64 = true -> time_ok t = true.
Proof. intros [Hf Hv] H0. unfold time_ok. by rewrite (f64_is_finite_not_nan t Hf), Hv, H0. Qed.

Section Protocol.
Context `{PT : PropertyTree} `{IP : IntegratorProperties} {M F : Type} `{MM : ModelManager M} `{!IncrementalFMU F} `{!IncrementalFMULaws F}.
Implicit Types p : EventPredictor M F.

Definition io_types : list FMIVariableType := [fmiTypeReal; fmiTypeInteger; fmiTypeBoolean; fmiTypeString].

(** All output identifiers, in the order of [fetchOutputs]. *)
Definition all_outputs p : list PortID := concat (map (output_ids p) io_types).

(** The invariant of an initialised predictor. *)
Record wf p : Prop := {
  wf_inputs : inputs_ok p;
  wf_five : length (outputIDs_ p) = 5%nat;
  wf_typed t : t ∈ io_types -> Forall (fun port : PortID => port.1 = t) (output_ids p t);
  wf_disjoint t id : t ∈ io_types -> id ∈ output_ids p t -> id ∉ input_ids p t;
  wf_num t : t ∈ io_types -> (length (output_ids p t) <= num_outputs (solver_ p) t)%nat;
  wf_current : plain_time (currentTime_ p);
  wf_positive : (f64_zero <=? currentTime_ p)%f64 = true;
  wf_last : plain_time (lastPredictedEventTime_ p);
  wf_order : (currentTime_ p <=? lastPredictedEventTime_ p)%f64 = true;
  wf_direct : is_Some (assumeDirectDependency_ p);
  wf_empty : outputEventVariablesPopulated_ p = false -> outputEventVariables_ p = [];
}.

(** The outputs of the solver as variables. *)
Definition outputs_of p : list Variable_t :=
  zip_with (fun id v => mk_variable id (AnyReal v)) (output_ids p fmiTypeReal) (default [] (getRealOutputs (solver_ p))) ++
  zip_with (fun id v => mk_variable id (AnyInteger v)) (output_ids p fmiTypeInteger) (default [] (getIntegerOutputs (solver_ p))) ++
  zip_with (fun id v => mk_variable id (AnyBoolean v)) (output_ids p fmiTypeBoolean) (default [] (getBooleanOutputs (solver_ p))) ++
  zip_with (fun id v => mk_variable id (AnyString v)) (output_ids p fmiTypeString) (default [] (getStringOutputs (solver_ p))).

Lemma fetch_type_ok {A} (wrap_any : A -> any) ids outputs :
  (length ids <= length (default [] outputs))%nat ->
  fetch_type wrap_any ids outputs = Ret (zip_with (fun id v => mk_variable id (wrap_any v)) ids (default [] outputs)).
Proof.
  intros Hlen. unfold fetch_type. rewrite obind_assert.
  - revert Hlen. generalize (default [] outputs). clear outputs.
    induction ids as [|id ids IH]; intros [|v l] Hlen; cbn in *; try done; [lia|].
    rewrite IH by lia. done.
  - destruct ids, outputs; cbn in *; try done. lia.
Qed.

Lemma fetchOutputs_ok p :
  length (outputIDs_ p) = 5%nat ->
  (forall t, t ∈ io_types -> (length (output_ids p t) <= num_outputs (solver_ p) t)%nat) ->
  fetchOutputs p = Ret (outputs_of p).
Proof.
  intros H5 Hnum. unfold fetchOutputs. rewrite obind_assert by (rewrite H5; done).
  rewrite !fetch_type_ok; [done|..].
  - rewrite string_outputs. apply Hnum. unfold io_types. set_solver.
  - rewrite boolean_outputs. apply Hnum. unfold io_types. set_solver.
  - rewrite integer_outputs. apply Hnum. unfold io_types. set_solver.
  - rewrite real_outputs. apply Hnum. unfold io_types. set_solver.
Qed.

(** Their identifiers are the outputs', and each value has the type of its port. *)
Lemma zip_outputs {A} (wrap_any : A -> any) t ids outputs :
  t <> fmiTypeUnknown -> (forall a, any_type (wrap_any a) = Some t) -> Forall (fun port : PortID => port.1 = t) ids ->
  (length ids <= length outputs)%nat ->
  let vars := zip_with (fun id v => mk_variable id (wrap_any v)) ids outputs in
  map id_ vars = ids /\ Forall (fun v => isValid v = true) vars.
Proof.
  intros Hu Ht Hids. revert outputs; induction Hids as [|id ids Hid Hids IH]; intros [|v outputs] Hlen;
    cbn in *; try done; [lia|].
  destruct (IH outputs ltac:(lia)) as [-> Hv]. split; [done|]. constructor; [|done].
  apply isValid_type. cbn. rewrite Hid. by split.
Qed.

Lemma outputs_of_ok p :
  wf p -> map id_ (outputs_of p) = all_outputs p /\ Forall (fun v => isValid v = true) (outputs_of p).
Proof.
  intros Hwf. unfold outputs_of, all_outputs.
  assert (Hnum := wf_num p Hwf). assert (Htyp := wf_typed p Hwf). unfold io_types in *.
  destruct (zip_outputs AnyReal fmiTypeReal (output_ids p fmiTypeReal) (default [] (getRealOutputs (solver_ p))))
    as [H1 H2]; [done|done|apply Htyp; set_solver|rewrite real_outputs; apply Hnum; set_solver|].
  destruct (zip_outputs AnyInteger fmiTypeInteger (output_ids p fmiTypeInteger) (default [] (getIntegerOutputs (solver_ p))))
    as [H3 H4]; [done|done|apply Htyp; set_solver|rewrite integer_outputs; apply Hnum; set_solver|].
  destruct (zip_outputs AnyBoolean fmiTypeBoolean (output_ids p fmiTypeBoolean) (default [] (getBooleanOutputs (solver_ p))))
    as [H5 H6]; [done|done|apply Htyp; set_solver|rewrite boolean_outputs; apply Hnum; set_solver|].
  destruct (zip_outputs AnyString fmiTypeString (output_ids p fmiTypeString) (default [] (getStringOutputs (solver_ p))))
    as [H7 H8]; [done|done|apply Htyp; set_solver|rewrite string_outputs; apply Hnum; set_solver|].
  split.
  - rewrite !map_app, H1, H3, H5, H7. cbn. by rewrite app_nil_r.
  - by rewrite !Forall_app.
Qed.

Lemma all_outputs_typed p id : wf p -> id ∈ all_outputs p -> id.1 ∈ io_types /\ id ∈ output_ids p id.1.
Proof.
  intros Hwf Hid. unfold all_outputs in Hid.
  apply list_elem_of_In, in_concat in Hid as (l & Hl & Hid). apply in_map_iff in Hl as (t & <- & Ht).
  apply list_elem_of_In in Ht. apply list_elem_of_In in Hid.
  pose proof (wf_typed p Hwf t Ht) as Hall. rewrite Forall_forall in Hall. by rewrite (Hall id Hid).
Qed.

(** Variables of outputs are not inputs. *)
Lemma outputs_no_input p vars :
  wf p -> Forall (fun v => id_ v ∈ all_outputs p) vars -> carries_input vars p = false.
Proof.
  intros Hwf Hvars.
  assert (Hm : forall t, mentions vars (input_ids p t) = false).
  { intros t. apply not_true_iff_false. intros (v & Hv & Hp)%existsb_exists.
    apply existsb_exists in Hp as (port & Hport & Heq%portid_eqb_eq). apply list_elem_of_In in Hv, Hport.
    rewrite Forall_forall in Hvars. destruct (all_outputs_typed p (id_ v) Hwf (Hvars v Hv)) as [Ht Hid].
    pose proof (in_typed p (wf_inputs p Hwf) t) as Hall. rewrite Forall_forall in Hall.
    unfold Variables.getID in Heq. rewrite <- Heq in Hport. pose proof (Hall _ Hport) as E. cbn in E.
    rewrite E in Ht, Hid. by apply (wf_disjoint p Hwf t (id_ v) Ht Hid). }
  unfold carries_input. by rewrite !Hm.
Qed.

Lemma ids_all_outputs p vars : map id_ vars = all_outputs p -> Forall (fun v => id_ v ∈ all_outputs p) vars.
Proof. intros <-. apply Forall_forall. intros v Hv. by apply list_elem_of_fmap_2. Qed.

(** ** Lazy events *)

Lemma time_add_ge t s : plain_time t -> (f64_zero <=? t)%f64 = true -> (t <=? t + getTimeDiffResolution s)%f64 = true.
Proof.
  intros Hp Hz. apply f64_add_ge; [by apply plain_time_ok|]. apply f64_ltb_leb, resolution_pos.
Qed.

Lemma time_sub_self t s : plain_time t -> (f64_abs (t - t) <? getTimeDiffResolution s)%f64 = true.
Proof. intros [Hf _]. destruct (f64_sub_self t Hf) as [b ->]. apply resolution_pos. Qed.

Lemma not_outdated c t s :
  plain_time t -> (f64_zero <=? t)%f64 = true -> (c <=? t)%f64 = true ->
  (c >? t + getTimeDiffResolution s)%f64 = false /\ (c <=? t + getTimeDiffResolution s)%f64 = true.
Proof.
  intros Hp Hz Hc. pose proof (time_add_ge t s Hp Hz) as Hadd. split; [f64_order|by eapply f64_leb_trans].
Qed.

(** The state behind the first look at the variables. *)
Definition settled_state (p : EventPredictor M F) : EventPredictor M F :=
  let t := lastPredictedEventTime_ p in
  let p1 := set_times t t (set_solver (updateStateFromTheRight t (solver_ p)).2 p) in
  set_outputs (outputs_of p1) true p1.

Lemma wf_last_pos p : wf p -> (f64_zero <=? lastPredictedEventTime_ p)%f64 = true.
Proof. intros Hwf. eapply f64_leb_trans; [apply (wf_positive p Hwf)|apply (wf_order p Hwf)]. Qed.

Lemma settled_state_wf p : wf p -> wf (settled_state p).
Proof.
  intros Hwf. pose proof (wf_last_pos p Hwf). destruct Hwf as [[] ? ? ? Hnum ? ? Hl ? ? ?].
  split; try done; cbn [settled_state set_outputs set_times set_solver solver_ currentTime_ lastPredictedEventTime_].
  - intros t Ht. rewrite num_right. by apply Hnum.
  - apply f64_leb_refl, f64_is_finite_not_nan, Hl.
Qed.

Lemma all_outputs_settled p : all_outputs (settled_state p) = all_outputs p.
Proof. done. Qed.

(** The first look at the variables of the predicted event. *)
Lemma lazy_first p :
  wf p -> outputEventVariablesPopulated_ p = false ->
  event_getVariables (LazyEvent (lastPredictedEventTime_ p)) p =
    let t := lastPredictedEventTime_ p in let r := updateStateFromTheRight t (solver_ p) in
    if (f64_abs (r.1 - t) >? f64_of_Z 2 * getTimeDiffResolution r.2)%f64
    then throw_solver "Can't update the model's state" t
    else Ret (outputEventVariables_ (settled_state p), settled_state p).
Proof.
  intros Hwf Hpop. set (t := lastPredictedEventTime_ p). cbn zeta.
  pose proof (wf_last_pos p Hwf) as Hz. pose proof (wf_last p Hwf) as Hp. fold t in Hz, Hp.
  destruct (not_outdated (currentTime_ p) t (solver_ p) Hp Hz (wf_order p Hwf)) as [Hout Hin].
  unfold event_getVariables. rewrite Hout. unfold getOutputVariables. fold t.
  rewrite Hz, Hin, time_sub_self, Hpop by done. cbn [assert_ obind negb orb].
  rewrite (wf_empty p Hwf Hpop). cbn [assert_ obind].
  destruct (updateStateFromTheRight t (solver_ p)) as [u s] eqn:Hu. cbn [fst snd].
  destruct (f64_abs (u - t) >? f64_of_Z 2 * getTimeDiffResolution s)%f64; [done|].
  rewrite fetchOutputs_ok; [|exact (wf_five p Hwf)|].
  2: { intros t' Ht'. cbn [set_times set_solver solver_]. replace s with (updateStateFromTheRight t (solver_ p)).2 by by rewrite Hu.
       rewrite num_right. by apply (wf_num p Hwf). }
  cbn [obind fst]. pose proof (settled_state_wf p Hwf) as Hwf'.
  pose proof (outputs_of_ok _ Hwf') as [_ Hv]. unfold settled_state in *. fold t in Hv, Hwf' |- *. rewrite Hu in Hv |- *.
  rewrite event_isValid_all by exact Hv. done.
Qed.

(** Every later look. *)
Lemma lazy_again p i :
  wf p -> outputEventVariablesPopulated_ p = true -> currentTime_ p = lastPredictedEventTime_ p ->
  Forall (fun v => isValid v = true) (outputEventVariables_ p) ->
  event_getVariables (LazyEvent (lastPredictedEventTime_ p)) (set_image i p) =
  Ret (outputEventVariables_ p, set_image i p).
Proof.
  intros Hwf Hpop Hcur Hv. set (t := lastPredictedEventTime_ p) in *.
  pose proof (wf_last_pos p Hwf) as Hz. pose proof (wf_last p Hwf) as Hp. fold t in Hz, Hp.
  destruct (not_outdated (currentTime_ p) t (solver_ p) Hp Hz (wf_order p Hwf)) as [Hout Hin].
  unfold event_getVariables, getOutputVariables.
  cbn [set_image currentTime_ solver_ lastPredictedEventTime_ outputEventVariablesPopulated_ outputEventVariables_].
  fold t. rewrite Hout, Hz, Hin, time_sub_self, Hpop, Hcur by done.
  rewrite (proj2 (f64_eqb_spec t t)) by (pose proof (f64_is_finite_not_nan t (proj1 Hp)); done).
  cbn [assert_ obind negb orb fst]. by rewrite event_isValid_all.
Qed.

(** ** Prediction *)

(** The state behind [predictNext] that returned this event. *)
Definition predicted (p : EventPredictor M F) (ev : pevent) (p1 : EventPredictor M F) : Prop :=
  wf p1 /\ image_ p1 = image_ p /\ inputIDs_ p1 = inputIDs_ p /\ outputIDs_ p1 = outputIDs_ p /\
  currentTime_ p1 = currentTime_ p /\ directOutputPending_ p1 = false /\
  match ev with
  | LazyEvent t => lastPredictedEventTime_ p1 = t /\ outputEventVariablesPopulated_ p1 = false /\
                   (currentTime_ p <=? t)%f64 = true
  | Static s => se_time s = currentTime_ p /\ map id_ (se_var s) = all_outputs p /\
                Forall (fun v => isValid v = true) (se_var s)
  end.

Definition solver_error (x : exn) : Prop := exists e, x = ExnSolver e.

Lemma predictNext_ok p : wf p -> wp (predictNext p) (fun r => predicted p r.1 r.2) solver_error.
Proof.
  intros Hwf. unfold predictNext. destruct (wf_direct p Hwf) as [direct Hd]. rewrite Hd.
  apply wp_bind. destruct (negb (direct && directOutputPending_ p)).
  - unfold predictNextFMIEvent. destruct (predictState (currentTime_ p) (solver_ p)) as [t s] eqn:Hp.
    destruct (t =? INVALID_FMI_TIME)%f64 eqn:Hinv; [cbn; by eexists|].
    destruct (predicted_time _ _ _ _ Hp Hinv) as (Hf & Hv & Hle). cbn [wp fst snd].
    unfold predicted. split; [|done].
    destruct Hwf as [[] ? ? ? Hnum ? ? Hl ? ? ?]. split; try done.
    intros t' Ht'. cbn. replace s with (predictState (currentTime_ p) (solver_ p)).2 by by rewrite Hp.
    rewrite num_predict. by apply Hnum.
  - unfold predictNextDirectDependency. rewrite fetchOutputs_ok; [|exact (wf_five p Hwf)|exact (wf_num p Hwf)].
    cbn [obind]. unfold new_StaticEvent. destruct (outputs_of_ok p Hwf) as [Hids Hv].
    rewrite event_isValid_all by exact Hv. cbn. unfold predicted. split; [|done].
    destruct Hwf as [[] ? ? ? Hnum ? ? Hl ? ? ?]. by split.
Qed.

(** A lazy event carries the time that the solver has predicted. *)
Lemma predictNext_lazy p t p1 :
  predictNext p = Ret (LazyEvent t, p1) -> predictState (currentTime_ p) (solver_ p) = (t, solver_ p1).
Proof.
  unfold predictNext. destruct (assumeDirectDependency_ p) as [direct|]; [|done].
  intros ([ev p2] & Hr & [= -> <-])%obind_Ret_inv. destruct (negb _).
  - unfold predictNextFMIEvent in Hr. destruct (predictState _ _) as [t' s]. destruct (_ =? _)%f64; [done|].
    by injection Hr as <- <-.
  - unfold predictNextDirectDependency in Hr. apply obind_Ret_inv in Hr as (vars & _ & Hr).
    by apply obind_Ret_inv in Hr as (ev' & _ & [=]).
Qed.

(** C21: a predicted event keeps its promise.  The event of [predictNext] has the time that
    the solver predicts.  When its variables are asked for, no assertion fails and the
    event is not outdated: the solver is moved to the event time from the right and, unless
    it stays away from that time by more than twice its resolution, which is the only error,
    the answer is what the solver then holds, type by type the value at the position of each
    output, in the order of the mapping.  These are valid variables; the model time is the
    event time, the inputs are what they were, and asking again gives the same answer and
    leaves the predictor as it is. *)
Theorem lazy_event_settles p t p1 :
  wf p -> predictNext p = Ret (LazyEvent t, p1) ->
  let next := predictState (currentTime_ p) (solver_ p) in
  let moved := updateStateFromTheRight t next.2 in
  let far := (f64_abs (moved.1 - t) >? f64_of_Z 2 * getTimeDiffResolution moved.2)%f64 in
  t = next.1 /\
  wp (event_getVariables (LazyEvent t) p1)
     (fun r => far = false /\ solver_ r.2 = moved.2 /\ r.1 = outputs_of r.2 /\ outputIDs_ r.2 = outputIDs_ p /\
               map id_ r.1 = all_outputs p /\ Forall (fun v => isValid v = true) r.1 /\ currentTime_ r.2 = t /\
               image_ r.2 = image_ p /\ event_getVariables (LazyEvent t) r.2 = Ret r)
     (fun x => far = true /\ x = ExnSolver {| se_what := "Can't update the model's state"; se_timestamp := t |}).
Proof.
  intros Hwf Hpred. pose proof (predictNext_lazy _ _ _ Hpred) as Hnext. cbn zeta. rewrite Hnext. cbn [fst snd].
  split; [done|]. pose proof (predictNext_ok p Hwf) as Hok. rewrite Hpred in Hok. cbn in Hok.
  destruct Hok as (Hwf1 & Himg & _ & Hout & _ & _ & Hlast & Hpop & _). subst t.
  rewrite lazy_first by done. cbn zeta.
  destruct (f64_abs _ >? _)%f64; [done|]. cbn [wp fst snd].
  pose proof (settled_state_wf p1 Hwf1) as Hwf2. destruct (outputs_of_ok _ Hwf2) as [Hids Hv].
  split_and!; [done..|exact Hout| |exact Hv|done|exact Himg|].
  - change (outputEventVariables_ (settled_state p1)) with (outputs_of (settled_state p1)). rewrite Hids.
    unfold all_outputs, output_ids. cbn [settled_state set_outputs set_times set_solver outputIDs_]. by rewrite Hout.
  - pose proof (lazy_again (settled_state p1) (image_ (settled_state p1)) Hwf2 eq_refl eq_refl Hv) as Hagain.
    rewrite set_image_id in Hagain. exact Hagain.
Qed.

(** ** Distributing events *)

Lemma align_time_cases t p : align_time t p = currentTime_ p \/ align_time t p = t.
Proof. unfold align_time. destruct (_ >? _)%f64, (_ && _); auto. Qed.

(** The model is never moved backwards. *)
Lemma align_time_ge t p :
  wf p -> f64_is_nan t = false -> (currentTime_ p <=? align_time t p)%f64 = true.
Proof.
  intros Hwf Hn. pose proof (wf_current p Hwf) as Hc.
  pose proof (f64_is_finite_not_nan _ (proj1 Hc)) as Hcn.
  pose proof (f64_sub_not_nan _ _ Hcn (resolution_finite (solver_ p))) as Hsub.
  pose proof (time_add_ge _ (solver_ p) Hc (wf_positive p Hwf)) as Hadd.
  unfold align_time.
  destruct (currentTime_ p - getTimeDiffResolution (solver_ p) >? t)%f64 eqn:Hpast.
  { destruct (_ && _); by apply f64_leb_refl. }
  apply f64_ltb_false in Hpast; [|done|done]. rewrite Hpast. cbn [andb].
  destruct (currentTime_ p + getTimeDiffResolution (solver_ p) >=? t)%f64 eqn:Hnear; [by apply f64_leb_refl|].
  apply f64_leb_false in Hnear; [|done|by apply f64_leb_not_nan in Hadd as [_ ?]].
  apply f64_ltb_leb. by eapply f64_leb_ltb_trans.
Qed.

Lemma aligned_plain t p : wf p -> plain_time t -> plain_time (align_time t p).
Proof. intros Hwf Ht. destruct (align_time_cases t p) as [-> | ->]; [apply (wf_current p Hwf)|done]. Qed.

(** An external event the subscribers may send. *)
Definition external_ok (s : StaticEvent) : Prop :=
  Forall (fun v => isValid v = true) (se_var s) /\ plain_time (se_time s).

Lemma length_image_after vars p : inputs_ok p -> inputs_ok (set_image (image_after vars p) p).
Proof. intros []. split; try done; by apply length_updated. Qed.

(** One distributed event: the invariant holds again, the model time has not gone
    back, and the image has the values of external events only. *)
Definition distributed_to (p : EventPredictor M F) (vars : list Variable_t) (p' : EventPredictor M F) : Prop :=
  wf p' /\ (currentTime_ p <=? currentTime_ p')%f64 = true /\ image_ p' = image_after vars p /\
  inputIDs_ p' = inputIDs_ p /\ outputIDs_ p' = outputIDs_ p.

Lemma image_after_outputs p : wf p -> image_after [] p = image_ p.
Proof. intros Hwf. apply image_after_unmentioned; [apply (wf_inputs p Hwf)|done]. Qed.

Lemma external_ok_step s p :
  wf p -> external_ok s -> wp (predictor_eventTriggered (Static s) p) (distributed_to p (se_var s)) solver_error.
Proof.
  intros Hwf [Hv Ht]. pose proof (wf_inputs p Hwf) as Hin.
  pose proof (aligned_plain _ p Hwf Ht) as Halign.
  pose proof (align_time_ge _ p Hwf (f64_is_finite_not_nan _ (proj1 Ht))) as Hge.
  destruct (external_event_image s p Hin Hv) as (p' & -> & Hno & Hyes).
  { intros _. apply updated_time, f64_is_finite_not_nan, Halign. }
  cbn [wp]. unfold distributed_to. destruct (carries_input (se_var s) p) eqn:Hc.
  - destruct (Hyes eq_refl) as (Himg & Hii & Hoi & Hd & Hsol & Hcur & Hlast & _ & Hvars & Hpop). split_and!; try congruence.
    assert (Hids : forall t, input_ids p' t = input_ids p t) by (intros; unfold input_ids; by rewrite Hii).
    assert (Hoids : forall t, output_ids p' t = output_ids p t) by (intros; unfold output_ids; by rewrite Hoi).
    destruct Hwf as [[] ? Htyp Hdis Hnum ? ? ? ? ? ?].
    split; rewrite ?Hcur, ?Hlast, ?Hoi, ?Hd; try done.
    + split; [by rewrite Hii|intros t; rewrite Hids; auto|..]; rewrite Hids, Himg; by apply length_updated.
    + intros t. rewrite Hoids. apply Htyp.
    + intros t id. rewrite Hoids, Hids. apply Hdis.
    + intros t Hin'. rewrite Hoids, Hsol, num_sync, num_update. by apply Hnum.
    + by eapply f64_leb_trans.
    + by apply f64_leb_refl, f64_is_finite_not_nan, Halign.
  - rewrite (Hno eq_refl). split_and!; try done.
    + by apply f64_leb_refl, f64_is_finite_not_nan, (wf_current p Hwf).
    + by rewrite image_after_unmentioned.
Qed.

(** The event of the last prediction: when the solver reaches its time, the predictor is
    left as the first look at the variables leaves it. *)
Definition after_own (ev : pevent) (p1 : EventPredictor M F) : EventPredictor M F :=
  match ev with LazyEvent _ => settled_state p1 | Static _ => p1 end.

Lemma own_settles p ev p1 :
  predicted p ev p1 -> wp (predictor_eventTriggered ev p1) (fun p' => p' = after_own ev p1) solver_error.
Proof.
  intros (Hwf1 & Himg & Hii & Hoi & Hcur & _ & Hev). destruct ev as [t|s].
  - destruct Hev as (<- & Hpop & Hle). set (t := lastPredictedEventTime_ p1) in *.
    pose proof (settled_state_wf p1 Hwf1) as Hwf2. destruct (outputs_of_ok _ Hwf2) as [Hids Hv].
    pose proof (lazy_first p1 Hwf1 Hpop) as Hget. cbn zeta in Hget. fold t in Hget.
    unfold predictor_eventTriggered.
    destruct (f64_abs ((updateStateFromTheRight t (solver_ p1)).1 - t) >? _)%f64 eqn:Hfar.
    { unfold updateInputImage, updateInputImage_type. rewrite obind_assert.
      - rewrite Hget. cbn. by eexists.
      - by rewrite (in_five p1 (wf_inputs p1 Hwf1)). }
    rewrite (updateInputImage_ok _ _ _ _ Hget); [|done| |exact (wf_inputs _ Hwf2)|exact Hv].
    2: { intros i. by apply (lazy_again (settled_state p1) i Hwf2). }
    cbn [obind fst snd].
    rewrite (outputs_no_input (settled_state p1)) by (done || by apply ids_all_outputs).
    rewrite image_after_unmentioned, set_image_id; [done|exact (wf_inputs _ Hwf2)|].
    apply outputs_no_input; [done|]. by apply ids_all_outputs.
  - destruct Hev as (Htime & Hids & Hv). assert (Hall : all_outputs p1 = all_outputs p).
    { unfold all_outputs, output_ids. by rewrite Hoi. }
    assert (Hno : carries_input (se_var s) p1 = false).
    { apply outputs_no_input; [done|]. apply ids_all_outputs. by rewrite Hall. }
    destruct (external_event_image s p1 (wf_inputs p1 Hwf1) Hv) as (p' & -> & Hsame & _); [by rewrite Hno|].
    by rewrite (Hsame Hno).
Qed.

Lemma own_ok_step p ev p1 :
  predicted p ev p1 -> wp (predictor_eventTriggered ev p1)
    (fun p' => wf p' /\ (currentTime_ p <=? currentTime_ p')%f64 = true /\ image_ p' = image_ p /\
               inputIDs_ p' = inputIDs_ p /\ outputIDs_ p' = outputIDs_ p) solver_error.
Proof.
  intros Hp. eapply wp_mono; [by apply (own_settles p)| |done]. intros p' ->.
  destruct Hp as (Hwf1 & Himg & Hii & Hoi & Hcur & _ & Hev). destruct ev as [t|s]; cbn [after_own].
  - destruct Hev as (<- & _ & Hle). split_and!; [by apply settled_state_wf|exact Hle|exact Himg|exact Hii|exact Hoi].
  - split_and!; try done. rewrite Hcur. apply f64_leb_refl, f64_is_finite_not_nan. rewrite <- Hcur. apply (wf_current p1 Hwf1).
Qed.

(** The variables of an event can be read, they are valid, and reading changes nothing. *)
Definition shown (ev : pevent) (p : EventPredictor M F) : Prop :=
  exists vars, event_getVariables ev p = Ret (vars, p) /\ Forall (fun v => isValid v = true) vars.

Lemma own_shown p ev p1 : predicted p ev p1 -> shown ev (after_own ev p1).
Proof.
  intros (Hwf1 & _ & _ & _ & _ & _ & Hev). destruct ev as [t|s]; cbn [after_own].
  - destruct Hev as (<- & _ & _). pose proof (settled_state_wf p1 Hwf1) as Hwf2. destruct (outputs_of_ok _ Hwf2) as [_ Hv].
    eexists. split; [|exact Hv].
    pose proof (lazy_again (settled_state p1) (image_ (settled_state p1)) Hwf2 eq_refl eq_refl Hv) as Hl.
    by rewrite set_image_id in Hl.
  - exists (se_var s). by destruct Hev as (_ & _ & Hv).
Qed.

(** ** The protocol with the dispatcher

    What surrounds the predictor, with the queue left out: in each turn a prediction is
    asked for, and then that event is distributed, or an external event that came first.
    An older prediction is not among them: [DispatcherSafety.protocol] asks the same of the
    predictor, and the theorems there show that the dispatcher and its queue keep to it when
    the times of the events are such that the queue can handle them. *)

Inductive distribution := Own | External (s : StaticEvent).

(** Such turns, with the model times after each of them. *)
Fixpoint drive_predictor (ds : list distribution) (p : EventPredictor M F)
    : result (list fmiTime * EventPredictor M F) :=
  match ds with
  | [] => Ret ([], p)
  | d :: ds' =>
      let* r := predictNext p in
      let* p2 := predictor_eventTriggered (match d with Own => r.1 | External s => Static s end) r.2 in
      let* r' := drive_predictor ds' p2 in
      Ret (currentTime_ p2 :: r'.1, r'.2)
  end.

Definition external_variables (d : distribution) : list Variable_t :=
  match d with Own => [] | External s => se_var s end.

Definition distribution_ok (d : distribution) : Prop :=
  match d with Own => True | External s => external_ok s end.

(** The image after the external events among the turns. *)
Definition images_after (ds : list distribution) (p : EventPredictor M F) : input_image :=
  foldl (fun i d => image_after (external_variables d) (set_image i p)) (image_ p) ds.

Lemma turn_ok d p :
  wf p -> distribution_ok d ->
  wp (let* r := predictNext p in
      predictor_eventTriggered (match d with Own => r.1 | External s => Static s end) r.2)
     (distributed_to p (external_variables d)) solver_error.
Proof.
  intros Hwf Hd. apply wp_bind. eapply wp_mono; [by apply predictNext_ok| |done].
  intros [ev p1] Hpred. cbn [fst snd] in *. destruct d as [|s].
  - eapply wp_mono; [by apply own_ok_step| |done]. intros p2 (? & ? & Himg & ? & ?).
    unfold distributed_to. cbn [external_variables]. by rewrite image_after_outputs.
  - destruct Hpred as (Hwf1 & Himg & Hii & Hoi & Hcur & _ & _).
    eapply wp_mono; [by apply external_ok_step| |done]. intros p2 (? & Hle & Himg2 & ? & ?).
    unfold distributed_to. rewrite Hcur in Hle. split_and!; try congruence.
    rewrite Himg2. unfold image_after, input_ids. by rewrite Hii, Himg.
Qed.

Lemma images_after_step ds i p p2 :
  inputIDs_ p2 = inputIDs_ p -> image_ p2 = i ->
  images_after ds p2 = foldl (fun i d => image_after (external_variables d) (set_image i p)) i ds.
Proof.
  intros Hii <-. unfold images_after. generalize (image_ p2). induction ds as [|d ds IH]; intros i; [done|]. cbn [foldl].
  rewrite <- IH. f_equal. unfold image_after, input_ids. cbn. by rewrite Hii.
Qed.

(** C17: the predictor is safe under its protocol.  From an initialised predictor, any
    sequence of turns, in each of which a prediction is made and then this very event is
    distributed or an external one with valid variables, runs without a failed assertion
    and without an outdated event; only the solver can end it, by an exception.  The model time
    never goes back, whatever times external events carry, and in the end each
    input has the value the last external event gave it: the model's own events
    never reach its inputs. *)
Theorem predictor_protocol_safe ds p :
  wf p -> Forall distribution_ok ds ->
  wp (drive_predictor ds p)
     (fun r => wf r.2 /\ length r.1 = length ds /\
               Sorted (fun s t => (s <=? t)%f64 = true) (currentTime_ p :: r.1) /\
               image_ r.2 = images_after ds p)
     solver_error.
Proof.
  intros Hwf Hds. revert p Hwf; induction Hds as [|d ds Hd Hds IH]; intros p Hwf; cbn [drive_predictor].
  - cbn. split_and!; try done. by repeat constructor.
  - pose proof (turn_ok d p Hwf Hd) as Hturn.
    destruct (predictNext p) as [r|x|f]; [|exact Hturn|done]. cbn [obind] in *.
    destruct (predictor_eventTriggered _ r.2) as [p2|x|f]; [|exact Hturn|done]. cbn [obind wp] in *.
    destruct Hturn as (Hwf2 & Hle & Himg & Hii & Hoi).
    apply wp_bind. eapply wp_mono; [by apply IH| |done].
    intros [times p3] (Hwf3 & Hlen & Hsorted & Himg3). cbn [wp fst snd] in *. split_and!; try done.
    + cbn. by rewrite Hlen.
    + constructor; [exact Hsorted|by constructor].
    + rewrite Himg3. unfold images_after at 2. cbn [foldl]. rewrite set_image_id.
      by rewrite (images_after_step ds (image_after (external_variables d) p) p p2).
Qed.

(** ** Initialisation *)

(** A predictor as its constructor leaves it. *)
Definition fresh (p : EventPredictor M F) : Prop := outputIDs_ p = replicate 5 [] /\ inputIDs_ p = replicate 5 [].

Definition defined (mapping : ChannelMapping) (t : FMIVariableType) (p : EventPredictor M F) : EventPredictor M F :=
  let p1 := set_ids (<[type_index t := ids_of mapping t]> (outputIDs_ p)) (inputIDs_ p) p in
  match names_of mapping t with [] => p1 | names => set_solver (fmu_defineOutputs t names (solver_ p1)) p1 end.

Lemma getVariable_lists mapping t names ids :
  getVariableNames mapping t = Ret names -> getVariableIDs mapping t = Ret ids ->
  names = names_of mapping t /\ ids = ids_of mapping t /\ length names = length ids.
Proof.
  unfold getVariableNames, getVariableIDs, aligned_type. intros Hn Hi. inv_ret.
  repeat match goal with H : assert_ _ = Ret _ |- _ => apply assert_Ret_inv in H end.
  split_and!; try done. by apply Nat.eqb_eq.
Qed.

Lemma defineOutput_Ret mapping t p p' :
  defineOutput mapping t p = Ret p' ->
  p' = defined mapping t p /\ length (names_of mapping t) = length (ids_of mapping t).
Proof.
  unfold defineOutput. intros ([] & _ & Hr)%obind_Ret_inv. apply obind_Ret_inv in Hr as (names & Hn & Hr).
  apply obind_Ret_inv in Hr as (ids & Hi & Hr).
  destruct (getVariable_lists mapping t names ids Hn Hi) as (-> & -> & Hlen). injection Hr as <-.
  split; [|done]. unfold defined. by destruct (names_of mapping t).
Qed.

(** Everything but the outputs and the solver. *)
Definition rest (p : EventPredictor M F) :=
  (assumeDirectDependency_ p, outputEventVariables_ p, outputEventVariablesPopulated_ p, currentTime_ p,
   lastPredictedEventTime_ p, inputIDs_ p, image_ p).

Lemma defined_ids mapping t p :
  outputIDs_ (defined mapping t p) = <[type_index t := ids_of mapping t]> (outputIDs_ p) /\
  rest (defined mapping t p) = rest p.
Proof. unfold defined. by destruct (names_of mapping t). Qed.

Lemma defined_num mapping t p t' :
  length (names_of mapping t) = length (ids_of mapping t) ->
  (t' = t -> length (ids_of mapping t) <= num_outputs (solver_ (defined mapping t p)) t')%nat /\
  (t' <> t -> num_outputs (solver_ (defined mapping t p)) t' = num_outputs (solver_ p) t').
Proof.
  intros Hlen. unfold defined. destruct (names_of mapping t) as [|n ns] eqn:E.
  - rewrite <- Hlen. cbn. split; [lia|done].
  - cbn [set_solver set_ids solver_]. rewrite num_define. destruct (decide (t' = t)); [|done].
    rewrite <- Hlen. split; [lia|done].
Qed.

Lemma defineOutputs_fold mapping ts p p' :
  NoDup ts -> length (outputIDs_ p) = 5%nat ->
  foldlM (fun p t => defineOutput mapping t p) p ts = Ret p' ->
  length (outputIDs_ p') = 5%nat /\ rest p' = rest p /\
  (forall t, t ∈ ts -> output_ids p' t = ids_of mapping t /\
                       (length (output_ids p' t) <= num_outputs (solver_ p') t)%nat) /\
  (forall t, t ∉ ts -> output_ids p' t = output_ids p t /\ num_outputs (solver_ p') t = num_outputs (solver_ p) t).
Proof.
  intros Hnd. revert p; induction Hnd as [|t ts Ht Hnd IH]; intros p H5; cbn [foldlM].
  - intros [= <-]. split_and!; [done|done|intros t; set_solver|done].
  - intros (p1 & H1 & Hrest)%obind_Ret_inv. apply defineOutput_Ret in H1 as [-> Hlen].
    destruct (defined_ids mapping t p) as [Hids Hr1].
    assert (H51 : length (outputIDs_ (defined mapping t p)) = 5%nat) by by rewrite Hids, length_insert.
    destruct (IH _ H51 Hrest) as (H5' & Hr & Hin & Hout). split_and!; [done|congruence|..].
    + intros t' Ht'. destruct (decide (t' ∈ ts)) as [Hd|Hd]; [by apply Hin|].
      assert (t' = t) as -> by set_solver. destruct (Hout t Hd) as [-> Hnum]. rewrite Hnum.
      assert (Heq : output_ids (defined mapping t p) t = ids_of mapping t).
      { unfold output_ids. rewrite Hids, list_lookup_insert_eq; [done|]. rewrite H5. apply type_index_lt. }
      rewrite Heq. split; [done|]. by apply (proj1 (defined_num mapping t p t Hlen)).
    + intros t' Ht'. destruct (Hout t') as [-> Hnum]; [set_solver|]. rewrite Hnum.
      assert (Hne : t' <> t) by set_solver. split; [|by apply (proj2 (defined_num mapping t p t' Hlen))].
      unfold output_ids. rewrite Hids, list_lookup_insert_ne; [done|]. intros E. by apply type_index_inj in E.
Qed.

Definition default_ok {A} (tr : string -> option A) (context : ApplicationContext) (def : A) (name : string) (v : A)
    : Prop := getProperty_def tr context (default_input name) def = Ret v.

Lemma default_values_Ret {A} (tr : string -> option A) context def names vs :
  default_values tr context def names = Ret vs -> Forall2 (default_ok tr context def) names vs.
Proof.
  revert vs; induction names as [|name names IH]; intros vs; cbn [default_values]; [intros [= <-]; constructor|].
  intros (v & Hv & Hr)%obind_Ret_inv. apply obind_Ret_inv in Hr as (vs' & Hvs & [= <-]). constructor; [exact Hv|by apply IH].
Qed.

Lemma defineInputs_type_Ret {A} (tr : string -> option A) set def context mapping t p p' :
  defineInputs_type tr set def context mapping t p = Ret p' ->
  exists vs, Forall2 (default_ok tr context def) (names_of mapping t) vs /\
    length (names_of mapping t) = length (ids_of mapping t) /\
    p' = set_solver (fmu_defineInputs t (names_of mapping t) (solver_ p))
           (set_ids (outputIDs_ p) (<[type_index t := ids_of mapping t]> (inputIDs_ p)) (set_image (set vs (image_ p)) p)).
Proof.
  unfold defineInputs_type. intros (names & Hn & Hr)%obind_Ret_inv. apply obind_Ret_inv in Hr as (ids & Hi & Hr).
  destruct (getVariable_lists mapping t names ids Hn Hi) as (-> & -> & Hlen).
  apply obind_Ret_inv in Hr as (vs & Hvs & [= <-]). exists vs. split; [by apply default_values_Ret|done].
Qed.

(** The image holds the configured defaults. *)
Record defaults_ok (context : ApplicationContext) (mapping : ChannelMapping) (i : input_image) : Prop := {
  df_real : Forall2 (default_ok tr_fmiReal context 0) (names_of mapping fmiTypeReal) (realInputImage_ i);
  df_integer : Forall2 (default_ok tr_int context 0) (names_of mapping fmiTypeInteger) (integerInputImage_ i);
  df_boolean : Forall2 (default_ok tr_char context 0) (names_of mapping fmiTypeBoolean) (booleanInputImage_ i);
  df_string : Forall2 (default_ok tr_string context "") (names_of mapping fmiTypeString) (stringInputImage_ i);
}.

Definition names_aligned (mapping : ChannelMapping) : Prop :=
  forall t, t ∈ io_types -> length (names_of mapping t) = length (ids_of mapping t).

(** Everything but the inputs and the solver. *)
Definition rest_outputs (p : EventPredictor M F) :=
  (assumeDirectDependency_ p, outputEventVariables_ p, outputEventVariablesPopulated_ p, currentTime_ p,
   lastPredictedEventTime_ p, outputIDs_ p).

Lemma defineInputs_Ret context mi c2 p p' context' :
  getInputChannelMapping context = Ret (mi, c2) -> inputIDs_ p = replicate 5 [] ->
  defineInputs context p = Ret (p', context') ->
  context' = c2 /\ rest_outputs p' = rest_outputs p /\ num_outputs (solver_ p') = num_outputs (solver_ p) /\
  length (inputIDs_ p') = 5%nat /\ (forall t, t ∈ io_types -> input_ids p' t = ids_of mi t) /\
  input_ids p' fmiTypeUnknown = [] /\ defaults_ok c2 mi (image_ p') /\ names_aligned mi.
Proof.
  intros Hmap Hfresh. unfold defineInputs. rewrite Hmap. cbn [obind fst snd].
  intros (p1 & H1 & Hr)%obind_Ret_inv. apply obind_Ret_inv in Hr as (p2 & H2 & Hr).
  apply obind_Ret_inv in Hr as (p3 & H3 & Hr). apply obind_Ret_inv in Hr as (p4 & H4 & Hr).
  apply obind_Ret_inv in Hr as (unknown & _ & Hr). destruct unknown; [|discriminate Hr]. injection Hr as <- <-.
  apply defineInputs_type_Ret in H1 as (v1 & D1 & L1 & ->). apply defineInputs_type_Ret in H2 as (v2 & D2 & L2 & ->).
  apply defineInputs_type_Ret in H3 as (v3 & D3 & L3 & ->). apply defineInputs_type_Ret in H4 as (v4 & D4 & L4 & ->).
  unfold rest_outputs, input_ids. cbn [set_solver set_ids set_image solver_ inputIDs_ outputIDs_ image_]. rewrite Hfresh.
  rewrite !num_define_inputs. split_and!; try done.
  - intros t Ht. unfold io_types in Ht. repeat (apply elem_of_cons in Ht as [->|Ht]); try done. by apply not_elem_of_nil in Ht.
  - intros t Ht. unfold io_types in Ht. repeat (apply elem_of_cons in Ht as [->|Ht]); try done. by apply not_elem_of_nil in Ht.
Qed.

Lemma initSolver_Ret name start h s i context p p' context' :
  initSolver name start h s i context p = Ret (p', context') ->
  exists sol, p' = set_solver sol p /\ num_outputs sol = num_outputs (solver_ p) /\
    exists m, getInputChannelMapping context = Ret (m, context').
Proof.
  unfold initSolver. intros ([m c] & Hm & Hr)%obind_Ret_inv. cbn [fst snd] in Hr.
  do 6 (apply obind_Ret_inv in Hr as (? & _ & Hr)). do 4 (apply obind_Ret_inv in Hr as (? & _ & Hr)).
  destruct (fmu_init _ _ _ _) as [err sol] eqn:Hi. destruct (negb _); [discriminate Hr|]. injection Hr as <- <-.
  exists sol. split_and!; [done| |by exists m].
  match type of Hi with fmu_init ?a ?b ?c ?d = _ => change sol with (err, sol).2; rewrite <- Hi; apply num_init end.
Qed.

Lemma defined_inputs_ok context mi p :
  length (inputIDs_ p) = 5%nat -> (forall t, t ∈ io_types -> input_ids p t = ids_of mi t) ->
  input_ids p fmiTypeUnknown = [] -> (forall t, Forall (fun id : PortID => id.1 = t) (ids_of mi t)) ->
  names_aligned mi -> defaults_ok context mi (image_ p) -> inputs_ok p.
Proof.
  intros H5 Hids Hu Htyped Hal [Dr Di Db Ds]. unfold names_aligned, io_types in *.
  split; [done| |rewrite Hids by set_solver; rewrite <- Hal by set_solver; symmetry; by eapply Forall2_length..].
  intros t. destruct (decide (t = fmiTypeUnknown)) as [->|Hne]; [by rewrite Hu|].
  rewrite Hids; [apply Htyped|]. destruct t; set_solver.
Qed.

Lemma start_time_plain context start :
  (forall s x, tr_double s = Some x -> plain_time x) ->
  getPositiveDoubleProperty context PROP_START_TIME = Ret start ->
  plain_time start /\ (f64_zero <=? start)%f64 = true.
Proof.
  intros Hdouble. unfold getPositiveDoubleProperty. destruct (hasProperty context PROP_START_TIME) eqn:Hp; [|done]. cbn [negb].
  intros Hg. destruct (wp_Ret_inv _ _ _ _ (positive_def context PROP_START_TIME f64_zero eq_refl) Hg) as [Hpos Hv].
  split; [|done]. unfold getProperty_def in Hv. rewrite Hp in Hv. cbn [negb] in Hv. unfold getProperty, get_optional in Hv.
  destruct (get_child_optional _ _) as [c|]; [|done]. destruct (tr_double (pt_data c)) as [x|] eqn:Hx; [|done].
  injection Hv as <-. by eapply Hdouble.
Qed.

Context `{!PropertyTreeLaws _}.

(** The steps of [init]. *)
Lemma init_steps context p p' context' :
  init context p = Ret (p', context') ->
  exists name start hor step istep direct mo c1 mi c2 po pi ci,
    getPositiveDoubleProperty context PROP_START_TIME = Ret start /\
    getOutputChannelMapping context = Ret (mo, c1) /\ getInputChannelMapping c1 = Ret (mi, c2) /\
    defineOutputs mo (set_outputs [] false (set_times start start (set_direct direct p))) = Ret po /\
    defineInputs c1 po = Ret (pi, ci) /\ initSolver name start hor step istep ci pi = Ret (p', context') /\ context' = c2.
Proof.
  unfold init. intros (name & _ & Hr)%obind_Ret_inv. apply obind_Ret_inv in Hr as (start & Hstart & Hr).
  apply obind_Ret_inv in Hr as (hor & _ & Hr). apply obind_Ret_inv in Hr as (step & _ & Hr).
  apply obind_Ret_inv in Hr as (istep & _ & Hr). apply obind_Ret_inv in Hr as (direct & _ & Hr).
  destruct (hor <? step)%f64; [by destruct (getProperty tr_string context PROP_LOOK_AHEAD_STEP_SIZE)|].
  destruct (step <? istep)%f64; [by destruct (getProperty tr_string context PROP_INTEGRATOR_STEP_SIZE)|].
  apply obind_Ret_inv in Hr as ([mo c1] & Hmo & Hr). apply obind_Ret_inv in Hr as (po & Hpo & Hr).
  apply obind_Ret_inv in Hr as ([pi ci] & Hpi & Hr). cbn [fst snd] in *.
  destruct (getInputChannelMapping c1) as [[mi c2]| |] eqn:Hmi; [|unfold defineInputs in Hpi; by rewrite Hmi in Hpi..].
  exists name, start, hor, step, istep, direct, mo, c1, mi, c2, po, pi, ci. split_and!; [done..|].
  assert (ci = c2) as ->.
  { unfold defineInputs in Hpi. rewrite Hmi in Hpi. cbn [obind fst snd] in Hpi.
    do 5 apply obind_Ret_inv in Hpi as (? & _ & Hpi). by case_match; simplify_eq. }
  apply initSolver_Ret in Hr as (_ & _ & _ & m & Hm). apply getInputChannelMapping_inv in Hmi as (_ & Hc & _).
  cbn in Hc. rewrite (getInputChannelMapping_cached _ _ Hc) in Hm. by injection Hm.
Qed.

(** No output has an unknown type. *)
Lemma defineOutputs_known mapping p p' : defineOutputs mapping p = Ret p' -> names_of mapping fmiTypeUnknown = [].
Proof.
  unfold defineOutputs. intros (po & _ & Hu)%obind_Ret_inv. apply obind_Ret_inv in Hu as (unknown & Hn & Hu).
  unfold getVariableNames in Hn. apply obind_Ret_inv in Hn as (? & _ & [= <-]). by destruct (names_of mapping fmiTypeUnknown).
Qed.

Lemma prepared_init_ok context c1 c2 mo mi p p' context' :
  (forall s x, tr_double s = Some x -> plain_time x) -> fresh p ->
  outputChannelMap_ context = None -> inputChannelMap_ context = None -> drawer_wf (portIDSource_ context) ->
  room (portIDSource_ context) (length (prefix_ports context PROP_OUT) + length (prefix_ports context PROP_IN)) ->
  getOutputChannelMapping context = Ret (mo, c1) -> getInputChannelMapping c1 = Ret (mi, c2) ->
  init context p = Ret (p', context') ->
  wf p' /\ context' = c2 /\ getPositiveDoubleProperty context PROP_START_TIME = Ret (currentTime_ p') /\
  (forall t, t ∈ io_types -> output_ids p' t = ids_of mo t /\ input_ids p' t = ids_of mi t) /\
  defaults_ok c2 mi (image_ p').
Proof.
  intros Hdouble [Hfo Hfi] Ho Hi Hdr Hroom Hmo Hmi Hr.
  destruct (init_steps _ _ _ _ Hr) as (name & start & hor & step & istep & direct & mo' & c1' & mi' & c2' & po & pi & ci &
    Hstart & Hmo' & Hmi' & Hpo & Hpi & Hsolver & Hc2').
  replace mo' with mo in * by congruence. replace c1' with c1 in * by congruence.
  replace mi' with mi in * by congruence. replace c2' with c2 in * by congruence. clear Hr Hmo' Hmi'. rename Hsolver into Hr.
  subst context'.
  apply initSolver_Ret in Hr as (sol & -> & Hnum & _).
  unfold defineOutputs in Hpo. apply obind_Ret_inv in Hpo as (po' & Hpo & Hu).
  apply obind_Ret_inv in Hu as (unknown & _ & Hu). destruct unknown; [|discriminate Hu]. injection Hu as ->.
  apply defineOutputs_fold in Hpo as (H5 & Hrest & Hout & _); [|repeat constructor; set_solver|cbn; by rewrite Hfo].
  injection Hrest as Hd Hvars Hpop Hcur Hlast Hii Himg. cbn in Hd, Hvars, Hpop, Hcur, Hlast, Hii, Himg.
  destruct (defineInputs_Ret c1 mi c2 po pi ci Hmi) as (-> & Hrest2 & Hnum2 & Hi5 & Hin & Hiu & Hdef & Hal); [congruence|done|].
  injection Hrest2 as Hd2 Hvars2 Hpop2 Hcur2 Hlast2 Hoi2.
  assert (Hids : forall t, t ∈ io_types -> output_ids pi t = ids_of mo t /\ input_ids pi t = ids_of mi t).
  { intros t Ht. split; [|by apply Hin]. unfold output_ids. rewrite Hoi2. by apply Hout. }
  destruct (start_time_plain context start Hdouble Hstart) as [Hplain Hpos].
  cbn [set_solver currentTime_ image_]. rewrite Hcur2, Hcur. split; [|by split_and!].
  split; cbn [set_solver solver_ outputIDs_ currentTime_ lastPredictedEventTime_ assumeDirectDependency_
              outputEventVariables_ outputEventVariablesPopulated_];
    rewrite ?Hcur2, ?Hcur, ?Hlast2, ?Hlast, ?Hd2, ?Hd, ?Hoi2, ?Hvars2, ?Hvars; try done.
  - assert (Hok : inputs_ok pi); [|by destruct Hok].
    apply (defined_inputs_ok c2 mi pi); try done. intros t. by apply (mappings_by_type context c1 c2 mo mi).
  - intros t Ht. change (Forall (fun port : PortID => port.1 = t) (output_ids pi t)). rewrite (proj1 (Hids t Ht)).
    by apply (mappings_by_type context c1 c2 mo mi).
  - intros t id Ht. change (id ∈ output_ids pi t -> id ∉ input_ids pi t). destruct (Hids t Ht) as [-> ->].
    by apply (mappings_by_type context c1 c2 mo mi).
  - intros t Ht. change (length (output_ids pi t) <= num_outputs sol t)%nat. rewrite Hnum, Hnum2.
    unfold output_ids. rewrite Hoi2. by apply Hout.
  - by apply f64_leb_refl, f64_is_finite_not_nan, Hplain.
Qed.

(** C29: initialisation establishes the invariant.  When [init] returns, the
    predictor is ready for the protocol: outputs and inputs are those of the two
    mappings, which share no identifier, the image holds the configured default of
    each input or the default of its type, the model time is the configured start
    time, and the context has the same mappings as before. *)
Theorem init_establishes context c1 c2 mo mi p p' context' :
  (forall s x, tr_double s = Some x -> plain_time x) -> fresh p ->
  outputChannelMap_ context = None -> inputChannelMap_ context = None -> drawer_wf (portIDSource_ context) ->
  room (portIDSource_ context) (length (prefix_ports context PROP_OUT) + length (prefix_ports context PROP_IN)) ->
  getOutputChannelMapping context = Ret (mo, c1) -> getInputChannelMapping c1 = Ret (mi, c2) ->
  init context p = Ret (p', context') ->
  wf p' /\ context' = c2 /\ getPositiveDoubleProperty context PROP_START_TIME = Ret (currentTime_ p') /\
  (forall t, t ∈ io_types -> output_ids p' t = ids_of mo t /\ input_ids p' t = ids_of mi t) /\
  defaults_ok c2 mi (image_ p').
Proof. by apply prepared_init_ok. Qed.

End Protocol.

(** ** A concrete model

    One input, whose value is the real output; a time event every second. *)

Record sample_fmu := { sf_input : list Z; sf_real : nat; sf_integer : nat; sf_boolean : nat; sf_string : nat; sf_unknown : nat }.

Definition sf_num (s : sample_fmu) (t : FMIVariableType) : nat :=
  match t with
  | fmiTypeReal => sf_real s | fmiTypeInteger => sf_integer s | fmiTypeBoolean => sf_boolean s
  | fmiTypeString => sf_string s | fmiTypeUnknown => sf_unknown s
  end.

Definition sf_define (t : FMIVariableType) (n : nat) (s : sample_fmu) : sample_fmu :=
  let count t' := if decide (t' = t) then n else sf_num s t' in
  {| sf_input := sf_input s; sf_real := count fmiTypeReal; sf_integer := count fmiTypeInteger;
     sf_boolean := count fmiTypeBoolean; sf_string := count fmiTypeString; sf_unknown := count fmiTypeUnknown |}.

Definition sf_sync (i : input_image) (s : sample_fmu) : sample_fmu :=
  {| sf_input := realInputImage_ i; sf_real := sf_real s; sf_integer := sf_integer s; sf_boolean := sf_boolean s;
     sf_string := sf_string s; sf_unknown := sf_unknown s |}.

Definition sf_next (t : fmiTime) : fmiTime :=
  let t' := (t + f64_of_Z 1)%f64 in
  if f64_is_finite t' && f64_valid t' && (t <=? t')%f64 then t' else S754_infinity false.

#[export] Instance unit_description : ModelDescription unit :=
  { hasDefaultExperiment _ := false; defaultStartTime _ := f64_zero }.

#[export] Instance sample_properties : IntegratorProperties := { properties_neqb _ _ := false }.

#[export] Instance sample_solver : IncrementalFMU sample_fmu := {
  INVALID_FMI_TIME := S754_infinity false;
  getTimeDiffResolution _ := f64_1em4;
  predictState t s := (sf_next t, s);
  updateState t s := (t, s);
  updateStateFromTheRight t s := (t, s);
  syncState _ i s := sf_sync i s;
  fmu_defineOutputs t names s := sf_define t (length names) s;
  fmu_defineInputs _ _ s := s;
  fmu_init _ _ i s := (1, sf_sync i s);
  getRealOutputs s := Some (replicate (sf_real s) (default 0 (head (sf_input s))));
  getIntegerOutputs s := Some (replicate (sf_integer s) 0);
  getBooleanOutputs s := Some (replicate (sf_boolean s) 0);
  getStringOutputs s := Some (replicate (sf_string s) "");
  new_IncrementalFMU _ _ _ :=
    {| sf_input := []; sf_real := 0; sf_integer := 0; sf_boolean := 0; sf_string := 0; sf_unknown := 0 |};
  getLastStatus _ := 0;
  setIntegratorProperties props s := (props, s);
  model_description := unit;
  getModelDescription _ := Some tt;
}.

#[export] Instance sample_solver_laws : IncrementalFMULaws sample_fmu.
Proof.
  refine {| num_outputs := sf_num |}; try (intros; done).
  - intros t s t' s' [= <- <-]. unfold sf_next.
    destruct (f64_is_finite (t + f64_of_Z 1)%f64 && f64_valid (t + f64_of_Z 1)%f64 && (t <=? t + f64_of_Z 1)%f64) eqn:E;
      [|done].
    intros _. apply andb_prop in E as [[? ?]%andb_prop ?]. done.
  - intros t s Hn. apply f64_eqb_spec. done.
  - intros s. apply length_replicate.
  - intros s. apply length_replicate.
  - intros s. apply length_replicate.
  - intros s. apply length_replicate.
  - intros t names s []; done.
Defined.

#[export] Instance sample_manager : ModelManager unit := {
  loadFMU_named _ _ m := (success, fmi_2_0_me, m);
  loadFMU _ m := (success, fmi_2_0_me, "sample", m);
  bare_fmu := unit;
  getSlave _ _ := tt;
  getModel _ _ := tt;
  getInstance _ _ := tt;
}.

Definition sample_low_level : ManagedLowLevelFMU unit :=
  {| path_ := "file:sample"; modelIdentifier_ := "sample"; type_ := fmi_2_0_me; fmuLock_ := Some tt |}.

(** At time 0: the output 0 and the input 1, with the value 1.0. *)
Definition sample_predictor : EventPredictor unit sample_fmu :=
  {| lowLevelFMU_ := sample_low_level;
     solver_ := {| sf_input := [Z.shiftl 1023 52]; sf_real := 1; sf_integer := 0; sf_boolean := 0; sf_string := 0;
                   sf_unknown := 0 |};
     assumeDirectDependency_ := Some false; outputIDs_ := [[(fmiTypeReal, 0)]; []; []; []; []];
     outputEventVariables_ := []; outputEventVariablesPopulated_ := false; directOutputPending_ := false;
     currentTime_ := f64_zero; lastPredictedEventTime_ := f64_zero;
     inputIDs_ := [[(fmiTypeReal, 1)]; []; []; []; []];
     image_ := {| realInputImage_ := [Z.shiftl 1023 52]; integerInputImage_ := []; booleanInputImage_ := [];
                  stringInputImage_ := [] |} |}.

Lemma sample_inputs_ok : inputs_ok sample_predictor.
Proof. split; try done. intros []; repeat constructor. Qed.

Lemma sample_wf : wf sample_predictor.
Proof.
  split; try done; [apply sample_inputs_ok|..].
  - intros [] _; repeat constructor.
  - intros [] id _; cbn; set_solver.
  - intros [] _; apply Nat.leb_le; reflexivity.
Qed.

(** An event at 0.25 s that sets the input to 2.0 and a port nobody knows. *)
Definition sample_external : StaticEvent :=
  {| se_time := S754_finite false (2 ^ 52) (-54);
     se_var := [mk_variable (fmiTypeReal, 1) (AnyReal (Z.shiftl 1024 52)); mk_variable (fmiTypeInteger, 7) (AnyInteger 3)] |}.

Lemma external_event_applied_witness :
  exists p', predictor_eventTriggered (Static sample_external) sample_predictor = Ret p' /\
    (carries_input (se_var sample_external) sample_predictor = false -> p' = sample_predictor) /\
    realInputImage_ (image_ p') = [Z.shiftl 1024 52] /\ currentTime_ p' = se_time sample_external.
Proof.
  destruct (external_event_applied sample_external sample_predictor sample_inputs_ok) as (p' & He & Hno & Hyes).
  - repeat constructor.
  - intros _. vm_compute. reflexivity.
  - exists p'. split; [exact He|]. split; [exact Hno|].
    destruct (Hyes eq_refl) as (Himg & _ & _ & _ & _ & Hcur & _). rewrite Himg, Hcur. vm_compute. done.
Defined.

Definition sample_predicted : EventPredictor unit sample_fmu :=
  match predictNext sample_predictor with Ret (_, p) => p | _ => sample_predictor end.

Lemma lazy_event_settles_witness :
  predictNext sample_predictor = Ret (LazyEvent (f64_of_Z 1), sample_predicted) /\
  exists p2, event_getVariables (LazyEvent (f64_of_Z 1)) sample_predicted =
      Ret ([mk_variable (fmiTypeReal, 0) (AnyReal (Z.shiftl 1023 52))], p2) /\ currentTime_ p2 = f64_of_Z 1.
Proof.
  assert (Hp : predictNext sample_predictor = Ret (LazyEvent (f64_of_Z 1), sample_predicted)) by reflexivity.
  split; [exact Hp|]. destruct (lazy_event_settles sample_predictor _ _ sample_wf Hp) as [_ Hl].
  destruct (event_getVariables _ _) as [r|x|]; cbn [wp] in Hl; [|by destruct Hl|done].
  destruct Hl as (_ & Hs & Hv & Ho & _ & _ & Ht & _). exists r.2. split; [|exact Ht].
  destruct r as [vars p2]. cbn [fst snd] in *. f_equal. f_equal. rewrite Hv. unfold outputs_of, output_ids.
  rewrite Hs, Ho. reflexivity.
Defined.

(** The second turn distributes an external event that is late. *)
Definition sample_distribution : list distribution := [Own; External sample_external; Own; Own].

Lemma predictor_protocol_safe_witness :
  wp (drive_predictor sample_distribution sample_predictor)
     (fun r => length r.1 = 4%nat /\ Sorted (fun s t => (s <=? t)%f64 = true) (f64_zero :: r.1) /\
               image_ r.2 = images_after sample_distribution sample_predictor)
     solver_error /\
  match drive_predictor sample_distribution sample_predictor with
  | Ret (times, p) => times = [f64_of_Z 1; f64_of_Z 1; f64_of_Z 2; f64_of_Z 3] /\
                      realInputImage_ (image_ p) = [Z.shiftl 1024 52]
  | _ => False
  end.
Proof.
  split; [|vm_compute; done].
  pose proof (predictor_protocol_safe sample_distribution sample_predictor sample_wf) as Hs.
  destruct (drive_predictor _ _) as [r|x|f]; cbn [wp] in *.
  - destruct Hs as (_ & ? & ? & ?); [repeat constructor|]. by split_and!.
  - apply Hs. repeat constructor.
  - apply Hs. repeat constructor.
Defined.

(** A configuration with an output and an input. *)
Definition model_args : list string :=
  ["fmu.path=file:sample"; "app.startTime=0.5"; "app.lookAheadTime=1"; "out.0.0=x"; "out.0.0.type=0"; "in.0.0=u";
   "in.0.0.type=0"; "in.default.u=2"].

Definition model_context : ApplicationContext (H := tree_ptree) :=
  match addCommandlineProperties_vector new_ApplicationContext model_args with
  | Ret ctx => ctx
  | _ => new_ApplicationContext
  end.

Definition model_fresh : EventPredictor unit sample_fmu :=
  match new_EventPredictor false model_context tt with Ret (p, _) => p | _ => sample_predictor end.

Definition model_out : ChannelMapping (H := tree_ptree) :=
  match getOutputChannelMapping model_context with Ret (m, _) => m | _ => empty_ChannelMapping end.
Definition model_c1 : ApplicationContext (H := tree_ptree) :=
  match getOutputChannelMapping model_context with Ret (_, c) => c | _ => new_ApplicationContext end.
Definition model_in : ChannelMapping (H := tree_ptree) :=
  match getInputChannelMapping model_c1 with Ret (m, _) => m | _ => empty_ChannelMapping end.
Definition model_c2 : ApplicationContext (H := tree_ptree) :=
  match getInputChannelMapping model_c1 with Ret (_, c) => c | _ => new_ApplicationContext end.
Definition model_ready : EventPredictor unit sample_fmu :=
  match init model_context model_fresh with Ret (p, _) => p | _ => sample_predictor end.

Lemma model_out_built : getOutputChannelMapping model_context = Ret (model_out, model_c1).
Proof. apply is_Ret_pair. vm_compute. reflexivity. Qed.

Lemma model_in_built : getInputChannelMapping model_c1 = Ret (model_in, model_c2).
Proof. apply is_Ret_pair. vm_compute. reflexivity. Qed.

Definition model_after : ApplicationContext (H := tree_ptree) :=
  match init model_context model_fresh with Ret (_, c) => c | _ => new_ApplicationContext end.

Lemma model_initialised : init model_context model_fresh = Ret (model_ready, model_after).
Proof. apply is_Ret_pair. vm_compute. reflexivity. Qed.

Lemma init_establishes_witness :
  wf model_ready /\ currentTime_ model_ready = (f64_of_Z 1 / f64_of_Z 2)%f64 /\
  realInputImage_ (image_ model_ready) = [Z.shiftl 1024 52] /\ output_ids model_ready fmiTypeReal = [(fmiTypeReal, 0)].
Proof.
  destruct (init_establishes model_context model_c1 model_c2 model_out model_in model_fresh model_ready model_after)
    as (Hwf & _).
  - intros s x Hx. exact (Tree.read_double_Some s x Hx).
  - vm_compute. split; reflexivity.
  - reflexivity.
  - reflexivity.
  - exact new_PortIDDrawer_wf.
  - intros []; vm_compute; discriminate.
  - exact model_out_built.
  - exact model_in_built.
  - exact model_initialised.
  - split; [exact Hwf|]. vm_compute. done.
Defined.
