(* ===== verification/OneStepEventPredictor.v ===== *)
(** * The single-step predictor (src/model/OneStepEventPredictor.cpp)

    A predictor that integrates the model to the next synchronisation point at once
    and never takes a step back: inputs are applied at the end of the step, and the
    event of the step stays the current prediction until it is distributed. *)

From stdpp Require Import gmap.
From S2P Require Import Prelude Float64 BaseExceptions PortID Format Variables PropertyTree Event FMUTypes.
From S2P Require Import ChannelMapping ApplicationContext ManagedLowLevelFMU SolverConfiguration.

Local Open Scope Z_scope.

Definition PROP_FMU_INSTANCE_NAME : string := "fmu.instanceName".
Definition PROP_DEFAULT_INPUT : string := PROP_IN +:+ ".default".
Definition PROP_VARIABLE_STEP_SIZE : string := "app.variableStepSize".

(** FMI++'s [FMUModelExchangeBase]: a status code is 0 for [fmiOK]; a value is set
    or read by a value reference, by type. *)
Class FMUModelExchange (F : Type) := {
  new_fmi_1_0 : string -> bool -> bool -> fmiTime -> F;
  new_fmi_2_0 : string -> bool -> bool -> fmiTime -> F;
  me_lastStatus : F -> Z;
  me_setIntegratorProperties : Properties -> F -> Properties * F;
  me_instantiate : string -> F -> Z * F;
  me_initialize : F -> Z * F;
  me_setTime : fmiTime -> F -> F;
  me_getTime : F -> fmiTime;
  fmiUndefinedValueReference : Z;
  getValueRef : string -> F -> Z;
  me_getType : string -> F -> FMIVariableType;
  setValue_name : string -> any -> F -> Z * F;
  setValue_ref : Z -> any -> F -> Z * F;
  getValue_real : list Z -> F -> Z * list Z * F;
  getValue_integer : list Z -> F -> Z * list Z * F;
  getValue_boolean : list Z -> F -> Z * list Z * F;
  getValue_string : list Z -> F -> Z * list string * F;
  me_integrate : fmiTime -> fmiTime -> F -> fmiTime * F;
  me_handleEvents : F -> F;
  checkTimeEvent : F -> bool;
  getTimeEvent : F -> fmiTime;
  me_description : Type;
  me_description_ops :: ModelDescription me_description;
  me_getModelDescription : F -> option me_description;
}.

Record SimulationProperties := {
  lookAheadStepSize : fmiTime;
  integratorStepSize : fmiTime;
  variableStepSizeOnModelEvent : bool;
  timingPrecision : fmiTime;
}.

Section OneStep.
Context `{PT : PropertyTree} `{IP : IntegratorProperties} {M F : Type} `{MM : ModelManager M} `{FM : FMUModelExchange F}.

(** [outputImage_] stands for the four image vectors; [simulationProperties_] is not
    initialised before [init]. *)
Record OneStepEventPredictor := {
  os_lowLevelFMU_ : ManagedLowLevelFMU M;
  fmu_ : F;
  outputImage_ : input_image;
  outputValueReference_ : list (list Z);
  outputMapping_ : option ChannelMapping;
  inputValueReference_ : gmap PortID Z;
  currentPrediction_ : option StaticEvent;
  simulationProperties_ : option SimulationProperties;
}.

Definition set_fmu (f : F) (p : OneStepEventPredictor) : OneStepEventPredictor :=
  {| os_lowLevelFMU_ := os_lowLevelFMU_ p; fmu_ := f; outputImage_ := outputImage_ p;
     outputValueReference_ := outputValueReference_ p; outputMapping_ := outputMapping_ p;
     inputValueReference_ := inputValueReference_ p; currentPrediction_ := currentPrediction_ p;
     simulationProperties_ := simulationProperties_ p |}.

Definition set_outputImage (i : input_image) (p : OneStepEventPredictor) : OneStepEventPredictor :=
  {| os_lowLevelFMU_ := os_lowLevelFMU_ p; fmu_ := fmu_ p; outputImage_ := i;
     outputValueReference_ := outputValueReference_ p; outputMapping_ := outputMapping_ p;
     inputValueReference_ := inputValueReference_ p; currentPrediction_ := currentPrediction_ p;
     simulationProperties_ := simulationProperties_ p |}.

Definition set_prediction (ev : option StaticEvent) (p : OneStepEventPredictor) : OneStepEventPredictor :=
  {| os_lowLevelFMU_ := os_lowLevelFMU_ p; fmu_ := fmu_ p; outputImage_ := outputImage_ p;
     outputValueReference_ := outputValueReference_ p; outputMapping_ := outputMapping_ p;
     inputValueReference_ := inputValueReference_ p; currentPrediction_ := ev;
     simulationProperties_ := simulationProperties_ p |}.

Definition set_references (outputs : list (list Z)) (mapping : option ChannelMapping) (inputs : gmap PortID Z)
    (p : OneStepEventPredictor) : OneStepEventPredictor :=
  {| os_lowLevelFMU_ := os_lowLevelFMU_ p; fmu_ := fmu_ p; outputImage_ := outputImage_ p;
     outputValueReference_ := outputs; outputMapping_ := mapping; inputValueReference_ := inputs;
     currentPrediction_ := currentPrediction_ p; simulationProperties_ := simulationProperties_ p |}.

Definition set_simulation (s : SimulationProperties) (p : OneStepEventPredictor) : OneStepEventPredictor :=
  {| os_lowLevelFMU_ := os_lowLevelFMU_ p; fmu_ := fmu_ p; outputImage_ := outputImage_ p;
     outputValueReference_ := outputValueReference_ p; outputMapping_ := outputMapping_ p;
     inputValueReference_ := inputValueReference_ p; currentPrediction_ := currentPrediction_ p;
     simulationProperties_ := Some s |}.

Definition output_refs (p : OneStepEventPredictor) (t : FMIVariableType) : list Z :=
  default [] (outputValueReference_ p !! type_index t).

(** ** A step of the model *)

(** [predictOneStep]: the loop, with [fuel] bounding the number of turns. *)
Fixpoint integrate_loop (fuel : nat) (props : SimulationProperties) (nextCompleteStep : fmiTime) (f : F) : result F :=
  match fuel with
  | O => Fault OutOfFuel
  | S fuel' =>
      let '(nextTime, f1) := me_integrate nextCompleteStep (integratorStepSize props) f in
      if f64_is_nan nextTime || negb (me_lastStatus f1 =? 0) then
        throw_solver ("Could not integrate FMU to " +:+ stream_double nextCompleteStep +:+ " (" +:+
                      stream_double nextTime +:+ ", " +:+ pretty (me_lastStatus f1) +:+ ")") (me_getTime f1)
      else if negb (variableStepSizeOnModelEvent props) &&
              (me_getTime f1 <? nextCompleteStep - timingPrecision props)%f64
      then integrate_loop fuel' props nextCompleteStep f1
      else Ret f1
  end.

Definition predictOneStep (fuel : nat) (p : OneStepEventPredictor) : result OneStepEventPredictor :=
  match simulationProperties_ p with
  | None => Fault UndefinedBehaviour
  | Some props =>
      let nextCompleteStep := (me_getTime (fmu_ p) + lookAheadStepSize props)%f64 in
      let* f := integrate_loop fuel props nextCompleteStep (fmu_ p) in
      Ret (set_fmu f p)
  end.

(** ** Outputs *)

(** [operator !=] of each type, element by element; an array that is too short is
    undefined behaviour. *)
Fixpoint compare_update {A} (neq : A -> A -> bool) (image tmpVal : list A) (significantChange : bool)
    : result (bool * list A) :=
  match image, tmpVal with
  | [], _ => Ret (significantChange, [])
  | old :: image', v :: tmpVal' =>
      let* r := compare_update neq image' tmpVal' (if neq old v then true else significantChange) in
      Ret (r.1, v :: r.2)
  | _ :: _, [] => Fault UndefinedBehaviour
  end.

Definition real_neqb (a b : Z) : bool := negb (real_value a =? real_value b)%f64.
Definition int_neqb (a b : Z) : bool := negb (a =? b).
Definition string_neqb (a b : string) : bool := negb (String.eqb a b).

(** [updateOutputImage<valType>]. *)
Definition updateOutputImage_type {A} (neq : A -> A -> bool) (getValue : list Z -> F -> Z * list A * F)
    (referenceVector : list Z) (image : list A) (f : F) : result (bool * list A * F) :=
  assert_ (same_length referenceVector image) ;;;
  match image with
  | [] => Ret (false, image, f)
  | _ =>
      let '(err, tmpVal, f1) := getValue referenceVector f in
      if negb (err =? 0) then
        throw_solver ("Could not fetch the outputs of the model (" +:+ pretty err +:+ ")") (me_getTime f1)
      else
        let* r := compare_update neq image tmpVal false in
        Ret (r.1, r.2, f1)
  end.

Definition updateOutputImage (p : OneStepEventPredictor) : result (bool * OneStepEventPredictor) :=
  let i := outputImage_ p in
  let* r1 := updateOutputImage_type real_neqb getValue_real (output_refs p fmiTypeReal) (realInputImage_ i) (fmu_ p) in
  let* r2 := updateOutputImage_type int_neqb getValue_integer (output_refs p fmiTypeInteger) (integerInputImage_ i) r1.2 in
  let* r3 := updateOutputImage_type int_neqb getValue_boolean (output_refs p fmiTypeBoolean) (booleanInputImage_ i) r2.2 in
  let* r4 := updateOutputImage_type string_neqb getValue_string (output_refs p fmiTypeString) (stringInputImage_ i) r3.2 in
  Ret (r1.1.1 || r2.1.1 || r3.1.1 || r4.1.1,
       set_fmu r4.2
         (set_outputImage {| realInputImage_ := r1.1.2; integerInputImage_ := r2.1.2; booleanInputImage_ := r3.1.2;
                             stringInputImage_ := r4.1.2 |} p)).

Definition appendOutputVariables {A} (wrap_any : A -> any) (destination : list Variable_t) (ids : list PortID)
    (values : list A) : result (list Variable_t) :=
  assert_ (same_length ids values) ;;;
  Ret (destination ++ zip_with (fun id v => mk_variable id (wrap_any v)) ids values).

Definition getOutputEvent (p : OneStepEventPredictor) : result StaticEvent :=
  match outputMapping_ p with
  | None => Fault AssertionFailed
  | Some mapping =>
      let i := outputImage_ p in
      let* ids := getVariableIDs mapping fmiTypeReal in
      let* vars := appendOutputVariables AnyReal [] ids (realInputImage_ i) in
      let* ids := getVariableIDs mapping fmiTypeInteger in
      let* vars := appendOutputVariables AnyInteger vars ids (integerInputImage_ i) in
      let* ids := getVariableIDs mapping fmiTypeBoolean in
      let* vars := appendOutputVariables AnyBoolean vars ids (booleanInputImage_ i) in
      let* ids := getVariableIDs mapping fmiTypeString in
      let* vars := appendOutputVariables AnyString vars ids (stringInputImage_ i) in
      new_StaticEvent (me_getTime (fmu_ p)) vars
  end.

Definition predictNext (fuel : nat) (p : OneStepEventPredictor) : result (StaticEvent * OneStepEventPredictor) :=
  match currentPrediction_ p with
  | Some ev => Ret (ev, p)
  | None =>
      let* p1 := predictOneStep fuel p in
      let* u := updateOutputImage p1 in
      let* ev := (if u.1 then getOutputEvent u.2 else new_StaticEvent (me_getTime (fmu_ u.2)) []) in
      Ret (ev, set_prediction (Some ev) u.2)
  end.

(** ** Inputs *)

(** The value of an input variable, read by the type of its identifier. *)
Definition input_value (variable : Variable_t) : result any :=
  match (id_ variable).1 with
  | fmiTypeReal => let* r := getRealValue variable in Ret (AnyReal r)
  | fmiTypeInteger => let* i := getIntegerValue variable in Ret (AnyInteger i)
  | fmiTypeBoolean => let* b := getBooleanValue variable in Ret (AnyBoolean b)
  | fmiTypeString => let* s := getStringValue variable in Ret (AnyString s)
  | fmiTypeUnknown => Fault AssertionFailed
  end.

Definition updateInputVariable (p : OneStepEventPredictor) (variable : Variable_t)
    : result (bool * OneStepEventPredictor) :=
  assert_ (isValid variable) ;;;
  match inputValueReference_ p !! Variables.getID variable with
  | Some varRef =>
      let* v := input_value variable in
      let '(err, f) := setValue_ref varRef v (fmu_ p) in
      if negb (err =? 0) then
        let* s := variable_toString variable in
        throw_solver ("Unable to set input value " +:+ s +:+ " (" +:+ pretty err +:+ ")") (me_getTime f)
      else Ret (true, set_fmu f p)
  | None => Ret (false, p)
  end.

(** [updateInputVariables]. *)
Fixpoint updateInputVariables (vars : list Variable_t) (p : OneStepEventPredictor)
    : result (bool * OneStepEventPredictor) :=
  match vars with
  | [] => Ret (false, p)
  | v :: vars' =>
      let* r := updateInputVariable p v in
      let* r' := updateInputVariables vars' r.2 in
      Ret (r.1 || r'.1, r'.2)
  end.

Definition onestep_eventTriggered (ev : StaticEvent) (p : OneStepEventPredictor) : result OneStepEventPredictor :=
  let* r := updateInputVariables (se_var ev) p in
  if r.1 then Ret (set_fmu (me_handleEvents (fmu_ r.2)) r.2)
  else Ret (set_prediction None r.2).

(** ** Construction and initialisation *)

(** [loadModel]. *)
Definition loadModel (sundials : bool) (appContext : ApplicationContext) (lowLevelFMU : ManagedLowLevelFMU M) : result F :=
  let* solverConfig := new_SolverConfiguration sundials appContext in
  let* ret :=
    (if bool_decide (type_ lowLevelFMU = fmi_1_0_me) then
       Ret (new_fmi_1_0 (modelIdentifier_ lowLevelFMU) (fmuDebugging_ solverConfig) false (eventSerachPrecision_ solverConfig))
     else if bool_decide (type_ lowLevelFMU = fmi_2_0_me) || bool_decide (type_ lowLevelFMU = fmi_2_0_me) then
       Ret (new_fmi_2_0 (modelIdentifier_ lowLevelFMU) (fmuDebugging_ solverConfig) false (eventSerachPrecision_ solverConfig))
     else throw_config ("Unsupported FMU type: " +:+ getFMUTypeString (type_ lowLevelFMU))) in
  if negb (me_lastStatus ret =? 0) then throw_config "Could not create the model"
  else
    let '(intProp, ret) := me_setIntegratorProperties (props_ solverConfig) ret in
    if properties_neqb intProp (props_ solverConfig) then
      throw_config ("The integration configuration was rejected: " +:+ getDiffString (props_ solverConfig) intProp)
    else Ret ret.

Definition instantiateModel (appContext : ApplicationContext) (p : OneStepEventPredictor)
    : result OneStepEventPredictor :=
  let* instanceName := getProperty_def tr_string appContext PROP_FMU_INSTANCE_NAME (modelIdentifier_ (os_lowLevelFMU_ p)) in
  let '(err, f) := me_instantiate instanceName (fmu_ p) in
  if negb (err =? 0) then throw_config ("Unable to instantiate the FMU (" +:+ pretty err +:+ ")")
  else Ret (set_fmu f p).

(** The constructor. *)
Definition new_OneStepEventPredictor (sundials : bool) (appContext : ApplicationContext) (mgr : M)
    : result (OneStepEventPredictor * M) :=
  let* r := new_ManagedLowLevelFMU appContext mgr in
  let* f := loadModel sundials appContext r.1 in
  let* p := instantiateModel appContext
              {| os_lowLevelFMU_ := r.1; fmu_ := f; outputImage_ := empty_image;
                 outputValueReference_ := replicate 4 []; outputMapping_ := None; inputValueReference_ := ∅;
                 currentPrediction_ := None; simulationProperties_ := None |} in
  Ret (p, r.2).

Definition configureDefaultApplicationContext (appContext : ApplicationContext) (p : OneStepEventPredictor)
    : result ApplicationContext :=
  addSensitiveDefaultProperties appContext (me_getModelDescription (fmu_ p)).

(** The references of the output variables in [names]. *)
Fixpoint output_references (f : F) (names : list string) : result (list Z) :=
  match names with
  | [] => Ret []
  | name :: names' =>
      let ref := getValueRef name f in
      if ref =? fmiUndefinedValueReference then throw_config ("The output variable " +:+ name +:+ " is undefined.")
      else let* refs := output_references f names' in Ret (ref :: refs)
  end.

Definition initOutputValueReferences (type : FMIVariableType) (p : OneStepEventPredictor)
    : result OneStepEventPredictor :=
  match outputMapping_ p with
  | None => Fault AssertionFailed
  | Some mapping =>
      assert_ (type_index type <? length (outputValueReference_ p))%nat ;;;
      let* varNames := getVariableNames mapping type in
      let* refs := output_references (fmu_ p) varNames in
      Ret (set_references (<[type_index type := output_refs p type ++ refs]> (outputValueReference_ p))
             (outputMapping_ p) (inputValueReference_ p) p)
  end.

(** [vector::resize(n, v)]. *)
Definition resize {A} (n : nat) (v : A) (l : list A) : list A := take n l ++ replicate (n - length l) v.

Definition initOutputStructures (appContext : ApplicationContext) (p : OneStepEventPredictor)
    : result (OneStepEventPredictor * ApplicationContext) :=
  let* r := getOutputChannelMapping appContext in
  let mapping := r.1 in
  let p := set_references (outputValueReference_ p) (Some mapping) (inputValueReference_ p) p in
  let* reals := getVariableIDs mapping fmiTypeReal in
  let* integers := getVariableIDs mapping fmiTypeInteger in
  let* booleans := getVariableIDs mapping fmiTypeBoolean in
  let* strs := getVariableIDs mapping fmiTypeString in
  let i := outputImage_ p in
  let p := set_outputImage {| realInputImage_ := resize (length reals) 0 (realInputImage_ i);
                              integerInputImage_ := resize (length integers) 0 (integerInputImage_ i);
                              booleanInputImage_ := resize (length booleans) fmiFalse (booleanInputImage_ i);
                              stringInputImage_ := resize (length strs) "" (stringInputImage_ i) |} p in
  let* p := foldlM (fun p t => initOutputValueReferences t p) p
              [fmiTypeReal; fmiTypeInteger; fmiTypeBoolean; fmiTypeString] in
  let* unknown := getVariableNames mapping fmiTypeUnknown in
  match unknown with
  | [] => Ret (p, r.2)
  | name :: _ => throw_config ("An output variable (" +:+ name +:+ ") of unknown type was defined")
  end.

(** The loop of [initInputValueReference] over names and identifiers. *)
Fixpoint input_references (f : F) (entries : list (string * PortID)) (refs : gmap PortID Z) : result (gmap PortID Z) :=
  match entries with
  | [] => Ret refs
  | (name, id) :: entries' =>
      let ref := getValueRef name f in
      if ref =? fmiUndefinedValueReference then throw_config ("Undefined input variable: " +:+ name)
      else input_references f entries' (<[id := ref]> refs)
  end.

Definition initInputValueReference (inputMapping : ChannelMapping) (p : OneStepEventPredictor)
    : result OneStepEventPredictor :=
  let allNames := getAllVariableNames inputMapping in
  let allIDs := getAllVariableIDs inputMapping in
  assert_ (same_length allNames allIDs) ;;;
  let* refs := input_references (fmu_ p) (zip allNames allIDs) (inputValueReference_ p) in
  Ret (set_references (outputValueReference_ p) (outputMapping_ p) refs p).

Definition initSimulationProperties (appContext : ApplicationContext) (p : OneStepEventPredictor)
    : result OneStepEventPredictor :=
  let* lookAhead := getRealPositiveDoubleProperty appContext PROP_LOOK_AHEAD_TIME in
  let* integrator := getRealPositiveDoubleProperty_def appContext PROP_INTEGRATOR_STEP_SIZE (lookAhead / f64_of_Z 10)%f64 in
  if (lookAhead <? integrator)%f64 then
    let* s := getProperty tr_string appContext PROP_INTEGRATOR_STEP_SIZE in
    throw_config_kv "The integrator step size exceeds the look ahead step size" PROP_INTEGRATOR_STEP_SIZE s
  else
    let* variable := getProperty_def tr_bool appContext PROP_VARIABLE_STEP_SIZE false in
    Ret (set_simulation {| lookAheadStepSize := lookAhead; integratorStepSize := integrator;
                           variableStepSizeOnModelEvent := variable; timingPrecision := f64_1em4 |} p).

(** The configured default of a variable, by the type the model gives it. *)
Definition default_any (appContext : ApplicationContext) (varPath : string) (type : FMIVariableType) : result any :=
  match type with
  | fmiTypeReal => let* v := getProperty tr_fmiReal appContext varPath in Ret (AnyReal v)
  | fmiTypeInteger => let* v := getProperty tr_int appContext varPath in Ret (AnyInteger v)
  | fmiTypeBoolean => let* v := getProperty tr_char appContext varPath in Ret (AnyBoolean v)
  | fmiTypeString => let* v := getProperty tr_string appContext varPath in Ret (AnyString v)
  | fmiTypeUnknown => Fault AssertionFailed
  end.

Definition setDefaultValue (appContext : ApplicationContext) (p : OneStepEventPredictor) (varName : string)
    : result OneStepEventPredictor :=
  let varPath := PROP_DEFAULT_INPUT +:+ "." +:+ varName in
  let type := me_getType varName (fmu_ p) in
  if bool_decide (type = fmiTypeUnknown) then throw_config ("Unknown default variable in " +:+ varPath)
  else
    let* v := default_any appContext varPath type in
    let '(err, f) := setValue_name varName v (fmu_ p) in
    if negb (err =? 0) then
      let* s := getProperty tr_string appContext varPath in
      throw_config_kv ("Cannot set the default variable (" +:+ pretty err +:+ ")") varPath s
    else Ret (set_fmu f p).

Definition setDefaultValues (appContext : ApplicationContext) (p : OneStepEventPredictor)
    : result OneStepEventPredictor :=
  if negb (hasProperty appContext PROP_DEFAULT_INPUT) then Ret p
  else
    let* def := getPropertyTree appContext PROP_DEFAULT_INPUT in
    foldlM (setDefaultValue appContext) p (pt_keys def).

Definition initModel (startTime : fmiTime) (appContext : ApplicationContext) (p : OneStepEventPredictor)
    : result OneStepEventPredictor :=
  let* p := setDefaultValues appContext (set_fmu (me_setTime startTime (fmu_ p)) p) in
  let '(err, f) := me_initialize (fmu_ p) in
  if negb (err =? 0) then throw_config ("Error while initializing the model: " +:+ pretty err)
  else if checkTimeEvent f && (getTimeEvent f <=? startTime)%f64 then
    let f := me_handleEvents f in
    if negb (me_lastStatus f =? 0) then
      throw_config ("Error while handling an initial time event: " +:+ pretty (me_lastStatus f))
    else Ret (set_fmu f p)
  else Ret (set_fmu f p).

Definition init (appContext : ApplicationContext) (p : OneStepEventPredictor)
    : result (OneStepEventPredictor * ApplicationContext) :=
  assert_ (match outputMapping_ p with None => true | Some _ => false end) ;;;
  let* start := getPositiveDoubleProperty appContext PROP_START_TIME in
  let* r := initOutputStructures appContext p in
  let* i := getInputChannelMapping r.2 in
  let appContext := i.2 in
  let* p := initInputValueReference i.1 r.1 in
  let* p := initSimulationProperties appContext p in
  let* p := initModel start appContext p in
  let* u := updateOutputImage p in
  Ret (u.2, appContext).

End OneStep.

Arguments OneStepEventPredictor {_} M F {_}.
