(* ===== verification/OneStepEventPredictorSpec.v ===== *)
(** * Correctness of the single-step predictor

    A step terminates and its event tells what has changed, and the event stays
    the prediction until it is distributed. *)

From stdpp Require Import gmap.
From S2P Require Import Prelude Float64 BaseExceptions PortID Format Variables PropertyTree Event FMUTypes.
From S2P Require Import ChannelMapping ApplicationContext ManagedLowLevelFMU SolverConfiguration OneStepEventPredictor.

Local Open Scope Z_scope.

(** FMI++'s [FMUModelExchangeBase] as the code relies on it: an integration that
    returns before its target has stopped at one of finitely many model events,
    arrays have the length asked for, and only integration moves the time. *)
Class FMUModelExchangeLaws (F : Type) `{FMUModelExchange F} := {
  pending_events : fmiTime -> F -> nat;
  integrate_progress stop dt f t f' :
    me_integrate stop dt f = (t, f') -> f64_is_nan t = false -> me_lastStatus f' = 0 ->
    (me_getTime f' <? stop - f64_1em4)%f64 = true -> (pending_events stop f' < pending_events stop f)%nat;
  length_real refs f vs f' : getValue_real refs f = (0, vs, f') -> length vs = length refs;
  length_integer refs f vs f' : getValue_integer refs f = (0, vs, f') -> length vs = length refs;
  length_boolean refs f vs f' : getValue_boolean refs f = (0, vs, f') -> length vs = length refs;
  length_string refs f vs f' : getValue_string refs f = (0, vs, f') -> length vs = length refs;
  time_real refs f : me_getTime (getValue_real refs f).2 = me_getTime f;
  time_integer refs f : me_getTime (getValue_integer refs f).2 = me_getTime f;
  time_boolean refs f : me_getTime (getValue_boolean refs f).2 = me_getTime f;
  time_string refs f : me_getTime (getValue_string refs f).2 = me_getTime f;
}.

(** The values equal the old ones as the code compares them. *)
Definition unchanged {A} (neq : A -> A -> bool) (image image' : list A) : Prop :=
  Forall2 (fun old v => neq old v = false) image image'.

Lemma compare_update_ok {A} (neq : A -> A -> bool) image tmpVal b :
  length tmpVal = length image ->
  exists c, compare_update neq image tmpVal b = Ret (c, tmpVal) /\ (c = false <-> b = false /\ unchanged neq image tmpVal).
Proof.
  revert tmpVal b; induction image as [|old image IH]; intros [|v tmpVal] b Hlen; try done; cbn [compare_update].
  - exists b. split; [done|]. split; [|tauto]. intros ->. split; [done|constructor].
  - injection Hlen as Hlen. destruct (IH tmpVal (if neq old v then true else b) Hlen) as (c & -> & Hc). cbn [obind fst snd].
    exists c. split; [done|]. rewrite Hc. destruct (neq old v) eqn:E.
    + split; [by intros [? _]|]. intros [_ Hu]. apply Forall2_cons in Hu as [Hu _]. congruence.
    + split; [intros [-> Hu]; split; [done|by constructor]|]. intros [-> Hu]. by apply Forall2_cons in Hu as [_ Hu].
Qed.

Section OneStepSpec.
Context `{PT : PropertyTree} `{IP : IntegratorProperties} {M F : Type} `{MM : ModelManager M} `{FM : FMUModelExchange F}.
Context `{!FMUModelExchangeLaws F}.
Implicit Types p : OneStepEventPredictor M F.

Definition solver_error (x : exn) : Prop := exists e, x = ExnSolver e.

(** ** One step *)

(** How the model is moved towards the end of a step: [integrate] succeeds, and is called
    again as long as it has stopped at a model event before the target and the step size
    is fixed. *)
Inductive integrated (props : SimulationProperties) (target : fmiTime) : F -> F -> Prop :=
  | integrated_last f t f' :
      me_integrate target (integratorStepSize props) f = (t, f') -> f64_is_nan t = false -> me_lastStatus f' = 0 ->
      variableStepSizeOnModelEvent props = true \/ (me_getTime f' <? target - timingPrecision props)%f64 = false ->
      integrated props target f f'
  | integrated_again f t f1 f' :
      me_integrate target (integratorStepSize props) f = (t, f1) -> f64_is_nan t = false -> me_lastStatus f1 = 0 ->
      variableStepSizeOnModelEvent props = false -> (me_getTime f1 <? target - timingPrecision props)%f64 = true ->
      integrated props target f1 f' -> integrated props target f f'.

Lemma integrated_reached props target f f' :
  integrated props target f f' ->
  variableStepSizeOnModelEvent props = true \/ (me_getTime f' <? target - timingPrecision props)%f64 = false.
Proof. by induction 1. Qed.

(** The loop ends: every turn that does not reach the target uses up an event. *)
Lemma integrate_loop_ok props target fuel f :
  timingPrecision props = f64_1em4 -> (pending_events target f < fuel)%nat ->
  wp (integrate_loop fuel props target f) (integrated props target f) solver_error.
Proof.
  intros Hprec. revert f; induction fuel as [|fuel IH]; intros f Hfuel; [lia|]. cbn [integrate_loop].
  destruct (me_integrate target (integratorStepSize props) f) as [t f1] eqn:Hi.
  destruct (f64_is_nan t || negb (me_lastStatus f1 =? 0)) eqn:Herr; [by eexists|].
  apply orb_false_iff in Herr as [Hn Hs%negb_false_iff%Z.eqb_eq].
  destruct (variableStepSizeOnModelEvent props) eqn:Hv; cbn [negb andb wp]; [by eapply integrated_last; eauto|].
  destruct (me_getTime f1 <? target - timingPrecision props)%f64 eqn:Hb; cbn [wp]; [|by eapply integrated_last; eauto].
  assert (Hmore : (pending_events target f1 < fuel)%nat).
  { rewrite Hprec in Hb. pose proof (integrate_progress _ _ _ _ _ Hi Hn Hs Hb). lia. }
  eapply wp_mono; [by apply IH| |done]. intros f'. by eapply integrated_again.
Qed.

(** ** Outputs *)

(** The values of a type as the model has them; a type without outputs is not asked for. *)
Definition values_read {A} (getValue : list Z -> F -> Z * list A * F) (refs : list Z) (values : list A) (f f' : F) : Prop :=
  match refs with [] => values = [] /\ f' = f | _ => getValue refs f = (0, values, f') end.

(** The four types are read one after the other. *)
Definition outputs_read p (values : input_image) (f f' : F) : Prop :=
  exists f1 f2 f3,
    values_read getValue_real (output_refs p fmiTypeReal) (realInputImage_ values) f f1 /\
    values_read getValue_integer (output_refs p fmiTypeInteger) (integerInputImage_ values) f1 f2 /\
    values_read getValue_boolean (output_refs p fmiTypeBoolean) (booleanInputImage_ values) f2 f3 /\
    values_read getValue_string (output_refs p fmiTypeString) (stringInputImage_ values) f3 f'.

Lemma updateOutputImage_type_ok {A} (neq : A -> A -> bool) getValue refs image f :
  length refs = length image ->
  (forall vs f', getValue refs f = (0, vs, f') -> length vs = length refs) ->
  me_getTime (getValue refs f).2 = me_getTime f ->
  wp (updateOutputImage_type neq getValue refs image f)
     (fun r => (r.1.1 = false <-> unchanged neq image r.1.2) /\ length r.1.2 = length image /\
               me_getTime r.2 = me_getTime f /\ values_read getValue refs r.1.2 f r.2) solver_error.
Proof.
  intros Hlen Hvs Htime. unfold updateOutputImage_type. rewrite obind_assert by by apply Nat.eqb_eq.
  destruct image as [|old image]; [destruct refs; [|done]; cbn; split_and!; try done; split; [constructor|done]|].
  destruct (getValue refs f) as [[err vs] f1] eqn:Hg. cbn [snd] in Htime.
  destruct (Z.eqb_spec err 0) as [->|Hne]; cbn [negb]; [|by eexists].
  specialize (Hvs vs f1 eq_refl).
  destruct (compare_update_ok neq (old :: image) vs false) as (c & Hc & Hiff); [congruence|].
  rewrite Hc. cbn [obind wp fst snd]. rewrite Hiff. split_and!; [naive_solver|congruence|done|].
  unfold values_read. destruct refs; [done|exact Hg].
Qed.

Definition image_unchanged (i i' : input_image) : Prop :=
  unchanged real_neqb (realInputImage_ i) (realInputImage_ i') /\
  unchanged int_neqb (integerInputImage_ i) (integerInputImage_ i') /\
  unchanged int_neqb (booleanInputImage_ i) (booleanInputImage_ i') /\
  unchanged string_neqb (stringInputImage_ i) (stringInputImage_ i').

(** As many values as the mapping has identifiers. *)
Definition image_fits (m : ChannelMapping) (i : input_image) : Prop :=
  length (realInputImage_ i) = length (ids_of m fmiTypeReal) /\
  length (integerInputImage_ i) = length (ids_of m fmiTypeInteger) /\
  length (booleanInputImage_ i) = length (ids_of m fmiTypeBoolean) /\
  length (stringInputImage_ i) = length (ids_of m fmiTypeString).

Definition io_types : list FMIVariableType := [fmiTypeReal; fmiTypeInteger; fmiTypeBoolean; fmiTypeString].

(** A prediction carries outputs only. *)
Definition prediction_ok (m : ChannelMapping) (ev : StaticEvent) : Prop :=
  Forall (fun v => isValid v = true /\ exists t, t ∈ io_types /\ id_ v ∈ ids_of m t) (se_var ev).

(** The invariant of an initialised predictor. *)
Record os_wf (m : ChannelMapping) p : Prop := {
  os_mapping : outputMapping_ p = Some m;
  os_ids t : t ∈ io_types -> getVariableIDs m t = Ret (ids_of m t);
  os_typed t : t ∈ io_types -> Forall (fun id : PortID => id.1 = t) (ids_of m t);
  os_refs t : t ∈ io_types -> length (output_refs p t) = length (ids_of m t);
  os_image : image_fits m (outputImage_ p);
  os_inputs id : is_Some (inputValueReference_ p !! id) -> forall t, t ∈ io_types -> id ∉ ids_of m t;
  os_simulation : exists props, simulationProperties_ p = Some props /\ timingPrecision props = f64_1em4;
  os_prediction ev : currentPrediction_ p = Some ev -> prediction_ok m ev;
}.

Lemma updateOutputImage_ok m p :
  os_wf m p ->
  wp (updateOutputImage p)
     (fun r => (r.1 = false <-> image_unchanged (outputImage_ p) (outputImage_ r.2)) /\
               image_fits m (outputImage_ r.2) /\ me_getTime (fmu_ r.2) = me_getTime (fmu_ p) /\
               r.2 = set_fmu (fmu_ r.2) (set_outputImage (outputImage_ r.2) p) /\
               outputs_read p (outputImage_ r.2) (fmu_ p) (fmu_ r.2)) solver_error.
Proof.
  intros [_ _ _ Hrefs (Hr & Hi & Hb & Hs) _ _ _]. unfold io_types in Hrefs. unfold updateOutputImage.
  apply wp_bind. eapply wp_mono; [apply updateOutputImage_type_ok| |done];
    [rewrite Hrefs by set_solver; done|intros; by eapply length_real|apply time_real|].
  intros [[c1 i1] f1] (C1 & L1 & T1 & R1). cbn [fst snd] in *.
  apply wp_bind. eapply wp_mono; [apply updateOutputImage_type_ok| |done];
    [rewrite Hrefs by set_solver; done|intros; by eapply length_integer|apply time_integer|].
  intros [[c2 i2] f2] (C2 & L2 & T2 & R2). cbn [fst snd] in *.
  apply wp_bind. eapply wp_mono; [apply updateOutputImage_type_ok| |done];
    [rewrite Hrefs by set_solver; done|intros; by eapply length_boolean|apply time_boolean|].
  intros [[c3 i3] f3] (C3 & L3 & T3 & R3). cbn [fst snd] in *.
  apply wp_bind. eapply wp_mono; [apply updateOutputImage_type_ok| |done];
    [rewrite Hrefs by set_solver; done|intros; by eapply length_string|apply time_string|].
  intros [[c4 i4] f4] (C4 & L4 & T4 & R4). cbn [fst snd wp] in *. unfold image_unchanged, image_fits.
  cbn [set_fmu set_outputImage fmu_ outputImage_ realInputImage_ integerInputImage_ booleanInputImage_ stringInputImage_].
  split_and!; try congruence; [rewrite !orb_false_iff, C1, C2, C3, C4; tauto|]. by exists f1, f2, f3.
Qed.

(** All outputs with the values of an image. *)
Definition outputs_at (m : ChannelMapping) (i : input_image) : list Variable_t :=
  (([] ++ zip_with (fun id v => mk_variable id (AnyReal v)) (ids_of m fmiTypeReal) (realInputImage_ i)) ++
   zip_with (fun id v => mk_variable id (AnyInteger v)) (ids_of m fmiTypeInteger) (integerInputImage_ i)) ++
  zip_with (fun id v => mk_variable id (AnyBoolean v)) (ids_of m fmiTypeBoolean) (booleanInputImage_ i) ++
  zip_with (fun id v => mk_variable id (AnyString v)) (ids_of m fmiTypeString) (stringInputImage_ i).

Lemma zip_image {A} (wrap_any : A -> any) t ids (values : list A) m :
  t ∈ io_types -> (forall a, any_type (wrap_any a) = Some t) -> Forall (fun id : PortID => id.1 = t) ids ->
  ids = ids_of m t ->
  Forall (fun v => isValid v = true /\ exists t, t ∈ io_types /\ id_ v ∈ ids_of m t)
    (zip_with (fun id v => mk_variable id (wrap_any v)) ids values).
Proof.
  intros Hio Ht Hids Hm. apply Forall_forall. intros v Hv.
  apply elem_of_lookup_zip_with in Hv as (k & id & a & -> & Hid & Ha).
  rewrite Forall_forall in Hids. pose proof (Hids id (list_elem_of_lookup_2 _ _ _ Hid)) as Hidt. cbn in Hidt.
  split.
  - apply isValid_type. cbn. rewrite Hidt. split; [|by rewrite Ht].
    unfold io_types in Hio. clear -Hio. set_solver.
  - exists t. split; [done|]. cbn. rewrite <- Hm. by eapply list_elem_of_lookup_2.
Qed.

Lemma outputs_at_ok m p i :
  os_wf m p -> image_fits m i ->
  Forall (fun v => isValid v = true /\ exists t, t ∈ io_types /\ id_ v ∈ ids_of m t) (outputs_at m i).
Proof.
  intros Hwf _. unfold outputs_at. assert (Htyp := os_typed m p Hwf). unfold io_types in Htyp.
  rewrite !Forall_app. split_and!; [constructor|..].
  - apply (zip_image AnyReal fmiTypeReal); [unfold io_types; set_solver|done|apply Htyp; set_solver|done].
  - apply (zip_image AnyInteger fmiTypeInteger); [unfold io_types; set_solver|done|apply Htyp; set_solver|done].
  - apply (zip_image AnyBoolean fmiTypeBoolean); [unfold io_types; set_solver|done|apply Htyp; set_solver|done].
  - apply (zip_image AnyString fmiTypeString); [unfold io_types; set_solver|done|apply Htyp; set_solver|done].
Qed.

Lemma append_ok {A} (wrap_any : A -> any) dest ids (values : list A) :
  length values = length ids ->
  appendOutputVariables wrap_any dest ids values =
  Ret (dest ++ zip_with (fun id v => mk_variable id (wrap_any v)) ids values).
Proof. intros Hlen. unfold appendOutputVariables. rewrite obind_assert by by apply Nat.eqb_eq. done. Qed.

Lemma valid_vars m vars :
  Forall (fun v => isValid v = true /\ exists t, t ∈ io_types /\ id_ v ∈ ids_of m t) vars ->
  Forall (fun v => isValid v = true) vars.
Proof. intros Hv. eapply Forall_impl; [exact Hv|]. by intros v [? _]. Qed.

Lemma getOutputEvent_ok m p :
  os_wf m p ->
  getOutputEvent p = Ret {| se_time := me_getTime (fmu_ p); se_var := outputs_at m (outputImage_ p) |}.
Proof.
  intros Hwf. pose proof (outputs_at_ok m p _ Hwf (os_image m p Hwf)) as Hout%valid_vars.
  destruct (os_image m p Hwf) as (Hr & Hi & Hb & Hs). assert (Hids := os_ids m p Hwf). unfold io_types in Hids.
  unfold getOutputEvent. rewrite (os_mapping m p Hwf).
  rewrite !Hids by set_solver. cbn [obind].
  rewrite append_ok by done. cbn [obind]. rewrite append_ok by done. cbn [obind].
  rewrite append_ok by done. cbn [obind]. rewrite append_ok by done. cbn [obind].
  unfold outputs_at in Hout. rewrite !(assoc_L (++)) in Hout. unfold new_StaticEvent.
  rewrite event_isValid_all by exact Hout. cbn [obind assert_]. unfold outputs_at. by rewrite !(assoc_L (++)).
Qed.

(** ** Prediction *)

(** The end of the step that starts at the model's time. *)
Definition step_target (props : SimulationProperties) p : fmiTime := (me_getTime (fmu_ p) + lookAheadStepSize props)%f64.

(** The state and the event of a new prediction. *)
Record new_prediction (m : ChannelMapping) (props : SimulationProperties) p (ev : StaticEvent) p' : Prop := {
  np_wf : os_wf m p';
  np_current : currentPrediction_ p' = Some ev;
  np_inputs : inputValueReference_ p' = inputValueReference_ p;
  np_outputs : exists f, integrated props (step_target props p) (fmu_ p) f /\ outputs_read p (outputImage_ p') f (fmu_ p');
  np_time : se_time ev = me_getTime (fmu_ p');
  np_reached : variableStepSizeOnModelEvent props = true \/
               (me_getTime (fmu_ p') <? step_target props p - timingPrecision props)%f64 = false;
  np_variables :
    (image_unchanged (outputImage_ p) (outputImage_ p') /\ se_var ev = []) \/
    (~ image_unchanged (outputImage_ p) (outputImage_ p') /\ se_var ev = outputs_at m (outputImage_ p'));
}.

Lemma set_fmu_wf m f p : os_wf m p -> os_wf m (set_fmu f p).
Proof. by intros []. Qed.

Lemma predictNext_new m p props fuel :
  os_wf m p -> simulationProperties_ p = Some props -> currentPrediction_ p = None ->
  (pending_events (step_target props p) (fmu_ p) < fuel)%nat ->
  wp (predictNext fuel p) (fun r => new_prediction m props p r.1 r.2) solver_error.
Proof.
  intros Hwf Hprops Hnone Hfuel. unfold predictNext. rewrite Hnone.
  unfold predictOneStep. rewrite Hprops. apply wp_bind. apply wp_bind.
  assert (Hprec : timingPrecision props = f64_1em4).
  { destruct (os_simulation m p Hwf) as (props' & Hp & ?). congruence. }
  eapply wp_mono; [by apply integrate_loop_ok| |done]. intros f Hint. cbn [wp].
  pose proof (integrated_reached _ _ _ _ Hint) as Hreach.
  apply wp_bind. eapply wp_mono; [apply (updateOutputImage_ok m), set_fmu_wf, Hwf| |done].
  intros [c p2] (Hc & Hfits & Htime & Hp2 & Hread). cbn [fst snd] in *.
  assert (Hwf2 : os_wf m p2). { rewrite Hp2. destruct Hwf. by split. }
  assert (Hfields : inputValueReference_ p2 = inputValueReference_ p) by by rewrite Hp2.
  cbn [set_fmu outputImage_ fmu_] in Hc, Htime.
  assert (Hpred : forall ev, prediction_ok m ev -> os_wf m (set_prediction (Some ev) p2)).
  { intros ev Hev. destruct Hwf2. split; try done. cbn. by intros ? [= <-]. }
  destruct c.
  - rewrite (getOutputEvent_ok m p2 Hwf2). cbn [obind wp fst snd]. split; try done.
    + apply Hpred. by apply (outputs_at_ok m p2).
    + by exists f.
    + cbn. by rewrite Htime.
    + cbn. right. split; [|done]. intros Hu. by apply Hc in Hu.
  - cbn [obind wp fst snd new_StaticEvent event_isValid assert_]. split; try done.
    + apply Hpred. constructor.
    + by exists f.
    + cbn. by rewrite Htime.
    + cbn. left. split; [|done]. by apply Hc.
Qed.

(** C31: one step of the single-step predictor.  With fuel for the model events before
    the target, [predictNext] terminates and no assertion fails.  An outstanding
    prediction is returned again and nothing changes.  Otherwise the model is
    integrated to the target, up to the timing precision, or to the first model
    event with variable step sizes; then the values of all outputs are read from it, by
    their references; the event carries the model's time, and all outputs with the values
    just read if one of them differs from the value read before, and no variable otherwise;
    it becomes the outstanding prediction. *)
Theorem onestep_predicts m p props fuel :
  os_wf m p -> simulationProperties_ p = Some props ->
  (pending_events (step_target props p) (fmu_ p) < fuel)%nat ->
  wp (predictNext fuel p)
     (fun r => match currentPrediction_ p with
               | Some ev => r = (ev, p)
               | None => new_prediction m props p r.1 r.2
               end) solver_error.
Proof.
  intros Hwf Hprops Hfuel. destruct (currentPrediction_ p) as [ev|] eqn:Hcur; [|by apply predictNext_new].
  unfold predictNext. by rewrite Hcur.
Qed.

(** ** Distributing events *)

(** Does the event set an input? *)
Definition mentions_input (refs : gmap PortID Z) (vars : list Variable_t) : bool :=
  existsb (fun v => bool_decide (is_Some (refs !! Variables.getID v))) vars.
Definition sets_input (vars : list Variable_t) p : bool := mentions_input (inputValueReference_ p) vars.

(** Only the model has changed. *)
Definition only_model p p' : Prop := p' = set_fmu (fmu_ p') p.

Lemma input_value_ok v : isValid v = true -> input_value v = Ret (data_ v).
Proof.
  intros Hv. pose proof (typed_accessors v Hv) as Ha. unfold input_value.
  destruct (id_ v).1; [..|done]; destruct Ha as (x & -> & ->); done.
Qed.

Lemma variable_toString_ok v : isValid v = true -> exists s, variable_toString v = Ret s.
Proof.
  intros Hv. pose proof (typed_accessors v Hv) as Ha. unfold variable_toString. rewrite Hv.
  destruct (id_ v).1; [..|done]; destruct Ha as (x & _ & ->); cbn; eauto.
Qed.

Lemma updateInputVariable_ok v p :
  isValid v = true ->
  wp (updateInputVariable p v)
     (fun r => r.1 = bool_decide (is_Some (inputValueReference_ p !! Variables.getID v)) /\ only_model p r.2 /\
               (r.1 = false -> r.2 = p)) solver_error.
Proof.
  intros Hv. unfold updateInputVariable. rewrite Hv. cbn [assert_ obind].
  destruct (inputValueReference_ p !! Variables.getID v) as [ref|].
  - rewrite input_value_ok by done. cbn [obind]. destruct (setValue_ref ref (data_ v) (fmu_ p)) as [err f].
    destruct (negb (err =? 0)).
    + destruct (variable_toString_ok v Hv) as [s ->]. by eexists.
    + cbn. by split_and!.
  - cbn. split_and!; try done. by destruct p.
Qed.

Lemma only_model_trans p1 p2 p3 : only_model p1 p2 -> only_model p2 p3 -> only_model p1 p3.
Proof. unfold only_model. intros H1 H2. rewrite H2, H1. done. Qed.

Lemma updateInputVariables_ok vars p :
  Forall (fun v => isValid v = true) vars ->
  wp (updateInputVariables vars p)
     (fun r => r.1 = sets_input vars p /\ only_model p r.2 /\ (r.1 = false -> r.2 = p)) solver_error.
Proof.
  intros Hv. revert p; induction Hv as [|v vars Hv Hvars IH]; intros p; cbn [updateInputVariables].
  - cbn. split_and!; try done. by destruct p.
  - apply wp_bind. eapply wp_mono; [by apply updateInputVariable_ok| |done].
    intros [b p1] (Hb & Hm & Hsame). cbn [fst snd] in *. apply wp_bind. eapply wp_mono; [apply IH| |done].
    intros [b' p2] (Hb' & Hm' & Hsame'). cbn [fst snd wp] in *. split_and!.
    + unfold sets_input, mentions_input in *. cbn [existsb]. rewrite <- Hb, Hb'. f_equal. unfold only_model in Hm. by rewrite Hm.
    + by eapply only_model_trans.
    + intros [-> ->]%orb_false_iff. by rewrite Hsame', Hsame.
Qed.

(** An event that sets an input: the model has the new values and the prediction
    stays.  Any other event, above all the predictor's own, ends the prediction. *)
Lemma onestep_eventTriggered_ok ev p :
  Forall (fun v => isValid v = true) (se_var ev) ->
  wp (onestep_eventTriggered ev p)
     (fun p' => if sets_input (se_var ev) p then only_model p p' else p' = set_prediction None p) solver_error.
Proof.
  intros Hv. unfold onestep_eventTriggered. apply wp_bind. eapply wp_mono; [by apply updateInputVariables_ok| |done].
  intros [b p1] (Hb & Hm & Hsame). cbn [fst snd] in *. rewrite <- Hb. destruct b; cbn [wp].
  - unfold only_model in *. by rewrite Hm.
  - by rewrite Hsame.
Qed.

Lemma own_sets_no_input m p ev : os_wf m p -> prediction_ok m ev -> sets_input (se_var ev) p = false.
Proof.
  intros Hwf Hev. apply not_true_iff_false. intros (v & Hv & Hs)%existsb_exists. apply list_elem_of_In in Hv.
  apply bool_decide_eq_true in Hs. unfold prediction_ok in Hev. rewrite Forall_forall in Hev.
  destruct (Hev v Hv) as [_ (t & Ht & Hid)]. by apply (os_inputs m p Hwf _ Hs t Ht).
Qed.

(** ** The protocol with the dispatcher

    What surrounds the predictor, with the queue left out: in each turn a prediction is
    asked for, and then that event is distributed or any other one, from a subscriber or
    an older prediction that has stayed in the queue. *)

Inductive os_distribution := OsOwn | OsOther (s : StaticEvent).

(** The turns, with the predictions that were offered. *)
Fixpoint drive_onestep (fuel : nat) (ds : list os_distribution) p : result (list StaticEvent * OneStepEventPredictor M F) :=
  match ds with
  | [] => Ret ([], p)
  | d :: ds' =>
      let* r := predictNext fuel p in
      let* p2 := onestep_eventTriggered (match d with OsOwn => r.1 | OsOther s => s end) r.2 in
      let* r' := drive_onestep fuel ds' p2 in
      Ret (r.1 :: r'.1, r'.2)
  end.

Definition os_distribution_ok (d : os_distribution) : Prop :=
  match d with OsOwn => True | OsOther s => Forall (fun v => isValid v = true) (se_var s) end.

(** What is offered: the outstanding prediction, if there is one.  It is outstanding until
    it is distributed, or another event that sets no input. *)
Fixpoint offers_stable (refs : gmap PortID Z) (ds : list os_distribution) (offers : list StaticEvent)
    (current : option StaticEvent) : Prop :=
  match ds, offers with
  | [], [] => True
  | d :: ds', ev :: offers' =>
      (forall ev0, current = Some ev0 -> ev = ev0) /\
      offers_stable refs ds' offers'
        (match d with OsOwn => None | OsOther s => if mentions_input refs (se_var s) then Some ev else None end)
  | _, _ => False
  end.

Lemma only_model_wf m p p' : os_wf m p -> only_model p p' -> os_wf m p'.
Proof. intros Hwf ->. by apply set_fmu_wf. Qed.

Lemma drop_prediction_wf m p : os_wf m p -> os_wf m (set_prediction None p).
Proof. by intros []. Qed.

Lemma predictNext_turn m fuel p :
  (forall target f, (pending_events target f < fuel)%nat) -> os_wf m p ->
  wp (predictNext fuel p)
     (fun r => os_wf m r.2 /\ prediction_ok m r.1 /\ currentPrediction_ r.2 = Some r.1 /\
               inputValueReference_ r.2 = inputValueReference_ p /\
               forall ev0, currentPrediction_ p = Some ev0 -> r.1 = ev0) solver_error.
Proof.
  intros Hfuel Hwf. destruct (currentPrediction_ p) as [ev|] eqn:Hcur.
  - unfold predictNext. rewrite Hcur. cbn. split_and!; try done; [by apply (os_prediction m p Hwf)|]. by intros ? [= <-].
  - destruct (os_simulation m p Hwf) as (props & Hprops & _).
    eapply wp_mono; [by apply (predictNext_new m p props)| |done]. intros r [Hwf' Hcur' Hin _ _ _ _].
    split_and!; try done. by apply (os_prediction m r.2 Hwf').
Qed.

(** C32: the single-step predictor among the events of a run.  With fuel for the model
    events of any step, any sequence of turns, each of which distributes the event just
    offered or any other one with valid variables, runs without a failed assertion: only
    the model can end it, by an exception.  As long as the events distributed set inputs,
    the same event is offered again and again.  It is given up when it is distributed, and
    also when another event is distributed that sets no input. *)
Theorem onestep_protocol m fuel ds p :
  (forall target f, (pending_events target f < fuel)%nat) -> os_wf m p -> Forall os_distribution_ok ds ->
  wp (drive_onestep fuel ds p)
     (fun r => os_wf m r.2 /\ inputValueReference_ r.2 = inputValueReference_ p /\
               offers_stable (inputValueReference_ p) ds r.1 (currentPrediction_ p)) solver_error.
Proof.
  intros Hfuel Hwf Hds. revert p Hwf; induction Hds as [|d ds Hd Hds IH]; intros p Hwf; [done|]. cbn [drive_onestep].
  apply wp_bind. eapply wp_mono; [by apply (predictNext_turn m)| |done]. intros [ev p1] (Hwf1 & Hev & Hcur & Hin & Hst).
  cbn [fst snd] in *. apply wp_bind.
  eapply wp_mono with (Q := fun p2 => os_wf m p2 /\ inputValueReference_ p2 = inputValueReference_ p /\
    currentPrediction_ p2 = match d with OsOwn => None
                            | OsOther s => if mentions_input (inputValueReference_ p) (se_var s) then Some ev else None end);
    [| |done].
  - destruct d as [|s].
    + eapply wp_mono; [apply onestep_eventTriggered_ok, (valid_vars m), Hev| |done]. intros p2.
      rewrite (own_sets_no_input m p1 ev Hwf1 Hev). intros ->. split; [by apply drop_prediction_wf|done].
    + eapply wp_mono; [by apply onestep_eventTriggered_ok| |done]. intros p2. unfold sets_input. rewrite Hin.
      destruct (mentions_input _ _).
      * intros Hm. split; [by eapply only_model_wf|]. by rewrite Hm.
      * intros ->. split; [by apply drop_prediction_wf|done].
  - intros p2 (Hwf2 & Hin2 & Hcur2). apply wp_bind. eapply wp_mono; [by apply IH| |done].
    intros [offers p3] (Hwf3 & Hin3 & Hoff). cbn [wp fst snd offers_stable] in *. rewrite Hin2, Hcur2 in Hoff.
    split_and!; [done|congruence|exact Hst|exact Hoff].
Qed.

(** An external event without inputs makes a prediction disappear.  The predictor
    takes any event that sets no input for its own: the outstanding event is
    discarded without having been distributed, and the next call of [predictNext]
    integrates a further step from where the model is, and compares the outputs
    with those nobody has seen. *)
Theorem onestep_prediction_lost m fuel p ev s :
  (forall target f, (pending_events target f < fuel)%nat) -> os_wf m p -> currentPrediction_ p = Some ev ->
  Forall (fun v => isValid v = true) (se_var s) -> sets_input (se_var s) p = false ->
  wp (let* p1 := onestep_eventTriggered s p in predictNext fuel p1)
     (fun r => exists props, simulationProperties_ p = Some props /\ new_prediction m props p r.1 r.2) solver_error.
Proof.
  intros Hfuel Hwf Hcur Hv Hno. apply wp_bind. eapply wp_mono; [by apply onestep_eventTriggered_ok| |done].
  intros p1. rewrite Hno. intros ->. destruct (os_simulation m p Hwf) as (props & Hprops & _).
  eapply wp_mono; [by apply (predictNext_new m _ props); [apply drop_prediction_wf|..]| |done].
  intros r [H1 H2 H3 H4 H5 H6 H7]. exists props. by split.
Qed.

End OneStepSpec.

(** ** A concrete model

    The output is the input at the last synchronisation point. *)

Record sample_me := { sm_time : fmiTime; sm_input : Z; sm_output : Z }.

#[export] Instance sample_me_description : ModelDescription unit :=
  { hasDefaultExperiment _ := false; defaultStartTime _ := f64_zero }.

#[export] Instance sample_model : FMUModelExchange sample_me := {
  new_fmi_1_0 _ _ _ _ := {| sm_time := f64_zero; sm_input := 0; sm_output := 0 |};
  new_fmi_2_0 _ _ _ _ := {| sm_time := f64_zero; sm_input := 0; sm_output := 0 |};
  me_lastStatus _ := 0;
  me_setIntegratorProperties props f := (props, f);
  me_instantiate _ f := (0, f);
  me_initialize f := (0, f);
  me_setTime t f := {| sm_time := t; sm_input := sm_input f; sm_output := sm_output f |};
  me_getTime := sm_time;
  fmiUndefinedValueReference := -1;
  getValueRef name _ := if String.eqb name "u" then 0 else if String.eqb name "x" then 1 else -1;
  me_getType name _ := fmiTypeReal;
  setValue_name _ v f := (0, f);
  setValue_ref _ v f :=
    (0, {| sm_time := sm_time f; sm_input := default 0 (any_integer v); sm_output := sm_output f |});
  getValue_real refs f := (0, map (fun _ => 0) refs, f);
  getValue_integer refs f := (0, map (fun _ => sm_output f) refs, f);
  getValue_boolean refs f := (0, map (fun _ => 0) refs, f);
  getValue_string refs f := (0, map (fun _ => "") refs, f);
  me_integrate stop _ f :=
    (if (stop <? stop - f64_1em4)%f64 then S754_nan else stop,
     {| sm_time := stop; sm_input := sm_input f; sm_output := sm_input f |});
  me_handleEvents f := f;
  checkTimeEvent _ := false;
  getTimeEvent _ := f64_zero;
  me_description := unit;
  me_getModelDescription _ := Some tt;
}.

#[export] Instance sample_model_laws : FMUModelExchangeLaws sample_me.
Proof.
  refine {| pending_events _ _ := 0%nat |}.
  - intros stop dt f t f' [= <- <-] Hn _ Hlt. cbn in Hlt. by rewrite Hlt in Hn.
  - intros refs f vs f' [= <- _]. apply length_map.
  - intros refs f vs f' [= <- _]. apply length_map.
  - intros refs f vs f' [= <- _]. apply length_map.
  - intros refs f vs f' [= <- _]. apply length_map.
  - done.
  - done.
  - done.
  - done.
Defined.

#[export] Instance sample_me_manager : ModelManager unit := {
  loadFMU_named _ _ m := (success, fmi_2_0_me, m);
  loadFMU _ m := (success, fmi_2_0_me, "sample", m);
  bare_fmu := unit;
  getSlave _ _ := tt;
  getModel _ _ := tt;
  getInstance _ _ := tt;
}.

(** The output 0 and the input 1, both integers. *)
Definition os_mapping_sample : ChannelMapping (H := tree_ptree) :=
  {| variableNames_ := [[]; ["x"]; []; []; []]; variableIDs_ := [[]; [(fmiTypeInteger, 0)]; []; []; []]; channels_ := [] |}.

Definition os_props : SimulationProperties :=
  {| lookAheadStepSize := f64_of_Z 1; integratorStepSize := (f64_of_Z 1 / f64_of_Z 10)%f64;
     variableStepSizeOnModelEvent := false; timingPrecision := f64_1em4 |}.

Definition os_sample : OneStepEventPredictor unit sample_me :=
  {| os_lowLevelFMU_ := {| path_ := "file:sample"; modelIdentifier_ := "sample"; type_ := fmi_2_0_me; fmuLock_ := Some tt |};
     fmu_ := {| sm_time := f64_zero; sm_input := 7; sm_output := 0 |};
     outputImage_ := {| realInputImage_ := []; integerInputImage_ := [0]; booleanInputImage_ := []; stringInputImage_ := [] |};
     outputValueReference_ := [[]; [1]; []; []]; outputMapping_ := Some os_mapping_sample;
     inputValueReference_ := {[ (fmiTypeInteger, 1) := 0 ]}; currentPrediction_ := None;
     simulationProperties_ := Some os_props |}.

Lemma os_sample_wf : os_wf os_mapping_sample os_sample.
Proof.
  split; try done.
  - intros [] _; reflexivity.
  - intros [] _; repeat constructor.
  - intros [] _; reflexivity.
  - intros id [ref Hid]. cbn in Hid. apply lookup_singleton_Some in Hid as [<- _].
    intros [] _; cbn; set_solver.
  - by exists os_props.
Qed.

Lemma onestep_predicts_witness :
  wp (predictNext 1 os_sample) (fun r => new_prediction os_mapping_sample os_props os_sample r.1 r.2) solver_error /\
  match predictNext 1 os_sample with
  | Ret (ev, _) => ev = {| se_time := f64_of_Z 1; se_var := [mk_variable (fmiTypeInteger, 0) (AnyInteger 7)] |}
  | _ => False
  end.
Proof.
  split; [|vm_compute; reflexivity].
  exact (onestep_predicts os_mapping_sample os_sample os_props 1 os_sample_wf eq_refl (Nat.lt_0_succ 0)).
Defined.

(** An input event that sets the input to 9. *)
Definition os_input : StaticEvent :=
  {| se_time := (f64_of_Z 1 / f64_of_Z 2)%f64; se_var := [mk_variable (fmiTypeInteger, 1) (AnyInteger 9)] |}.

(** An event without variables, such as the one a subscriber emits for a packet it
    cannot decode. *)
Definition os_empty : StaticEvent := {| se_time := (f64_of_Z 1 / f64_of_Z 2)%f64; se_var := [] |}.

Definition os_sample_turns : list os_distribution := [OsOther os_input; OsOwn; OsOther os_empty; OsOwn].

Definition offers_of (r : result (list StaticEvent * OneStepEventPredictor unit sample_me)) : list (fmiTime * list any) :=
  match r with Ret (offers, _) => map (fun ev => (se_time ev, map data_ (se_var ev))) offers | _ => [] end.

Lemma onestep_protocol_witness :
  wp (drive_onestep 1 os_sample_turns os_sample)
     (fun r => os_wf os_mapping_sample r.2 /\ inputValueReference_ r.2 = inputValueReference_ os_sample /\
               offers_stable (inputValueReference_ os_sample) os_sample_turns r.1 None) solver_error /\
  offers_of (drive_onestep 1 os_sample_turns os_sample) =
    [(f64_of_Z 1, [AnyInteger 7]); (f64_of_Z 1, [AnyInteger 7]); (f64_of_Z 2, [AnyInteger 9]); (f64_of_Z 3, [])].
Proof.
  split; [|vm_compute; reflexivity].
  apply (onestep_protocol os_mapping_sample 1 os_sample_turns os_sample).
  - intros target f. exact (Nat.lt_0_succ 0).
  - exact os_sample_wf.
  - repeat constructor.
Defined.

Definition os_predicted : OneStepEventPredictor unit sample_me :=
  match predictNext 1 os_sample with Ret (_, p) => p | _ => os_sample end.

Definition os_first : StaticEvent :=
  {| se_time := f64_of_Z 1; se_var := [mk_variable (fmiTypeInteger, 0) (AnyInteger 7)] |}.

Lemma os_predicted_wf : os_wf os_mapping_sample os_predicted.
Proof.
  pose proof (predictNext_new os_mapping_sample os_sample os_props 1 os_sample_wf eq_refl eq_refl (Nat.lt_0_succ 0)) as Hn.
  exact (np_wf _ _ _ _ _ Hn).
Qed.

(** The outputs of the step at 1 s, with the value 7, are never distributed: the
    event at 2 s reports no change. *)
Lemma onestep_prediction_lost_witness :
  currentPrediction_ os_predicted = Some os_first /\
  wp (let* p1 := onestep_eventTriggered os_empty os_predicted in predictNext 1 p1)
     (fun r => exists props, simulationProperties_ os_predicted = Some props /\
                             new_prediction os_mapping_sample props os_predicted r.1 r.2) solver_error /\
  offers_of (drive_onestep 1 [OsOther os_empty; OsOwn] os_sample) =
    [(f64_of_Z 1, [AnyInteger 7]); (f64_of_Z 2, [])].
Proof.
  assert (Hcur : currentPrediction_ os_predicted = Some os_first) by (vm_compute; reflexivity).
  split; [exact Hcur|]. split; [|vm_compute; reflexivity].
  apply (onestep_prediction_lost os_mapping_sample 1 os_predicted os_first os_empty).
  - intros target f. exact (Nat.lt_0_succ 0).
  - exact os_predicted_wf.
  - exact Hcur.
  - constructor.
  - reflexivity.
Defined.
