(* ===== verification/OneStepEventPredictorInit.v ===== *)
(** * Initialisation of the single-step predictor

    What [init] of OneStepEventPredictor.cpp establishes: the invariant under which
    [OneStepEventPredictorSpec] proves the protocol, with the value references that the model
    gives for the names of the two mappings. *)

From stdpp Require Import gmap.
From S2P Require Import Prelude Float64 BaseExceptions PortID Format Variables PropertyTree Event FMUTypes.
From S2P Require Import ChannelMapping ChannelMappingSpec ApplicationContext ApplicationContextSpec.
From S2P Require Import ManagedLowLevelFMU SolverConfiguration OneStepEventPredictor OneStepEventPredictorSpec.

Local Open Scope Z_scope.

Section Init.
Context `{PT : PropertyTree} `{!PropertyTreeLaws PT} `{IP : IntegratorProperties} {M F : Type} `{MM : ModelManager M}.
Context `{FM : FMUModelExchange F} `{!FMUModelExchangeLaws F}.
Implicit Types p : OneStepEventPredictor M F.

(** ** The model only *)

Lemma only_model_refl p : only_model p p.
Proof. by destruct p. Qed.

Lemma setDefaultValue_Ret context p name p' : setDefaultValue context p name = Ret p' -> only_model p p'.
Proof.
  unfold setDefaultValue. case_bool_decide; [done|]. intros (v & _ & Hr)%obind_Ret_inv.
  destruct (setValue_name name v (fmu_ p)) as [err f]. destruct (negb (err =? 0)).
  - by destruct (getProperty tr_string context _).
  - by injection Hr as <-.
Qed.

Lemma setDefaultValues_Ret context p p' : setDefaultValues context p = Ret p' -> only_model p p'.
Proof.
  unfold setDefaultValues. destruct (negb _); [intros [= <-]; apply only_model_refl|].
  intros (def & _ & Hr)%obind_Ret_inv.
  apply (foldlM_inv _ (only_model p) _ _ _) in Hr; [done| |apply only_model_refl].
  intros p1 name p2 _ H1 H2. eapply only_model_trans; [exact H1|by eapply setDefaultValue_Ret].
Qed.

Lemma initModel_Ret start context p p' : initModel start context p = Ret p' -> only_model p p'.
Proof.
  unfold initModel. intros (p1 & Hp1%setDefaultValues_Ret & Hr)%obind_Ret_inv.
  destruct (me_initialize (fmu_ p1)) as [err f]. destruct (negb (err =? 0)); [done|].
  destruct (_ && _); [destruct (negb _); [done|]|]; injection Hr as <-; unfold only_model in *; by rewrite Hp1.
Qed.

(** ** Value references *)

Definition references (f : F) (names : list string) : list Z := map (fun name => getValueRef name f) names.

Lemma output_references_Ret f names refs : output_references f names = Ret refs -> refs = references f names.
Proof.
  revert refs. induction names as [|name names IH]; intros refs; cbn; [by intros [= <-]|].
  destruct (_ =? _); [done|]. intros (refs' & Hr & [= <-])%obind_Ret_inv. by rewrite (IH _ Hr).
Qed.

Lemma input_references_Ret f entries refs refs' id :
  input_references f entries refs = Ret refs' -> is_Some (refs' !! id) -> is_Some (refs !! id) \/ id ∈ map snd entries.
Proof.
  revert refs. induction entries as [|[name i] entries IH]; intros refs; cbn; [intros [= <-]; by left|].
  destruct (_ =? _); [done|]. intros Hr Hid. destruct (IH _ Hr Hid) as [Hs|Hin]; [|right; set_solver].
  destruct (decide (i = id)) as [->|Hne]; [right; set_solver|]. rewrite lookup_insert_ne in Hs by done. by left.
Qed.


(** The initialisation of one type of outputs. *)
Lemma initOutputValueReferences_Ret m t p p' :
  outputMapping_ p = Some m -> initOutputValueReferences t p = Ret p' ->
  p' = set_references (<[type_index t := output_refs p t ++ references (fmu_ p) (names_of m t)]> (outputValueReference_ p))
         (Some m) (inputValueReference_ p) p /\ (type_index t < length (outputValueReference_ p))%nat.
Proof.
  intros Hm. unfold initOutputValueReferences. rewrite Hm. intros (u & Ht & Hr)%obind_Ret_inv.
  apply obind_Ret_inv in Hr as (names & Hn & Hr). apply obind_Ret_inv in Hr as (refs & ->%output_references_Ret & [= <-]).
  unfold getVariableNames in Hn. apply obind_Ret_inv in Hn as (? & _ & [= <-]). split; [done|].
  unfold assert_ in Ht. destruct (_ <? _)%nat eqn:Hlt; [by apply Nat.ltb_lt|done].
Qed.

(** All of them, from the state of the constructor. *)
Lemma initOutputValueReferences_fold m p p' :
  outputMapping_ p = Some m -> outputValueReference_ p = replicate 4 [] ->
  foldlM (fun p t => initOutputValueReferences t p) p [fmiTypeReal; fmiTypeInteger; fmiTypeBoolean; fmiTypeString] = Ret p' ->
  p' = set_references (map (fun t => references (fmu_ p) (names_of m t)) io_types) (Some m) (inputValueReference_ p) p.
Proof.
  intros Hm Hrefs. cbn [foldlM]. intros (p1 & H1 & Hr)%obind_Ret_inv. apply obind_Ret_inv in Hr as (p2 & H2 & Hr).
  apply obind_Ret_inv in Hr as (p3 & H3 & Hr). apply obind_Ret_inv in Hr as (p4 & H4 & [= <-]).
  apply (initOutputValueReferences_Ret m) in H1 as [-> _]; [|done]. apply (initOutputValueReferences_Ret m) in H2 as [-> _]; [|done].
  apply (initOutputValueReferences_Ret m) in H3 as [-> _]; [|done]. apply (initOutputValueReferences_Ret m) in H4 as [-> _]; [|done].
  unfold output_refs. cbn. rewrite Hrefs. done.
Qed.

Lemma length_resize {A} n (v : A) l : length (resize n v l) = n.
Proof. unfold resize. rewrite length_app, length_take, length_replicate. lia. Qed.

(** ** [init] *)

(** A predictor as its constructor leaves it. *)
Definition os_fresh p : Prop :=
  outputValueReference_ p = replicate 4 [] /\ inputValueReference_ p = ∅ /\ currentPrediction_ p = None.

Lemma getVariableIDs_aligned d n m d' t :
  variables_ok d n m d' -> t <> fmiTypeUnknown -> getVariableIDs m t = Ret (ids_of m t).
Proof.
  intros Hv Ht. unfold getVariableIDs, aligned_type. rewrite obind_assert; [|by rewrite (vo_names _ _ _ _ Hv); destruct t].
  rewrite obind_assert; [|apply same_length_true; by rewrite (vo_names _ _ _ _ Hv), (vo_ids _ _ _ _ Hv)].
  by rewrite (proj2 (Nat.eqb_eq _ _) (variables_aligned _ _ _ _ _ Hv) : same_length (names_of m t) (ids_of m t) = true).
Qed.

(** The references of the inputs, for different identifiers. *)
Lemma input_references_lookup f entries refs refs' k name id :
  input_references f entries refs = Ret refs' -> NoDup (map snd entries) -> entries !! k = Some (name, id) ->
  refs' !! id = Some (getValueRef name f).
Proof.
  assert (Hkeep : forall entries refs, input_references f entries refs = Ret refs' -> id ∉ map snd entries -> refs' !! id = refs !! id).
  { clear. induction entries as [|[n i] entries IH]; intros refs; cbn; [by intros [= <-]|]. destruct (_ =? _); [done|].
    intros Hr Hin. rewrite (IH _ Hr) by set_solver. rewrite lookup_insert_ne; [done|set_solver]. }
  revert refs k. induction entries as [|[n i] entries IH]; intros refs k; cbn; [done|]. destruct (_ =? _); [done|].
  intros Hr [Hn Hnd]%NoDup_cons Hk. destruct k as [|k]; cbn in Hk; [|by eapply IH].
  injection Hk as -> ->. rewrite (Hkeep _ _ Hr Hn). by rewrite lookup_insert_eq.
Qed.

(** The predictor in front of the first look at the outputs. *)
Record prepared (mo mi : ChannelMapping) p p1 : Prop := {
  pp_mapping : outputMapping_ p1 = Some mo;
  pp_outputs : outputValueReference_ p1 = map (fun t => references (fmu_ p) (names_of mo t)) io_types;
  pp_inputs : input_references (fmu_ p) (zip (getAllVariableNames mi) (getAllVariableIDs mi)) ∅ = Ret (inputValueReference_ p1);
  pp_image : image_fits mo (outputImage_ p1);
  pp_prediction : currentPrediction_ p1 = None;
  pp_simulation : exists props, simulationProperties_ p1 = Some props /\ timingPrecision props = f64_1em4;
}.

Lemma initOutputStructures_Ret context p p' context' :
  os_fresh p -> initOutputStructures context p = Ret (p', context') ->
  exists mo, getOutputChannelMapping context = Ret (mo, context') /\ names_of mo fmiTypeUnknown = [] /\
    outputMapping_ p' = Some mo /\ outputValueReference_ p' = map (fun t => references (fmu_ p) (names_of mo t)) io_types /\
    image_fits mo (outputImage_ p') /\ inputValueReference_ p' = ∅ /\ currentPrediction_ p' = None /\ fmu_ p' = fmu_ p.
Proof.
  intros (Hrefs & Hin & Hnone). unfold initOutputStructures. intros ([mo c1] & Hmo & Hr)%obind_Ret_inv. cbn [fst snd] in Hr.
  assert (Hids : forall t ids, getVariableIDs mo t = Ret ids -> ids = ids_of mo t).
  { intros t ids Hi. unfold getVariableIDs in Hi. by apply obind_Ret_inv in Hi as (? & _ & [= <-]). }
  apply obind_Ret_inv in Hr as (reals & ->%Hids & Hr). apply obind_Ret_inv in Hr as (integers & ->%Hids & Hr).
  apply obind_Ret_inv in Hr as (booleans & ->%Hids & Hr). apply obind_Ret_inv in Hr as (strs & ->%Hids & Hr).
  apply obind_Ret_inv in Hr as (p1 & Hp1 & Hr). apply (initOutputValueReferences_fold mo) in Hp1; [|done..].
  apply obind_Ret_inv in Hr as (unknown & Hu & Hr). unfold getVariableNames in Hu. apply obind_Ret_inv in Hu as (? & _ & [= <-]).
  destruct (names_of mo fmiTypeUnknown) eqn:Hun; [|done]. injection Hr as -> ->. exists mo. subst p'.
  split_and!; try done. unfold image_fits. cbn. by rewrite !length_resize.
Qed.

Lemma initSimulationProperties_Ret context p p' :
  initSimulationProperties context p = Ret p' -> exists props, p' = set_simulation props p /\ timingPrecision props = f64_1em4.
Proof.
  unfold initSimulationProperties. intros (look & _ & Hr)%obind_Ret_inv. apply obind_Ret_inv in Hr as (int & _ & Hr).
  destruct (look <? int)%f64; [by destruct (getProperty tr_string context _)|].
  apply obind_Ret_inv in Hr as (var & _ & [= <-]). by eexists.
Qed.

Lemma init_prepares context p p' context' :
  os_fresh p -> init context p = Ret (p', context') ->
  exists mo c1 mi p1 b, getOutputChannelMapping context = Ret (mo, c1) /\ getInputChannelMapping c1 = Ret (mi, context') /\
    names_of mo fmiTypeUnknown = [] /\ prepared mo mi p p1 /\ updateOutputImage p1 = Ret (b, p').
Proof.
  intros Hfresh. unfold init. intros (? & _ & Hr)%obind_Ret_inv. apply obind_Ret_inv in Hr as (start & _ & Hr).
  apply obind_Ret_inv in Hr as ([po c1] & Hpo & Hr). apply obind_Ret_inv in Hr as ([mi c2] & Hmi & Hr). cbn [fst snd] in *.
  apply initOutputStructures_Ret in Hpo as (mo & Hmo & Hu & Hm & Hrefs & Himg & Hin & Hnone & Hf); [|done].
  apply obind_Ret_inv in Hr as (pi & Hpi & Hr). unfold initInputValueReference in Hpi. apply obind_Ret_inv in Hpi as (? & _ & Hpi).
  apply obind_Ret_inv in Hpi as (refs & Hirefs & [= <-]).
  apply obind_Ret_inv in Hr as (ps & (props & -> & Hprec)%initSimulationProperties_Ret & Hr).
  apply obind_Ret_inv in Hr as (pm & Hpm%initModel_Ret & Hr). apply obind_Ret_inv in Hr as ([b pe] & Hpe & [= <- <-]).
  exists mo, c1, mi, pm, b. split_and!; try done. rewrite Hin, Hf in Hirefs. unfold only_model in Hpm. rewrite Hpm.
  split; cbn; try done. by exists props.
Qed.

Lemma map_snd_zip {A B} (l : list A) (k : list B) x : x ∈ map snd (zip l k) -> x ∈ k.
Proof. intros ([a b] & -> & Hin)%list_elem_of_fmap. by apply elem_of_zip_r in Hin. Qed.

Lemma NoDup_snd_zip {A B} (l : list A) (k : list B) : NoDup k -> NoDup (map snd (zip l k)).
Proof.
  intros Hk. revert l. induction Hk as [|b k Hb Hk IH]; intros [|a l]; try constructor; cbn; try constructor; auto.
  intros Hin%map_snd_zip. done.
Qed.

Section Mappings.
Context (context c1 context' : ApplicationContext) (mo mi : ChannelMapping).
Context (Ho : outputChannelMap_ context = None) (Hi : inputChannelMap_ context = None) (Hdr : drawer_wf (portIDSource_ context)).
Context (Hroom : room (portIDSource_ context) (length (prefix_ports context PROP_OUT) + length (prefix_ports context PROP_IN))).
Context (Hmo : getOutputChannelMapping context = Ret (mo, c1)) (Hmi : getInputChannelMapping c1 = Ret (mi, context')).

Lemma prepared_wf p p1 : prepared mo mi p p1 -> os_wf mo p1.
Proof.
  intros [Hm Hrefs Hin Himg Hnone Hsim]. destruct (context_mappings context c1 context' mo mi) as (d & Hvo & Hvi & _); [done..|].
  assert (Hio : forall t, t ∈ io_types -> t <> fmiTypeUnknown) by (unfold io_types; set_solver).
  split; try done.
  - intros t Ht. eapply getVariableIDs_aligned; [exact Hvo|auto].
  - intros t _. by apply (mappings_by_type context c1 context' mo mi).
  - intros t Ht. unfold output_refs. rewrite Hrefs. rewrite <- (variables_aligned _ _ _ _ t Hvo).
    destruct t; cbn; try apply length_map. by apply Hio in Ht.
  - intros id Hid t _ Hidt. eapply input_references_Ret in Hid; [|exact Hin].
    destruct Hid as [[? Hid]|Hid%map_snd_zip]; [by rewrite lookup_empty in Hid|].
    eapply mappings_share_no_id; [exact Ho|exact Hi|exact Hdr|exact Hroom|exact Hmo|exact Hmi| |exact Hid].
    eapply ids_of_all; [apply Hvo|exact Hidt].
  - intros ev Hev. congruence.
Qed.

Lemma input_ids_nodup : NoDup (getAllVariableIDs mi).
Proof.
  destruct (context_mappings context c1 context' mo mi) as (d & Hvo & Hvi & Hr & _); [done..|].
  apply (mapping_ids_fresh _ _ _ _ Hvi); [exact Hr|apply Hvo].
Qed.
End Mappings.

Lemma os_init_ok context p p' context' :
  os_fresh p -> outputChannelMap_ context = None -> inputChannelMap_ context = None -> drawer_wf (portIDSource_ context) ->
  room (portIDSource_ context) (length (prefix_ports context PROP_OUT) + length (prefix_ports context PROP_IN)) ->
  init context p = Ret (p', context') ->
  exists mo c1 mi p1,
    getOutputChannelMapping context = Ret (mo, c1) /\ getInputChannelMapping c1 = Ret (mi, context') /\
    names_of mo fmiTypeUnknown = [] /\ prepared mo mi p p1 /\ os_wf mo p' /\
    p' = set_fmu (fmu_ p') (set_outputImage (outputImage_ p') p1).
Proof.
  intros Hfresh Ho Hi Hdr Hroom Hinit.
  destruct (init_prepares _ _ _ _ Hfresh Hinit) as (mo & c1 & mi & p1 & b & Hmo & Hmi & Hu & Hp1 & Hup).
  pose proof (prepared_wf context c1 context' mo mi Ho Hi Hdr Hroom Hmo Hmi p p1 Hp1) as Hwf.
  destruct (wp_Ret_inv _ _ _ _ (updateOutputImage_ok mo p1 Hwf) Hup) as (_ & Hfits & _ & Hp' & _). cbn [snd] in Hfits, Hp'.
  exists mo, c1, mi, p1. split_and!; try done. rewrite Hp'. destruct Hwf. by split.
Qed.

(** C30: the initialisation of the single-step predictor establishes its invariant.  When
    [init] returns, the predictor is ready for the protocol: its outputs are those of the
    output mapping, read by the value references that the model gives for their names; its
    inputs are those of the input mapping, each set by the reference of its own name; no
    output is an input, none has an unknown type, and no prediction is outstanding. *)
Theorem onestep_init_establishes context p p' context' :
  os_fresh p -> outputChannelMap_ context = None -> inputChannelMap_ context = None -> drawer_wf (portIDSource_ context) ->
  room (portIDSource_ context) (length (prefix_ports context PROP_OUT) + length (prefix_ports context PROP_IN)) ->
  init context p = Ret (p', context') ->
  exists mo c1 mi,
    getOutputChannelMapping context = Ret (mo, c1) /\ getInputChannelMapping c1 = Ret (mi, context') /\
    names_of mo fmiTypeUnknown = [] /\ os_wf mo p' /\ currentPrediction_ p' = None /\
    (forall t, t ∈ io_types -> output_refs p' t = references (fmu_ p) (names_of mo t)) /\
    (forall id, is_Some (inputValueReference_ p' !! id) -> id ∈ getAllVariableIDs mi) /\
    (forall k name id, getAllVariableNames mi !! k = Some name -> getAllVariableIDs mi !! k = Some id ->
     inputValueReference_ p' !! id = Some (getValueRef name (fmu_ p))).
Proof.
  intros Hfresh Ho Hi Hdr Hroom Hinit.
  destruct (os_init_ok context p p' context') as (mo & c1 & mi & p1 & Hmo & Hmi & Hu & [_ Hrefs Hin _ Hnone _] & Hwf & Hp'); [done..|].
  exists mo, c1, mi. split_and!; [done..| | | |]; rewrite Hp'; [done|..].
  - intros t Ht. unfold output_refs. cbn. rewrite Hrefs. unfold io_types in Ht. destruct t; try done. set_solver.
  - intros id Hid. cbn in Hid. eapply input_references_Ret in Hid; [|exact Hin].
    destruct Hid as [[? Hid]|Hid%map_snd_zip]; [by rewrite lookup_empty in Hid|done].
  - intros k name id Hk1 Hk2. cbn. eapply input_references_lookup; [exact Hin| |].
    + by eapply NoDup_snd_zip, (input_ids_nodup context c1 context' mo mi).
    + apply lookup_zip_with_Some. by exists name, id.
Qed.
End Init.

(** ** A configuration with an output and an input *)

Section Concrete.
#[local] Existing Instance sample_me_manager.
#[local] Existing Instance sample_model.

#[local] Instance agreeable_properties : IntegratorProperties := { properties_neqb _ _ := false }.

Definition os_args : list string :=
  ["fmu.path=file:sample"; "app.startTime=0.5"; "app.lookAheadTime=1"; "out.0.0=x"; "out.0.0.type=1"; "in.0.0=u"; "in.0.0.type=1"].

Definition os_context : ApplicationContext (H := tree_ptree) :=
  match addCommandlineProperties_vector new_ApplicationContext os_args with Ret ctx => ctx | _ => new_ApplicationContext end.

Definition os_new : OneStepEventPredictor unit sample_me :=
  match new_OneStepEventPredictor false os_context tt with Ret (p, _) => p | _ => os_sample end.
Definition os_ready : OneStepEventPredictor unit sample_me :=
  match init os_context os_new with Ret (p, _) => p | _ => os_sample end.
Definition os_after : ApplicationContext (H := tree_ptree) :=
  match init os_context os_new with Ret (_, c) => c | _ => new_ApplicationContext end.

Lemma os_initialised : init os_context os_new = Ret (os_ready, os_after).
Proof. apply is_Ret_pair. vm_compute. reflexivity. Qed.

Definition os_out : ChannelMapping (H := tree_ptree) * ApplicationContext :=
  match getOutputChannelMapping os_context with Ret r => r | _ => (empty_ChannelMapping, new_ApplicationContext) end.
Definition os_in : ChannelMapping (H := tree_ptree) * ApplicationContext :=
  match getInputChannelMapping os_out.2 with Ret r => r | _ => (empty_ChannelMapping, new_ApplicationContext) end.

Lemma os_mappings : getOutputChannelMapping os_context = Ret os_out /\ getInputChannelMapping os_out.2 = Ret os_in.
Proof. split; apply is_Ret_value; vm_compute; reflexivity. Qed.

Lemma onestep_init_establishes_witness :
  os_wf os_out.1 os_ready /\ ids_of os_out.1 fmiTypeInteger = [(fmiTypeInteger, 0)] /\
  output_refs os_ready fmiTypeInteger = [1] /\ inputValueReference_ os_ready !! (fmiTypeInteger, 1) = Some 0.
Proof.
  destruct (onestep_init_establishes os_context os_new os_ready os_after) as (mo & c1 & mi & Hmo & Hmi & _ & Hwf & _ & Hrefs & _ & Hin).
  - vm_compute. split_and!; reflexivity.
  - reflexivity.
  - reflexivity.
  - exact new_PortIDDrawer_wf.
  - intros t. destruct t; vm_compute; discriminate.
  - exact os_initialised.
  - destruct os_mappings as [Eo Ei].
    assert (Ho : (mo, c1) = os_out) by congruence. apply (f_equal snd) in Ho as Hc. apply (f_equal fst) in Ho. cbn [fst snd] in Ho, Hc.
    rewrite Hc in Hmi. assert (Hm : (mi, os_after) = os_in) by congruence. apply (f_equal fst) in Hm. cbn [fst] in Hm. rewrite Ho in Hwf, Hrefs.
    split; [exact Hwf|]. split; [vm_compute; reflexivity|]. split.
    + etrans; [apply Hrefs; by do 2 constructor|]. vm_compute. reflexivity.
    + etrans; [apply (Hin 0%nat "u" (fmiTypeInteger, 1)); rewrite Hm; vm_compute; reflexivity|]. vm_compute. reflexivity.
Defined.
End Concrete.
