(* ===== verification/EventPredictorFactory.v ===== *)
(** * Choosing a predictor (src/model/EventPredictorFactory.cpp)

    The two predictors behind the interface [AbstractEventPredictor], and the
    configuration that selects one. *)

From S2P Require Import Prelude Float64 BaseExceptions PropertyTree Variables Event FMUTypes ApplicationContext.
From S2P Require Import TimedEventQueue TimedEventQueueSpec EventDispatcher.
From S2P Require Import ManagedLowLevelFMU SolverConfiguration.
From S2P Require EventPredictor OneStepEventPredictor EventPredictorSpec.
Import EventPredictor(IncrementalFMU, pevent, LazyEvent, Static).
Import OneStepEventPredictor(FMUModelExchange).

Definition PROP_EVENT_PREDICTOR : string := "app.simulationMethod".

Section Factory.
Context `{PT : PropertyTree} `{IP : IntegratorProperties} {M F G : Type} `{MM : ModelManager M}.
Context `{IF : IncrementalFMU F} `{FM : FMUModelExchange G}.

(** A pointer to the base class. *)
Inductive SomePredictor :=
  | MultiStep (p : EventPredictor.EventPredictor M F)
  | SingleStep (p : OneStepEventPredictor.OneStepEventPredictor M G).

Definition makeEventPredictor (sundials : bool) (appContext : ApplicationContext) (mgr : M)
    : result (SomePredictor * M) :=
  let* predictorName := getProperty_def tr_string appContext PROP_EVENT_PREDICTOR "multistep-prediction" in
  if String.eqb predictorName "multistep-prediction" then
    let* r := EventPredictor.new_EventPredictor sundials appContext mgr in Ret (MultiStep r.1, r.2)
  else if String.eqb predictorName "singlestep-delayed" then
    let* r := OneStepEventPredictor.new_OneStepEventPredictor sundials appContext mgr in Ret (SingleStep r.1, r.2)
  else throw_config_kv "Invalid simulation method property" PROP_EVENT_PREDICTOR predictorName.

Definition predictor_configure (appContext : ApplicationContext) (p : SomePredictor) : result ApplicationContext :=
  match p with
  | MultiStep p => EventPredictor.configureDefaultApplicationContext appContext p
  | SingleStep p => OneStepEventPredictor.configureDefaultApplicationContext appContext p
  end.

Definition predictor_init (appContext : ApplicationContext) (p : SomePredictor)
    : result (SomePredictor * ApplicationContext) :=
  match p with
  | MultiStep p => let* r := EventPredictor.init appContext p in Ret (MultiStep r.1, r.2)
  | SingleStep p => let* r := OneStepEventPredictor.init appContext p in Ret (SingleStep r.1, r.2)
  end.

(** The virtual functions the dispatcher calls.  A [LazyEvent] belongs to the
    multi-step predictor that made it, so the other predictor never sees one. *)
Definition predictor_predictNext (fuel : nat) (p : SomePredictor) : result (pevent * SomePredictor) :=
  match p with
  | MultiStep p => let* r := EventPredictor.predictNext p in Ret (r.1, MultiStep r.2)
  | SingleStep p => let* r := OneStepEventPredictor.predictNext fuel p in Ret (Static r.1, SingleStep r.2)
  end.

Definition predictor_handle (ev : pevent) (p : SomePredictor) : result SomePredictor :=
  match p, ev with
  | MultiStep p, _ => let* p' := EventPredictor.predictor_eventTriggered ev p in Ret (MultiStep p')
  | SingleStep p, Static s => let* p' := OneStepEventPredictor.onestep_eventTriggered s p in Ret (SingleStep p')
  | SingleStep _, LazyEvent _ => Fault UndefinedBehaviour
  end.

Definition predictor_interface (fuel : nat) : AbstractEventPredictor SomePredictor pevent :=
  {| EventDispatcher.predictNext := predictor_predictNext fuel; EventDispatcher.predictor_eventTriggered := predictor_handle |}.

(** The method is one of the two names, and anything else is reported with its
    property. *)
Lemma makeEventPredictor_names sundials ctx mgr r :
  makeEventPredictor sundials ctx mgr = Ret r ->
  exists name, getProperty_def tr_string ctx PROP_EVENT_PREDICTOR "multistep-prediction" = Ret name /\
    match r.1 with
    | MultiStep _ => name = "multistep-prediction"
    | SingleStep _ => name = "singlestep-delayed"
    end.
Proof.
  unfold makeEventPredictor. intros (name & Hname & Hr)%obind_Ret_inv. exists name. split; [done|].
  destruct (String.eqb_spec name "multistep-prediction"); [inv_ret; done|].
  destruct (String.eqb_spec name "singlestep-delayed"); inv_ret; done.
Qed.

End Factory.

Arguments SomePredictor {_} M F G {_}.

(** ** A concrete run of the whole loop *)

Import EventPredictorSpec(sample_fmu, sample_solver, sample_manager, sample_predictor, sample_external).

Section Run.
#[local] Existing Instance sample_manager.
#[local] Existing Instance sample_solver.
#[local] Existing Instance EventPredictor.pevent_timed.

Definition loop_state : Type := EventPredictor.EventPredictor unit sample_fmu.

#[local] Instance loop_predictor : AbstractEventPredictor loop_state pevent :=
  {| EventDispatcher.predictNext := EventPredictor.predictNext;
     EventDispatcher.predictor_eventTriggered := EventPredictor.predictor_eventTriggered |}.

Definition loop_queue : TimedEventQueue pevent :=
  match initStartTimeNow f64_zero (at_us 0) (new_TimedEventQueue (at_us 0)) with Ret q => q | _ => new_TimedEventQueue (at_us 0) end.

Definition loop_dispatcher : EventDispatcher loop_state (TimedEventQueue pevent) pevent :=
  addEventListener predictor_eventTriggered
    {| theEnd_ := f64_of_Z 2; queue := loop_queue; listener_ := []; timingLogger_ := [] |}.

(** The external event at 0.25 s arrives while the dispatcher waits for 1 s. *)
Definition loop_turns : list (turn pevent (list (sched_action (E := pevent)))) :=
  [ {| t_before := []; t_during := [Wake (at_us 100000); External (Static sample_external); Wake (at_us 260000)] |};
    {| t_before := []; t_during := [Wake (at_us 1300000)] |};
    {| t_before := []; t_during := [Wake (at_us 2300000)] |} ].

(** The times distributed and the input the model ends with. *)
Example loop_distributes :
  match run_loop loop_turns [] loop_dispatcher sample_predictor with
  | Ret (Some (d, p, _)) =>
      map getTime (distributed d) = [se_time sample_external; (se_time sample_external + f64_of_Z 1)%f64;
                                     (se_time sample_external + f64_of_Z 2)%f64] /\
      realInputImage_ (EventPredictor.image_ p) = [Z.shiftl 1024 52]
  | _ => False
  end.
Proof. vm_compute. done. Qed.

End Run.
