(* ===== verification/PredictorContract.v ===== *)
(** * The two predictors under one contract

    What the dispatcher and the listeners may rely on, whichever predictor the factory has
    made: a prediction may be asked for in an idle predictor; then the predicted event, or an
    external one, may be distributed, its variables can be read, and the predictor is idle
    again.  A predictor that has been made and initialised is idle. *)

From stdpp Require Import gmap.
From S2P Require Import Prelude Float64 BaseExceptions PortID Format Variables PropertyTree Event FMUTypes.
From S2P Require Import ChannelMapping ChannelMappingSpec ApplicationContext ApplicationContextSpec.
From S2P Require Import ManagedLowLevelFMU SolverConfiguration.
From S2P Require EventPredictor EventPredictorSpec OneStepEventPredictor OneStepEventPredictorSpec OneStepEventPredictorInit.
From S2P Require Import EventPredictorFactory.
Import EventPredictor(IncrementalFMU, pevent, LazyEvent, Static).
Import EventPredictorSpec(IncrementalFMULaws).
Import OneStepEventPredictor(FMUModelExchange).
Import OneStepEventPredictorSpec(FMUModelExchangeLaws, pending_events).

#[local] Notation valid_variables vars := (Forall (fun v => isValid v = true) vars).

Section Contract.
Context `{PT : PropertyTree} `{PTL : !PropertyTreeLaws PT} `{IP : IntegratorProperties} {M F G : Type} `{MM : ModelManager M}.
Context `{IF : IncrementalFMU F} `{IFL : !IncrementalFMULaws F} `{FM : FMUModelExchange G} `{FML : !FMUModelExchangeLaws G}.
Context (fuel : nat).
Implicit Types sp : SomePredictor M F G.

(** The fuel of the single-step predictor is more than the model events of any step. *)
Definition enough_fuel : Prop := forall target (f : G), (pending_events target f < fuel)%nat.

(** Ready for a prediction. *)
Definition predictor_idle sp : Prop :=
  match sp with
  | MultiStep p => EventPredictorSpec.wf p
  | SingleStep p => enough_fuel /\ exists m, OneStepEventPredictorSpec.os_wf m p
  end.

(** The event has been predicted. *)
Definition predictor_awaiting (ev : pevent) sp : Prop :=
  match sp with
  | MultiStep p => exists p0, EventPredictorSpec.predicted p0 ev p
  | SingleStep p => enough_fuel /\ exists m s, ev = Static s /\ OneStepEventPredictorSpec.os_wf m p /\
                      OneStepEventPredictorSpec.prediction_ok m s
  end.

(** The predictor has handled the event; the event's variables can be read. *)
Definition predictor_shows (ev : pevent) sp : Prop :=
  predictor_idle sp /\
  match sp with
  | MultiStep p => EventPredictorSpec.shown ev p
  | SingleStep _ => exists s, ev = Static s /\ valid_variables (se_var s)
  end.

Lemma predictor_predicts sp :
  predictor_idle sp -> wp (predictor_predictNext fuel sp) (fun r => predictor_awaiting r.1 r.2) (fun _ => True).
Proof.
  destruct sp as [p|p]; cbn.
  - intros Hwf. apply wp_bind. eapply wp_mono; [by apply EventPredictorSpec.predictNext_ok| |done].
    intros [ev p'] Hpred. by exists p.
  - intros [Hfuel [m Hwf]]. apply wp_bind. eapply wp_mono; [by apply OneStepEventPredictorSpec.predictNext_turn| |done].
    intros [s p'] (Hwf' & Hs & _). split; [done|]. by exists m, s.
Qed.

Lemma predictor_handles_own ev sp :
  predictor_awaiting ev sp -> wp (predictor_handle ev sp) (predictor_shows ev) (fun _ => True).
Proof.
  destruct sp as [p|p]; cbn.
  - intros [p0 Hpred]. pose proof (EventPredictorSpec.own_ok_step p0 ev p Hpred) as Hok.
    pose proof (EventPredictorSpec.own_settles p0 ev p Hpred) as Hset.
    destruct (EventPredictor.predictor_eventTriggered ev p) as [p'| |]; [|done..]. cbn in *. subst p'. destruct Hok as [Hwf _].
    split; [done|by eapply EventPredictorSpec.own_shown].
  - intros (Hfuel & m & s & -> & Hwf & Hs). pose proof (OneStepEventPredictorSpec.valid_vars m _ Hs) as Hv. apply wp_bind.
    eapply wp_mono; [by apply OneStepEventPredictorSpec.onestep_eventTriggered_ok| |done]. intros p'.
    rewrite (OneStepEventPredictorSpec.own_sets_no_input m p s Hwf Hs). intros ->. split; [|by exists s].
    split; [done|]. exists m. by apply OneStepEventPredictorSpec.drop_prediction_wf.
Qed.

Lemma predictor_handles_external ev s sp :
  predictor_awaiting ev sp -> EventPredictorSpec.external_ok s ->
  wp (predictor_handle (Static s) sp) (predictor_shows (Static s)) (fun _ => True).
Proof.
  destruct sp as [p|p]; cbn.
  - intros [p0 Hpred] Hs. apply wp_bind. eapply wp_mono; [by apply EventPredictorSpec.external_ok_step; [apply Hpred|]| |done].
    intros p' [Hwf _]. split; [done|]. exists (se_var s). split; [done|apply Hs].
  - intros (Hfuel & m & s0 & -> & Hwf & _) [Hv _]. apply wp_bind.
    eapply wp_mono; [by apply OneStepEventPredictorSpec.onestep_eventTriggered_ok| |done]. intros p' Hp'.
    split; [|by exists s]. split; [done|]. exists m.
    destruct (OneStepEventPredictorSpec.sets_input (se_var s) p).
    + by eapply OneStepEventPredictorSpec.only_model_wf.
    + rewrite Hp'. by apply OneStepEventPredictorSpec.drop_prediction_wf.
Qed.

(** ** Construction and initialisation *)

Definition predictor_fresh sp : Prop :=
  match sp with
  | MultiStep p => EventPredictorSpec.fresh p
  | SingleStep p => OneStepEventPredictorInit.os_fresh p
  end.

Lemma makeEventPredictor_fresh sundials ctx mgr r :
  makeEventPredictor (M := M) (F := F) (G := G) sundials ctx mgr = Ret r -> predictor_fresh r.1.
Proof.
  unfold makeEventPredictor. intros (name & _ & Hm)%obind_Ret_inv.
  destruct (String.eqb name _); [|destruct (String.eqb name _); [|done]]; apply obind_Ret_inv in Hm as ([q mgr'] & Hnew & [= <-]); cbn.
  - unfold EventPredictor.new_EventPredictor in Hnew. apply obind_Ret_inv in Hnew as (low & _ & Hr). apply obind_Ret_inv in Hr as (conf & _ & Hr).
    destruct (negb _); [done|]. destruct (EventPredictor.setIntegratorProperties _ _) as [props f]. destruct (properties_neqb _ _); [done|].
    by injection Hr as <- _.
  - unfold OneStepEventPredictor.new_OneStepEventPredictor in Hnew. apply obind_Ret_inv in Hnew as (low & _ & Hr).
    apply obind_Ret_inv in Hr as (f & _ & Hr). apply obind_Ret_inv in Hr as (p & Hp & [= -> _]).
    unfold OneStepEventPredictor.instantiateModel in Hp. apply obind_Ret_inv in Hp as (inst & _ & Hp). cbn [OneStepEventPredictor.fmu_] in Hp.
    destruct (OneStepEventPredictor.me_instantiate _ _) as [err f']. destruct (negb _); [done|]. by injection Hp as <-.
Qed.

(** Both mappings are built by the initialisation; no output has an unknown type. *)
Lemma predictor_init_mappings context sp r :
  predictor_fresh sp -> predictor_init context sp = Ret r ->
  exists mo c1 mi, getOutputChannelMapping context = Ret (mo, c1) /\ getInputChannelMapping c1 = Ret (mi, r.2) /\
    names_of mo fmiTypeUnknown = [].
Proof.
  destruct sp as [p|p]; cbn; intros Hfresh ([p' context'] & Hi & [= <-])%obind_Ret_inv.
  - destruct (EventPredictorSpec.init_steps _ _ _ _ Hi) as
      (? & ? & ? & ? & ? & ? & mo & c1 & mi & c2 & po & pi & ci & _ & Hmo & Hmi & Hdef & _ & _ & ->).
    exists mo, c1, mi. split_and!; [done..|]. by eapply EventPredictorSpec.defineOutputs_known.
  - destruct (OneStepEventPredictorInit.init_prepares _ _ _ _ Hfresh Hi) as (mo & c1 & mi & p1 & b & Hmo & Hmi & Hu & _).
    by exists mo, c1, mi.
Qed.

Lemma predictor_init_idle context sp r :
  (forall s x, tr_double s = Some x -> EventPredictorSpec.plain_time x) -> predictor_fresh sp ->
  outputChannelMap_ context = None -> inputChannelMap_ context = None -> drawer_wf (portIDSource_ context) ->
  room (portIDSource_ context) (length (prefix_ports context PROP_OUT) + length (prefix_ports context PROP_IN)) ->
  predictor_init context sp = Ret r -> (forall p, r.1 = SingleStep p -> enough_fuel) -> predictor_idle r.1.
Proof.
  intros Hdouble Hfresh Ho Hi Hdr Hroom Hinit Hfuel.
  destruct (predictor_init_mappings _ _ _ Hfresh Hinit) as (mo & c1 & mi & Hmo & Hmi & Hu).
  destruct sp as [p|p]; cbn in *; apply obind_Ret_inv in Hinit as ([p' context'] & Hp & [= <-]).
  - by destruct (EventPredictorSpec.prepared_init_ok context c1 context' mo mi p p' context') as (Hwf & _).
  - split; [by eapply Hfuel|].
    destruct (OneStepEventPredictorInit.os_init_ok context p p' context') as (m & _ & _ & _ & _ & _ & _ & _ & Hwf & _); [done..|].
    by exists m.
Qed.
End Contract.
