(* ===== verification/Program.v ===== *)
(** * The program (src/main.cpp)

    [main] from the command line to the exit code: the components in the order in which
    it builds them, the listeners in the order of their registration, and the run of
    the dispatcher over the timed event queue.  The threads of the subscribers are in
    [NetworkManager]; here they are what they do to the main thread, the external events
    of the turns and the exceptions that the exception tester finds.  The shutdown of the
    threads when [main] leaves the manager's scope is in [NetworkManager] too: the exit
    code here is that of a program whose shutdown completes. *)

From S2P Require Import Prelude Float64 BaseExceptions PortID Format Variables PropertyTree.
From S2P Require Import ChannelMapping ApplicationContext Event TimedEventQueue EventDispatcher.
From S2P Require Import ASN1Subscriber ConcurrentSubscriber CompactASN1Clients NetworkManager.
From S2P Require Import FMUTypes ManagedLowLevelFMU SolverConfiguration EventPredictorFactory CSVDataLogger.
From S2P Require EventPredictor OneStepEventPredictor EventLogger.
Import EventPredictor(IncrementalFMU, pevent, LazyEvent, Static).
Import OneStepEventPredictor(FMUModelExchange).
Import EventLogger(CalendarTime).

#[local] Existing Instance EventPredictor.pevent_timed.

Section Program.
Context `{PT : PropertyTree} `{LC : LexicalConvert} `{IP : IntegratorProperties} {PX : PosixTime}.
Context {M F G : Type} `{MM : ModelManager M} `{IF : IncrementalFMU F} `{FM : FMUModelExchange G}.
Context {Sk W : Type} `{ES : EventSink Sk} `{AS : Asio W}.

(** What [main] finds: its arguments, the build's options, the model manager, the
    network, the event sink's side of the subscribers, the files that can be opened,
    whether writing the data file fails, whether a subscriber that has been started is
    still in its [run] when a later one cannot be started, the clock, the exceptions
    that the exception tester finds one event after the other, and what happens in the
    turns of the dispatcher. *)
Record Environment := {
  argv : list (option string);
  sundials : bool;
  manager : M;
  net : W;
  sink : Sk;
  openable : string -> bool;
  csv_fails : bool;
  inRun : nat -> bool;
  loadTime : ptime;
  startTime : ptime;
  failures : list (option exn);
  turns : list (turn pevent (list (sched_action (E := pevent))));
}.

(** The state of the program that the listeners work on. *)
Record World := {
  predictor_ : SomePredictor M F G;
  nwManager_ : Publishers W;
  failures_ : list (option exn);
  dataLogger_ : CSVDataLogger;
}.

Definition set_predictor (p : SomePredictor M F G) (w : World) : World :=
  {| predictor_ := p; nwManager_ := nwManager_ w; failures_ := failures_ w; dataLogger_ := dataLogger_ w |}.
Definition set_nwManager (nm : Publishers W) (failures : list (option exn)) (w : World) : World :=
  {| predictor_ := predictor_ w; nwManager_ := nm; failures_ := failures; dataLogger_ := dataLogger_ w |}.
Definition set_dataLogger (l : CSVDataLogger) (w : World) : World :=
  {| predictor_ := predictor_ w; nwManager_ := nwManager_ w; failures_ := failures_ w; dataLogger_ := l |}.

(** [ev->getVariables()]. *)
Definition world_getVariables (ev : pevent) (w : World) : result (list Variable_t * World) :=
  match predictor_ w, ev with
  | MultiStep p, _ =>
      let* r := EventPredictor.event_getVariables ev p in Ret (r.1, set_predictor (MultiStep r.2) w)
  | SingleStep _, Static s => Ret (se_var s, w)
  | SingleStep _, LazyEvent _ => Fault UndefinedBehaviour
  end.

(** ** The listeners *)

Definition publisher_notified (i : nat) : EventListener World pevent := fun ev w =>
  let* r := world_getVariables ev w in
  let* nm := publisher_listener (fun _ : pevent => r.1) i ev (nwManager_ r.2) in
  Ret (set_nwManager nm (failures_ r.2) r.2).

(** The exception tester, and what the subscribers have left for it. *)
Definition exception_tested : EventListener World pevent := fun ev w =>
  let nm := nwManager_ w in
  let found := match failures_ w with
               | Some x :: _ => {| publisher_ := publisher_ nm; network_ := network_ nm; pending_ := Some x |}
               | _ => nm
               end in
  let* nm' := exceptionTester_ ev found in
  Ret (set_nwManager nm' (tail (failures_ w)) w).

Definition data_logged : EventListener World pevent := fun ev w =>
  match outputStream_ (dataLogger_ w) with
  | None => Ret w
  | Some _ =>
      let* r := world_getVariables ev w in
      let* l := csv_eventTriggered (getTime ev) r.1 (dataLogger_ r.2) in
      Ret (set_dataLogger l r.2)
  end.

(** ** Building the program *)

(** The constructor of the network manager, for the subscribers: each one is created,
    initialised and started in turn.  An exception leaves the constructor; the members
    are destroyed, which is undefined when the thread of a subscriber that has been
    started is still in its [run]. *)
Fixpoint start_subscribers (inRun : nat -> bool) (sink : Sk) (started : nat) (channels : list TransmissionChannel) (w : W)
    : result (list (CompactASN1TCPClientSubscriber Sk W)) :=
  match channels with
  | [] => Ret []
  | channel :: channels' =>
      match (let* d := instantiate (instantiateSubscriber sink w) channel in client_init channel d) with
      | Ret d => let* ds := start_subscribers inRun sink (S started) channels' (env_ d) in Ret (d :: ds)
      | Throw x => if existsb inRun (seq 0 started) then Fault UndefinedBehaviour else Throw x
      | Fault f => Fault f
      end
  end.

(** The program in front of the dispatcher's run. *)
Record Built := {
  b_context : ApplicationContext;
  b_console : EventLogger.CLILoggingConfigurator;
  b_core : EventLogger.LogCore;
  b_dispatcher : EventDispatcher World (TimedEventQueue pevent) pevent;
  b_subscribers : list (CompactASN1TCPClientSubscriber Sk W);
  b_world : World;
}.

(** The predictor behind its interface; the fuel is that of the single-step predictor. *)
Context (fuel : nat).

#[local] Instance world_predictor : AbstractEventPredictor World pevent := {
  predictNext w := let* r := predictor_predictNext fuel (predictor_ w) in Ret (r.1, set_predictor r.2 w);
  predictor_eventTriggered ev w := let* p := predictor_handle ev (predictor_ w) in Ret (set_predictor p w);
}.

(** The part of [main] in front of [run]. *)
Definition build (e : Environment) : result Built :=
  let console := EventLogger.new_CLILoggingConfigurator in
  let* context := addCommandlineProperties new_ApplicationContext (argv e) in
  let* console := EventLogger.configureLogger context console in
  let* made := makeEventPredictor (sundials e) context (manager e) in
  let* context := predictor_configure context made.1 in
  let* core := EventLogger.addEventFileSink (openable e) context
                 {| EventLogger.simulationEpoch_ := loadTime e; EventLogger.sinks_ := [] |} in
  let* ready := predictor_init context made.1 in
  let* dispatcher := new_EventDispatcher ready.2 (loadTime e) in
  let* out := getOutputChannelMapping ready.2 in
  let* pubs := init_publishers out.1 (net e) in
  let* inp := getInputChannelMapping out.2 in
  let* subs := start_subscribers (inRun e) (sink e) 0 (channels_ inp.1) pubs.2 in
  let dispatcher := fold_left (fun d i => addEventListener (publisher_notified i) d)
                              (seq 0 (length pubs.1)) dispatcher in
  let dispatcher := addEventListener exception_tested dispatcher in
  let* logger := new_CSVDataLogger (openable e) (csv_fails e) inp.2 in
  let dispatcher := addEventListener data_logged dispatcher in
  Ret {| b_context := logger.2; b_console := console; b_core := core; b_dispatcher := dispatcher; b_subscribers := subs;
         b_world := {| predictor_ := ready.1;
                       nwManager_ := {| publisher_ := pubs.1; network_ := pubs.2; pending_ := None |};
                       failures_ := failures e; dataLogger_ := logger.1 |} |}.

(** The body of the [try] block.  [Ret None]: the turns end while the dispatcher is still
    running. *)
Definition execute (e : Environment)
    : result (option (EventDispatcher World (TimedEventQueue pevent) pevent * World * list pevent)) :=
  let* b := build e in
  run (b_context b) (startTime e) (turns e) (b_dispatcher b) (b_world b).

(** [main]: zero, or the code of the catch clause. *)
Definition main (e : Environment) : result (option Z) :=
  match execute e with
  | Ret (Some _) => Ret (Some 0%Z)
  | Ret None => Ret None
  | Throw x => Ret (Some (main_exit_code x))
  | Fault f => Fault f
  end.

End Program.
