(* ===== verification/ProgramSpec.v ===== *)
(** * What the program does as a whole

    The exit codes of configuration errors, and the run of the whole program: the data
    file, the stop time and the pending exceptions. *)

From S2P Require Import Prelude Float64 BaseExceptions PortID Format Variables PropertyTree.
From S2P Require Import ChannelMapping ApplicationContext ApplicationContextSpec Event TimedEventQueue EventDispatcher.
From S2P Require Import ASN1Subscriber ConcurrentSubscriber CompactASN1Clients NetworkManager.
From S2P Require Import FMUTypes ManagedLowLevelFMU SolverConfiguration EventPredictorFactory CSVDataLogger.
From S2P Require EventPredictor OneStepEventPredictor EventPredictorSpec OneStepEventPredictorSpec EventLogger.
From S2P Require Import Program.
Import EventPredictor(IncrementalFMU, pevent, LazyEvent, Static).
Import OneStepEventPredictor(FMUModelExchange).
Import EventLogger(CalendarTime).

#[local] Existing Instance EventPredictor.pevent_timed.

Section Spec.
Context `{PT : PropertyTree} `{LC : LexicalConvert} `{IP : IntegratorProperties} {PX : PosixTime}.
Context {M F G : Type} `{MM : ModelManager M} `{IF : IncrementalFMU F} `{FM : FMUModelExchange G}.
Context {Sk W : Type} `{ES : EventSink Sk} `{AS : Asio W} (fuel : nat).

Notation ProgEnv := (Environment (M := M) (Sk := Sk) (W := W)).
Notation ProgWorld := (World (M := M) (F := F) (G := G) (W := W)).
Notation ProgBuilt := (Built (M := M) (F := F) (G := G) (Sk := Sk) (W := W)).

(** ** Configuration errors *)

Lemma addCommandlineOption_throws ctx opt i x :
  addCommandlineOption ctx opt i = Throw x -> main_exit_code x = 1%Z.
Proof.
  unfold addCommandlineOption, getProperty. intros Hr.
  repeat (case_match; try discriminate); cbn in Hr; by injection Hr as <-.
Qed.

Lemma add_arguments_throws argv ctx i x :
  add_arguments ctx argv i = Throw x -> main_exit_code x = 1%Z.
Proof.
  revert ctx i; induction argv as [|[opt|] argv IH]; intros ctx i; cbn; [done| |by intros [= <-]].
  destruct (addCommandlineOption ctx opt i) as [ctx'|y|] eqn:Ho; cbn; [apply IH| |done].
  intros [= <-]. by eapply addCommandlineOption_throws.
Qed.

Lemma addCommandlineProperties_throws ctx argv x :
  addCommandlineProperties ctx argv = Throw x -> main_exit_code x = 1%Z.
Proof.
  unfold addCommandlineProperties. destruct argv as [|[name|] argv]; try by intros [= <-].
  apply add_arguments_throws.
Qed.

(** C39: errors of the configuration end the program before anything is started.  A
    malformed command line ends it with code 1, an unknown log level with 2, and then
    an unknown simulation method with 2, in this order of precedence, whatever the
    model, the network and the other options are. *)
Theorem main_reports_configuration (e : ProgEnv) :
  match addCommandlineProperties new_ApplicationContext (argv e) with
  | Throw _ => main fuel e = Ret (Some 1%Z)
  | Fault f => main fuel e = Fault f
  | Ret context =>
      forall level method,
        getProperty_def tr_string context EventLogger.PROP_LOG_LEVEL "debug" = Ret level ->
        getProperty_def tr_string context PROP_EVENT_PREDICTOR "multistep-prediction" = Ret method ->
        EventLogger.log_level level = None \/ method <> "multistep-prediction" /\ method <> "singlestep-delayed" ->
        main (F := F) (G := G) fuel e = Ret (Some 2%Z)
  end.
Proof.
  unfold main, execute, build.
  destruct (addCommandlineProperties _ _) as [context|x|f] eqn:Ha; cbn [obind]; [|by erewrite addCommandlineProperties_throws|done].
  intros level method Hl Hm Hbad. unfold EventLogger.configureLogger. rewrite Hl. cbn [obind].
  destruct (EventLogger.log_level level) as [l|] eqn:Hlev; [|done]. destruct Hbad as [|[H1 H2]]; [done|].
  cbn [obind]. unfold makeEventPredictor. rewrite Hm. cbn [obind].
  destruct (String.eqb_spec method "multistep-prediction"); [done|].
  destruct (String.eqb_spec method "singlestep-delayed"); [done|]. done.
Qed.

(** ** The listeners and the data logger *)

(** Listeners that leave the data logger alone. *)
Definition keeps_logger (l : EventListener ProgWorld pevent) : Prop :=
  forall ev w w', l ev w = Ret w' -> dataLogger_ w' = dataLogger_ w.

Lemma world_getVariables_logger ev (w : ProgWorld) r :
  world_getVariables ev w = Ret r -> dataLogger_ r.2 = dataLogger_ w.
Proof. unfold world_getVariables. destruct (predictor_ w), ev; intros Hr; inv_ret; done. Qed.

Lemma publisher_notified_keeps i : keeps_logger (publisher_notified i).
Proof.
  intros ev w w' Hr. unfold publisher_notified in Hr. inv_ret. cbn. by eapply world_getVariables_logger.
Qed.

Lemma exception_tested_keeps : keeps_logger exception_tested.
Proof. intros ev w w' Hr. unfold exception_tested in Hr. inv_ret. done. Qed.

Lemma predictor_keeps : keeps_logger (@predictor_eventTriggered _ _ (world_predictor fuel)).
Proof. intros ev w w' Hr. cbn in Hr. inv_ret. done. Qed.

Lemma foldlM_keeps ls ev w w' :
  Forall keeps_logger ls -> foldlM (fun w l => l ev w) w ls = Ret w' -> dataLogger_ w' = dataLogger_ w.
Proof.
  intros Hls. revert w; induction Hls as [|l ls Hl Hls IH]; intros w; cbn; [by intros [= <-]|].
  intros (w1 & Hw1 & Hr)%obind_Ret_inv. rewrite (IH _ Hr). by eapply Hl.
Qed.

Lemma hasProperty_config (ctx ctx' : ApplicationContext) key :
  config_ ctx' = config_ ctx -> hasProperty ctx' key = hasProperty ctx key.
Proof. unfold hasProperty. by intros ->. Qed.

Lemma getProperty_def_config {T} (tr : string -> option T) (ctx ctx' : ApplicationContext) key def :
  config_ ctx' = config_ ctx -> getProperty_def tr ctx' key def = getProperty_def tr ctx key def.
Proof. unfold getProperty_def, getProperty, hasProperty. by intros ->. Qed.

(** The data logger of a context whose mappings have been built. *)
Lemma new_CSVDataLogger_built openable fails (ctx : ApplicationContext) cin cout r :
  inputChannelMap_ ctx = Some cin -> outputChannelMap_ ctx = Some cout ->
  new_CSVDataLogger openable fails ctx = Ret r ->
  r.2 = ctx /\
  (hasProperty ctx PROP_CSV_FILE_NAME = true ->
   initHeader fails cin cout {| header_ := []; outputStream_ := Some "" |} = Ret r.1).
Proof.
  intros Hi Ho. unfold new_CSVDataLogger. destruct (hasProperty ctx PROP_CSV_FILE_NAME); [|by intros [= <-]].
  intros (file & Hf & Hr)%obind_Ret_inv. unfold openFileStream in Hr. cbn [outputStream_ header_ assert_ obind] in Hr.
  destruct (negb (openable file)); [done|]. cbn [obind] in Hr.
  unfold init_from in Hr. rewrite (getInputChannelMapping_cached _ _ Hi) in Hr. cbn [obind fst snd] in Hr.
  rewrite (getOutputChannelMapping_cached _ _ Ho) in Hr. cbn [obind fst snd] in Hr. by inv_ret.
Qed.

Lemma add_publishers_listeners (idx : list nat) (d : EventDispatcher ProgWorld (TimedEventQueue pevent) pevent) :
  let d' := fold_left (fun d i => addEventListener (publisher_notified i) d) idx d in
  listener_ d' = listener_ d ++ map publisher_notified idx /\ theEnd_ d' = theEnd_ d /\ timingLogger_ d' = timingLogger_ d /\
  queue d' = queue d.
Proof.
  revert d; induction idx as [|i idx IH]; intros d; cbn; [by rewrite app_nil_r|].
  destruct (IH (addEventListener (publisher_notified i) d)) as (-> & -> & -> & ->). cbn. by rewrite <- (assoc_L (++)).
Qed.

Lemma predict_keeps (w : ProgWorld) ev w1 :
  @predictNext _ _ (world_predictor fuel) w = Ret (ev, w1) -> dataLogger_ w1 = dataLogger_ w.
Proof. cbn. intros Hr. by inv_ret. Qed.

(** The steps of [build]. *)
Record built_by (e : ProgEnv) (b : ProgBuilt) (context configured : ApplicationContext)
    (made : SomePredictor M F G * M) (ready : SomePredictor M F G * ApplicationContext)
    (d : EventDispatcher ProgWorld (TimedEventQueue pevent) pevent) (out inp : ChannelMapping * ApplicationContext)
    (pubs : list (Publisher W) * W) (logger : CSVDataLogger * ApplicationContext) : Prop := {
  bb_arguments : addCommandlineProperties new_ApplicationContext (argv e) = Ret context;
  bb_made : makeEventPredictor (sundials e) context (manager e) = Ret made;
  bb_configured : predictor_configure context made.1 = Ret configured;
  bb_ready : predictor_init configured made.1 = Ret ready;
  bb_dispatcher : new_EventDispatcher (AbstractEventPredictor0 := world_predictor fuel) ready.2 (loadTime e) = Ret d;
  bb_out : getOutputChannelMapping ready.2 = Ret out;
  bb_publishers : init_publishers out.1 (net e) = Ret pubs;
  bb_inp : getInputChannelMapping out.2 = Ret inp;
  bb_logger : new_CSVDataLogger (openable e) (csv_fails e) inp.2 = Ret logger;
  bb_context : b_context b = logger.2;
  bb_registered : b_dispatcher b =
    addEventListener data_logged (addEventListener exception_tested
      (fold_left (fun d i => addEventListener (publisher_notified i) d) (seq 0 (length pubs.1)) d));
  bb_world : b_world b =
    {| predictor_ := ready.1; nwManager_ := {| publisher_ := pubs.1; network_ := pubs.2; pending_ := None |};
       failures_ := failures e; dataLogger_ := logger.1 |};
}.

Lemma build_inv (e : ProgEnv) (b : ProgBuilt) :
  build fuel e = Ret b ->
  exists context configured made ready d out inp pubs logger,
    built_by e b context configured made ready d out inp pubs logger.
Proof.
  unfold build. intros Hr. apply obind_Ret_inv in Hr as (ctx0 & Hctx & Hr). apply obind_Ret_inv in Hr as (cons & _ & Hr).
  apply obind_Ret_inv in Hr as (made & Hmade & Hr). apply obind_Ret_inv in Hr as (ctx1 & Hconf & Hr).
  apply obind_Ret_inv in Hr as (core & _ & Hr). apply obind_Ret_inv in Hr as (ready & Hready & Hr).
  apply obind_Ret_inv in Hr as (d & Hd & Hr). apply obind_Ret_inv in Hr as (out & Hout & Hr).
  apply obind_Ret_inv in Hr as (pubs & Hpubs & Hr). apply obind_Ret_inv in Hr as (inp & Hinp & Hr).
  apply obind_Ret_inv in Hr as (subs & _ & Hr). apply obind_Ret_inv in Hr as (logger & Hlog & Hr).
  injection Hr as <-. by exists ctx0, ctx1, made, ready, d, out, inp, pubs, logger.
Qed.

(** The listeners of a built program, in the order of their registration. *)
Lemma build_listener_list (e : ProgEnv) (b : ProgBuilt) :
  build fuel e = Ret b ->
  listener_ (b_dispatcher b) =
    @predictor_eventTriggered _ _ (world_predictor fuel) ::
    map publisher_notified (seq 0 (length (publisher_ (nwManager_ (b_world b))))) ++ [exception_tested; data_logged].
Proof.
  intros (ctx & conf & made & ready & d & out & inp & pubs & logger & Hb)%build_inv.
  rewrite (bb_registered _ _ _ _ _ _ _ _ _ _ _ Hb), (bb_world _ _ _ _ _ _ _ _ _ _ _ Hb). cbn [nwManager_ publisher_].
  pose proof (bb_dispatcher _ _ _ _ _ _ _ _ _ _ _ Hb) as Hd. unfold new_EventDispatcher in Hd.
  apply obind_Ret_inv in Hd as (theEnd & _ & Hd). injection Hd as <-.
  match goal with |- context [fold_left ?f ?idx ?d] => destruct (add_publishers_listeners idx d) as (Hl & _) end.
  cbn [addEventListener listener_]. rewrite Hl. cbn [app]. by rewrite <- (assoc_L (++)).
Qed.

(** The data logger is the last of the listeners. *)
Lemma build_listeners (e : ProgEnv) (b : ProgBuilt) :
  build fuel e = Ret b ->
  exists ls theEnd cin cout,
    listener_ (b_dispatcher b) = ls ++ [data_logged] /\ Forall keeps_logger ls /\
    getProperty_def tr_double (b_context b) PROP_STOP_TIME f64_DBL_MAX = Ret theEnd /\
    theEnd_ (b_dispatcher b) = theEnd /\ distributed (b_dispatcher b) = [] /\
    getInputChannelMapping (b_context b) = Ret (cin, b_context b) /\
    getOutputChannelMapping (b_context b) = Ret (cout, b_context b) /\
    (hasProperty (b_context b) PROP_CSV_FILE_NAME = true ->
     initHeader (csv_fails e) cin cout {| header_ := []; outputStream_ := Some "" |} = Ret (dataLogger_ (b_world b))) /\
    timingLogger_ (b_dispatcher b) = [] /\ queue (b_dispatcher b) = new_TimedEventQueue (loadTime e).
Proof.
  intros Hb. rewrite (build_listener_list e b Hb).
  destruct (build_inv e b Hb) as (ctx & conf & made & ready & d & out & inp & pubs & logger & []).
  rewrite bb_registered0, bb_context0, bb_world0. cbn [dataLogger_ nwManager_ publisher_].
  rename bb_out0 into Hout, bb_inp0 into Hinp, bb_logger0 into Hlog, bb_dispatcher0 into Hd.
  apply getOutputChannelMapping_inv in Hout as (Hc1 & Ho1 & _).
  apply getInputChannelMapping_inv in Hinp as (Hc2 & Hi2 & Ho2). rewrite Ho1 in Ho2.
  destruct (new_CSVDataLogger_built _ _ _ _ _ _ Hi2 Ho2 Hlog) as [-> Hheader].
  unfold new_EventDispatcher in Hd. apply obind_Ret_inv in Hd as (theEnd & Hend & Hd). injection Hd as <-.
  match goal with |- context [fold_left ?f ?idx ?d] => destruct (add_publishers_listeners idx d) as (Hl & He & Ht & Hq) end.
  eexists (_ :: map publisher_notified _ ++ [exception_tested]), theEnd, inp.1, out.1. split_and!.
  - cbn [app]. rewrite <- (assoc_L (++)). reflexivity.
  - apply Forall_cons. split; [exact predictor_keeps|].
    apply Forall_app. split; [|apply Forall_singleton; exact exception_tested_keeps]. apply Forall_map, Forall_forall. intros i _. apply publisher_notified_keeps.
  - by rewrite (getProperty_def_config _ ready.2) by congruence.
  - cbn [addEventListener theEnd_]. by rewrite He.
  - unfold distributed. cbn [addEventListener timingLogger_]. by rewrite Ht.
  - by apply getInputChannelMapping_cached.
  - by apply getOutputChannelMapping_cached.
  - exact Hheader.
  - cbn [addEventListener timingLogger_]. by rewrite Ht.
  - cbn [addEventListener queue]. by rewrite Hq.
Qed.

(** ** The data file of a run *)

(** The row of an event, whatever its variables are. *)
Definition row_of (header : list PortID) (row : list string) (ev : pevent) : Prop :=
  exists vars, row = event_row header (getTime ev, vars).

(** The data logger's file reads as [header] lines and one row per event. *)
Definition file_tracks (ids : list PortID) (header : list (list string)) (evs : list pevent) (w : ProgWorld) : Prop :=
  header_ (dataLogger_ w) = ids /\
  exists out rows, outputStream_ (dataLogger_ w) = Some out /\ Forall2 (row_of ids) rows evs /\
    forall rest, read_csv (String.list_ascii_of_string out ++ rest) FieldStart [] [] [] =
                 read_csv rest FieldStart [] [] (header ++ rows).

Lemma file_tracks_same ids header evs (w w' : ProgWorld) :
  dataLogger_ w' = dataLogger_ w -> file_tracks ids header evs w -> file_tracks ids header evs w'.
Proof. unfold file_tracks. by intros ->. Qed.

Lemma data_logged_tracks ids header evs (w : ProgWorld) ev w' :
  file_tracks ids header evs w -> data_logged ev w = Ret w' -> file_tracks ids header (evs ++ [ev]) w'.
Proof.
  intros (<- & out & rows & Hout & Hrows & Hread) Hr. unfold data_logged in Hr. rewrite Hout in Hr. inv_ret.
  apply world_getVariables_logger in Hr0. rewrite Hr0 in Hr1.
  destruct (csv_event_reads _ _ _ _ _ Hout Hr1) as (line & Hl & Hh' & Hline).
  split; [exact Hh'|]. exists (out +:+ line), (rows ++ [event_row (header_ (dataLogger_ w)) (getTime ev, r.1)]). split; [done|]. split.
  - apply Forall2_app; [done|]. constructor; [by eexists|constructor].
  - intros rest. rewrite list_ascii_app, <- (assoc_L (++)), Hread, Hline. by rewrite <- (assoc_L (++)).
Qed.

Lemma listeners_track ids header ls evs (w : ProgWorld) ev w' :
  Forall keeps_logger ls -> file_tracks ids header evs w ->
  foldlM (fun w l => l ev w) w (ls ++ [data_logged]) = Ret w' -> file_tracks ids header (evs ++ [ev]) w'.
Proof.
  intros Hls Ht. rewrite foldlM_app. intros (w1 & H1 & H2)%obind_Ret_inv. cbn in H2.
  apply obind_Ret_inv in H2 as (w2 & H2 & [= <-]). eapply data_logged_tracks; [|exact H2].
  eapply file_tracks_same; [by eapply foldlM_keeps|done].
Qed.

Lemma initHeader_tracks cin cout (w : ProgWorld) :
  initHeader false cin cout {| header_ := []; outputStream_ := Some "" |} = Ret (dataLogger_ w) ->
  file_tracks (getAllVariableIDs cin ++ getAllVariableIDs cout)
    [ "time" :: filled (getAllVariableNames cin ++ getAllVariableNames cout);
      "fmiReal" :: filled (map (fun p : PortID => FMI_TYPE_NAMES p.1)
                             (getAllVariableIDs cin ++ getAllVariableIDs cout)) ] [] w.
Proof.
  unfold initHeader. cbn [header_ outputStream_ assert_ obind]. intros [= Hl]. unfold file_tracks. rewrite <- Hl.
  split; [done|]. eexists _, []. split; [reflexivity|]. split; [constructor|].
  intros rest. rewrite app_nil_r. apply read_header.
Qed.

Lemma run_loop_tracks ids header ls turns carry d (w : ProgWorld) d' w' carry' :
  listener_ d = ls ++ [data_logged] -> Forall keeps_logger ls -> file_tracks ids header (distributed d) w ->
  @run_loop _ (TimedEventQueue pevent) pevent _ _ _ _ (world_predictor fuel) turns carry d w = Ret (Some (d', w', carry')) ->
  file_tracks ids header (distributed d') w'.
Proof.
  intros Hl Hls. apply run_tracks.
  - intros evs w0 ev w1 Ht Hp. eapply file_tracks_same; [by eapply predict_keeps|done].
  - intros evs w0 ev w1 Ht. rewrite Hl. by apply listeners_track.
Qed.

(** The run of the dispatcher in a run of the program. *)
Lemma execute_inv (e : ProgEnv) (b : ProgBuilt) r :
  build fuel e = Ret b -> execute fuel e = Ret (Some r) ->
  exists d, listener_ d = listener_ (b_dispatcher b) /\ theEnd_ d = theEnd_ (b_dispatcher b) /\
    distributed d = distributed (b_dispatcher b) /\
    @run_loop _ _ _ _ _ _ _ (world_predictor fuel) (turns e) [] d (b_world b) = Ret (Some r).
Proof.
  intros Hb Hex. unfold execute in Hex. rewrite Hb in Hex. cbn [obind] in Hex. unfold run in Hex.
  apply obind_Ret_inv in Hex as (d1 & Hd1 & Hrun). unfold dispatcher_initStartTimeNow in Hd1. inv_ret.
  eexists. split_and!; [| | |exact Hrun]; reflexivity.
Qed.

(** The data file behind a run: its header, a row for every event, and the stop time. *)
Definition data_file_of (b : ProgBuilt) (w : ProgWorld) (distributed_ : list pevent) : Prop :=
  exists cin cout stop text rows evs last,
    getInputChannelMapping (b_context b) = Ret (cin, b_context b) /\
    getOutputChannelMapping (b_context b) = Ret (cout, b_context b) /\
    getProperty_def tr_double (b_context b) PROP_STOP_TIME f64_DBL_MAX = Ret stop /\
    outputStream_ (dataLogger_ w) = Some text /\
    parse_csv text =
      [ "time" :: filled (getAllVariableNames cin ++ getAllVariableNames cout);
        "fmiReal" :: filled (map (fun p : PortID => FMI_TYPE_NAMES p.1)
                               (getAllVariableIDs cin ++ getAllVariableIDs cout)) ] ++ rows /\
    Forall2 (row_of (getAllVariableIDs cin ++ getAllVariableIDs cout)) rows (evs ++ [last]) /\
    distributed_ = evs ++ [last] /\
    Forall (fun ev => (getTime ev <? stop)%f64 = true) evs /\ (getTime last <? stop)%f64 = false.

(** The data file of a successful run.  When the program with a data file ends with
    zero, the file holds the names of the variables, the input variables first, their
    types, and one row for every event that has been distributed, in the order of the
    distribution, with the time of the event in the first column.  The events are some
    that lie before the stop time and one last event that does not. *)
Theorem main_data_file (e : ProgEnv) (b : ProgBuilt) d w carry :
  build fuel e = Ret b -> hasProperty (b_context b) PROP_CSV_FILE_NAME = true ->
  execute fuel e = Ret (Some (d, w, carry)) -> data_file_of b w (distributed d).
Proof.
  intros Hb Hprop Hex. destruct (build_listeners e b Hb) as (ls & stop & cin & cout & Hl & Hls & Hstop & Hend & Hd0 & Hi & Ho & Hh & _).
  specialize (Hh Hprop).
  assert (Hf : csv_fails e = false).
  { unfold initHeader in Hh. cbn in Hh. by destruct (csv_fails e). }
  rewrite Hf in Hh. apply initHeader_tracks in Hh.
  destruct (execute_inv e b _ Hb Hex) as (d1 & Hl1 & He1 & Hd1 & Hrun).
  destruct (run_loop_stops _ _ _ _ _ _ _ Hrun) as (evs & last & Hd & Hall & Hlast).
  rewrite He1, Hend in *. rewrite Hd1, Hd0 in Hd. rewrite Hl in Hl1. rewrite <- Hd0, <- Hd1 in Hh.
  assert (Ht := run_loop_tracks _ _ _ _ _ _ _ _ _ _ Hl1 Hls Hh Hrun). cbn [app] in Hd.
  destruct Ht as (_ & text & rows & Htext & Hrows & Hread).
  exists cin, cout, stop, text, rows, evs, last. rewrite <- Hd. split_and!; try done.
  unfold parse_csv. rewrite <- (app_nil_r (String.list_ascii_of_string text)), Hread. done.
Qed.

End Spec.

(** ** A concrete run of the program *)

From S2P Require Import TimedEventQueueSpec ASN1Spec CompactASN1ClientsSpec.
Import EventPredictorSpec(sample_fmu).
Import OneStepEventPredictorSpec(sample_me).

Section Run.
#[local] Existing Instance EventPredictorSpec.sample_manager.
#[local] Existing Instance EventPredictorSpec.sample_solver.
#[local] Existing Instance EventPredictorSpec.sample_properties.
#[local] Existing Instance OneStepEventPredictorSpec.sample_model.

(** The model of the predictor's examples, an output over TCP and a data file. *)
Definition prog_args : list string :=
  ["fmi-terminal-block"; "fmu.path=file:sample"; "app.startTime=0.5"; "app.lookAheadTime=1"; "app.stopTime=2";
   "app.dataFile=data.csv"; "out.0.protocol=CompactASN.1-TCP"; "out.0.addr=host:2000"; "out.0.0=x"; "out.0.0.type=0"].

Definition prog_env (args : list string) : Environment (M := unit) (Sk := Z * list PartialEvent) (W := script) := {|
  argv := map Some args; sundials := false; manager := tt; net := net_script; sink := (0%Z, []);
  openable _ := true; csv_fails := false; inRun _ := true;
  loadTime := at_us 0; startTime := at_us 0; failures := [];
  turns := replicate 4 {| t_before := []; t_during := [Wake (at_us 10000000)] |};
|}.

Definition prog_main (args : list string) : result (option Z) :=
  main (F := sample_fmu) (G := sample_me) 10 (prog_env args).

Example prog_codes :
  map (fun o => prog_main (prog_args ++ o)) [[]; ["app"]; ["app.logLevel=loud"]; ["app.simulationMethod=none"]; ["in.0.x=1"]] =
  [Ret (Some 0); Ret (Some 1); Ret (Some 2); Ret (Some 2); Ret (Some 2)]%Z.
Proof. vm_compute. reflexivity. Qed.

Definition loud_args : list string := prog_args ++ ["app.logLevel=loud"].
Definition short_args : list string := ["fmi-terminal-block"; "x"].

Definition args_context (args : list string) : ApplicationContext (H := tree_ptree) :=
  match addCommandlineProperties new_ApplicationContext (map Some args) with Ret c => c | _ => new_ApplicationContext end.

Lemma loud_accepted : addCommandlineProperties new_ApplicationContext (map Some loud_args) = Ret (args_context loud_args).
Proof. apply is_Ret_value. vm_compute. reflexivity. Qed.

Lemma loud_level : getProperty_def tr_string (args_context loud_args) EventLogger.PROP_LOG_LEVEL "debug" = Ret "loud".
Proof. vm_compute. reflexivity. Qed.

Lemma loud_method :
  getProperty_def tr_string (args_context loud_args) PROP_EVENT_PREDICTOR "multistep-prediction" = Ret "multistep-prediction".
Proof. vm_compute. reflexivity. Qed.

Lemma short_rejected :
  match addCommandlineProperties (H := tree_ptree) new_ApplicationContext (map Some short_args) with
  | Throw _ => true | _ => false end = true.
Proof. vm_compute. reflexivity. Qed.

Lemma main_reports_configuration_witness :
  main (F := sample_fmu) (G := sample_me) 10 (prog_env loud_args) = Ret (Some 2%Z) /\
  main (F := sample_fmu) (G := sample_me) 10 (prog_env short_args) = Ret (Some 1%Z).
Proof.
  split.
  - pose proof (main_reports_configuration (F := sample_fmu) (G := sample_me) 10 (prog_env loud_args)) as Hm.
    cbn [argv prog_env] in Hm. rewrite loud_accepted in Hm.
    apply (Hm "loud" "multistep-prediction" loud_level loud_method). left. reflexivity.
  - pose proof (main_reports_configuration (F := sample_fmu) (G := sample_me) 10 (prog_env short_args)) as Hm.
    cbn [argv prog_env] in Hm. pose proof short_rejected as Hs.
    destruct (addCommandlineProperties new_ApplicationContext (map Some short_args)); [discriminate Hs|exact Hm|discriminate Hs].
Defined.

(** The run of the program ends, and the program has a data file. *)
Lemma prog_built :
  match build (F := sample_fmu) (G := sample_me) 10 (prog_env prog_args) with
  | Ret b => hasProperty (b_context b) PROP_CSV_FILE_NAME | _ => false end = true /\
  match execute (F := sample_fmu) (G := sample_me) 10 (prog_env prog_args) with
  | Ret (Some _) => true | _ => false end = true.
Proof. split; vm_compute; reflexivity. Qed.

Lemma main_data_file_witness :
  exists d w carry text rows header,
    execute (F := sample_fmu) (G := sample_me) 10 (prog_env prog_args) = Ret (Some (d, w, carry)) /\
    outputStream_ (dataLogger_ w) = Some text /\ parse_csv text = header ++ rows /\
    length rows = length (distributed d).
Proof.
  destruct prog_built as [Hb Hx].
  destruct (build 10 (prog_env prog_args)) as [b| |] eqn:Eb; [|discriminate Hb..].
  destruct (execute 10 (prog_env prog_args)) as [[[[d w] carry]|]| |] eqn:Ex; [|discriminate Hx..].
  destruct (main_data_file 10 (prog_env prog_args) b d w carry Eb Hb Ex)
    as (cin & cout & stop & text & rows & evs & last & _ & _ & _ & Ht & Hp & Hrows & Hd & _).
  exists d, w, carry, text, rows. eexists. split; [reflexivity|]. split; [exact Ht|]. split; [exact Hp|].
  rewrite Hd. exact (Forall2_length _ _ _ Hrows).
Defined.

End Run.
