(* ===== verification/ProgramThreads.v ===== *)
(** * The program with its threads (src/main.cpp)

    [Program.main] takes what the subscribers do to the main thread from its environment.
    Here the main thread of a built program runs among the threads that push the events,
    step by step; whatever the interleaving, it ends as [main] ends in some environment, and
    its data file is that of [main]. *)

From S2P Require Import Prelude Float64 BaseExceptions PortID Format Variables PropertyTree.
From S2P Require Import ChannelMapping ApplicationContext Event TimedEventQueue TimedEventQueueSpec EventDispatcher.
From S2P Require Import QueueMonitor DispatcherThreads DispatcherRefinement DispatcherThreadsSpec.
From S2P Require Import ASN1Subscriber ConcurrentSubscriber CompactASN1Clients NetworkManager.
From S2P Require Import FMUTypes ManagedLowLevelFMU SolverConfiguration EventPredictorFactory CSVDataLogger.
From S2P Require EventPredictor OneStepEventPredictor EventPredictorSpec OneStepEventPredictorSpec EventLogger.
From S2P Require Import Program ProgramSpec.
Import EventPredictor(IncrementalFMU, pevent, LazyEvent, Static).
Import OneStepEventPredictor(FMUModelExchange).
Import EventLogger(CalendarTime).

#[local] Existing Instance EventPredictor.pevent_timed.

Section Program.
Context `{PT : PropertyTree} `{LC : LexicalConvert} `{IP : IntegratorProperties} {PX : PosixTime}.
Context {M F G : Type} `{MM : ModelManager M} `{IF : IncrementalFMU F} `{FM : FMUModelExchange G}.
Context {Sk W : Type} `{ES : EventSink Sk} `{AS : Asio W} (fuel : nat).

Notation ProgEnv := (Environment (M := M) (Sk := Sk) (W := W)).
Notation ProgWorld := (World (M := M) (F := F) (G := G) (W := W)).
Notation ProgBuilt := (Built (M := M) (F := F) (G := G) (Sk := Sk) (W := W)).
Notation ProgState := (RunState ProgWorld pevent).

#[local] Existing Instance world_predictor.
#[local] Instance program_predictor : AbstractEventPredictor ProgWorld pevent := world_predictor fuel.

(** The run of the dispatcher that [main] has built, with [n] threads of subscribers. *)
Definition program_start (n : nat) (start : fmiTime) (e : ProgEnv) (b : ProgBuilt) : ProgState :=
  new_RunState n start (loadTime e) (at_queue tt (b_dispatcher b)) (b_world b).

(** The environment in which the run begins at [clock] and has these turns. *)
Definition scheduled (clock : ptime) (turns : list (turn pevent (list (sched_action (E := pevent))))) (e : ProgEnv) : ProgEnv := {|
  argv := argv e; sundials := sundials e; manager := manager e; net := net e; sink := sink e;
  openable := openable e; csv_fails := csv_fails e; inRun := inRun e; loadTime := loadTime e;
  startTime := clock; failures := failures e; turns := turns;
|}.

Lemma build_scheduled clock turns e : build (F := F) (G := G) fuel (scheduled clock turns e) = build fuel e.
Proof. done. Qed.

Lemma build_dispatcher (e : ProgEnv) (b : ProgBuilt) :
  build fuel e = Ret b ->
  timingLogger_ (b_dispatcher b) = [] /\
  at_queue (new_TimedEventQueue (loadTime e)) (at_queue tt (b_dispatcher b)) = b_dispatcher b.
Proof.
  intros (? & ? & ? & ? & _ & _ & _ & _ & _ & _ & _ & _ & Ht & Hq)%build_listeners. split; [done|].
  unfold at_queue. rewrite <- Hq. by destruct (b_dispatcher b).
Qed.

(** A sequential run of the threads is a run of the program. *)
Lemma execute_sequential (e : ProgEnv) (b : ProgBuilt) clock turns :
  build fuel e = Ret b ->
  sequential_run (b_context b) (loadTime e) (at_queue tt (b_dispatcher b)) (b_world b) clock turns =
  execute fuel (scheduled clock turns e).
Proof.
  intros Hb. unfold execute. rewrite build_scheduled, Hb. cbn [obind]. unfold sequential_run.
  by destruct (build_dispatcher e b Hb) as [_ ->].
Qed.

Lemma program_ok n start (e : ProgEnv) (b : ProgBuilt) ls (s : ProgState) :
  run_steps ls (program_start n start e b) = Ret s ->
  main_ok start (loadTime e) (at_queue tt (b_dispatcher b)) (b_world b) s.
Proof. intros Hr. eapply main_ok_steps; [apply main_ok_initial|exact Hr]. Qed.

(** C6: whatever the interleaving of the main thread and the subscribers, the program ends as
    [main] does in some environment.  When the dispatcher has finished, [main] has returned
    zero, with the same world and the same events distributed; when its code throws, [main]
    has returned the exit code of the exception; when its code, or the queue it calls,
    faults, so has [main].  Faults in the threads of the subscribers are not the subject. *)
Theorem program_threads_end_like_main n start (e : ProgEnv) (b : ProgBuilt) ls (s : ProgState) :
  build fuel e = Ret b -> getProperty tr_double (b_context b) PROP_START_TIME = Ret start ->
  run_steps ls (program_start n start e b) = Ret s ->
  (next_ s = Returned ->
   exists clock turns d,
     execute fuel (scheduled clock turns e) = Ret (Some (d, world s, [])) /\
     distributed d = distributed (dispatcher s) /\ main fuel (scheduled clock turns e) = Ret (Some 0%Z)) /\
  (forall x, run_step Code s = Some (Throw x) ->
   exists clock turns, main fuel (scheduled clock turns e) = Ret (Some (main_exit_code x))) /\
  (forall f, run_step Code s = Some (Fault f) \/ (exists inp, run_step (InQueue 0 inp) s = Some (Fault f)) ->
   exists clock turns, main fuel (scheduled clock turns e) = Fault f).
Proof.
  intros Hb Hstart Hr. apply program_ok in Hr as Hok. unfold main. split_and!.
  - intros Hn. destruct (finished_run _ _ _ Hstart _ _ s Hok Hn) as (clock & turns & q & arrived & q' & Hrun & _).
    rewrite (execute_sequential e b) in Hrun by done. exists clock, turns, (at_queue q (dispatcher s)). by rewrite Hrun.
  - intros x Hs. destruct (code_ends _ _ _ Hstart _ _ s _ Hok Hs ltac:(done)) as (clock & turns & Hrun).
    rewrite (execute_sequential e b) in Hrun by done. exists clock, turns. by rewrite Hrun.
  - intros f Hs. assert (Hf : exists clock turns, sequential_run (b_context b) (loadTime e) (at_queue tt (b_dispatcher b))
                                (b_world b) clock turns = Fault f).
    { destruct Hs as [Hs|[inp Hs]]; [exact (code_ends _ _ _ Hstart _ _ s _ Hok Hs ltac:(done))|].
      exact (queue_ends _ _ _ Hstart _ _ inp s f Hok Hs). }
    destruct Hf as (clock & turns & Hrun). rewrite (execute_sequential e b) in Hrun by done.
    exists clock, turns. by rewrite Hrun.
Qed.

(** C7: the data file of the program with its threads.  When the dispatcher has finished, in
    any interleaving with the subscribers, the data file holds the names of the variables,
    their types, and one row for every event that has been distributed, in that order; the
    events are some that lie before the stop time and one last event that does not. *)
Theorem program_threads_data_file n start (e : ProgEnv) (b : ProgBuilt) ls (s : ProgState) :
  build fuel e = Ret b -> getProperty tr_double (b_context b) PROP_START_TIME = Ret start ->
  hasProperty (b_context b) PROP_CSV_FILE_NAME = true ->
  run_steps ls (program_start n start e b) = Ret s -> next_ s = Returned ->
  data_file_of b (world s) (distributed (dispatcher s)).
Proof.
  intros Hb Hstart Hcsv Hr%program_ok Hn.
  destruct (finished_run _ _ _ Hstart _ _ s Hr Hn) as (clock & turns & q & arrived & q' & Hrun & _).
  rewrite (execute_sequential e b) in Hrun by done.
  exact (main_data_file fuel (scheduled clock turns e) b _ _ _ Hb Hcsv Hrun).
Qed.
End Program.

(** ** A run of the program with a subscriber *)

From S2P Require Import ASN1Spec CompactASN1ClientsSpec.
Import EventPredictorSpec(sample_fmu).
Import OneStepEventPredictorSpec(sample_me).

Section Run.
#[local] Existing Instance EventPredictorSpec.sample_manager.
#[local] Existing Instance EventPredictorSpec.sample_solver.
#[local] Existing Instance EventPredictorSpec.sample_properties.
#[local] Existing Instance OneStepEventPredictorSpec.sample_model.

Definition prog_burst (i : nat) (clock : Z) : list (run_label pevent) :=
  concat (replicate 20 [InQueue i Go; InQueue i (Clock (at_us clock))]).
(** The dispatcher asks for an event, and what it gets is distributed. *)
Definition prog_asks (clock : Z) : list (run_label pevent) := Code :: prog_burst 0 clock ++ [Code] ++ prog_burst 0 clock.
Definition prog_turn (clock : Z) : list (run_label pevent) := prog_asks clock ++ [Code].

(** The program starts at 0.5 s; a subscriber pushes an event at 0.75 s while the dispatcher
    waits for its prediction. *)
Definition prog_event : pevent := Static {| se_time := (f64_of_Z 3 / f64_of_Z 4)%f64; se_var := [] |}.
Definition prog_schedule : list (run_label pevent) :=
  prog_burst 0 0 ++ prog_asks 100000 ++ [InQueue 1 (CallPush prog_event)] ++ prog_burst 1 200000 ++
  prog_burst 0 300000 ++ [Code] ++ concat (replicate 4 (prog_turn 10000000)).

Notation prog_state := (RunState (World (M := unit) (F := sample_fmu) (G := sample_me) (W := script)) pevent).
Definition prog_steps (s : prog_state) : result prog_state := @run_steps _ _ _ _ (world_predictor 10) prog_schedule s.

(** What holds of the program built with these arguments, its start time and the end of the
    run. *)
Definition prog_case (args : list string) (P : Built -> fmiTime -> prog_state -> bool) : bool :=
  match build 10 (prog_env args) with
  | Ret b =>
      match getProperty tr_double (b_context b) PROP_START_TIME with
      | Ret start =>
          match prog_steps (program_start 1 start (prog_env args) b) with
          | Ret s => P b start s
          | _ => false
          end
      | _ => false
      end
  | _ => false
  end.

Example prog_returns :
  prog_case prog_args (fun b _ s => match next_ s with Returned => true | _ => false end &&
                          hasProperty (b_context b) PROP_CSV_FILE_NAME &&
                          (length (distributed (dispatcher s)) =? 3)%nat) = true.
Proof. vm_compute. reflexivity. Qed.

Lemma prog_case_inv args P :
  prog_case args P = true ->
  exists b start s, build 10 (prog_env args) = Ret b /\ getProperty tr_double (b_context b) PROP_START_TIME = Ret start /\
    prog_steps (program_start 1 start (prog_env args) b) = Ret s /\ P b start s = true.
Proof.
  unfold prog_case. destruct (build 10 (prog_env args)) as [b| |]; [|done..].
  destruct (getProperty _ (b_context b) _) as [start| |] eqn:Hs; [|done..].
  destruct (prog_steps _) as [s| |] eqn:Hr; [|done..]. intros HP. by exists b, start, s.
Qed.

Lemma program_threads_end_like_main_witness :
  exists s : prog_state, next_ s = Returned /\
    exists clock turns d,
      execute 10 (scheduled clock turns (prog_env prog_args)) = Ret (Some (d, world s, [])) /\
      distributed d = distributed (dispatcher s) /\
      main (F := sample_fmu) (G := sample_me) 10 (scheduled clock turns (prog_env prog_args)) = Ret (Some 0%Z).
Proof.
  destruct (prog_case_inv _ _ prog_returns) as (b & start & s & Hb & Hstart & Hr & Hp).
  assert (Hn : next_ s = Returned) by (destruct (next_ s); [discriminate Hp..|reflexivity]).
  exists s. split; [exact Hn|].
  exact (proj1 (program_threads_end_like_main 10 1 start (prog_env prog_args) b prog_schedule s Hb Hstart Hr) Hn).
Defined.

Lemma program_threads_data_file_witness :
  exists (s : prog_state) (b : Built (M := unit) (F := sample_fmu) (G := sample_me) (Sk := Z * list PartialEvent) (W := script)),
    length (distributed (dispatcher s)) = 3%nat /\ data_file_of b (world s) (distributed (dispatcher s)).
Proof.
  destruct (prog_case_inv _ _ prog_returns) as (b & start & s & Hb & Hstart & Hr & Hp).
  apply andb_prop in Hp as [Hp Hl]. apply andb_prop in Hp as [Hn Hcsv]. exists s, b. split; [exact (proj1 (Nat.eqb_eq _ _) Hl)|].
  apply (program_threads_data_file 10 1 start (prog_env prog_args) b prog_schedule s Hb Hstart Hcsv Hr).
  destruct (next_ s); [discriminate Hn..|reflexivity].
Defined.
End Run.
