(* ===== verification/ProgramSafety.v ===== *)
(** * The program does not fail an assertion

    The world of the program keeps the protocol that [DispatcherSafety] asks for: the
    predictor (by its contract), the publishers, the exception tester and the data logger.
    So no interleaving of the main thread and the subscribers of a built program fails an
    assertion or is undefined. *)

From S2P Require Import Prelude Float64 BaseExceptions PortID Format Variables PropertyTree.
From S2P Require Import ChannelMapping ChannelMappingSpec ApplicationContext ApplicationContextSpec.
From S2P Require Import Event TimedEventQueue TimedEventQueueSpec EventDispatcher.
From S2P Require Import QueueMonitor DispatcherThreads DispatcherRefinement DispatcherThreadsSpec DispatcherSafety.
From S2P Require Import ASN1Commons ASN1Publisher ASN1Spec ASN1Subscriber ConcurrentSubscriber CompactASN1Clients NetworkManager NetworkPublishers.
From S2P Require Import FMUTypes ManagedLowLevelFMU SolverConfiguration EventPredictorFactory CSVDataLogger.
From S2P Require EventPredictor OneStepEventPredictor EventPredictorSpec OneStepEventPredictorSpec EventLogger.
From S2P Require Import PredictorContract Program ProgramSpec ProgramThreads.
Import EventPredictor(IncrementalFMU, pevent, LazyEvent, Static).
Import EventPredictorSpec(IncrementalFMULaws).
Import OneStepEventPredictor(FMUModelExchange).
Import OneStepEventPredictorSpec(FMUModelExchangeLaws).
Import EventLogger(CalendarTime).

#[local] Existing Instance EventPredictor.pevent_timed.

#[local] Notation valid_variables vars := (Forall (fun v => isValid v = true) vars).

(** ** The publishers *)

Section Publishers.
Context `{PropertyTree} {W : Type} `{Asio W}.

(** A publisher that is connected and has no output of the type REAL, which it could not
    encode. *)
Definition encoder_ready (p : CompactASN1Publisher) : Prop := publisher_ok p /\ REAL ∉ outputTypes_ p.
Definition publisher_ready (pub : Publisher W) : Prop :=
  match pub with
  | UDPPublisher p => encoder_ready (udp_base p) /\ is_Some (udp_socket_ p) /\ is_Some (destination_ p)
  | TCPPublisher p => encoder_ready (tcp_base p) /\ is_Some (tcp_socket_ p)
  end.

Lemma or_system_error_wp {A} (o : option A) : wp (or_system_error o) (fun _ => True) (fun _ => True).
Proof. by destruct o. Qed.

Lemma encoder_event vars p :
  encoder_ready p -> valid_variables vars -> wp (eventTriggered vars p) (fun r => encoder_ready r.1) (fun _ => True).
Proof.
  intros [Hp Hr] Hv. destruct (eventTriggered_correct vars p Hp Hv Hr) as (p' & -> & _ & Ht & Hp').
  split; [done|]. cbn. by rewrite Ht.
Qed.

Lemma publisher_event vars pub w :
  publisher_ready pub -> valid_variables vars ->
  wp (publisher_eventTriggered vars pub w) (fun r => publisher_ready r.1) (fun _ => True).
Proof.
  destruct pub as [p|p]; cbn.
  - intros (He & Hs & Hd) Hv. apply wp_bind. eapply wp_mono; [by apply encoder_event| |done].
    intros [base [buffer|]] Hbase; cbn; [|done]. destruct Hs as [sock Hs], Hd as [dest Hd].
    unfold udp_sendData. cbn. rewrite Hs, Hd. destruct (udp_send_to _ _ _ _) as [[sent|] w1]; cbn; [|done]. by split_and!.
  - intros (He & Hs) Hv. apply wp_bind. eapply wp_mono; [by apply encoder_event| |done].
    intros [base [buffer|]] Hbase; cbn; [|done]. destruct Hs as [sock Hs].
    unfold tcp_sendData. cbn. rewrite Hs. destruct (tcp_send _ _ _) as [[sent|] w1]; cbn; [|done]. by split_and!.
Qed.
(** The encodings of a publisher. *)
Definition publisher_types (pub : Publisher W) : list DataType :=
  match pub with UDPPublisher p => outputTypes_ (udp_base p) | TCPPublisher p => outputTypes_ (tcp_base p) end.

Lemma created_ready ch pub :
  channel_known ch -> created instantiatePublisher (fun pub chn w => publisher_init chn pub w) ch pub ->
  REAL ∉ publisher_types pub -> publisher_ready pub.
Proof.
  intros [Hl Hk] (protocol & fresh & w & w' & _ & Hfresh & Hinit) Hreal.
  pose proof (publisher_init_correct ch Hl Hk) as Hok.
  unfold instantiatePublisher in Hfresh.
  destruct (String.eqb protocol PUBLISHER_ID_UDP); [|destruct (String.eqb protocol PUBLISHER_ID_TCP); [|done]]; injection Hfresh as <-;
    cbn in Hinit; apply obind_Ret_inv in Hinit as ([p w1] & Hp & [= <- <-]); cbn [publisher_ready publisher_types fst] in *.
  - unfold udp_init in Hp. apply obind_Ret_inv in Hp as (base & Hb & Hp). cbn [udp_base new_CompactASN1UDPPublisher] in Hb.
    rewrite Hb in Hok. destruct Hok as [Hok _]. apply obind_Ret_inv in Hp as (addr & _ & Hp).
    destruct (resolve _ _ _ _) as [found w2]. apply obind_Ret_inv in Hp as ([|dest cs] & _ & Hp); [done|].
    destruct (udp_open _ _) as [opened w3]. apply obind_Ret_inv in Hp as (sock & _ & Hp). injection Hp as <- _.
    by split_and!.
  - unfold tcp_init in Hp. apply obind_Ret_inv in Hp as (base & Hb & Hp). cbn [tcp_base new_CompactASN1TCPClientPublisher] in Hb.
    rewrite Hb in Hok. destruct Hok as [Hok _]. apply obind_Ret_inv in Hp as (addr & _ & Hp).
    destruct (resolve _ _ _ _) as [found w2]. apply obind_Ret_inv in Hp as (cs & _ & Hp).
    destruct (tcp_connect _ _ _) as [[ok sock] w3]. apply obind_Ret_inv in Hp as (? & _ & Hp). injection Hp as <- _.
    by split_and!.
Qed.

Lemma created_all_ready chs pubs :
  Forall2 (created instantiatePublisher (fun pub chn w => publisher_init chn pub w)) chs pubs -> Forall channel_known chs ->
  Forall (fun pub => REAL ∉ publisher_types pub) pubs -> Forall publisher_ready pubs.
Proof.
  induction 1 as [|ch pub chs pubs Hpub _ IH]; intros Hknown Hreal; [done|].
  apply Forall_cons in Hknown as [? ?], Hreal as [? ?]. constructor; [by eapply created_ready|by apply IH].
Qed.
End Publishers.

(** ** The listeners *)

Section Program.
Context `{PT : PropertyTree} `{PTL : !PropertyTreeLaws PT} `{LC : LexicalConvert} `{IP : IntegratorProperties} {PX : PosixTime}.
Context {M F G : Type} `{MM : ModelManager M} `{IF : IncrementalFMU F} `{IFL : !IncrementalFMULaws F} `{FM : FMUModelExchange G} `{FML : !FMUModelExchangeLaws G}.
Context {Sk W : Type} `{ES : EventSink Sk} `{AS : Asio W} (fuel : nat).

Notation ProgEnv := (Environment (M := M) (Sk := Sk) (W := W)).
Notation ProgWorld := (World (M := M) (F := F) (G := G) (W := W)).
Notation ProgBuilt := (Built (M := M) (F := F) (G := G) (Sk := Sk) (W := W)).
Notation ProgState := (RunState ProgWorld pevent).
Implicit Types (w : ProgWorld).

#[local] Instance safe_predictor : AbstractEventPredictor ProgWorld pevent := world_predictor fuel.

(** The publishers of a world. *)
Definition publishers_ready (n : nat) w : Prop :=
  length (publisher_ (nwManager_ w)) = n /\ Forall publisher_ready (publisher_ (nwManager_ w)).

(** The worlds between two events, before an event, and while it is distributed. *)
Definition world_idle (n : nat) w : Prop := publishers_ready n w /\ predictor_idle fuel (predictor_ w).
Definition world_awaiting (n : nat) (ev : pevent) w : Prop :=
  publishers_ready n w /\ predictor_awaiting fuel ev (predictor_ w).
Definition world_shows (n : nat) (ev : pevent) w : Prop := publishers_ready n w /\ predictor_shows fuel ev (predictor_ w).

(** The events a subscriber may push, when their times have [T]. *)
Definition external_event (T : fmiTime -> Prop) (ev : pevent) : Prop :=
  exists s, ev = Static s /\ EventPredictorSpec.external_ok s /\ T (se_time s).

Notation safe_listener P l := (forall w, P w -> wp (l w) P (fun _ => True)).

Lemma world_variables n ev w :
  world_shows n ev w -> exists vars w', world_getVariables ev w = Ret (vars, w') /\ world_shows n ev w' /\ valid_variables vars.
Proof.
  intros [Hn Hp]. unfold world_getVariables. unfold predictor_shows in Hp. destruct (predictor_ w) as [p|p] eqn:Ep.
  - destruct Hp as (Hwf & vars & Hg & Hv). rewrite Hg. cbn [obind fst snd].
    exists vars, (set_predictor (MultiStep p) w). split_and!; [done| |done]. split; [done|]. split; [done|]. by exists vars.
  - destruct Hp as (Hidle & s & -> & Hv). exists (se_var s), w. split_and!; [done| |done]. split; [done|]. rewrite Ep.
    split; [done|]. by exists s.
Qed.

Lemma publisher_notified_safe n i ev : (i < n)%nat -> safe_listener (world_shows n ev) (publisher_notified (M := M) (F := F) (G := G) i ev).
Proof.
  intros Hi w Hw. destruct (world_variables _ _ _ Hw) as (vars & w1 & Hg & [[Hl Hr] Hp] & Hv).
  unfold publisher_notified. rewrite Hg. cbn [obind fst snd]. unfold publisher_listener.
  destruct (lookup_lt_is_Some_2 (publisher_ (nwManager_ w1)) i ltac:(lia)) as [pub Hpub]. rewrite Hpub.
  apply wp_bind, wp_bind. eapply wp_mono; [apply publisher_event; [|exact Hv]| |done].
  { by eapply Forall_lookup_1. }
  intros [pub' net'] Hpub'. cbn. split; [|done]. split; cbn; [by rewrite length_insert|]. by apply Forall_insert.
Qed.

Lemma exception_tested_safe n ev : safe_listener (world_shows n ev) (exception_tested (M := M) (F := F) (G := G) (W := W) ev).
Proof.
  intros w [[Hl Hr] Hp]. unfold exception_tested, exceptionTester_, throwPendingException.
  destruct (failures_ w) as [|[x|] fs]; cbn; try done; destruct (pending_ (nwManager_ w)); done.
Qed.

Lemma data_logged_safe n ev : safe_listener (world_shows n ev) (data_logged (M := M) (F := F) (G := G) (W := W) ev).
Proof.
  intros w Hw. unfold data_logged. destruct (outputStream_ (dataLogger_ w)); [|done].
  destruct (world_variables _ _ _ Hw) as (vars & w1 & -> & Hw1 & Hv). cbn [obind fst snd]. unfold csv_eventTriggered.
  destruct (outputStream_ (dataLogger_ w1)); [|done].
  destruct (row_fields_writes (header_ (dataLogger_ w1)) vars) as (ts & -> & _); [|done].
  eapply Forall_impl; [exact Hv|]. intros v Hvalid. unfold writable. rewrite Hvalid. apply orb_true_r.
Qed.

(** The predictor is the first listener. *)
Lemma predictor_safe n T ev q w :
  world_awaiting n q w -> ev = q \/ external_event T ev ->
  wp (predictor_eventTriggered ev w) (world_shows n ev) (fun _ => True).
Proof.
  intros [Hn Hp] Hev. cbn. apply wp_bind. eapply wp_mono with (Q := predictor_shows fuel ev); [|by split|done].
  destruct Hev as [->|(s & -> & Hs & _)]; [by apply predictor_handles_own|by eapply predictor_handles_external].
Qed.

Lemma world_protocol n T end_ :
  protocol (predictor_eventTriggered :: map publisher_notified (seq 0 n) ++ [exception_tested; data_logged]) end_
    (world_idle n) (world_awaiting n) (external_event T).
Proof.
  split.
  - intros w [Hn Hp]. cbn. apply wp_bind. eapply wp_mono; [by apply predictor_predicts|by split|done].
  - intros ev q w Hw Hev. cbn [foldlM]. apply wp_bind. eapply wp_mono; [by eapply predictor_safe| |done].
    intros w1 Hw1. eapply wp_mono with (Q := world_shows n ev); [| |done].
    + apply (wp_foldlM _ (fun _ => world_shows n ev)); [|done]. intros done_ l rest w' Hl Hw'.
      assert (Hin : l ∈ map publisher_notified (seq 0 n) ++ [exception_tested; data_logged]) by (rewrite Hl; set_solver).
      apply elem_of_app in Hin as [(i & -> & [_ Hi]%elem_of_seq)%list_elem_of_fmap|Hin]; [by apply publisher_notified_safe|].
      apply elem_of_cons in Hin as [-> | ->%list_elem_of_singleton]; [by apply exception_tested_safe|by apply data_logged_safe].
    + intros w2 [Hn [Hp _]] _. by split.
Qed.

(** ** What [build] establishes *)

(** A context before its first mapping is built. *)
Definition no_mapping (ctx : ApplicationContext) : Prop :=
  outputChannelMap_ ctx = None /\ inputChannelMap_ ctx = None /\ portIDSource_ ctx = new_PortIDDrawer.

Lemma add_arguments_no_mapping args ctx i ctx' : no_mapping ctx -> add_arguments ctx args i = Ret ctx' -> no_mapping ctx'.
Proof.
  revert ctx i. induction args as [|[opt|] args IH]; intros ctx i Hn; cbn; [by intros [= <-]| |done].
  intros (ctx1 & (key & value & _ & _ & ->)%addCommandlineOption_Ret & Hr)%obind_Ret_inv. eapply IH; [|exact Hr]. exact Hn.
Qed.

Lemma addCommandlineProperties_no_mapping args ctx :
  addCommandlineProperties new_ApplicationContext args = Ret ctx -> no_mapping ctx.
Proof. destruct args as [|[name|] args]; [done| |done]. by apply add_arguments_no_mapping. Qed.

Lemma predictor_configure_no_mapping ctx (sp : SomePredictor M F G) ctx' :
  no_mapping ctx -> predictor_configure ctx sp = Ret ctx' -> no_mapping ctx'.
Proof.
  intros Hn. destruct sp as [p|p]; cbn;
    unfold EventPredictor.configureDefaultApplicationContext, OneStepEventPredictor.configureDefaultApplicationContext,
      addSensitiveDefaultProperties; repeat case_match; try done; by intros [= <-].
Qed.

(** The ports of a context are those of any other with the same configuration. *)
Lemma prefix_ports_config (ctx ctx' : ApplicationContext) prefix :
  config_ ctx' = config_ ctx -> prefix_ports ctx' prefix = prefix_ports ctx prefix.
Proof. unfold prefix_ports. by intros ->. Qed.

(** What a built program has to satisfy: no output has the encoding REAL, there are
    identifiers for all ports, and with the single-step predictor the fuel is more than the
    model events of a step. *)
Record well_configured (b : ProgBuilt) : Prop := {
  wc_fuel : forall p, predictor_ (b_world b) = SingleStep p -> enough_fuel (G := G) fuel;
  wc_encodings : Forall (fun pub => REAL ∉ publisher_types pub) (publisher_ (nwManager_ (b_world b)));
  wc_ports : (Z.of_nat (length (prefix_ports (b_context b) PROP_OUT) + length (prefix_ports (b_context b) PROP_IN)) <= 2 ^ 31)%Z;
}.

Lemma build_ready (e : ProgEnv) (b : ProgBuilt) :
  (forall s x, tr_double s = Some x -> EventPredictorSpec.plain_time x) ->
  build fuel e = Ret b -> well_configured b ->
  world_idle (length (publisher_ (nwManager_ (b_world b)))) (b_world b).
Proof.
  intros Hdouble (ctx & conf & made & ready & d & out & inp & pubs & logger & [])%build_inv [Hfuel Hreal Hports].
  rewrite bb_world in *. cbn [nwManager_ publisher_ predictor_] in *.
  assert (no_mapping conf) as (Hco & Hci & Hcd)
    by (eapply predictor_configure_no_mapping; [|done]; by eapply addCommandlineProperties_no_mapping).
  pose proof (makeEventPredictor_fresh _ _ _ _ bb_made) as Hfresh.
  destruct (predictor_init_mappings _ _ _ Hfresh bb_ready) as (mo & c1 & mi & Hmo & Hmi & Hu).
  destruct (getOutputChannelMapping_inv _ _ Hmo) as (Hc1 & Ho1 & _), (getInputChannelMapping_inv _ _ Hmi) as (Hc2 & _ & Ho2).
  cbn [fst snd] in Hc1, Ho1, Hc2, Ho2. rewrite Ho1 in Ho2.
  rewrite (getOutputChannelMapping_cached _ _ Ho2) in bb_out. injection bb_out as <-. cbn [fst snd] in *.
  apply getInputChannelMapping_inv in bb_inp as (Hc3 & Hi3 & Ho3). rewrite Ho2 in Ho3.
  destruct (new_CSVDataLogger_built _ _ _ _ _ _ Hi3 Ho3 bb_logger) as [Hlog _].
  rewrite bb_context, !(prefix_ports_config conf logger.2) in Hports by congruence.
  assert (Hroom : room (portIDSource_ conf) (length (prefix_ports conf PROP_OUT) + length (prefix_ports conf PROP_IN))).
  { rewrite Hcd. intros t. replace (next_of new_PortIDDrawer t) with 0%Z by (by destruct t). exact Hports. }
  assert (Hwf : drawer_wf (portIDSource_ conf)) by (rewrite Hcd; apply new_PortIDDrawer_wf).
  split; [split; [done|]|by eapply predictor_init_idle].
  destruct pubs as [pubs net']. apply publishers_created in bb_publishers.
  assert (Hknown : Forall channel_known (channels_ mo)).
  { unfold getOutputChannelMapping in Hmo. rewrite Hco in Hmo. apply obind_Ret_inv in Hmo as ([mo' d'] & Hmo & [= -> _]).
    eapply newChannelMapping_known; [done| |done..]. eapply room_mono; [|done]. lia. }
  cbn [fst snd nwManager_ publisher_] in *. by eapply created_all_ready.
Qed.

(** ** The theorem *)

(** C8: the program does not fail, under conditions on its configuration and on the times of
    its events.  The conditions are: no output is encoded as REAL; there are identifiers for
    all ports; with the single-step predictor the fuel is more than the model events of any
    step; the subscribers push events with valid variables at plain times; and the start
    time and the times of all events pushed and predicted in this run are [manageable], not
    negative, in the range of the clock, and such that the comparisons with the tolerance of
    the queue agree (without the latter the queue can fail an assertion, as
    [TimedEventQueueSpec.queue_rounding_gap] shows).  Then in every interleaving of the main
    thread of a built program, with either predictor, with the threads that push events, no
    assertion fails and nothing undefined happens, neither in the predictor, the queue, the
    publishers and the data logger nor in the threads that push: the main thread goes on,
    waits, returns or throws an exception. *)
Theorem program_threads_never_fault n start (e : ProgEnv) (b : ProgBuilt) T ls f :
  (forall s x, tr_double s = Some x -> EventPredictorSpec.plain_time x) ->
  build fuel e = Ret b -> well_configured b -> getProperty tr_double (b_context b) PROP_START_TIME = Ret start ->
  manageable T -> T start -> Forall (label_ok (external_event T)) ls ->
  Forall (fun ev => T (getTime ev)) (predicted (dispatcher (last_state ls (program_start n start e b)))) ->
  run_steps ls (program_start n start e b) <> Fault f.
Proof.
  intros Hdouble Hb Hconf Hstart HT Hs Hls Hall. pose proof (build_ready e b Hdouble Hb Hconf) as Hready.
  eapply (schedule_safe start (loadTime e) (at_queue tt (b_dispatcher b)) (b_world b));
    [exact HT|exact Hs| | |exact Hready|..|exact Hls|exact Hall].
  - unfold at_queue. cbn [listener_ theEnd_]. rewrite (build_listener_list fuel e b Hb). apply world_protocol.
  - by intros ev (s & -> & _ & Ht).
  - apply main_ok_initial.
  - intros [|i] t Hi Ht; [done|]. cbn in Ht. apply lookup_replicate in Ht as [-> _]. split; [constructor|done].
Qed.
End Program.

(** ** The run with a subscriber *)

From S2P Require Import CompactASN1ClientsSpec.
Import EventPredictorSpec(sample_fmu).
Import OneStepEventPredictorSpec(sample_me).

Section Run.
#[local] Existing Instance EventPredictorSpec.sample_manager.
#[local] Existing Instance EventPredictorSpec.sample_solver.
#[local] Existing Instance EventPredictorSpec.sample_solver_laws.
#[local] Existing Instance EventPredictorSpec.sample_properties.
#[local] Existing Instance OneStepEventPredictorSpec.sample_model.
#[local] Existing Instance OneStepEventPredictorSpec.sample_model_laws.

Notation sample_built := (Built (M := unit) (F := sample_fmu) (G := sample_me) (Sk := Z * list PartialEvent) (W := script)).

Definition prog_times : list fmiTime := map (fun k => (f64_of_Z k / f64_of_Z 4)%f64) [2; 3; 4; 5; 6; 7; 8; 9; 10; 11; 12]%Z.

(** The program again, and with the single-step predictor. *)
Definition both_args : list (list string) := [prog_args; prog_args ++ ["app.simulationMethod=singlestep-delayed"]].

(** The conditions of the theorem, by computation. *)
Definition prog_configured (b : sample_built) : bool :=
  forallb (fun pub => forallb (fun t => negb (bool_decide (t = REAL))) (publisher_types pub)) (publisher_ (nwManager_ (b_world b))) &&
  (Z.of_nat (length (prefix_ports (b_context b) PROP_OUT) + length (prefix_ports (b_context b) PROP_IN)) <=? 2 ^ 31)%Z.

Definition prog_foretold (args : list string) (start : fmiTime) (b : sample_built) : list fmiTime :=
  map getTime (predicted (dispatcher
    (@last_state _ _ _ _ (world_predictor 10) prog_schedule (program_start 1 start (prog_env args) b)))).

Example prog_safe :
  manageable_times prog_times &&
  forallb (fun args => prog_case args (fun b start s => prog_configured b &&
             forallb (fun t => bool_decide (t ∈ prog_times)) (start :: prog_foretold args start b))) both_args = true.
Proof. vm_compute. reflexivity. Qed.

Lemma prog_configured_ok (b : sample_built) : prog_configured b = true -> well_configured 10 b.
Proof.
  intros [Ht Hn]%andb_prop. split.
  - intros _ _ target f. cbn. lia.
  - apply Forall_forall. intros pub Hin Hreal. rewrite forallb_forall in Ht. apply list_elem_of_In, Ht in Hin.
    rewrite forallb_forall in Hin. apply list_elem_of_In, Hin in Hreal. done.
  - by apply Z.leb_le.
Qed.

(** No event is pushed. *)
Definition pushes_nothing (l : run_label pevent) : bool :=
  match l with InQueue _ (CallPush _) => false | _ => true end.

Lemma pushes_nothing_ok (P : pevent -> Prop) ls : forallb pushes_nothing ls = true -> Forall (label_ok P) ls.
Proof.
  intros Hl. apply Forall_forall. intros l Hin. rewrite forallb_forall in Hl. apply list_elem_of_In, Hl in Hin.
  by destruct l as [|i []].
Qed.

Lemma prog_schedule_ok : Forall (label_ok (external_event (fun t => t ∈ prog_times))) prog_schedule.
Proof.
  unfold prog_schedule. rewrite !Forall_app. split_and!; try (apply pushes_nothing_ok; vm_compute; reflexivity).
  constructor; [|constructor]. eexists. split; [reflexivity|]. split; [by repeat split|]. apply (bool_decide_eq_true_1 _). vm_compute. reflexivity.
Qed.

Lemma program_threads_never_fault_witness :
  Forall (fun args =>
    exists b start, build (F := sample_fmu) (G := sample_me) 10 (prog_env args) = Ret b /\
      forall f, @run_steps _ _ _ _ (world_predictor 10) prog_schedule (program_start 1 start (prog_env args) b) <> Fault f)
    both_args.
Proof.
  apply Forall_forall. intros args Hargs. pose proof prog_safe as [Ht Hs]%andb_prop.
  rewrite forallb_forall in Hs. apply list_elem_of_In, Hs in Hargs.
  destruct (prog_case_inv _ _ Hargs) as (b & start & s & Hb & Hstart & _ & Hp).
  apply andb_prop in Hp as [Hc Hall]. cbn [forallb] in Hall. apply andb_prop in Hall as [Hfirst Hall].
  exists b, start. split; [exact Hb|]. intros f.
  apply (program_threads_never_fault 10 1 start (prog_env args) b (fun t => t ∈ prog_times) prog_schedule f).
  - intros x y Hx. exact (PropertyTree.Tree.read_double_Some x y Hx).
  - exact Hb.
  - exact (prog_configured_ok b Hc).
  - exact Hstart.
  - exact (manageable_list prog_times Ht).
  - exact (bool_decide_eq_true_1 _ Hfirst).
  - exact prog_schedule_ok.
  - apply Forall_forall. intros ev Hin. rewrite forallb_forall in Hall.
    exact (bool_decide_eq_true_1 _ (Hall _ (proj1 (list_elem_of_In _ _) (list_elem_of_fmap_2 getTime _ _ Hin)))).
Defined.
End Run.
