(* ===== verification/EndToEnd.v ===== *)
(** * From one program to another

    Two programs that exchange a channel: the event of one reaches the inputs of the
    other's model, across the publisher, the network, the subscriber and the predictor. *)

From S2P Require Import Prelude Float64 BaseExceptions PortID Format Variables PropertyTree.
From S2P Require Import ChannelMapping Event FMUTypes ManagedLowLevelFMU SolverConfiguration.
From S2P Require Import ASN1Commons ASN1Publisher ASN1Subscriber ASN1SubscriberSpec ASN1Spec.
From S2P Require Import EventPredictor EventPredictorSpec.

Local Open Scope Z_scope.

(** ** The value of an input *)

Section Inputs.
Context `{PT : PropertyTree} `{IP : IntegratorProperties} {M F : Type} `{MM : ModelManager M} `{!IncrementalFMU F}.

(** Element [i] of the image of a type. *)
Definition image_value (t : FMIVariableType) (i : nat) (image : input_image) : option any :=
  match t with
  | fmiTypeReal => AnyReal <$> realInputImage_ image !! i
  | fmiTypeInteger => AnyInteger <$> integerInputImage_ image !! i
  | fmiTypeBoolean => AnyBoolean <$> booleanInputImage_ image !! i
  | fmiTypeString => AnyString <$> stringInputImage_ image !! i
  | fmiTypeUnknown => None
  end.

(** What the event of a packet says about a port. *)
Lemma last_data_received (ports : list PortID) (outs : list Variable_t) k port o :
  NoDup ports -> ports !! k = Some port -> outs !! k = Some o ->
  last_data port (zip_with (fun port o => receive port (data_ o)) ports outs) = Some (received (data_ o)).
Proof.
  intros Hnd. revert k outs. induction Hnd as [|p ports Hp Hnd IH]; intros [|k] [|o' outs] Hk Ho; try done; cbn in *.
  - injection Hk as ->. injection Ho as ->.
    assert (Hnone : forall outs, last_data port (zip_with (fun port o => receive port (data_ o)) ports outs) = None).
    { clear -Hp. induction ports as [|p ports IH]; intros [|o outs]; try done. cbn.
      apply not_elem_of_cons in Hp as [Hne Hp]. rewrite IH by done. unfold Variables.getID. cbn.
      destruct (portid_eqb p port) eqn:E; [|done]. apply portid_eqb_eq in E. congruence. }
    rewrite Hnone. unfold Variables.getID. cbn. by rewrite (proj2 (portid_eqb_eq port port) eq_refl).
  - by rewrite (IH k outs Hk Ho).
Qed.

Lemma updated_lookup {A} (cast : any -> option A) vars ports image i port d a :
  length image = length ports -> ports !! i = Some port -> last_data port vars = Some d -> cast d = Some a ->
  updated cast vars ports image !! i = Some a.
Proof.
  intros Hlen Hp Hd Ha. unfold updated. rewrite lookup_zip_with, Hp. cbn.
  assert (Hi : (i < length image)%nat) by (rewrite Hlen; by eapply lookup_lt_Some).
  apply lookup_lt_is_Some_2 in Hi as [old ->]. cbn. by rewrite Hd; cbn; rewrite Ha.
Qed.

Lemma input_value_after (p : EventPredictor M F) vars port i d :
  inputs_ok p -> input_ids p port.1 !! i = Some port -> last_data port vars = Some d -> any_type d = Some port.1 ->
  image_value port.1 i (image_after vars p) = Some d.
Proof.
  intros [_ _ Hr Hi Hb Hs] Hp Hd Ht. destruct port as [[] n], d; cbn in Ht; try discriminate; cbn in *;
    (erewrite updated_lookup; [reflexivity|eassumption|eassumption|eassumption|reflexivity]).
Qed.
End Inputs.

(** ** The composition *)

Section Remote.
Context `{PT : PropertyTree} `{IP : IntegratorProperties} {M F : Type} `{MM : ModelManager M}
  `{!IncrementalFMU F} `{!IncrementalFMULaws F}.
Context `{LexicalConvert, !LexicalConvertLaws _} {Sk : Type} `{EventSink Sk, !EventSinkLaws Sk}.

Lemma any_type_received d : any_type (received d) = any_type d.
Proof. by destruct d. Qed.

Lemma received_valid (ports : list PortID) (outs : list Variable_t) :
  Forall2 (fun port o => sends port (data_ o)) ports outs ->
  Forall (fun v => isValid v = true) (zip_with (fun port o => receive port (data_ o)) ports outs).
Proof.
  intros Hf. induction Hf as [|port o ports outs [Hd Ht] Hf IH]; [constructor|]. cbn. constructor; [|done].
  apply isValid_type. cbn. rewrite any_type_received. split; [|done]. intros Hu.
  rewrite Hu in Ht. destruct (data_ o); done.
Qed.

(** The inputs of the model behind an event of the channel. *)
Lemma received_event_image (ports : list PortID) (outs : list Variable_t) time (pr : EventPredictor M F) :
  NoDup ports -> Forall2 (fun port o => sends port (data_ o)) ports outs ->
  EventPredictorSpec.wf pr -> plain_time time ->
  let vars := zip_with (fun port o => receive port (data_ o)) ports outs in
  exists pr', predictor_eventTriggered (Static {| se_time := time; se_var := vars |}) pr = Ret pr' /\
    image_ pr' = image_after vars pr /\
    forall k port o i, ports !! k = Some port -> outs !! k = Some o -> input_ids pr port.1 !! i = Some port ->
      image_value port.1 i (image_ pr') = Some (received (data_ o)).
Proof.
  intros Hnd Hf Hwf Ht vars. pose proof (wf_inputs pr Hwf) as Hin.
  destruct (external_event_image {| se_time := time; se_var := vars |} pr Hin (received_valid _ _ Hf))
    as (pr' & He & Hno & Hyes).
  { intros _. apply updated_time, f64_is_finite_not_nan, (aligned_plain _ _ Hwf Ht). }
  assert (Himg : image_ pr' = image_after vars pr).
  { cbn [se_var] in *. destruct (carries_input vars pr) eqn:Hc; [by apply Hyes|].
    rewrite Hno by done. symmetry. by apply image_after_unmentioned. }
  exists pr'. split; [done|]. split; [done|]. intros k port o i Hk Ho Hi. rewrite Himg.
  apply input_value_after; [done|done|by eapply last_data_received|].
  rewrite any_type_received. destruct (Forall2_lookup_lr _ _ _ _ _ _ Hf Hk Ho) as [_ Hty]. done.
Qed.

(** The time of an event is a time stamp of the sink. *)
Context (P : fmiTime -> Prop) (Hstamps : forall sink : Sk, P (sink_getTimeStampNow sink).1).

Definition stamped (before : list PartialEvent) (s : CompactASN1Subscriber Sk) : Prop :=
  (exists new, pushed (eventSink_ s) = before ++ new /\ Forall (fun pe => P (pe_time pe)) new) /\
  (forall pe, partialData_ s = Some pe -> P (pe_time pe)).

Lemma pushNextValue_time v pe pe' : pushNextValue v pe = Ret pe' -> pe_time pe' = pe_time pe.
Proof. unfold pushNextValue. intros Hr. by inv_ret. Qed.
Lemma ignoreNextValue_time pe pe' : ignoreNextValue pe = Ret pe' -> pe_time pe' = pe_time pe.
Proof. unfold ignoreNextValue. intros Hr. by inv_ret. Qed.

Lemma process_loop_time fuel st pe buf st' pe' buf' :
  process_loop fuel st pe buf = Ret (st', pe', buf') -> pe_time pe' = pe_time pe.
Proof.
  revert st pe buf; induction fuel as [|fuel IH]; intros st pe buf; cbn [process_loop]; [done|].
  destruct (_ && _ && _); [|by intros [= _ <- _]].
  intros (t & _ & Hr)%obind_Ret_inv. apply obind_Ret_inv in Hr as (? & _ & Hr).
  apply obind_Ret_inv in Hr as ([[st1 v] buf1] & _ & Hr). apply obind_Ret_inv in Hr as (pe1 & Hpe & Hr).
  rewrite (IH _ _ _ Hr). destruct (state st1), v; try discriminate;
    eauto using pushNextValue_time, ignoreNextValue_time; by injection Hpe as <-.
Qed.

Lemma stamped_push before (s s' : CompactASN1Subscriber Sk) :
  stamped before s -> pushPartialEvent s = Ret s' -> stamped before s'.
Proof.
  intros [(new & Hnew & Hall) Hpd] Hr. unfold pushPartialEvent in Hr.
  destruct (partialData_ s) as [pe|]; [|discriminate]. injection Hr as <-. split; [|done].
  exists (new ++ [pe]). cbn. rewrite pushed_push, Hnew, (assoc_L (++)). split; [done|].
  apply Forall_app. split; [done|]. constructor; [by apply Hpd|constructor].
Qed.

Lemma current_partial_stamped before s pe sink :
  stamped before s -> current_partial s = (pe, sink) ->
  P (pe_time pe) /\ pushed sink = pushed (eventSink_ s).
Proof.
  intros [_ Hpd] Hc. unfold current_partial in Hc. destruct (partialData_ s) as [pe0|].
  - injection Hc as <- <-. by split; [apply Hpd|].
  - pose proof (Hstamps (eventSink_ s)) as Ht. pose proof (pushed_stamp (eventSink_ s)) as Hp.
    destruct (sink_getTimeStampNow (eventSink_ s)) as [t k]. injection Hc as <- <-. done.
Qed.

Lemma commit_loop_stamped before fuel s s' :
  stamped before s -> commit_loop fuel s = Ret s' -> stamped before s'.
Proof.
  revert s; induction fuel as [|fuel IH]; intros s Hs; cbn [commit_loop]; [done|].
  destruct (0 <? _); [|by intros [= <-]]. destruct (current_partial s) as [pe sink] eqn:Hc.
  destruct (current_partial_stamped _ _ _ _ Hs Hc) as [Ht Hk].
  intros (((st & pe') & buf') & Hproc & Hr)%obind_Ret_inv. apply process_loop_time in Hproc.
  assert (Hs1 : stamped before (set_data (Some pe') buf' sink s)).
  { split; [cbn; rewrite Hk; apply Hs|]. intros pe0 [= <-]. by rewrite Hproc. }
  assert (Hrest : forall s2, stamped before s2 ->
    match partialData_ s2 with
    | Some pe2 => if hasRemainingElements pe2 then commit_loop fuel s2
                  else let* s3 := pushPartialEvent s2 in commit_loop fuel s3
    | None => commit_loop fuel s2 end = Ret s' -> stamped before s').
  { intros s2 Hs2 Hr2. destruct (partialData_ s2) as [pe2|]; [destruct (hasRemainingElements pe2)|]; [by eauto| |by eauto].
    apply obind_Ret_inv in Hr2 as (s3 & Hp3 & Hr3). eauto using stamped_push. }
  destruct (state st); [by eapply Hrest in Hr|by eapply Hrest in Hr| |by injection Hr as <-].
  apply obind_Ret_inv in Hr as (s2 & Hp2 & Hr). eapply Hrest in Hr; [done|].
  by apply (stamped_push _ _ _ Hs1) in Hp2.
Qed.

Lemma runTimer_stamped before now (s s' : CompactASN1Subscriber Sk) :
  stamped before s -> runTimer now s = Ret s' -> stamped before s'.
Proof.
  intros Hs. unfold runTimer. destruct (_ && _); [|by intros [= <-]]. unfold handlePacketTimeout. cbn [partialData_].
  destruct (partialData_ s) as [pe|] eqn:Hpd.
  - intros (s1 & Hp & [= <-])%obind_Ret_inv. eapply (stamped_push before) in Hp as [Hnew Hpart]; [by split|].
    destruct Hs as [Hnew Hpart]. split; [done|]. cbn. by rewrite <- Hpd.
  - intros [= <-]. by destruct Hs as [Hnew _].
Qed.

Lemma serve_stamped before hs s s' :
  Forall handler_ok hs -> stamped before s -> serve hs s = Ret s' -> stamped before s'.
Proof.
  intros Hhs. revert s; induction Hhs as [|h hs Hh Hhs IH]; intros s Hs; cbn [serve]; [by intros [= <-]|].
  intros (s1 & Hc & Hr)%obind_Ret_inv. eapply IH; [|exact Hr]. destruct h as [f bytes|now]; [|by eapply runTimer_stamped].
  cbn [handle] in Hc. unfold commitData in Hc. eapply commit_loop_stamped; [|exact Hc].
  destruct Hs as [Hnew Hpd], Hh as [Hf _]. split; cbn; [by rewrite Hf|done].
Qed.

End Remote.

Section Theorems.
Context `{PT : PropertyTree} `{IP : IntegratorProperties} {M F : Type} `{MM : ModelManager M}
  `{!IncrementalFMU F} `{!IncrementalFMULaws F}.
Context `{LexicalConvert, !LexicalConvertLaws _} {Sk : Type} `{EventSink Sk, !EventSinkLaws Sk}.

(** C5: two programs that share a channel.  An event of the first program that touches
    the channel sends one packet.  The packet may arrive in any chunks, provided that the
    timer of the subscriber, which expires once, a fixed time after the initialisation, is
    not served after its expiry while a part of the packet is missing.  Then the subscriber
    of the second program pushes exactly one event; and when that event is distributed,
    every input of the model whose port belongs to the channel holds the value that the
    output of the first program at the same position has after its event (booleans as 0 or
    1).  The types of the ports agree, no port is encoded as REAL, and strings are shorter
    than 65536 characters. *)
Theorem remote_event_reaches_model (p : CompactASN1Publisher) vars (hs : list (handler Sk))
    (s : CompactASN1Subscriber Sk) (pr : EventPredictor M F) :
  publisher_ok p -> REAL ∉ outputTypes_ p -> Forall (fun v => isValid v = true) vars ->
  touches vars (outputVariables_ p) = true ->
  Forall2 (fun port o => sends port (data_ o)) (channelPorts_ s) (map (ASN1Spec.updated vars) (outputVariables_ p)) ->
  NoDup (channelPorts_ s) -> subscriber_ok s -> partialData_ s = None -> remainingRawData_ s = [] ->
  EventPredictorSpec.wf pr -> (forall sink : Sk, plain_time (sink_getTimeStampNow sink).1) ->
  exists p' packet,
    ASN1Publisher.eventTriggered vars p = Ret (p', Some packet) /\
    (Forall handler_ok hs -> arrived hs = packet ->
     undisturbed (timerExpiry_ s) (fun bytes => bytes = [] \/ bytes = packet) hs ->
     exists s' pe,
       serve hs s = Ret s' /\ map var_ (pushed (eventSink_ s')) = map var_ (pushed (eventSink_ s)) ++ [var_ pe] /\
       exists pr', predictor_eventTriggered (Static {| se_time := pe_time pe; se_var := var_ pe |}) pr = Ret pr' /\
         forall k port o i, channelPorts_ s !! k = Some port ->
           map (ASN1Spec.updated vars) (outputVariables_ p) !! k = Some o -> input_ids pr port.1 !! i = Some port ->
           image_value port.1 i (image_ pr') = Some (received (data_ o))).
Proof.
  intros Hp Hreal Hv Htouch Hsend Hnd Hs Hpd Hbuf Hwf Hclock.
  pose proof (updated_publisher_ok vars p Hv Hp) as Hp'.
  set (p' := {| outputVariables_ := map (ASN1Spec.updated vars) (outputVariables_ p); outputTypes_ := outputTypes_ p |}) in *.
  set (packet := concat (map (fun o => value_bytes (data_ o)) (outputVariables_ p'))).
  assert (Henc : encodeASN1OutputVariables [] p' = Ret packet).
  { unfold encodeASN1OutputVariables. rewrite obind_assert by by apply publisher_same_length.
    by rewrite encode_all_ok. }
  exists p', packet. split.
  - unfold ASN1Publisher.eventTriggered. rewrite updateOutputVariables_ok by done. cbn [obind fst snd].
    rewrite Htouch. fold p'. by rewrite Henc.
  - intros Hhs Hcat Hu.
    destruct (packet_received p' packet hs s Hp' Hreal Hsend Henc Hs Hpd Hbuf Hhs Hcat Hu) as (s' & Hserve & _ & _ & He).
    destruct (serve_stamped plain_time Hclock (pushed (eventSink_ s)) hs s s' Hhs) as [(new & Hnew & Htimes) _];
      [split; [exists []; by rewrite app_nil_r|by rewrite Hpd]|done|].
    unfold emitted in He. rewrite Hnew, map_app in He. apply app_inv_head in He.
    destruct new as [|pe [|? ?]]; try discriminate He. injection He as Hvar.
    apply Forall_cons in Htimes as [Ht _].
    destruct (received_event_image (channelPorts_ s) (outputVariables_ p') (pe_time pe) pr Hnd Hsend Hwf Ht)
      as (pr' & Hpr & _ & Hin).
    exists s', pe. split; [done|]. split; [by rewrite Hnew, map_app|].
    exists pr'. by rewrite Hvar.
Qed.

End Theorems.

(** ** Two sample programs *)

(** A sink whose clock stands at 0.25 s. *)
Definition quarter : fmiTime := S754_finite false (2 ^ 52) (-54).
#[export] Instance still_sink : EventSink (list PartialEvent) := {
  sink_getTimeStampNow s := (quarter, s);
  sink_pushExternalEvent pe s := s ++ [pe];
}.
#[export] Instance still_sink_laws : EventSinkLaws (list PartialEvent).
Proof. by refine {| pushed := fun s => s |}. Defined.

Definition first_publisher : CompactASN1Publisher := {|
  outputVariables_ := [mk_variable (fmiTypeReal, 0) (AnyReal 0); mk_variable (fmiTypeBoolean, 3) (AnyBoolean 5)];
  outputTypes_ := [LREAL; BOOL];
|}.
Definition first_event : list Variable_t :=
  [mk_variable (fmiTypeInteger, 9) (AnyInteger 1); mk_variable (fmiTypeReal, 0) (AnyReal (Z.shiftl 1024 52))].
Definition first_packet : list Z := [75; 64; 0; 0; 0; 0; 0; 0; 0; 65].
Definition second_subscriber : CompactASN1Subscriber (list PartialEvent) := {|
  channelPorts_ := [(fmiTypeReal, 1); (fmiTypeBoolean, 7)]; eventSink_ := []; partialData_ := None;
  remainingRawData_ := []; busyKeeper_ := true; timerExpiry_ := 500; timerWaiting_ := false; serviceStopped_ := false;
|}.
(** Two chunks, with the timer served between them before its expiry, and after the packet
    behind it. *)
Definition packet_handlers : list (handler (list PartialEvent)) :=
  [HandleReceive (fun k => k) (take 4 first_packet); HandleTimer 100; HandleReceive (fun k => k) (drop 4 first_packet);
   HandleTimer 600].

Lemma packet_handlers_ok : Forall handler_ok packet_handlers.
Proof. repeat constructor; vm_compute; discriminate. Qed.

Lemma packet_undisturbed :
  undisturbed (timerExpiry_ second_subscriber) (fun bytes => bytes = [] \/ bytes = first_packet) packet_handlers.
Proof.
  apply (undisturbed_check _ _ (fun bytes => bool_decide (bytes = []) || bool_decide (bytes = first_packet))).
  - intros bytes [H%bool_decide_eq_true|H%bool_decide_eq_true]%orb_prop; auto.
  - vm_compute. reflexivity.
Qed.

Lemma remote_event_reaches_model_witness :
  exists p' s' pe pr',
    ASN1Publisher.eventTriggered first_event first_publisher = Ret (p', Some first_packet) /\
    serve packet_handlers second_subscriber = Ret s' /\ map var_ (pushed (eventSink_ s')) = [var_ pe] /\
    predictor_eventTriggered (Static {| se_time := pe_time pe; se_var := var_ pe |}) sample_predictor = Ret pr' /\
    image_value fmiTypeReal 0 (image_ pr') = Some (AnyReal (Z.shiftl 1024 52)).
Proof.
  destruct (remote_event_reaches_model first_publisher first_event packet_handlers second_subscriber sample_predictor)
    as (p' & packet & He & Hrun).
  - unfold publisher_ok, castable_output. repeat constructor.
  - rewrite list_elem_of_In. intros [|[|[]]]; discriminate.
  - repeat constructor.
  - reflexivity.
  - repeat constructor.
  - repeat constructor; set_solver.
  - split; try done; repeat constructor; done.
  - reflexivity.
  - reflexivity.
  - exact sample_wf.
  - intros sink. split; reflexivity.
  - assert (Hp : packet = first_packet).
    { vm_compute in He. injection He as _ <-. vm_compute. reflexivity. }
    subst packet. destruct (Hrun packet_handlers_ok ltac:(vm_compute; reflexivity) packet_undisturbed) as (s' & pe & Hf & Hv & pr' & Hpr & Hin).
    exists p', s', pe, pr'. split; [exact He|]. split; [exact Hf|]. split; [exact Hv|]. split; [exact Hpr|].
    exact (Hin 0%nat (fmiTypeReal, 1) (mk_variable (fmiTypeReal, 0) (AnyReal (Z.shiftl 1024 52))) 0%nat eq_refl eq_refl eq_refl).
Defined.
